(* ===== verification/_CoqProject ===== *)
-Q . S2P
Prelude.v
Effects.v
Seq.v
SeqProps.v
XcbMap.v
State.v
Sample.v
In.v
InFrame.v
InFacts.v
InSafety.v
Demux.v
Conn.v
Chunks.v
Arrivals.v
Pieces.v
Out.v
Wait.v
Ext.v
Xid.v
Display.v
Connect.v
Auth.v
Open.v
Request.v
OutFacts.v
OutProps.v
ExtProps.v
XidProps.v
RequestFacts.v
RequestProps.v
Pending.v
Mailbox.v
MailboxProps.v
Wakeups.v
Typed.v
TypedCalls.v
Public.v
PublicProps.v
WaitProps.v
Delivery.v
RoundTrip.v
Events.v
RequestCheck.v
Handover.v
ConnectProps.v
DisplayProps.v
AuthProps.v
OpenProps.v
Threads.v
ThreadFacts.v
ThreadInv.v
ThreadsProps.v
ThreadAlone.v
ThreadStream.v
StreamLog.v
ThreadReads.v
ThreadMail.v
ThreadReplies.v
Owners.v
OwnersProps.v
