(* ===== verification/Prelude.v ===== *)
(** * libxcb: a verification of the C library under [src/src/]

    libxcb is the client side of the X protocol.  An application hands it
    requests; the library numbers them, puts them on the socket of a
    connection, sorts the replies, errors and events that come back, and lets
    any number of threads share the connection.  The request stubs are
    generated from protocol descriptions and are not in the repository; what
    this development models is the hand-written library below them.

    ** The program and the files that model it

    A connection is a [struct xcb_connection_t] ([src/src/xcbint.h]): an input
    side, an output side, an extension cache, a counter of resource identifiers,
    a descriptor and an error flag.  One mutex, [iolock], protects both sides.

    - Seq.v: the comparison macros of [xcbint.h], which work on truncated
      numbers, and the widening of 16-bit and 32-bit sequence numbers in
      [read_packet] and [xcb_in.c].
    - XcbMap.v: [xcb_list.c], the keyed list, with its nodes in an explicit heap
      and its pointer to the last [next] field; the association list it refines
      is what the other files use.
    - State.v: the structures of [xcbint.h] as records, system calls and mutexes.
    - In.v and Wait.v: [xcb_in.c].  In.v has [read_packet], [_xcb_in_read],
      [poll_for_reply], the pending replies and the calls that do not block;
      Wait.v has the blocking ones and the sorted list of waiting readers.
    - Conn.v: [_xcb_conn_wait] and [write_vec] of [xcb_conn.c], where input and
      output meet: a writer also reads, so that the server never has to wait
      for a client that waits for it.
    - Out.v and Request.v: [xcb_out.c].  The queue, flushing and the hand-over of
      the socket; [xcb_send_request] and the maximum request length.
    - Ext.v: [xcb_ext.c].  Xid.v: [xcb_xid.c].
    - Connect.v: connection setup and release, the rest of [xcb_conn.c].
    - Auth.v: [xcb_auth.c].  Display.v and Open.v: [xcb_util.c], the parser of
      display names and the opening of sockets.
    - Public.v: the calls an application makes, as one data type.
    - Threads.v: the same calls cut at the points where a thread releases
      [iolock], in a step relation over a list of threads that share the world.
    - Owners.v: the same with threads that lend the socket ([xcb_take_socket]),
      owners that write with it ([xcb_writev]) and the threads that get it back
      ([get_socket_back]); the writes of an owner's callback are the class
      [Owners].
    - Sample.v: a concrete connection to evaluate the definitions on.

    Each C function has a definition of its own name; a long function is cut into
    several definitions, in the order of the C text.  [read_packet], for one, is
    [update_sequence], [find_pend], [packet_lengths], [receive_packet] and
    [dispatch_packet].

    ** How C is represented

    Effects.v: a C function is a function from a world to a result: it returns a
    value and a world, it sleeps for ever, or it faults.  A failed [assert], an
    access outside a buffer, a null pointer, a double release, locking a mutex
    twice and unlocking one that is free are faults, so "does not fault" is
    the memory and lock safety of the code.

    Integers are [Z] with the wrap-around of their C type written out ([u8],
    [u16], [u32], [u64], [s32], [s64] below).  Byte order is the class [Host].
    A buffer is the list of its bytes.  The lists of events, replies, pending
    replies and readers are lists; the tail pointers of the C structures are
    modelled once, in XcbMap.v.

    The operating system is part of the world ([w_os]).  The calls that can fail
    or vary ([recv], [poll], [writev], [malloc], [socket], [connect],
    [getpeername], ...) follow tapes of outcomes, and theorems quantify over the
    tapes: a statement about every world is a statement about every behaviour of
    the kernel and the server.  [os_sent] is what the kernel has taken,
    [os_signals] the log of the condition variables signalled.  An exhausted
    tape of [poll] means that nothing ever happens again, and the caller sleeps.

    Parameters, each a class: [XProto] has the generated code (request stubs, the
    layout of setup messages, protocol constants) and the callback of a socket
    owner ([FocusStubs] states what the generator emits for [GetInputFocus],
    [SocketOwner] what an owner writes when it is asked for the socket);
    [XAuth] has libXau and libXdmcp; [XResolver] has [getaddrinfo].

    ** Fuel

    Loops take fuel where their recursion is not structural; running out of it is
    the fault [FFuel], so every theorem that excludes faults also says that the
    fuel is enough.  A loop around [recv] or [poll] uses up an event of a tape
    per round, so one more than the events left suffices ([read_block],
    [_xcb_out_send], the waiting loops).  [read_packets] shortens the queue by
    at least 32 bytes per round, and takes one more than its length.
    [sync_loop] runs at most twice.  [digits] is given the ten digits of a
    32-bit number.  The steps of Threads.v take no fuel.

    ** What the theorems show

    - Input (InFrame.v, InFacts.v, InSafety.v, Demux.v, Pending.v, Mailbox.v,
      MailboxProps.v).  The input side is a mailbox: an abstract machine with a
      queue of replies per 64-bit request number, a queue of events and the flags
      of the pending requests is refined by [number_request], [read_packet],
      [poll_for_reply], [get_event] and [discard_reply], by single steps and by
      whole runs.  Every reply is handed out once, in order, and none of a
      request that has been discarded.  In what pieces the bytes arrive makes no
      difference (Pieces.v).  A reader whose request ends with a packet for a
      later one is not woken up (Wakeups.v).  For any bytes and any behaviour of the system calls
      [read_packet] stays inside its buffers, unless a generic event announces a
      length just below [2^30], in which case it does not.
    - Output (OutFacts.v, OutProps.v, RequestFacts.v, RequestProps.v).  Whatever
      [writev] takes at a time, a request reaches the stream whole, once and in
      order; its length field is what a server decodes; the 16-bit numbers on
      the wire stay unambiguous; flushing sends the queue and ends.
    - Waiting (WaitProps.v, Chunks.v, Delivery.v, Events.v).  No blocking call misuses a
      lock, fails an assertion or loops without input.  A reply the server sends
      reaches the caller that waits for it, in whatever pieces the stream arrives
      and whatever other packets it holds; a caller whose request ends without
      a reply gets nothing.  Callers that wait for events get them all, in order.
    - The two sides together (RoundTrip.v, RequestCheck.v).  A request sent on an
      idle connection and the call that waits for the number it got are a round
      trip; [xcb_request_check] reports the error of a request without reply.
    - An owner of the socket (Handover.v).  The socket goes to the owner and comes
      back with the next request: the stream, the numbers and the replies the
      owner has asked for; with a defect at the seam.
    - Threads (ThreadFacts.v, ThreadInv.v, ThreadsProps.v, ThreadAlone.v,
      ThreadStream.v).  For every number of threads and every interleaving: the
      counters, the list of readers and the mutex are what the threads are doing;
      nothing faults; a sleeping thread is never left without one that reads or
      writes; requests are neither mixed nor reordered.  A thread alone computes
      what the sequential functions compute.  Two schedules show how a reply can
      be overlooked all the same.
    - Threads and replies (Arrivals.v, StreamLog.v, ThreadReads.v, ThreadMail.v,
      ThreadReplies.v).  StreamLog.v has a reference decoder of the server's
      stream: how it falls into packets, the full number of each and what the
      application is to get.  Under every interleaving the input side makes one
      run of the mailbox with just these packets, and every call has done its own
      operation in it once: no reply is lost, corrupted, handed out twice or
      handed to a thread that waits for another request.
    - Threads and owners (OwnersProps.v).  Without owners the steps of Owners.v are
      those of Threads.v.  With them, no two threads run the callback of an owner
      at once and none is forgotten while it waits for the socket; two schedules
      show what the code does not protect: a sender may overtake one that writes,
      and the socket may be lent twice.
    - The whole interface (Typed.v, TypedCalls.v, Public.v, PublicProps.v).  The
      data of a connection stay well formed under every call of an application,
      what the calls return is well formed, and a connection in error stays in
      error.
    - Setup and names (ConnectProps.v, DisplayProps.v, OpenProps.v, AuthProps.v).
      The setup message decodes, one reply is read, refusals are reported,
      descriptors are not leaked; the parser of display names inverts printing;
      which blocks of the heap authentication leaves behind, for socket addresses
      that fit its first buffer and records of the right length, and what it does
      without these bounds.
    - Caches (ExtProps.v, XidProps.v, XcbMap.v).  An extension is asked for once,
      however often and in whatever order it is prefetched and asked for;
      identifiers are distinct and in the client's range, if the mask is a
      contiguous one from bit 0; the keyed list is an association list.

    Hypotheses.  Sequence numbers in C are compared through 32-bit truncations, so
    the theorems about replies hold for requests less than [2^31] behind the
    newest one, and those about counters for fewer than [2^62] requests; the
    bounds theorems say what happens beyond.  The theorems on threads but those of
    OwnersProps.v have no owner of the socket; those on threads and replies suppose that the server
    answers only what it has been sent by the time its answer is read.  Hypotheses on the classes state what the generated
    code is documented to do, and each has an instance in the witnesses.

    ** Configuration

    Linux with [poll], IPv6, abstract sockets, [HASXDMAUTH], pthreads, assertions
    enabled, 64-bit [long] and pointers; the default queue of 16384 bytes.  Not
    built: launchd and DECnet addresses, [select], Windows.

    ** Not modelled

    - [src/src/c_client.py] and what it generates: a Python program and its
      output; the stubs the library calls are parameters.
    - [src/src/xcb_windefs.h] and the code under [_WIN32].
    - [_xcb_out_destroy], [_xcb_xid_destroy] and [pthread_*_destroy] have no effect in
      the model, nor have [setsockopt] and [shutdown] followed by [close]; the
      strings [xcb_connect] releases are not tracked, unlike the blocks of
      [xcb_auth.c].
    - The callback of a socket owner is code of the application; in Owners.v it
      makes calls of [xcb_writev] and nothing else.
    - Memory order: a step of Threads.v runs under [iolock] or is a single system
      call; [has_error] is read atomically.
    - The tests under [src/tests/] and the build files. *)
From Stdlib Require Export ZArith Lia.
From stdpp Require Export base tactics list numbers option gmap strings.
From Stdlib Require Strings.Byte.

#[global] Open Scope Z_scope.

(** ** Machine integers

    A C integer is a [Z]; every operation whose result may leave the range of
    its C type is followed by one of these wrap-arounds.  Signed conversions
    are two's complement. *)

Definition u8 (z : Z) : Z := z mod 2 ^ 8.
Definition u16 (z : Z) : Z := z mod 2 ^ 16.
Definition u32 (z : Z) : Z := z mod 2 ^ 32.
Definition u64 (z : Z) : Z := z mod 2 ^ 64.
Definition s32 (z : Z) : Z := (z + 2 ^ 31) mod 2 ^ 32 - 2 ^ 31.
Definition s64 (z : Z) : Z := (z + 2 ^ 63) mod 2 ^ 64 - 2 ^ 63.

(** [int_range z]: [z] is representable in the C type [int]. *)
Definition int_range (z : Z) : Prop := - 2 ^ 31 <= z < 2 ^ 31.

(** Linear arithmetic over the wrap-arounds: unfold them and hand the
    quotients to [lia]. *)
Ltac words :=
  unfold u8, u16, u32, u64, s32, s64, int_range in *;
  Z.div_mod_to_equations; lia.

Lemma u16_range z : 0 <= u16 z < 2 ^ 16.
Proof. words. Qed.

Lemma u32_range z : 0 <= u32 z < 2 ^ 32.
Proof. words. Qed.

Lemma u64_range z : 0 <= u64 z < 2 ^ 64.
Proof. words. Qed.

Lemma s32_range z : int_range (s32 z).
Proof. words. Qed.

Lemma u16_small z : 0 <= z < 2 ^ 16 → u16 z = z.
Proof. words. Qed.

Lemma u32_small z : 0 <= z < 2 ^ 32 → u32 z = z.
Proof. words. Qed.

Lemma u64_small z : 0 <= z < 2 ^ 64 → u64 z = z.
Proof. words. Qed.

Lemma s32_small z : int_range z → s32 z = z.
Proof. words. Qed.

Lemma s64_small z : - 2 ^ 63 <= z < 2 ^ 63 → s64 z = z.
Proof. words. Qed.

Lemma s32_u32 z : s32 (u32 z) = s32 z.
Proof. words. Qed.

Lemma u32_u64 z : u32 (u64 z) = u32 z.
Proof. words. Qed.

Lemma s32_sub_wrap a b : s32 (s32 a - s32 b) = s32 (a - b).
Proof. words. Qed.

(** ** Bytes and multi-byte fields *)

Abbreviation byte := Byte.byte.

Definition byte_val (b : byte) : Z := Z.of_N (Byte.to_N b).

Definition byte_of (z : Z) : byte :=
  match Byte.of_N (Z.to_N (u8 z)) with Some b => b | None => Byte.x00 end.

#[export] Instance byte_eq_dec : EqDecision byte := Byte.byte_eq_dec.

(** The byte order of the machine the library runs on.  Multi-byte protocol
    fields are read and written through C structs and [uint32_t] pointers, so
    they are in host order. *)
Inductive endian := LittleEndian | BigEndian.

#[export] Instance endian_eq_dec : EqDecision endian.
Proof. solve_decision. Defined.

Class Host := host_endian : endian.

Fixpoint le_bytes (n : nat) (z : Z) : list byte :=
  match n with
  | O => []
  | S n' => byte_of z :: le_bytes n' (z / 256)
  end.

Fixpoint le_val (bs : list byte) : Z :=
  match bs with
  | [] => 0
  | b :: t => byte_val b + 256 * le_val t
  end.

Section Fields.
Context `{Host}.

(** [host_bytes n z]: the [n] bytes of the integer [z] in memory. *)
Definition host_bytes (n : nat) (z : Z) : list byte :=
  match host_endian with
  | LittleEndian => le_bytes n z
  | BigEndian => rev (le_bytes n z)
  end.

(** [host_val bs]: the unsigned integer stored in the bytes [bs]. *)
Definition host_val (bs : list byte) : Z :=
  match host_endian with
  | LittleEndian => le_val bs
  | BigEndian => le_val (rev bs)
  end.

(** [field off n buf]: the [n]-byte unsigned integer at offset [off] of
    [buf]. *)
Definition field (off n : nat) (buf : list byte) : Z :=
  host_val (take n (drop off buf)).
End Fields.

Lemma byte_val_range b : 0 <= byte_val b < 256.
Proof.
  unfold byte_val. pose proof (Byte.to_N_bounded b). lia.
Qed.

Lemma byte_of_val b : byte_of (byte_val b) = b.
Proof.
  unfold byte_of. pose proof (byte_val_range b).
  unfold u8. rewrite Z.mod_small by lia. unfold byte_val. rewrite N2Z.id.
  by rewrite Byte.of_to_N.
Qed.

Lemma byte_val_of z : byte_val (byte_of z) = u8 z.
Proof.
  unfold byte_of, byte_val. destruct (Byte.of_N _) as [b|] eqn:E.
  - apply Byte.to_of_N in E. rewrite E. unfold u8.
    pose proof (Z.mod_pos_bound z (2 ^ 8)). lia.
  - exfalso. apply Byte.of_N_None_iff in E. unfold u8 in E.
    pose proof (Z.mod_pos_bound z (2 ^ 8)). lia.
Qed.

Lemma length_le_bytes n z : length (le_bytes n z) = n.
Proof. revert z; induction n; intros; simpl; auto. Qed.

Lemma le_val_bytes n z : le_val (le_bytes n z) = z mod 256 ^ Z.of_nat n.
Proof.
  revert z; induction n as [|n IH]; intros z; cbn [le_bytes le_val].
  - by rewrite Z.mod_1_r.
  - rewrite IH, byte_val_of, Nat2Z.inj_succ, Z.pow_succ_r by lia.
    change (u8 z) with (z mod 256).
    rewrite (Z.rem_mul_r z 256 (256 ^ Z.of_nat n)) by (try apply Z.pow_pos_nonneg; lia).
    lia.
Qed.

Lemma le_val_range bs : 0 <= le_val bs < 256 ^ Z.of_nat (length bs).
Proof.
  induction bs as [|b bs IH]; cbn [le_val length].
  - change (256 ^ Z.of_nat 0) with 1. lia.
  - pose proof (byte_val_range b). rewrite Nat2Z.inj_succ, Z.pow_succ_r by lia. lia.
Qed.

Section FieldLemmas.
Context `{Host}.

Lemma length_host_bytes n z : length (host_bytes n z) = n.
Proof.
  unfold host_bytes. destruct host_endian; rewrite ?length_rev; apply length_le_bytes.
Qed.

Lemma host_val_bytes n z : host_val (host_bytes n z) = z mod 256 ^ Z.of_nat n.
Proof.
  unfold host_bytes, host_val.
  destruct host_endian; rewrite ?rev_involutive; apply le_val_bytes.
Qed.

Lemma host_val_range bs : 0 <= host_val bs < 256 ^ Z.of_nat (length bs).
Proof.
  unfold host_val. destruct host_endian; [apply le_val_range|].
  rewrite <- (length_rev bs). apply le_val_range.
Qed.

Lemma field_app_l off n xs ys :
  (off + n <= length xs)%nat → field off n (xs ++ ys) = field off n xs.
Proof.
  intros Hl. unfold field. f_equal.
  rewrite drop_app_le by lia. rewrite take_app_le; [done|].
  rewrite length_drop. lia.
Qed.

Lemma field_range off n buf : 0 <= field off n buf < 256 ^ Z.of_nat n.
Proof.
  unfold field. pose proof (host_val_range (take n (drop off buf))) as Hr.
  rewrite length_take in Hr.
  assert (256 ^ Z.of_nat (n `min` length (drop off buf)) <= 256 ^ Z.of_nat n).
  { apply Z.pow_le_mono_r; lia. }
  lia.
Qed.
End FieldLemmas.

(** ** Lists of bytes measured in [Z] *)

Definition zlength {A} (l : list A) : Z := Z.of_nat (length l).

Lemma zlength_nonneg {A} (l : list A) : 0 <= zlength l.
Proof. unfold zlength. lia. Qed.

Lemma zlength_nil {A} : zlength (@nil A) = 0.
Proof. done. Qed.

Lemma zlength_cons {A} (x : A) l : zlength (x :: l) = 1 + zlength l.
Proof. unfold zlength. simpl. lia. Qed.

Lemma zlength_app {A} (l1 l2 : list A) : zlength (l1 ++ l2) = zlength l1 + zlength l2.
Proof. unfold zlength. rewrite length_app. lia. Qed.

Lemma zlength_take {A} (l : list A) n :
  0 <= n <= zlength l → zlength (take (Z.to_nat n) l) = n.
Proof. unfold zlength. intros. rewrite length_take. lia. Qed.

Lemma zlength_drop {A} (l : list A) n :
  0 <= n <= zlength l → zlength (drop (Z.to_nat n) l) = zlength l - n.
Proof. unfold zlength. intros. rewrite length_drop. lia. Qed.

Create HintDb xcb.
Create Rewrite HintDb xcb.
#[export] Hint Rewrite @zlength_nil @zlength_cons @zlength_app
  @length_host_bytes @length_app @length_take @length_drop : xcb.
#[export] Hint Resolve zlength_nonneg u16_range u32_range u64_range : xcb.
