(* ===== verification/Effects.v ===== *)
(** * Effects: the monad the C functions are translated into

    A C function becomes a computation over a world [W] (the connection
    structure and the operating system).  A run ends in one of three ways:
    the function returns; the calling thread sleeps in [poll] or
    [pthread_cond_wait] and nothing in the world wakes it up; or the C
    behaviour is undefined or the process aborts. *)
From S2P Require Import Prelude.
#[local] Open Scope Z_scope.

(** Why a run stops abnormally. *)
Inductive fault :=
  | FAssert        (** a failed [assert] *)
  | FOutOfBounds   (** an access outside an object, a negative [memcpy] size *)
  | FNull          (** a null pointer is dereferenced *)
  | FDeadlock      (** a mutex is locked twice by the thread that holds it *)
  | FUnlock        (** a mutex is unlocked that is not held *)
  | FFree          (** a block is released that is not allocated *)
  | FFuel.         (** the fuel of a model loop ran out; never reached *)

#[export] Instance fault_eq_dec : EqDecision fault.
Proof. solve_decision. Defined.

Inductive result (W A : Type) :=
  | Ret (a : A) (w : W)
  | Blocked (w : W)
  | Fault (f : fault).
Arguments Ret {W A} _ _.
Arguments Blocked {W A} _.
Arguments Fault {W A} _.

Definition M (W A : Type) : Type := W → result W A.

Definition ret {W A} (a : A) : M W A := λ w, Ret a w.
Definition bind {W A B} (m : M W A) (k : A → M W B) : M W B := λ w,
  match m w with
  | Ret a w' => k a w'
  | Blocked w' => Blocked w'
  | Fault f => Fault f
  end.

Declare Scope c_scope.
Delimit Scope c_scope with C.
#[global] Open Scope c_scope.

Notation "x ← m ; k" := (bind m (λ x, k))
  (at level 20, m at level 100, k at level 200) : c_scope.
Notation "m ;; k" := (bind m (λ _, k))
  (at level 100, k at level 200, right associativity) : c_scope.

Definition fail {W A} (f : fault) : M W A := λ _, Fault f.
Definition sleep {W A} : M W A := λ w, Blocked w.
Definition gets {W A} (f : W → A) : M W A := λ w, Ret (f w) w.
Definition modify {W} (f : W → W) : M W () := λ w, Ret () (f w).
Definition when {W} (b : bool) (m : M W ()) : M W () := if b then m else ret ().
(** C's [assert]; the library is built without [NDEBUG]. *)
Definition assertM {W} (b : bool) : M W () := if b then ret () else fail FAssert.

(** [run m w] only names the application of a computation to a world. *)
Definition run {W A} (m : M W A) (w : W) : result W A := m w.

(** ** Step relations of computations

    [obeys R m]: whenever [m] returns, its initial and final worlds are related
    by [R].  For a reflexive and transitive [R] the relation follows the
    structure of [m]. *)
Definition obeys {W A} (R : relation W) (m : M W A) : Prop :=
  ∀ w a w', m w = Ret a w' → R w w'.

(** ** Weakest preconditions

    [wp m Q w]: run from [w], [m] does not fault, and if it returns, [Q] holds
    of the result. *)
Definition wp {W A} (m : M W A) (Q : A → W → Prop) (w : W) : Prop :=
  match m w with
  | Ret a w' => Q a w'
  | Blocked _ => True
  | Fault _ => False
  end.

(** [returns m w]: the computation returns. *)
Definition returns {W A} (m : M W A) (w : W) : Prop := ∃ a w', m w = Ret a w'.

Section Laws.
Context {W : Type}.

Lemma bind_run {A B} (m : M W A) (k : A → M W B) w a w' :
  m w = Ret a w' → bind m k w = k a w'.
Proof. unfold bind. by intros ->. Qed.

Lemma bind_blocked {A B} (m : M W A) (k : A → M W B) w w' :
  m w = Blocked w' → bind m k w = Blocked w'.
Proof. unfold bind. by intros ->. Qed.

Lemma bind_fault {A B} (m : M W A) (k : A → M W B) w f :
  m w = Fault f → bind m k w = Fault f.
Proof. unfold bind. by intros ->. Qed.

Lemma bind_inv {A B} (m : M W A) (k : A → M W B) w b w'' :
  bind m k w = Ret b w'' → ∃ a w', m w = Ret a w' ∧ k a w' = Ret b w''.
Proof.
  unfold bind. destruct (m w) as [a w'| |] eqn:E; [|done..]. eauto.
Qed.

Lemma bind_gets {A B} (f : W → A) (k : A → M W B) w :
  (bind (gets f) k) w = k (f w) w.
Proof. done. Qed.

Lemma bind_modify {B} (f : W → W) (k : () → M W B) w :
  (bind (modify f) k) w = k () (f w).
Proof. done. Qed.

Lemma bind_ret {A B} (a : A) (k : A → M W B) w :
  (bind (ret a) k) w = k a w.
Proof. done. Qed.

Lemma bind_assoc {A B C} (m : M W A) (k : A → M W B) (l : B → M W C) w :
  bind (bind m k) l w = bind m (λ a, bind (k a) l) w.
Proof. unfold bind. by destruct (m w). Qed.

Lemma bind_when_true {B} (m : M W ()) (k : () → M W B) w :
  (bind (when true m) k) w = bind m k w.
Proof. done. Qed.

Lemma bind_when_false {B} (m : M W ()) (k : () → M W B) w :
  (bind (when false m) k) w = k () w.
Proof. done. Qed.
End Laws.

Section Obeys.
Context {W : Type} (R : relation W) `{!PreOrder R}.

Lemma obeys_ret {A} (a : A) : obeys R (ret a).
Proof. intros w a' w' [= -> ->]. reflexivity. Qed.

Lemma obeys_bind {A B} (m : M W A) (k : A → M W B) :
  obeys R m → (∀ a, obeys R (k a)) → obeys R (bind m k).
Proof.
  intros Hm Hk w b w'' (a & w' & H1 & H2)%bind_inv.
  transitivity w'; [by eapply Hm|by eapply Hk].
Qed.

Lemma obeys_fail {A} f : obeys R (fail (A:=A) f).
Proof. by intros w a w' ?. Qed.

Lemma obeys_sleep {A} : obeys R (sleep (A:=A)).
Proof. by intros w a w' ?. Qed.

Lemma obeys_gets {A} (f : W → A) : obeys R (gets f).
Proof. intros w a w' [= _ ->]. reflexivity. Qed.

Lemma obeys_modify (f : W → W) : (∀ w, R w (f w)) → obeys R (modify f).
Proof. intros Hf w [] w' [= <-]. apply Hf. Qed.

Lemma obeys_when b m : obeys R m → obeys R (when b m).
Proof. destruct b; [done|]. intros _. apply obeys_ret. Qed.

Lemma obeys_assert b : obeys R (assertM b).
Proof. destruct b; [apply obeys_ret|apply obeys_fail]. Qed.

Lemma obeys_if {A} (b : bool) (m1 m2 : M W A) :
  obeys R m1 → obeys R m2 → obeys R (if b then m1 else m2).
Proof. by destruct b. Qed.
End Obeys.

Section Wp.
Context {W : Type}.

Lemma wp_bind {A B} (m : M W A) (k : A → M W B) Q w :
  wp m (λ a w', wp (k a) Q w') w → wp (bind m k) Q w.
Proof. unfold wp, bind. by destruct (m w). Qed.

Lemma wp_mono {A} (m : M W A) (Q1 Q2 : A → W → Prop) w :
  wp m Q1 w → (∀ a w', Q1 a w' → Q2 a w') → wp m Q2 w.
Proof. unfold wp. destruct (m w); auto. Qed.

Lemma wp_conj {A} (m : M W A) (Q1 Q2 : A → W → Prop) w :
  wp m Q1 w → wp m Q2 w → wp m (λ a w', Q1 a w' ∧ Q2 a w') w.
Proof. unfold wp. destruct (m w); auto. Qed.

Lemma wp_obeys {A} (R : relation W) (m : M W A) Q w :
  obeys R m → wp m Q w → wp m (λ a w', Q a w' ∧ R w w') w.
Proof. unfold obeys, wp. intros Ho. destruct (m w) eqn:E; eauto. Qed.

Lemma wp_run {A} (m : M W A) Q w : wp m Q w → wp m (λ a w', m w = Ret a w' ∧ Q a w') w.
Proof. unfold wp. by destruct (m w). Qed.

Lemma wp_ret_inv {A} (m : M W A) Q w a w' :
  wp m Q w → m w = Ret a w' → Q a w'.
Proof. unfold wp. by intros ? E; rewrite E in *. Qed.

Lemma wp_no_fault {A} (m : M W A) Q w f : wp m Q w → m w ≠ Fault f.
Proof. unfold wp. by intros ? E; rewrite E in *. Qed.
End Wp.

Create HintDb obeys.
#[export] Hint Resolve obeys_ret obeys_fail obeys_sleep obeys_gets obeys_assert : obeys.

(** [obeys_step] decomposes an [obeys] goal along the structure of the
    computation; the leaves are left to the [obeys] hint database. *)
Ltac obeys_step :=
  first
    [ progress intros
    | solve [eauto with obeys]
    | apply obeys_bind
    | apply obeys_when
    | apply obeys_if
    | match goal with
      | |- obeys _ (match ?x with _ => _ end) => destruct x eqn:?
      | |- obeys _ (let '(_, _) := ?x in _) => destruct x eqn:?
      end ].
Ltac obeys_auto := repeat obeys_step.

(** [steps]: push a run through the deterministic prefix of a computation. *)
Ltac steps :=
  repeat first
    [ rewrite bind_gets | rewrite bind_modify | rewrite bind_ret
    | rewrite bind_when_false | rewrite bind_assoc ]; cbn beta.

(** ** Faults that cannot happen

    [never f m]: no run of [m] ends in the fault [f]. *)
Definition never {W A} (f : fault) (m : M W A) : Prop := ∀ w, m w ≠ Fault f.

Section Never.
Context {W : Type} (f : fault).

Lemma never_ret {A} (a : A) : never (W:=W) f (ret a).
Proof. by intros w ?. Qed.

Lemma never_bind {A B} (m : M W A) (k : A → M W B) :
  never f m → (∀ a, never f (k a)) → never f (bind m k).
Proof.
  intros Hm Hk w. unfold bind. specialize (Hm w).
  destruct (m w); [apply Hk|done|congruence].
Qed.

Lemma never_gets {A} (g : W → A) : never f (gets g).
Proof. by intros w ?. Qed.

Lemma never_modify (g : W → W) : never f (modify g).
Proof. by intros w ?. Qed.

Lemma never_sleep {A} : never (W:=W) (A:=A) f sleep.
Proof. by intros w ?. Qed.

Lemma never_fail {A} g : f ≠ g → never (W:=W) (A:=A) f (fail g).
Proof. intros Hf w [=]. congruence. Qed.

Lemma never_when b m : never f m → never (W:=W) f (when b m).
Proof. destruct b; [done|]. intros _. apply never_ret. Qed.

Lemma never_assert b : f ≠ FAssert → never (W:=W) f (assertM b).
Proof. intros Hf. destruct b; [apply never_ret|by apply never_fail]. Qed.

Lemma never_if {A} (b : bool) (m1 m2 : M W A) :
  never f m1 → never f m2 → never f (if b then m1 else m2).
Proof. by destruct b. Qed.

Lemma wp_never {A} (m : M W A) Q : (∀ w, wp m Q w) → never f m.
Proof. intros Hm w. eapply wp_no_fault, Hm. Qed.
End Never.

Create HintDb never.
#[export] Hint Resolve never_ret never_gets never_modify never_sleep : never.
#[export] Hint Extern 1 (never _ (fail _)) => apply never_fail; discriminate : never.
#[export] Hint Extern 1 (never _ (assertM _)) => apply never_assert; discriminate : never.

Ltac never_step :=
  first
    [ progress intros
    | solve [eauto with never]
    | apply never_bind
    | apply never_when
    | apply never_if
    | match goal with
      | |- never _ (match ?x with _ => _ end) => destruct x eqn:?
      end ].
Ltac never_auto := repeat never_step.
