(* ===== verification/Seq.v ===== *)
(** * Sequence numbers

    Every request has a 64-bit sequence number.  The wire carries its low 16
    bits, applications hold its low 32 bits.  This file models the comparison
    macros of [src/xcbint.h] and the two places where [src/xcb_in.c] rebuilds a
    64-bit number from a truncated one. *)
From S2P Require Import Prelude.
#[local] Open Scope Z_scope.

(** [XCB_SEQUENCE_COMPARE(a,op,b)]: [((int64_t) ((a) - (b)) op 0)], where at
    least one of [a], [b] is a [uint64_t]. *)
Definition XCB_SEQUENCE_COMPARE (a : Z) (op : Z → Z → bool) (b : Z) : bool :=
  op (s64 (u64 (a - b))) 0.

(** [XCB_SEQUENCE_COMPARE_32(a,op,b)]: [(((int) (a) - (int) (b)) op 0)].  The
    difference is an [int] difference; where it overflows the model wraps
    around, as the compilers in use do. *)
Definition XCB_SEQUENCE_COMPARE_32 (a : Z) (op : Z → Z → bool) (b : Z) : bool :=
  op (s32 (s32 a - s32 b)) 0.

(** The [int] difference of [XCB_SEQUENCE_COMPARE_32] does not overflow, so the
    C expression has defined behaviour. *)
Definition compare_32_defined (a b : Z) : Prop := int_range (s32 a - s32 b).

(** The widening of an application's 32-bit sequence number [request] against
    the last sequence number sent, [sent], in [xcb_wait_for_reply] and
    [discard_reply]. *)
Definition widen (sent request : Z) : Z :=
  let widened_request := Z.lor (Z.land sent 0xffffffff00000000) request in
  if widened_request >? sent then u64 (widened_request - 2 ^ 32)
  else widened_request.

(** The widening of the 16-bit sequence number [sequence] of a packet against
    the last number read, in [read_packet]. *)
Definition read_sequence (lastread sequence : Z) : Z :=
  let request_read := Z.lor (Z.land lastread 0xffffffffffff0000) sequence in
  if XCB_SEQUENCE_COMPARE request_read Z.ltb lastread
  then u64 (request_read + 0x10000) else request_read.

(** ** Splitting a word at a bit *)

Lemma land_high_mask a k n :
  0 <= k <= n → 0 <= a < 2 ^ n →
  Z.land a (2 ^ n - 2 ^ k) = a - a mod 2 ^ k.
Proof.
  intros Hk Ha.
  replace (2 ^ n - 2 ^ k) with (Z.shiftl (Z.ones (n - k)) k).
  2: { rewrite Z.shiftl_mul_pow2, Z.ones_equiv by lia.
       replace n with ((n - k) + k) at 2 by lia. rewrite Z.pow_add_r by lia. lia. }
  replace (a - a mod 2 ^ k) with (Z.shiftl (Z.shiftr a k) k).
  2: { rewrite Z.shiftl_mul_pow2, Z.shiftr_div_pow2 by lia.
       pose proof (Z.div_mod a (2 ^ k)). lia. }
  apply Z.bits_inj'. intros i Hi.
  rewrite Z.land_spec, !Z.shiftl_spec by lia.
  destruct (decide (i < k)) as [Hlt|Hge].
  - rewrite !(Z.testbit_neg_r _ (i - k)) by lia. apply andb_false_r.
  - rewrite Z.shiftr_spec by lia. replace (i - k + k) with i by lia.
    destruct (decide (i < n)) as [Hin|Hin].
    + rewrite Z.ones_spec_low by lia. apply andb_true_r.
    + rewrite Z.ones_spec_high by lia. rewrite andb_false_r. symmetry.
      rewrite <- (Z.mod_small a (2 ^ n)) by lia.
      by apply Z.mod_pow2_bits_high; lia.
Qed.

Lemma lor_low_field a k b :
  0 <= k → 0 <= b < 2 ^ k → a mod 2 ^ k = 0 → Z.lor a b = a + b.
Proof.
  intros Hk Hb Ha. rewrite <- Z.add_lor_land.
  replace (Z.land a b) with 0; [lia|].
  apply Z.bits_inj'. intros i Hi. rewrite Z.land_spec, Z.bits_0.
  destruct (decide (i < k)).
  - rewrite <- (Z.mod_pow2_bits_low a k i) by lia. by rewrite Ha, Z.bits_0.
  - rewrite <- (Z.mod_small b (2 ^ k)) by lia.
    rewrite (Z.mod_pow2_bits_high b k) by lia. by rewrite andb_false_r.
Qed.

(** ** The comparison macros agree with the order of the unbounded numbers *)

Lemma compare_exact a op b :
  - 2 ^ 63 <= a - b < 2 ^ 63 →
  XCB_SEQUENCE_COMPARE (u64 a) op (u64 b) = op (a - b) 0.
Proof. intros. unfold XCB_SEQUENCE_COMPARE. f_equal. words. Qed.

Lemma compare_64 a op b :
  0 <= a < 2 ^ 63 → 0 <= b < 2 ^ 63 → XCB_SEQUENCE_COMPARE a op b = op (a - b) 0.
Proof. intros. unfold XCB_SEQUENCE_COMPARE. f_equal. words. Qed.

Lemma compare_32_exact a op b :
  - 2 ^ 31 <= a - b < 2 ^ 31 →
  XCB_SEQUENCE_COMPARE_32 (u32 a) op (u64 b) = op (a - b) 0.
Proof. intros. unfold XCB_SEQUENCE_COMPARE_32. f_equal. words. Qed.

Lemma compare_32_counter a op b :
  0 <= b < 2 ^ 64 → - 2 ^ 31 <= a - b < 2 ^ 31 →
  XCB_SEQUENCE_COMPARE_32 (u32 a) op b = op (a - b) 0.
Proof. intros. rewrite <- (compare_32_exact a op b), (u64_small b) by lia. done. Qed.

(** The order of the macro is antisymmetric but for numbers [2^63] apart. *)
Lemma compare_swap a b :
  u64 (b - a) ≠ 2 ^ 63 →
  XCB_SEQUENCE_COMPARE a Z.leb b = true → XCB_SEQUENCE_COMPARE b Z.geb a = true.
Proof.
  unfold XCB_SEQUENCE_COMPARE. rewrite Z.geb_leb, !Z.leb_le. words.
Qed.

(** ** The widenings recover the number that was truncated *)

Lemma widen_arith sent request :
  0 <= sent < 2 ^ 64 → 0 <= request < 2 ^ 32 →
  widen sent request =
    let w := sent - sent mod 2 ^ 32 + request in
    if w >? sent then u64 (w - 2 ^ 32) else w.
Proof.
  intros Hs Hr. unfold widen.
  change 0xffffffff00000000 with (2 ^ 64 - 2 ^ 32).
  rewrite land_high_mask, (lor_low_field _ 32) by words. done.
Qed.

Lemma widen_window sent request :
  0 <= sent < 2 ^ 64 → 0 <= request < 2 ^ 32 → 0 <= u64 (sent - widen sent request) < 2 ^ 32.
Proof.
  intros Hs Hr. rewrite widen_arith by done. cbv zeta. rewrite Z.gtb_ltb.
  destruct (Z.ltb_spec sent (sent - sent mod 2 ^ 32 + request)); words.
Qed.

Lemma widen_exact sent s :
  0 <= s <= sent → sent < 2 ^ 64 → sent - s < 2 ^ 32 →
  widen sent (u32 s) = s.
Proof.
  intros. rewrite widen_arith by words.
  cbv zeta. rewrite Z.gtb_ltb. destruct (Z.ltb_spec sent (sent - sent mod 2 ^ 32 + u32 s));
    words.
Qed.

Lemma read_sequence_arith lastread seq :
  0 <= lastread < 2 ^ 64 → 0 <= seq < 2 ^ 16 →
  read_sequence lastread seq =
    let r := lastread - lastread mod 2 ^ 16 + seq in
    if r <? lastread then u64 (r + 2 ^ 16) else r.
Proof.
  intros Hs Hr. unfold read_sequence.
  change 0xffffffffffff0000 with (2 ^ 64 - 2 ^ 16).
  rewrite land_high_mask, (lor_low_field _ 16) by words. cbv zeta.
  unfold XCB_SEQUENCE_COMPARE.
  replace (s64 (u64 (lastread - lastread mod 2 ^ 16 + seq - lastread)))
    with (seq - lastread mod 2 ^ 16) by words.
  destruct (Z.ltb_spec (seq - lastread mod 2 ^ 16) 0),
    (Z.ltb_spec (lastread - lastread mod 2 ^ 16 + seq) lastread); first [done | lia].
Qed.

Lemma read_sequence_exact lastread s :
  0 <= lastread <= s → s < 2 ^ 64 → s - lastread < 2 ^ 16 →
  read_sequence lastread (u16 s) = s.
Proof.
  intros. rewrite read_sequence_arith by words. cbv zeta.
  destruct (Z.ltb_spec (lastread - lastread mod 2 ^ 16 + u16 s) lastread); words.
Qed.

Lemma read_sequence_bounds lastread seq :
  0 <= lastread < 2 ^ 64 - 2 ^ 16 → 0 <= seq < 2 ^ 16 →
  lastread <= read_sequence lastread seq < lastread + 2 ^ 16 ∧
  u16 (read_sequence lastread seq) = seq.
Proof.
  intros. rewrite read_sequence_arith by words. cbv zeta.
  destruct (Z.ltb_spec (lastread - lastread mod 2 ^ 16 + seq) lastread); words.
Qed.
