(* ===== verification/SeqProps.v ===== *)
(** * Truncated sequence numbers are recovered exactly

    Within their windows the widenings invert the truncations, and the 32-bit
    comparison is the order of the numbers, where C defines it. *)
From S2P Require Import Prelude Seq.
#[local] Open Scope Z_scope.

(** The 64-bit number [read_packet] computes for a packet is the only number
    with the packet's 16 bits among the [2^16] numbers from the last one read. *)
Lemma read_sequence_unique lastread seq s :
  0 <= lastread < 2 ^ 64 - 2 ^ 16 → 0 <= seq < 2 ^ 16 →
  s = read_sequence lastread seq ↔ lastread <= s < lastread + 2 ^ 16 ∧ u16 s = seq.
Proof.
  intros Hl Hs. pose proof (read_sequence_bounds lastread seq Hl Hs) as Hb. split.
  - by intros ->.
  - intros [Hr <-]. symmetry. apply read_sequence_exact; lia.
Qed.

(** The 64-bit number [xcb_wait_for_reply] and [discard_reply] compute for the
    32-bit number of a request is the only number with these 32 bits among the
    [2^32] numbers up to the last one sent. *)
Lemma widen_unique sent request s :
  0 <= sent < 2 ^ 64 → 0 <= request < 2 ^ 32 → request <= sent →
  s = widen sent request ↔ sent - 2 ^ 32 < s <= sent ∧ u32 s = request.
Proof.
  intros Hs Hr Hle. rewrite widen_arith by done. cbv zeta. rewrite Z.gtb_ltb.
  destruct (Z.ltb_spec sent (sent - sent mod 2 ^ 32 + request)); words.
Qed.

(** C32. [XCB_SEQUENCE_COMPARE_32] orders an application's number and a 64-bit
    counter as the full numbers are ordered when these are less than [2^31]
    apart.  But its [int] subtraction is defined by the C standard only if no
    odd multiple of [2^31] separates the two: it overflows for the adjacent
    requests [2^31 - 1] and [2^31]. *)
Theorem compare_32_order a b op :
  0 <= b < 2 ^ 64 → - 2 ^ 31 < a - b < 2 ^ 31 →
  XCB_SEQUENCE_COMPARE_32 (u32 a) op b = op (a - b) 0 ∧
  (compare_32_defined (u32 a) b ↔ (a + 2 ^ 31) / 2 ^ 32 = (b + 2 ^ 31) / 2 ^ 32).
Proof.
  intros Hb Hab. split; [apply compare_32_counter; lia|].
  unfold compare_32_defined. rewrite s32_u32. words.
Qed.

(** ** The hypotheses can hold *)

Lemma compare_32_order_witness :
  XCB_SEQUENCE_COMPARE_32 (u32 (2 ^ 31 - 1)) Z.ltb (2 ^ 31) = (2 ^ 31 - 1 - 2 ^ 31 <? 0) ∧
  (compare_32_defined (u32 (2 ^ 31 - 1)) (2 ^ 31) ↔
     (2 ^ 31 - 1 + 2 ^ 31) / 2 ^ 32 = (2 ^ 31 + 2 ^ 31) / 2 ^ 32).
Proof. apply (compare_32_order (2 ^ 31 - 1) (2 ^ 31) Z.ltb); lia. Defined.
