(* ===== verification/XcbMap.v ===== *)
(** * The keyed list of [src/xcb_list.c]

    [_xcb_map] is a singly linked list with a pointer to its last [next] field.
    The concrete model keeps the nodes in an explicit heap, with the head
    pointer and the [tail] pointer-to-pointer of the C structure.  The abstract
    model is an association list; [map_put] and [map_remove] are what the rest
    of the development uses. *)
From S2P Require Import Prelude.
#[local] Open Scope Z_scope.

(** ** Abstract association list *)

Section Abstract.
Context {D : Type}.

(** Append at the tail. *)
Definition map_put (l : list (Z * D)) (key : Z) (data : D) : list (Z * D) :=
  l ++ [(key, data)].

(** Unlink the first entry with the key. *)
Fixpoint map_remove (l : list (Z * D)) (key : Z) : option D * list (Z * D) :=
  match l with
  | [] => (None, [])
  | (k, d) :: t =>
      if k =? key then (Some d, t)
      else let '(r, t') := map_remove t key in (r, (k, d) :: t')
  end.
End Abstract.

(** ** Concrete list in a heap *)

Abbreviation loc := positive.

Record node (D : Type) := Node { next : option loc; key : Z; data : D }.
Arguments Node {D} _ _ _.
Arguments next {D} _.
Arguments key {D} _.
Arguments data {D} _.

(** A [node **]: the address of [list->head] or of a node's [next] field. *)
Inductive slot := HeadSlot | NextSlot (l : loc).

(** The allocated nodes and the [struct _xcb_map]. *)
Record xmap (D : Type) := XMap {
  heap : gmap loc (node D);
  head : option loc;
  tail : slot
}.
Arguments XMap {D} _ _ _.
Arguments heap {D} _.
Arguments head {D} _.
Arguments tail {D} _.

Section Concrete.
Context {D : Type}.
Implicit Types (m : xmap D) (s : slot).

Definition set_heap (h : gmap loc (node D)) m : xmap D := XMap h (head m) (tail m).
Definition set_head (p : option loc) m : xmap D := XMap (heap m) p (tail m).
Definition set_tail (s : slot) m : xmap D := XMap (heap m) (head m) s.

(** [*s]; [None] when [s] points into a freed node. *)
Definition read_slot m s : option (option loc) :=
  match s with
  | HeadSlot => Some (head m)
  | NextSlot x => next <$> heap m !! x
  end.

(** [*s = p]. *)
Definition write_slot m s (p : option loc) : option (xmap D) :=
  match s with
  | HeadSlot => Some (set_head p m)
  | NextSlot x =>
      n ← heap m !! x;
      Some (set_heap (<[x := Node p (key n) (data n)]> (heap m)) m)
  end.

(** [_xcb_map_new] once the list header has been allocated; that this may fail is
    in [_xcb_in_init], its only caller. *)
Definition _xcb_map_new (h : gmap loc (node D)) : xmap D := XMap h None HeadSlot.

(** [cur = malloc(sizeof(node)); ...; *list->tail = cur;
    list->tail = &cur->next].  [new] is what [malloc] returns.  The outer
    [option] is undefined behaviour; the boolean is the C result. *)
Definition _xcb_map_put (new : option loc) m (k : Z) (d : D)
    : option (bool * xmap D) :=
  match new with
  | None => Some (false, m)
  | Some x =>
      m' ← write_slot (set_heap (<[x := Node None k d]> (heap m)) m) (tail m) (Some x);
      Some (true, set_tail (NextSlot x) m')
  end.

(** The [for] loop of [_xcb_map_remove]. *)
Fixpoint remove_from (fuel : nat) (cur : slot) m (k : Z)
    : option (option D * xmap D) :=
  match fuel with
  | O => None
  | S fuel' =>
      p ← read_slot m cur;
      match p with
      | None => Some (None, m)
      | Some x =>
          n ← heap m !! x;
          if key n =? k then
            m1 ← write_slot m cur (next n);
            p' ← read_slot m1 cur;
            let m2 := match p' with None => set_tail cur m1 | Some _ => m1 end in
            Some (Some (data n), set_heap (delete x (heap m2)) m2)
          else remove_from fuel' (NextSlot x) m k
      end
  end.

Definition _xcb_map_remove m (k : Z) : option (option D * xmap D) :=
  remove_from (S (size (heap m))) HeadSlot m k.

(** The [while(list->head)] loop of [_xcb_map_delete]; the data handed to
    [do_free], in order. *)
Fixpoint delete_nodes (fuel : nat) m : option (list D * xmap D) :=
  match fuel with
  | O => None
  | S fuel' =>
      match head m with
      | None => Some ([], m)
      | Some x =>
          n ← heap m !! x;
          r ← delete_nodes fuel' (set_heap (delete x (heap m)) (set_head (next n) m));
          Some (data n :: r.1, r.2)
      end
  end.

Definition _xcb_map_delete m : option (list D * xmap D) :=
  delete_nodes (S (size (heap m))) m.
End Concrete.

(** ** Lookup in the association list *)

Section Lookup.
Context {D : Type}.
Implicit Types (l : list (Z * D)).

(** The data [map_remove] would return. *)
Definition map_get l (k : Z) : option D := (map_remove l k).1.

Lemma map_get_cons l k d k' :
  map_get ((k, d) :: l) k' = if k =? k' then Some d else map_get l k'.
Proof.
  unfold map_get. simpl. destruct (k =? k'); [done|]. by destruct (map_remove l k').
Qed.

Lemma map_get_none l k : k ∉ l.*1 → map_get l k = None.
Proof.
  induction l as [|[k' d] l IH]; [done|]. intros Hk. rewrite map_get_cons.
  destruct (Z.eqb_spec k' k) as [->|]; [set_solver|]. apply IH. set_solver.
Qed.

Lemma map_get_put l k d k' :
  k ∉ l.*1 → map_get (map_put l k d) k' = if k =? k' then Some d else map_get l k'.
Proof.
  unfold map_put. induction l as [|[k1 d1] l IH]; intros Hk; [by rewrite <- map_get_cons|].
  simpl app. rewrite !map_get_cons, IH by set_solver.
  destruct (Z.eqb_spec k1 k'), (Z.eqb_spec k k'); try done.
  subst. set_solver.
Qed.

Lemma map_put_keys l k d : (map_put l k d).*1 = l.*1 ++ [k].
Proof. unfold map_put. by rewrite fmap_app. Qed.

Lemma map_remove_cons l k d k' :
  (map_remove ((k, d) :: l) k').2 = if k =? k' then l else (k, d) :: (map_remove l k').2.
Proof. simpl. destruct (k =? k'); [done|]. by destruct (map_remove l k'). Qed.

Lemma map_remove_keys l k k' :
  NoDup l.*1 → k' ∈ (map_remove l k).2.*1 ↔ k' ∈ l.*1 ∧ k' ≠ k.
Proof.
  induction l as [|[k1 d1] l IH]; [set_solver|]. rewrite map_remove_cons, fmap_cons.
  intros [Hk1 Hnd]%NoDup_cons. simpl in Hk1.
  destruct (Z.eqb_spec k1 k) as [->|Hne].
  - rewrite elem_of_cons. naive_solver.
  - rewrite fmap_cons, !elem_of_cons, IH by done. simpl. naive_solver.
Qed.

Lemma map_remove_nodup l k : NoDup l.*1 → NoDup (map_remove l k).2.*1.
Proof.
  induction l as [|[k1 d1] l IH]; [done|]. rewrite map_remove_cons, fmap_cons.
  intros [Hk1 Hnd]%NoDup_cons. destruct (k1 =? k); [done|].
  rewrite fmap_cons. apply NoDup_cons. split; [|by apply IH].
  rewrite map_remove_keys by done. naive_solver.
Qed.

Lemma map_get_remove l k k' :
  NoDup l.*1 → map_get (map_remove l k).2 k' = if k =? k' then None else map_get l k'.
Proof.
  induction l as [|[k1 d1] l IH]; [by destruct (k =? k')|]. rewrite fmap_cons.
  intros [Hk1 Hnd]%NoDup_cons. rewrite map_remove_cons, map_get_cons.
  destruct (Z.eqb_spec k1 k) as [->|Hne].
  - destruct (Z.eqb_spec k k') as [->|]; [by apply map_get_none|done].
  - rewrite map_get_cons, IH by done.
    destruct (Z.eqb_spec k1 k') as [->|]; [|done].
    by destruct (Z.eqb_spec k k') as [->|].
Qed.
End Lookup.

(** ** Representation *)

Section Repr.
Context {D : Type}.
Implicit Types (m : xmap D) (h : gmap loc (node D)) (ls : list loc)
  (l : list (Z * D)) (p q : option loc).

(** [lseg h p ls l q]: following [next] from [p] visits the nodes [ls], which
    hold the entries [l], and ends at [q]. *)
Fixpoint lseg h p ls l q : Prop :=
  match ls, l with
  | [], [] => p = q
  | x :: ls', (k, d) :: l' =>
      p = Some x ∧ ∃ nx, h !! x = Some (Node nx k d) ∧ lseg h nx ls' l' q
  | _, _ => False
  end.

(** The field that points past the last of the nodes [ls]. *)
Definition last_slot ls : slot :=
  match last ls with None => HeadSlot | Some x => NextSlot x end.

(** [Repr m ls l]: the structure holds exactly the entries [l], in the nodes
    [ls], and [tail] is the address of the terminating null pointer. *)
Definition Repr m ls l : Prop :=
  lseg (heap m) (head m) ls l None ∧ NoDup ls ∧ tail m = last_slot ls.

Lemma lseg_app h p ls1 ls2 l1 l2 q :
  length ls1 = length l1 →
  lseg h p (ls1 ++ ls2) (l1 ++ l2) q ↔
  ∃ r, lseg h p ls1 l1 r ∧ lseg h r ls2 l2 q.
Proof.
  revert p l1. induction ls1 as [|x ls1 IH]; intros p [|[k d] l1] Hl; simpl in *;
    [|lia..|].
  - split; [eauto|]. by intros (? & -> & ?).
  - split.
    + intros (-> & nx & Hx & Hr). apply IH in Hr as (r & ? & ?); [|lia]. eauto 8.
    + intros (r & (-> & nx & Hx & ?) & ?). split; [done|]. exists nx. split; [done|].
      apply IH; [lia|]. eauto.
Qed.

Lemma lseg_length h p ls l q : lseg h p ls l q → length ls = length l.
Proof.
  revert p l. induction ls as [|x ls IH]; intros p [|[k d] l]; simpl; try done.
  intros (_ & nx & _ & H). f_equal. eauto.
Qed.

Lemma lseg_frame h h' p ls l q :
  (∀ x, x ∈ ls → h' !! x = h !! x) → lseg h p ls l q → lseg h' p ls l q.
Proof.
  revert p l. induction ls as [|x ls IH]; intros p [|[k d] l] Hf; simpl; try done.
  intros (-> & nx & Hx & Hr). split; [done|]. exists nx.
  rewrite Hf by set_solver. split; [done|]. apply IH; [set_solver|done].
Qed.

Lemma lseg_alloc h p ls l q x : lseg h p ls l q → x ∈ ls → is_Some (h !! x).
Proof.
  revert p l. induction ls as [|y ls IH]; intros p [|[k d] l]; simpl; [set_solver|done|done|].
  intros (-> & nx & Hy & Hr) [->|Hin]%elem_of_cons; eauto.
Qed.

Lemma last_slot_snoc ls x : last_slot (ls ++ [x]) = NextSlot x.
Proof. unfold last_slot. by rewrite last_snoc. Qed.

Lemma read_last_slot m ls l q :
  lseg (heap m) (head m) ls l q → read_slot m (last_slot ls) = Some q.
Proof.
  destruct ls as [|x ls _] using rev_ind; intros Hs.
  - destruct l; [|done]. simpl in Hs. simpl. by rewrite Hs.
  - destruct l as [|[k d] l _] using rev_ind; [by destruct ls|].
    pose proof (lseg_length _ _ _ _ _ Hs) as Hlen. rewrite !length_app in Hlen.
    apply lseg_app in Hs as (r & _ & Hr); [|simpl in Hlen; lia].
    simpl in Hr. destruct Hr as (_ & nx & Hx & ->).
    rewrite last_slot_snoc. simpl. by rewrite Hx.
Qed.

(** Redirecting the field after the last node changes where the segment ends
    and nothing else. *)
Lemma write_last_slot m ls l q v :
  lseg (heap m) (head m) ls l q → NoDup ls →
  ∃ m', write_slot m (last_slot ls) v = Some m' ∧
    lseg (heap m') (head m') ls l v ∧ tail m' = tail m ∧
    dom (heap m') = dom (heap m) ∧
    (∀ x, x ∉ ls → heap m' !! x = heap m !! x).
Proof.
  destruct ls as [|x ls _] using rev_ind; intros Hs Hnd.
  - destruct l; [|done]. exists (set_head v m). by repeat split.
  - destruct l as [|[k d] l _] using rev_ind; [by destruct ls|].
    pose proof (lseg_length _ _ _ _ _ Hs) as Hlen. rewrite !length_app in Hlen.
    apply lseg_app in Hs as (r & Hs & Hr); [|simpl in Hlen; lia].
    simpl in Hr. destruct Hr as (-> & nx & Hx & ->).
    apply NoDup_app in Hnd as (_ & Hx' & _).
    rewrite last_slot_snoc. simpl. rewrite Hx. simpl. eexists. split; [done|].
    split; [|split; [done|split]].
    + simpl. apply lseg_app; [simpl in Hlen; lia|]. exists (Some x). split.
      * eapply lseg_frame; [|done]. intros y Hy. simpl.
        rewrite lookup_insert_ne; [done|]. set_solver.
      * simpl. split; [done|]. exists v. by rewrite lookup_insert_eq.
    + simpl. rewrite dom_insert_lookup_L; eauto.
    + intros y Hy. simpl. rewrite lookup_insert_ne; [done|]. set_solver.
Qed.

Lemma lseg_size m ls l : lseg (heap m) (head m) ls l None → NoDup ls →
  (length l <= size (heap m))%nat.
Proof.
  intros Hs Hnd. rewrite <- (lseg_length _ _ _ _ _ Hs).
  rewrite <- size_dom.
  rewrite <- (size_list_to_set (C:=gset loc) ls) by done.
  apply subseteq_size. intros x Hx%elem_of_list_to_set.
  apply elem_of_dom. by eapply lseg_alloc.
Qed.

Lemma repr_new h : Repr (_xcb_map_new h) [] [].
Proof. split; [done|]. split; [constructor|done]. Qed.

(** [_xcb_map_put] refines [map_put]; only the new node is allocated. *)
Lemma put_refines m ls l k d x :
  Repr m ls l → heap m !! x = None →
  ∃ m', _xcb_map_put (Some x) m k d = Some (true, m') ∧
    Repr m' (ls ++ [x]) (map_put l k d) ∧
    dom (heap m') = {[x]} ∪ dom (heap m).
Proof.
  intros (Hs & Hnd & Ht) Hx. pose proof (lseg_length _ _ _ _ _ Hs) as Hlen.
  assert (x ∉ ls) as Hxl.
  { intros Hin. destruct (lseg_alloc _ _ _ _ _ _ Hs Hin). congruence. }
  set (m0 := set_heap (<[x:=Node None k d]> (heap m)) m).
  destruct (write_last_slot m0 ls l None (Some x)) as (m1 & Hw & Hs1 & Ht1 & Hd1 & Hf1).
  { eapply lseg_frame; [|done]. intros y Hy. simpl. rewrite lookup_insert_ne; [done|].
    set_solver. }
  { done. }
  exists (set_tail (NextSlot x) m1). unfold _xcb_map_put. fold m0.
  rewrite Ht, Hw. simpl. split; [done|]. split.
  - split; [|split].
    + apply lseg_app; [done|]. exists (Some x). split; [done|]. simpl. split; [done|].
      exists None. rewrite Hf1 by done. simpl. by rewrite lookup_insert_eq.
    + apply NoDup_app. split; [done|]. split; [set_solver|]. apply NoDup_singleton.
    + by rewrite last_slot_snoc.
  - simpl. rewrite Hd1. simpl. by rewrite dom_insert_L.
Qed.

(** The loop of [_xcb_map_remove], started after the nodes [pre] none of which
    holds the key. *)
Lemma remove_from_refines fuel m pre suf lpre lsuf k :
  Repr m (pre ++ suf) (lpre ++ lsuf) → length pre = length lpre →
  (length lsuf < fuel)%nat →
  ∃ m' suf', remove_from fuel (last_slot pre) m k = Some ((map_remove lsuf k).1, m') ∧
    Repr m' (pre ++ suf') (lpre ++ (map_remove lsuf k).2) ∧
    suf' ⊆ suf ∧ (∀ x, x ∈ dom (heap m') ↔ x ∈ dom (heap m) ∧ (x ∈ suf → x ∈ suf')).
Proof.
  revert pre suf lpre lsuf.
  induction fuel as [|fuel IH]; intros pre suf lpre lsuf (Hs & Hnd & Ht) Hl Hf; [lia|].
  pose proof Hs as (q & Hs1 & Hs2)%lseg_app; [|done].
  cbn [remove_from]. rewrite (read_last_slot _ _ _ _ Hs1). simpl.
  destruct suf as [|x suf], lsuf as [|[k' d] lsuf]; try done.
  { simpl in Hs2. subst q. exists m, []. simpl. split; [done|]. split; [done|]. split; [done|]. set_solver. }
  destruct Hs2 as (-> & nx & Hx & Hs2). rewrite Hx. simpl.
  destruct (Z.eqb_spec k' k) as [->|Hk].
  - pose proof Hnd as (Hnd1 & Hx1 & Hnd2)%NoDup_app.
    apply NoDup_cons in Hnd2 as [Hx2 Hnd2].
    destruct (write_last_slot m pre lpre (Some x) nx Hs1 Hnd1)
      as (m1 & Hw & Hs3 & Ht3 & Hd3 & Hf3).
    rewrite Hw. simpl. rewrite (read_last_slot _ _ _ _ Hs3). simpl.
    eexists _, suf. split; [done|].
    assert (∀ (m2 : xmap D), heap m2 = heap m1 → head m2 = head m1 →
      lseg (delete x (heap m2)) (head m2) (pre ++ suf) (lpre ++ lsuf) None) as Hseg.
    { intros m2 -> ->. apply lseg_app; [done|]. exists nx. split.
      - eapply lseg_frame; [|exact Hs3]. intros y Hy. rewrite lookup_delete_ne; [done|].
        set_solver.
      - eapply lseg_frame; [|exact Hs2]. intros y Hy. rewrite lookup_delete_ne by set_solver.
        apply Hf3. set_solver. }
    split; [split; [|split]|split].
    + cbn [set_heap heap head]. apply Hseg; by destruct nx.
    + apply NoDup_app. set_solver.
    + destruct suf as [|y suf]; simpl in Hs2.
      * destruct lsuf; [|done]. subst nx. by rewrite app_nil_r.
      * destruct lsuf as [|[k2 d2] lsuf]; [done|]. destruct Hs2 as [-> _].
        simpl. rewrite Ht3, Ht. unfold last_slot.
        by rewrite !last_app.
    + set_solver.
    + intros y. assert (heap (match nx with Some _ => m1 | None => set_tail (last_slot pre) m1 end)
        = heap m1) as Hheap by (by destruct nx).
      simpl. rewrite Hheap, dom_delete_L, Hd3, elem_of_difference, elem_of_singleton. set_solver.
  - destruct (IH (pre ++ [x]) suf (lpre ++ [(k', d)]) lsuf) as (m' & suf' & Hr & HR & Hsub & Hdom).
    { rewrite <- !app_assoc. by split. }
    { rewrite !length_app. simpl. lia. }
    { simpl in Hf. lia. }
    rewrite last_slot_snoc in Hr. rewrite Hr.
    destruct (map_remove lsuf k) as [r t'] eqn:Er. simpl in *.
    rewrite <- !app_assoc in HR. exists m', (x :: suf'). split; [done|]. split; [done|].
    apply NoDup_app in Hnd as (_ & _ & Hnd). apply NoDup_cons in Hnd as [Hxs _].
    split; [set_solver|]. intros y. rewrite Hdom. set_solver.
Qed.

(** [_xcb_map_remove] refines [map_remove]: it returns the data of the first
    entry with the key, unlinks that entry, keeps [tail] right, and frees
    exactly the unlinked node. *)
Lemma remove_refines m ls l k :
  Repr m ls l →
  ∃ m' ls', _xcb_map_remove m k = Some ((map_remove l k).1, m') ∧
    Repr m' ls' (map_remove l k).2 ∧ ls' ⊆ ls ∧
    (∀ x, x ∈ dom (heap m') ↔ x ∈ dom (heap m) ∧ (x ∈ ls → x ∈ ls')).
Proof.
  intros HR. pose proof HR as (Hs & Hnd & _).
  pose proof (lseg_size _ _ _ Hs Hnd).
  destruct (remove_from_refines (S (size (heap m))) m [] ls [] l k)
    as (m' & ls' & Hr & HR' & Hsub & Hd); [done|done|lia|]. eauto 6.
Qed.

Lemma delete_nodes_spec fuel m ls l :
  lseg (heap m) (head m) ls l None → NoDup ls → (length l < fuel)%nat →
  ∃ m', delete_nodes fuel m = Some (l.*2, m') ∧
    dom (heap m') = dom (heap m) ∖ list_to_set ls.
Proof.
  revert m ls l. induction fuel as [|fuel IH]; intros m ls l Hs Hnd Hf; [lia|].
  destruct ls as [|x ls], l as [|[k d] l]; try done.
  - simpl in Hs. simpl. rewrite Hs. exists m. split; [done|]. set_solver.
  - destruct Hs as (Hh & nx & Hx & Hs). apply NoDup_cons in Hnd as [Hxl Hnd].
    cbn [delete_nodes]. rewrite Hh. rewrite Hx. simpl.
    destruct (IH (set_heap (delete x (heap m)) (set_head nx m)) ls l) as (m' & Hr & Hd).
    { eapply lseg_frame; [|exact Hs]. intros y Hy. simpl.
      rewrite lookup_delete_ne; [done|]. set_solver. }
    { done. }
    { simpl in Hf. lia. }
    rewrite Hr. simpl. eexists. split; [done|]. rewrite Hd. simpl.
    rewrite dom_delete_L. set_solver.
Qed.

(** [_xcb_map_delete] hands every stored value to the destructor, in list
    order, and frees every node. *)
Lemma delete_refines m ls l :
  Repr m ls l →
  ∃ m', _xcb_map_delete m = Some (l.*2, m') ∧
    dom (heap m') = dom (heap m) ∖ list_to_set ls.
Proof.
  intros (Hs & Hnd & _). pose proof (lseg_size _ _ _ Hs Hnd).
  apply delete_nodes_spec; [done..|lia].
Qed.
End Repr.

(** ** Sequences of operations *)

Section Runs.
Context {D : Type}.
Implicit Types (m : xmap D) (ls : list loc) (l : list (Z * D)).

(** A call on the map; [OpPut] says whether the node could be allocated. *)
Inductive map_op := OpPut (ok : bool) (k : Z) (d : D) | OpRemove (k : Z).

(** The results of the calls: whether a [put] succeeded, or what a [remove]
    returned. *)
Definition map_result : Type := bool + option D.

(** The calls on the C structure; [malloc] returns an address that is not in
    use. *)
Fixpoint run_map (ops : list map_op) m : option (list map_result * xmap D) :=
  match ops with
  | [] => Some ([], m)
  | op :: ops' =>
      r ← match op with
          | OpPut ok k d =>
              r ← _xcb_map_put (if ok then Some (fresh (dom (heap m))) else None) m k d;
              Some (inl r.1, r.2)
          | OpRemove k => r ← _xcb_map_remove m k; Some (inr r.1, r.2)
          end;
      rs ← run_map ops' r.2;
      Some (r.1 :: rs.1, rs.2)
  end.

(** The same calls on the association list. *)
Fixpoint run_list (ops : list map_op) l : list map_result * list (Z * D) :=
  match ops with
  | [] => ([], l)
  | OpPut ok k d :: ops' =>
      let rs := run_list ops' (if ok then map_put l k d else l) in (inl ok :: rs.1, rs.2)
  | OpRemove k :: ops' =>
      let r := map_remove l k in
      let rs := run_list ops' r.2 in (inr r.1 :: rs.1, rs.2)
  end.

(** The heap of the rest of the program and the nodes of the map. *)
Definition owns (h : gset loc) m ls l : Prop :=
  Repr m ls l ∧ dom (heap m) = h ∪ list_to_set ls ∧ (∀ x, x ∈ ls → x ∉ h).

Lemma owns_put h m ls l k d :
  owns h m ls l →
  ∃ m' ls', _xcb_map_put (Some (fresh (dom (heap m)))) m k d = Some (true, m') ∧
    owns h m' ls' (map_put l k d).
Proof.
  intros (HR & Hd & Hn). set (x := fresh (dom (heap m))).
  assert (x ∉ dom (heap m)) as Hx by apply is_fresh.
  destruct (put_refines m ls l k d x HR) as (m' & E & HR' & Hd'); [by apply not_elem_of_dom|].
  exists m', (ls ++ [x]). split; [done|]. split; [done|]. split.
  - rewrite Hd', Hd, list_to_set_app_L. set_solver.
  - intros y. rewrite elem_of_app, list_elem_of_singleton. intros [Hy| ->]; [auto|].
    rewrite Hd in Hx. set_solver.
Qed.

Lemma owns_remove h m ls l k :
  owns h m ls l →
  ∃ m' ls', _xcb_map_remove m k = Some ((map_remove l k).1, m') ∧
    owns h m' ls' (map_remove l k).2.
Proof.
  intros (HR & Hd & Hn). destruct (remove_refines m ls l k HR) as (m' & ls' & E & HR' & Hsub & Hd').
  exists m', ls'. split; [done|]. split; [done|]. split; [|set_solver].
  apply set_eq. intros y. rewrite Hd', Hd, !elem_of_union, !elem_of_list_to_set.
  split; [|set_solver]. intros [[?|Hy] Hi]; [by left|right; auto].
Qed.

Lemma run_refines h ops m ls l :
  owns h m ls l →
  ∃ m' ls', run_map ops m = Some ((run_list ops l).1, m') ∧ owns h m' ls' (run_list ops l).2.
Proof.
  revert m ls l. induction ops as [|[ok k d|k] ops IH]; intros m ls l Ho.
  - by exists m, ls.
  - cbn [run_map run_list]. destruct ok.
    + destruct (owns_put h m ls l k d Ho) as (m1 & ls1 & E1 & Ho1). rewrite E1. cbn.
      destruct (IH _ _ _ Ho1) as (m2 & ls2 & E2 & Ho2). rewrite E2. cbn. eauto.
    + cbn. destruct (IH _ _ _ Ho) as (m2 & ls2 & E2 & Ho2). rewrite E2. cbn. eauto.
  - cbn [run_map run_list].
    destruct (owns_remove h m ls l k Ho) as (m1 & ls1 & E1 & Ho1). rewrite E1. cbn.
    destruct (IH _ _ _ Ho1) as (m2 & ls2 & E2 & Ho2). rewrite E2. cbn. eauto.
Qed.

(** C29. The keyed list of [xcb_list.c] is an association list: from
    [_xcb_map_new], any sequence of [_xcb_map_put] (with or without memory) and
    [_xcb_map_remove] follows no dangling pointer and gives the results of
    appending to a list and of unlinking the first entry with the key; then
    [_xcb_map_delete] hands the remaining data, in order, to the destructor and
    leaves in the heap exactly the nodes that were there before the map. *)
Theorem xcb_map_refines_list (h : gmap loc (node D)) ops :
  ∃ m m', run_map ops (_xcb_map_new h) = Some ((run_list ops []).1, m) ∧
    _xcb_map_delete m = Some ((run_list ops []).2.*2, m') ∧ dom (heap m') = dom h.
Proof.
  destruct (run_refines (dom h) ops (_xcb_map_new h) [] []) as (m & ls & E & HR & Hd & Hn).
  { split; [apply repr_new|]. split; [cbn; set_solver|set_solver]. }
  destruct (delete_refines m ls _ HR) as (m' & E' & Hd'). exists m, m'.
  split; [done|]. split; [done|]. rewrite Hd', Hd. set_solver.
Qed.
End Runs.
