(* ===== verification/State.v ===== *)
(** * The connection structure and the operating system

    The structures of [src/xcbint.h], the system calls the library makes and
    the pthread primitives, as a world threaded through every computation.
    The parts of the program that the build generates from the protocol
    descriptions are the methods of the class [XProto]. *)
From S2P Require Import Prelude Effects XcbMap.
#[local] Open Scope Z_scope.

(** ** Constants *)

Definition XCB_ERROR : Z := 0.
Definition XCB_REPLY : Z := 1.
Definition XCB_XGE_EVENT : Z := 35.

(** [enum xcb_send_request_flags_t] *)
Definition XCB_REQUEST_CHECKED : Z := 1.
Definition XCB_REQUEST_RAW : Z := 2.
Definition XCB_REQUEST_DISCARD_REPLY : Z := 4.

(** The default of [--with-queue-size]. *)
Definition XCB_QUEUE_BUFFER_SIZE : Z := 16384.

(** [sizeof] of the input queue. *)
Definition IN_QUEUE_SIZE : Z := 4096.

(** The version of the protocol. *)
Definition X_PROTOCOL : Z := 11.
Definition X_PROTOCOL_REVISION : Z := 0.

(** [has_flag flags f]: the C test [flags & f]. *)
Definition has_flag (flags f : Z) : bool := negb (Z.land flags f =? 0).

Inductive workarounds :=
  | WORKAROUND_NONE
  | WORKAROUND_GLX_GET_FB_CONFIGS_BUG
  | WORKAROUND_EXTERNAL_SOCKET_OWNER.

Inductive lazy_reply_tag := LAZY_NONE | LAZY_COOKIE | LAZY_FORCED.

#[export] Instance workarounds_eq_dec : EqDecision workarounds.
Proof. solve_decision. Defined.
#[export] Instance lazy_reply_tag_eq_dec : EqDecision lazy_reply_tag.
Proof. solve_decision. Defined.

(** Condition variables: the two of the output side, the event one, and the
    one on the stack of each call of [xcb_wait_for_reply]. *)
Inductive cond := EventCond | OutCond | SocketCond | ReaderCond (id : nat).

(** What is recorded when a condition variable is signalled: one of the threads
    that wait for it is woken up, or all of them. *)
Inductive wakeup := Signal (c : cond) | Broadcast (c : cond).

Inductive mutex := IoLock | ReqLenLock | ExtLock | XidLock | GlobalLock | NonceLock.

#[export] Instance cond_eq_dec : EqDecision cond.
Proof. solve_decision. Defined.
#[export] Instance wakeup_eq_dec : EqDecision wakeup.
Proof. solve_decision. Defined.
#[export] Instance mutex_eq_dec : EqDecision mutex.
Proof. solve_decision. Defined.

(** ** Structures

    A buffer obtained from [malloc] is the list of its bytes. *)

Record pending_reply := PendingReply {
  first_request : Z;
  last_request : Z;
  workaround : workarounds;
  flags : Z
}.

Definition set_first_request (v : Z) (r : pending_reply) : pending_reply :=
  PendingReply v (last_request r) (workaround r) (flags r).
Definition set_last_request (v : Z) (r : pending_reply) : pending_reply :=
  PendingReply (first_request r) v (workaround r) (flags r).
Definition set_workaround (v : workarounds) (r : pending_reply) : pending_reply :=
  PendingReply (first_request r) (last_request r) v (flags r).
Definition set_flags (v : Z) (r : pending_reply) : pending_reply :=
  PendingReply (first_request r) (last_request r) (workaround r) v.

(** A [reader_list] element lives on the stack of the waiting call; [reader_id]
    is its address, and names its condition variable. *)
Record reader := Reader { reader_request : Z; reader_id : nat }.

(** [struct _xcb_in].  The queue is the list of its valid bytes, so [queue_len]
    is its length.  The tail-linked lists are lists; XcbMap.v justifies this
    for the operations [append at the tail] and [unlink]. *)
Record xcb_in := XcbIn {
  in_reading : Z;
  in_queue : list byte;
  request_expected : Z;
  request_read : Z;
  request_completed : Z;
  current_reply : list (list byte);
  replies : list (Z * list (list byte));
  events : list (list byte);
  readers : list reader;
  pending_replies : list pending_reply
}.

Definition set_in_reading (v : Z) (r : xcb_in) : xcb_in :=
  XcbIn v (in_queue r) (request_expected r) (request_read r) (request_completed r)
    (current_reply r) (replies r) (events r) (readers r) (pending_replies r).
Definition set_in_queue (v : list byte) (r : xcb_in) : xcb_in :=
  XcbIn (in_reading r) v (request_expected r) (request_read r) (request_completed r)
    (current_reply r) (replies r) (events r) (readers r) (pending_replies r).
Definition set_request_expected (v : Z) (r : xcb_in) : xcb_in :=
  XcbIn (in_reading r) (in_queue r) v (request_read r) (request_completed r)
    (current_reply r) (replies r) (events r) (readers r) (pending_replies r).
Definition set_request_read (v : Z) (r : xcb_in) : xcb_in :=
  XcbIn (in_reading r) (in_queue r) (request_expected r) v (request_completed r)
    (current_reply r) (replies r) (events r) (readers r) (pending_replies r).
Definition set_request_completed (v : Z) (r : xcb_in) : xcb_in :=
  XcbIn (in_reading r) (in_queue r) (request_expected r) (request_read r) v
    (current_reply r) (replies r) (events r) (readers r) (pending_replies r).
Definition set_current_reply (v : list (list byte)) (r : xcb_in) : xcb_in :=
  XcbIn (in_reading r) (in_queue r) (request_expected r) (request_read r)
    (request_completed r) v (replies r) (events r) (readers r) (pending_replies r).
Definition set_replies (v : list (Z * list (list byte))) (r : xcb_in) : xcb_in :=
  XcbIn (in_reading r) (in_queue r) (request_expected r) (request_read r)
    (request_completed r) (current_reply r) v (events r) (readers r) (pending_replies r).
Definition set_events (v : list (list byte)) (r : xcb_in) : xcb_in :=
  XcbIn (in_reading r) (in_queue r) (request_expected r) (request_read r)
    (request_completed r) (current_reply r) (replies r) v (readers r) (pending_replies r).
Definition set_readers (v : list reader) (r : xcb_in) : xcb_in :=
  XcbIn (in_reading r) (in_queue r) (request_expected r) (request_read r)
    (request_completed r) (current_reply r) (replies r) (events r) v (pending_replies r).
Definition set_pending_replies (v : list pending_reply) (r : xcb_in) : xcb_in :=
  XcbIn (in_reading r) (in_queue r) (request_expected r) (request_read r)
    (request_completed r) (current_reply r) (replies r) (events r) (readers r) v.

(** Two input states whose fields are equal: the setters are unfolded before the
    terms are compared. *)
Ltac in_fields :=
  cbv [set_in_reading set_in_queue set_request_expected set_request_read set_request_completed
       set_current_reply set_replies set_events set_readers set_pending_replies
       in_reading in_queue request_expected request_read request_completed
       current_reply replies events readers pending_replies]; reflexivity.

(** [struct _xcb_out].  [out_return_socket] is the callback, [None] for the null
    pointer; [mrl] is the four-byte union [maximum_request_length]. *)
Record xcb_out := XcbOut {
  out_writing : Z;
  out_return_socket : option Z;
  out_socket_closure : Z;
  out_socket_moving : bool;
  out_queue : list byte;
  out_request : Z;
  out_request_written : Z;
  mrl_tag : lazy_reply_tag;
  mrl : Z
}.

Definition set_out_writing (v : Z) (r : xcb_out) : xcb_out :=
  XcbOut v (out_return_socket r) (out_socket_closure r) (out_socket_moving r) (out_queue r)
    (out_request r) (out_request_written r) (mrl_tag r) (mrl r).
Definition set_out_return_socket (v : option Z) (r : xcb_out) : xcb_out :=
  XcbOut (out_writing r) v (out_socket_closure r) (out_socket_moving r) (out_queue r)
    (out_request r) (out_request_written r) (mrl_tag r) (mrl r).
Definition set_out_socket_closure (v : Z) (r : xcb_out) : xcb_out :=
  XcbOut (out_writing r) (out_return_socket r) v (out_socket_moving r) (out_queue r)
    (out_request r) (out_request_written r) (mrl_tag r) (mrl r).
Definition set_out_socket_moving (v : bool) (r : xcb_out) : xcb_out :=
  XcbOut (out_writing r) (out_return_socket r) (out_socket_closure r) v (out_queue r)
    (out_request r) (out_request_written r) (mrl_tag r) (mrl r).
Definition set_out_queue (v : list byte) (r : xcb_out) : xcb_out :=
  XcbOut (out_writing r) (out_return_socket r) (out_socket_closure r)
    (out_socket_moving r) v (out_request r) (out_request_written r) (mrl_tag r) (mrl r).
Definition set_out_request (v : Z) (r : xcb_out) : xcb_out :=
  XcbOut (out_writing r) (out_return_socket r) (out_socket_closure r) (out_socket_moving r)
    (out_queue r) v (out_request_written r) (mrl_tag r) (mrl r).
Definition set_out_request_written (v : Z) (r : xcb_out) : xcb_out :=
  XcbOut (out_writing r) (out_return_socket r) (out_socket_closure r) (out_socket_moving r)
    (out_queue r) (out_request r) v (mrl_tag r) (mrl r).
Definition set_mrl_tag (v : lazy_reply_tag) (r : xcb_out) : xcb_out :=
  XcbOut (out_writing r) (out_return_socket r) (out_socket_closure r) (out_socket_moving r)
    (out_queue r) (out_request r) (out_request_written r) v (mrl r).
Definition set_mrl (v : Z) (r : xcb_out) : xcb_out :=
  XcbOut (out_writing r) (out_return_socket r) (out_socket_closure r) (out_socket_moving r)
    (out_queue r) (out_request r) (out_request_written r) (mrl_tag r) v.

Record xcb_xid := XcbXid {
  xid_last : Z;
  xid_base : Z;
  xid_max : Z;
  xid_inc : Z
}.

Definition set_xid_last (v : Z) (r : xcb_xid) : xcb_xid :=
  XcbXid v (xid_base r) (xid_max r) (xid_inc r).
Definition set_xid_base (v : Z) (r : xcb_xid) : xcb_xid :=
  XcbXid (xid_last r) v (xid_max r) (xid_inc r).
Definition set_xid_max (v : Z) (r : xcb_xid) : xcb_xid :=
  XcbXid (xid_last r) (xid_base r) v (xid_inc r).
Definition set_xid_inc (v : Z) (r : xcb_xid) : xcb_xid :=
  XcbXid (xid_last r) (xid_base r) (xid_max r) v.

(** The fields the library reads of a [QueryExtension] reply. *)
Record query_extension_reply := QueryExtensionReply { present : bool; major_opcode : Z }.

(** [lazyreply]: the tag with the member of the union it selects.  [LazyForced
    None] is a null reply. *)
Inductive lazyreply :=
  | LazyNone
  | LazyCookie (cookie : Z)
  | LazyForced (reply : option query_extension_reply).

(** [xcb_extension_t]: a static object of the application or of a generated
    file; [ext_addr] is its address. *)
Record xcb_extension := Extension { ext_addr : nat; ext_name : string }.

(** The fields the library reads of the connection setup. *)
Record setup_info := SetupInfo {
  setup_maximum_request_length : Z;
  setup_resource_id_base : Z;
  setup_resource_id_mask : Z
}.

(** ** The operating system

    Each system call consumes the next event of its own tape.  [recv] on an
    exhausted tape reports [EAGAIN]; [poll] on an exhausted tape never returns.
    [os_sent] collects the bytes the kernel has accepted and [os_signals] the
    condition variables that were signalled, oldest first. *)

Inductive recv_event :=
  | RecvData (bs : list byte)   (** a non-empty chunk of the server's stream *)
  | RecvAgain                   (** [EAGAIN] *)
  | RecvEof                     (** the peer closed; stays so *)
  | RecvError.                  (** any other error *)

Inductive poll_event :=
  | PollReady (revents : Z)
  | PollIntr                    (** -1 with [EINTR] *)
  | PollError.

Inductive writev_event :=
  | WritevData (n : Z)          (** at most [n] bytes are taken *)
  | WritevAgain
  | WritevError.

(** The addresses the library connects sockets to: a file, a name in the abstract
    name space, or what [getaddrinfo] returned. *)
Inductive sockaddr :=
  | AddrUnix (path : list byte)
  | AddrAbstract (name : list byte)
  | AddrInfo (addr : list byte).

(** Descriptors, sockets and the blocks of the heap whose release is modelled.
    Calls that can fail follow tapes. *)
Record net_state := NetState {
  net_fds : list Z;  (** the open descriptors *)
  net_next_fd : Z;  (** the next descriptor *)
  net_connected : list (Z * sockaddr);  (** what descriptors have been connected to *)
  net_socks : list Z;  (** the errors of the next [socket] calls, 0 for success, then always 0 *)
  net_conns : list Z;  (** the same for [connect] *)
  net_errno : Z;  (** [errno] *)
  net_names : list (option (list byte));  (** the results of the next [getpeername] and [getsockname], [None] for -1, then always -1 *)
  net_live : list nat;  (** the allocated blocks of the heap *)
  net_nonce : Z  (** the static variable of [next_nonce] *)
}.

Definition set_net_fds (v : list Z) (n : net_state) : net_state :=
  NetState v (net_next_fd n) (net_connected n) (net_socks n) (net_conns n) (net_errno n)
    (net_names n) (net_live n) (net_nonce n).
Definition set_net_next_fd (v : Z) (n : net_state) : net_state :=
  NetState (net_fds n) v (net_connected n) (net_socks n) (net_conns n) (net_errno n)
    (net_names n) (net_live n) (net_nonce n).
Definition set_net_connected (v : list (Z * sockaddr)) (n : net_state) : net_state :=
  NetState (net_fds n) (net_next_fd n) v (net_socks n) (net_conns n) (net_errno n)
    (net_names n) (net_live n) (net_nonce n).
Definition set_net_socks (v : list Z) (n : net_state) : net_state :=
  NetState (net_fds n) (net_next_fd n) (net_connected n) v (net_conns n) (net_errno n)
    (net_names n) (net_live n) (net_nonce n).
Definition set_net_conns (v : list Z) (n : net_state) : net_state :=
  NetState (net_fds n) (net_next_fd n) (net_connected n) (net_socks n) v (net_errno n)
    (net_names n) (net_live n) (net_nonce n).
Definition set_net_errno (v : Z) (n : net_state) : net_state :=
  NetState (net_fds n) (net_next_fd n) (net_connected n) (net_socks n) (net_conns n) v
    (net_names n) (net_live n) (net_nonce n).
Definition set_net_names (v : list (option (list byte))) (n : net_state) : net_state :=
  NetState (net_fds n) (net_next_fd n) (net_connected n) (net_socks n) (net_conns n)
    (net_errno n) v (net_live n) (net_nonce n).
Definition set_net_live (v : list nat) (n : net_state) : net_state :=
  NetState (net_fds n) (net_next_fd n) (net_connected n) (net_socks n) (net_conns n)
    (net_errno n) (net_names n) v (net_nonce n).
Definition set_net_nonce (v : Z) (n : net_state) : net_state :=
  NetState (net_fds n) (net_next_fd n) (net_connected n) (net_socks n) (net_conns n)
    (net_errno n) (net_names n) (net_live n) v.

Record os_state := OsState {
  os_recvs : list recv_event;
  os_polls : list poll_event;
  os_writevs : list writev_event;
  os_mallocs : list bool;  (** do the next allocations succeed? then always *)
  os_sysrets : list bool;  (** do the next miscellaneous calls succeed? then always *)
  os_sent : list byte;
  os_signals : list wakeup;
  os_stderr : list byte;
  os_net : net_state;
  os_fresh : nat;  (** the next stack address *)
  os_global_ids : list (nat * Z);  (** [ext->global_id] of the extension objects, 0 if absent *)
  os_next_global_id : Z
}.

Definition set_os_recvs (v : list recv_event) (r : os_state) : os_state :=
  OsState v (os_polls r) (os_writevs r) (os_mallocs r) (os_sysrets r) (os_sent r)
    (os_signals r) (os_stderr r) (os_net r) (os_fresh r) (os_global_ids r)
    (os_next_global_id r).
Definition set_os_polls (v : list poll_event) (r : os_state) : os_state :=
  OsState (os_recvs r) v (os_writevs r) (os_mallocs r) (os_sysrets r) (os_sent r)
    (os_signals r) (os_stderr r) (os_net r) (os_fresh r) (os_global_ids r)
    (os_next_global_id r).
Definition set_os_writevs (v : list writev_event) (r : os_state) : os_state :=
  OsState (os_recvs r) (os_polls r) v (os_mallocs r) (os_sysrets r) (os_sent r)
    (os_signals r) (os_stderr r) (os_net r) (os_fresh r) (os_global_ids r)
    (os_next_global_id r).
Definition set_os_mallocs (v : list bool) (r : os_state) : os_state :=
  OsState (os_recvs r) (os_polls r) (os_writevs r) v (os_sysrets r) (os_sent r)
    (os_signals r) (os_stderr r) (os_net r) (os_fresh r) (os_global_ids r)
    (os_next_global_id r).
Definition set_os_sysrets (v : list bool) (r : os_state) : os_state :=
  OsState (os_recvs r) (os_polls r) (os_writevs r) (os_mallocs r) v (os_sent r)
    (os_signals r) (os_stderr r) (os_net r) (os_fresh r) (os_global_ids r)
    (os_next_global_id r).
Definition set_os_sent (v : list byte) (r : os_state) : os_state :=
  OsState (os_recvs r) (os_polls r) (os_writevs r) (os_mallocs r) (os_sysrets r) v
    (os_signals r) (os_stderr r) (os_net r) (os_fresh r) (os_global_ids r)
    (os_next_global_id r).
Definition set_os_signals (v : list wakeup) (r : os_state) : os_state :=
  OsState (os_recvs r) (os_polls r) (os_writevs r) (os_mallocs r) (os_sysrets r)
    (os_sent r) v (os_stderr r) (os_net r) (os_fresh r) (os_global_ids r)
    (os_next_global_id r).
Definition set_os_stderr (v : list byte) (r : os_state) : os_state :=
  OsState (os_recvs r) (os_polls r) (os_writevs r) (os_mallocs r) (os_sysrets r) (os_sent r)
    (os_signals r) v (os_net r) (os_fresh r) (os_global_ids r) (os_next_global_id r).
Definition set_os_net (v : net_state) (r : os_state) : os_state :=
  OsState (os_recvs r) (os_polls r) (os_writevs r) (os_mallocs r) (os_sysrets r) (os_sent r)
    (os_signals r) (os_stderr r) v (os_fresh r) (os_global_ids r) (os_next_global_id r).
Definition set_os_fresh (v : nat) (r : os_state) : os_state :=
  OsState (os_recvs r) (os_polls r) (os_writevs r) (os_mallocs r) (os_sysrets r) (os_sent r)
    (os_signals r) (os_stderr r) (os_net r) v (os_global_ids r) (os_next_global_id r).
Definition set_os_global_ids (v : list (nat * Z)) (r : os_state) : os_state :=
  OsState (os_recvs r) (os_polls r) (os_writevs r) (os_mallocs r) (os_sysrets r) (os_sent r)
    (os_signals r) (os_stderr r) (os_net r) (os_fresh r) v (os_next_global_id r).
Definition set_os_next_global_id (v : Z) (r : os_state) : os_state :=
  OsState (os_recvs r) (os_polls r) (os_writevs r) (os_mallocs r) (os_sysrets r) (os_sent r)
    (os_signals r) (os_stderr r) (os_net r) (os_fresh r) (os_global_ids r) v.

Record world := World {
  has_error : bool;
  fd : Z;
  setup : option (list byte);
  w_in : xcb_in;
  w_out : xcb_out;
  w_ext : list lazyreply;
  w_xid : xcb_xid;
  held : list mutex;  (** the mutexes the running thread holds *)
  w_os : os_state
}.

Definition set_has_error (v : bool) (r : world) : world :=
  World v (fd r) (setup r) (w_in r) (w_out r) (w_ext r) (w_xid r) (held r) (w_os r).
Definition set_fd (v : Z) (r : world) : world :=
  World (has_error r) v (setup r) (w_in r) (w_out r) (w_ext r) (w_xid r) (held r) (w_os r).
Definition set_setup (v : option (list byte)) (r : world) : world :=
  World (has_error r) (fd r) v (w_in r) (w_out r) (w_ext r) (w_xid r) (held r) (w_os r).
Definition set_w_in (v : xcb_in) (r : world) : world :=
  World (has_error r) (fd r) (setup r) v (w_out r) (w_ext r) (w_xid r) (held r) (w_os r).
Definition set_w_out (v : xcb_out) (r : world) : world :=
  World (has_error r) (fd r) (setup r) (w_in r) v (w_ext r) (w_xid r) (held r) (w_os r).
Definition set_w_ext (v : list lazyreply) (r : world) : world :=
  World (has_error r) (fd r) (setup r) (w_in r) (w_out r) v (w_xid r) (held r) (w_os r).
Definition set_w_xid (v : xcb_xid) (r : world) : world :=
  World (has_error r) (fd r) (setup r) (w_in r) (w_out r) (w_ext r) v (held r) (w_os r).
Definition set_held (v : list mutex) (r : world) : world :=
  World (has_error r) (fd r) (setup r) (w_in r) (w_out r) (w_ext r) (w_xid r) v (w_os r).
Definition set_w_os (v : os_state) (r : world) : world :=
  World (has_error r) (fd r) (setup r) (w_in r) (w_out r) (w_ext r) (w_xid r) (held r) v.

Abbreviation xM := (M world).

Definition modify_in (f : xcb_in → xcb_in) : xM () := modify (λ w, set_w_in (f (w_in w)) w).
Definition modify_out (f : xcb_out → xcb_out) : xM () := modify (λ w, set_w_out (f (w_out w)) w).
Definition modify_xid (f : xcb_xid → xcb_xid) : xM () := modify (λ w, set_w_xid (f (w_xid w)) w).
Definition modify_net (f : net_state → net_state) : xM () :=
  modify (λ w, set_w_os (set_os_net (f (os_net (w_os w))) (w_os w)) w).
Definition modify_os (f : os_state → os_state) : xM () := modify (λ w, set_w_os (f (w_os w)) w).

(** ** Generated code and constants

    [src/Makefile.am] runs [c_client.py] to produce the request stubs and the
    protocol headers.  What the library uses of them are parameters. *)
(** [xcb_setup_request_t]: the fields [write_setup] fills in. *)
Record setup_request := SetupRequest {
  byte_order : Z;
  protocol_major_version : Z;
  protocol_minor_version : Z;
  authorization_protocol_name_len : Z;
  authorization_protocol_data_len : Z
}.

Class XProto := {
  (** the structure in memory *)
  setup_request_bytes : setup_request → list byte;
  (** [xcb_setup_failed_reason] and [xcb_setup_failed_reason_length]: the offset
      and the length of the text in a reply; and the same for a reply that asks
      for authentication *)
  setup_failed_reason : list byte → Z * Z;
  setup_authenticate_reason : list byte → Z * Z;
  XCB_KEYMAP_NOTIFY : Z;
  setup_view : list byte → setup_info;
  xcb_big_requests_id : xcb_extension;
  xcb_xc_misc_id : xcb_extension;
  (** [xcb_query_extension(c, strlen(name), name)]: the cookie's sequence *)
  xcb_query_extension : string → xM Z;
  (** [xcb_query_extension_reply(c, cookie, 0)] *)
  xcb_query_extension_reply : Z → xM (option query_extension_reply);
  xcb_big_requests_enable : xM Z;
  (** the reply's [maximum_request_length], [None] for a null reply *)
  xcb_big_requests_enable_reply : Z → xM (option Z);
  xcb_xc_misc_get_xid_range : xM Z;
  (** the reply's [start_id] and [count] *)
  xcb_xc_misc_get_xid_range_reply : Z → xM (option (Z * Z));
  xcb_get_input_focus : xM Z;
  (** the reply and the error of [xcb_get_input_focus_reply(c, cookie, &e)] *)
  xcb_get_input_focus_reply : Z → xM (option (list byte) * option (list byte));
  (** the application's [return_socket] callbacks *)
  return_socket_callback : Z → Z → xM ()
}.

(** ** System calls *)

(** [malloc]: no object is larger than [PTRDIFF_MAX]. *)
Definition malloc (size : Z) : xM bool :=
  if 2 ^ 63 <=? u64 size then ret false else
  l ← gets (os_mallocs ∘ w_os);
  match l with
  | [] => ret true
  | b :: t => modify_os (set_os_mallocs t);; ret b
  end.

(** Calls of which only success or failure matters ([fcntl],
    [pthread_mutex_init], [pthread_cond_init]). *)
Definition sysret : xM bool :=
  l ← gets (os_sysrets ∘ w_os);
  match l with
  | [] => ret true
  | b :: t => modify_os (set_os_sysrets t);; ret b
  end.

(** The result of [recv]: the bytes received (none at end of file), [EAGAIN], or
    another error. *)
Inductive recv_result := Received (bs : list byte) | RecvWouldBlock | RecvFailed.

(** [recv(fd, buf, n, MSG_WAITALL)]. *)
Definition recv (n : Z) : xM recv_result :=
  if n <=? 0 then ret (Received []) else
  l ← gets (os_recvs ∘ w_os);
  match l with
  | [] => ret RecvWouldBlock
  | RecvData bs :: t =>
      if zlength bs <=? n then modify_os (set_os_recvs t);; ret (Received bs)
      else modify_os (set_os_recvs (RecvData (drop (Z.to_nat n) bs) :: t));;
           ret (Received (take (Z.to_nat n) bs))
  | RecvAgain :: t => modify_os (set_os_recvs t);; ret RecvWouldBlock
  | RecvEof :: _ => ret (Received [])
  | RecvError :: t => modify_os (set_os_recvs t);; ret RecvFailed
  end.

Fixpoint skip_intr (l : list poll_event) : list poll_event :=
  match l with
  | PollIntr :: t => skip_intr t
  | _ => l
  end.

(** [do { ret = poll(&pfd, 1, -1); } while (ret == -1 && errno == EINTR)]: the
    returned events, or [None] for -1. *)
Definition poll : xM (option Z) :=
  modify_os (λ o, set_os_polls (skip_intr (os_polls o)) o);;
  l ← gets (os_polls ∘ w_os);
  match l with
  | PollReady r :: t => modify_os (set_os_polls t);; ret (Some r)
  | PollError :: t => modify_os (set_os_polls t);; ret None
  | _ => sleep
  end.

Inductive writev_result := Written (n : Z) | WritevWouldBlock | WritevFailed.

(** [writev(fd, vector, count)]: takes a prefix of the bytes, all of them once the
    tape is exhausted. *)
Definition writev (vector : list (list byte)) : xM writev_result :=
  let total := zlength (concat vector) in
  l ← gets (os_writevs ∘ w_os);
  match l with
  | [] =>
      modify_os (λ o, set_os_sent (os_sent o ++ concat vector) o);; ret (Written total)
  | WritevData n :: t =>
      let n' := Z.max 0 (Z.min n total) in
      modify_os (λ o, set_os_writevs t
        (set_os_sent (os_sent o ++ take (Z.to_nat n') (concat vector)) o));;
      ret (Written n')
  | WritevAgain :: t => modify_os (set_os_writevs t);; ret WritevWouldBlock
  | WritevError :: t => modify_os (set_os_writevs t);; ret WritevFailed
  end.

(** ** Threads

    A run is that of one thread.  A [pthread_cond_wait] therefore never returns;
    Threads.v cuts the functions there and lets other threads run.  Mutexes are
    default mutexes, which a thread must not lock twice. *)

Definition pthread_mutex_lock (l : mutex) : xM () :=
  h ← gets held;
  if decide (l ∈ h) then fail FDeadlock else modify (λ w, set_held (l :: h) w).

Fixpoint remove_mutex (l : mutex) (h : list mutex) : list mutex :=
  match h with
  | [] => []
  | l' :: t => if decide (l = l') then t else l' :: remove_mutex l t
  end.

Definition pthread_mutex_unlock (l : mutex) : xM () :=
  h ← gets held;
  if decide (l ∈ h) then modify (λ w, set_held (remove_mutex l h) w) else fail FUnlock.

Definition pthread_cond_wait (c : cond) (l : mutex) : xM () :=
  pthread_mutex_unlock l;; sleep.

Definition pthread_cond_signal (c : cond) : xM () :=
  modify_os (λ o, set_os_signals (os_signals o ++ [Signal c]) o).

Definition pthread_cond_broadcast (c : cond) : xM () :=
  modify_os (λ o, set_os_signals (os_signals o ++ [Broadcast c]) o).

(** [_xcb_conn_shutdown] *)
Definition _xcb_conn_shutdown : xM () := modify (set_has_error true).
