(* ===== verification/Sample.v ===== *)
(** * A concrete connection

    An instance of the parameters and worlds to evaluate the definitions on: a
    little-endian machine, a server whose setup allows requests of 65535 words,
    and generated stubs that answer at once. *)
From S2P Require Import Prelude Effects State.
#[local] Open Scope Z_scope.

Definition sample_host : Host := LittleEndian.

Definition sample_proto : XProto := {|
  setup_request_bytes := λ r,
    [byte_of (byte_order r); Byte.x00] ++
    le_bytes 2 (protocol_major_version r) ++ le_bytes 2 (protocol_minor_version r) ++
    le_bytes 2 (authorization_protocol_name_len r) ++
    le_bytes 2 (authorization_protocol_data_len r) ++ [Byte.x00; Byte.x00];
  setup_failed_reason := λ bs, (8, le_val (take 1 (drop 1 bs)));
  setup_authenticate_reason := λ bs, (8, 4 * le_val (take 2 (drop 6 bs)));
  XCB_KEYMAP_NOTIFY := 11;
  setup_view := λ _, SetupInfo 65535 0x400000 0x1fffff;
  xcb_big_requests_id := Extension 1 "BIG-REQUESTS";
  xcb_xc_misc_id := Extension 2 "XC-MISC";
  xcb_query_extension := λ _, ret 7;
  xcb_query_extension_reply := λ _, ret (Some (QueryExtensionReply true 130));
  xcb_big_requests_enable := ret 8;
  xcb_big_requests_enable_reply := λ _, ret (Some 4194303);
  xcb_xc_misc_get_xid_range := ret 9;
  xcb_xc_misc_get_xid_range_reply := λ _, ret (Some (0x700, 16));
  xcb_get_input_focus := ret 10;
  xcb_get_input_focus_reply := λ _, ret (None, None);
  return_socket_callback := λ _ _, ret ()
|}.

Definition sample_in (queue : list byte) : xcb_in := XcbIn 0 queue 0 0 0 [] [] [] [] [].

Definition sample_out (queue : list byte) (request written : Z) : xcb_out :=
  XcbOut 0 None 0 false queue request written LAZY_FORCED 65535.

(** Descriptor 3 is the connection's. *)
Definition sample_net : net_state := NetState [3] 4 [] [] [] 0 [] [] 0.

(** The tapes that matter to an example; everything else succeeds. *)
Definition sample_os (recvs : list recv_event) (polls : list poll_event)
    (writevs : list writev_event) : os_state :=
  OsState recvs polls writevs [] [] [] [] [] sample_net 0 [] 0.

Definition sample_world (i : xcb_in) (o : xcb_out) (os : os_state) : world :=
  World false 3 (Some []) i o [] (XcbXid 0 0x400000 0 1) [] os.

(** The world a computation ends in, and its result. *)
Definition final {A} (w : world) (r : result world A) : world :=
  match r with Ret _ w' => w' | _ => w end.

Definition value {A} (d : A) (r : result world A) : A :=
  match r with Ret a _ => a | _ => d end.

Lemma returned {A} (d : A) (w : world) (r : result world A) :
  match r with Ret _ _ => true | _ => false end = true → r = Ret (value d r) (final w r).
Proof. by destruct r. Qed.
