(* ===== verification/In.v ===== *)
(** * Reading from the server: [src/xcb_in.c]

    The packet reader, the queues it fills, the bookkeeping of pending replies,
    and the non-blocking half of the public interface.  The functions that
    block are in Wait.v. *)
From S2P Require Import Prelude Effects Seq XcbMap State.
#[local] Open Scope Z_scope.

(** [xcb_generic_reply_t] *)
Record generic_reply := GenericReply {
  response_type : Z;
  sequence : Z;
  reply_length : Z
}.

(** [xcb_generic_event_t], [xcb_ge_event_t] and [xcb_generic_error_t], without
    their padding. *)
Record generic_event := GenericEvent {
  ev_response_type : Z;
  ev_sequence : Z;
  ev_full_sequence : Z
}.

Record ge_event := GeEvent {
  ge_response_type : Z;
  ge_sequence : Z;
  ge_length : Z;
  ge_event_type : Z;
  ge_full_sequence : Z
}.

Record generic_error := GenericError {
  err_response_type : Z;
  err_error_code : Z;
  err_sequence : Z;
  err_resource_id : Z;
  err_minor_code : Z;
  err_major_code : Z;
  err_full_sequence : Z
}.

Section In.
Context `{Host} `{XProto}.

(** [memcpy(&genrep, c->in.queue, sizeof(genrep))] *)
Definition parse_generic_reply (buf : list byte) : generic_reply :=
  GenericReply (field 0 1 buf) (field 2 2 buf) (field 4 4 buf).

(** The bytes of a buffer as the application sees them through these types. *)
Definition parse_generic_event (buf : list byte) : generic_event :=
  GenericEvent (field 0 1 buf) (field 2 2 buf) (field 32 4 buf).
Definition parse_ge_event (buf : list byte) : ge_event :=
  GeEvent (field 0 1 buf) (field 2 2 buf) (field 4 4 buf) (field 8 2 buf) (field 32 4 buf).
Definition parse_generic_error (buf : list byte) : generic_error :=
  GenericError (field 0 1 buf) (field 1 1 buf) (field 2 2 buf) (field 4 4 buf) (field 8 2 buf)
    (field 10 1 buf) (field 32 4 buf).

(** The loop of [read_block]; [buf] holds the [done] bytes read so far. *)
Fixpoint read_block_loop (fuel : nat) (len : Z) (buf : list byte)
    : xM (Z * list byte) :=
  match fuel with
  | O => fail FFuel
  | S fuel' =>
      if zlength buf <? len then
        r ← recv (len - zlength buf);
        match r with
        | Received [] => ret (0, buf)
        | Received bs => read_block_loop fuel' len (buf ++ bs)
        | RecvFailed => ret (-1, buf)
        | RecvWouldBlock =>
            p ← poll;
            match p with
            | None => ret (-1, buf)
            | Some _ => read_block_loop fuel' len buf
            end
        end
      else ret (len, buf)
  end.

(** Every iteration uses up an event of a tape. *)
Definition read_block (len : Z) : xM (Z * list byte) :=
  fuel ← gets (λ w, S (length (os_recvs (w_os w)) + length (os_polls (w_os w))));
  read_block_loop fuel len [].

(** [_xcb_in_read_block(c, buf, len)], [room] bytes being available at [buf]:
    the C result and the bytes stored. *)
Definition _xcb_in_read_block (room len : Z) : xM (Z * list byte) :=
  if room <? len then fail FOutOfBounds else
  queue ← gets (in_queue ∘ w_in);
  let done := if len <? zlength queue then len else zlength queue in
  if done <? 0 then fail FOutOfBounds else
  modify_in (set_in_queue (drop (Z.to_nat done) queue));;
  let buf := take (Z.to_nat done) queue in
  if done <? len then
    r ← read_block (len - done);
    if r.1 <=? 0 then _xcb_conn_shutdown;; ret (r.1, buf ++ r.2)
    else ret (len, buf ++ r.2)
  else ret (len, buf).

(** [_xcb_map_put(c->in.replies, key, data)]; the key is an [unsigned int]. *)
Definition replies_put (k : Z) (d : list (list byte)) : xM bool :=
  ok ← malloc 24;
  if ok then modify_in (λ i, set_replies (map_put (replies i) (u32 k) d) i);; ret true
  else ret false.

(** Drop the pending replies whose last request is complete. *)
Fixpoint drop_completed (completed : Z) (l : list pending_reply) : list pending_reply :=
  match l with
  | [] => []
  | p :: t =>
      if negb (bool_decide (workaround p = WORKAROUND_EXTERNAL_SOCKET_OWNER)) &&
         XCB_SEQUENCE_COMPARE (last_request p) Z.leb completed
      then drop_completed completed t else l
  end.

(** [read_packet]: the sequence number of the packet and what follows from it. *)
Definition update_sequence (genrep : generic_reply) : xM () :=
  if Z.land (response_type genrep) 0x7f =? XCB_KEYMAP_NOTIFY then ret () else
  lastread ← gets (request_read ∘ w_in);
  let rr := read_sequence lastread (sequence genrep) in
  modify_in (set_request_read rr);;
  expected ← gets (request_expected ∘ w_in);
  when (XCB_SEQUENCE_COMPARE rr Z.gtb expected) (modify_in (set_request_expected rr));;
  when (negb (rr =? lastread))
    (cur ← gets (current_reply ∘ w_in);
     when (negb (bool_decide (cur = [])))
       (replies_put lastread cur;; modify_in (set_current_reply []));;
     modify_in (set_request_completed (u64 (rr - 1))));;
  modify_in (λ i, set_pending_replies
    (drop_completed (request_completed i) (pending_replies i)) i);;
  when (response_type genrep =? XCB_ERROR) (modify_in (set_request_completed rr)).

(** The first pending reply, if it covers the request being read. *)
Definition matching_pend (i : xcb_in) : option pending_reply :=
  match pending_replies i with
  | [] => None
  | p :: _ =>
      if XCB_SEQUENCE_COMPARE (first_request p) Z.leb (request_read i) &&
         (bool_decide (workaround p = WORKAROUND_EXTERNAL_SOCKET_OWNER) ||
          XCB_SEQUENCE_COMPARE (request_read i) Z.leb (last_request p))
      then Some p else None
  end.

(** [pend] as [read_packet] computes it: null unless the packet is an error or
    a reply. *)
Definition find_pend (genrep : generic_reply) (i : xcb_in) : option pending_reply :=
  if (response_type genrep =? XCB_ERROR) || (response_type genrep =? XCB_REPLY)
  then matching_pend i else None.

(** [pend && (pend->flags & f)] *)
Definition pend_flag (pend : option pending_reply) (f : Z) : bool :=
  match pend with None => false | Some p => has_flag (flags p) f end.

(** The values of [length] and [eventlength]. *)
Definition packet_lengths (genrep : generic_reply) (pend : option pending_reply)
    (queue : list byte) : Z * Z :=
  if response_type genrep =? XCB_REPLY then
    let len :=
      match pend with
      | Some p =>
          if bool_decide (workaround p = WORKAROUND_GLX_GET_FB_CONFIGS_BUG)
          then u32 (u32 (field 8 4 queue * field 12 4 queue) * 2)
          else reply_length genrep
      | None => reply_length genrep
      end in
    (s32 (32 + u32 (len * 4)), 0)
  else if response_type genrep =? XCB_XGE_EVENT then
    (32, s32 (u32 (reply_length genrep * 4)))
  else (32, 0).

(** The argument of [malloc] in [read_packet]. *)
Definition packet_size (genrep : generic_reply) (len eventlen : Z) : Z :=
  u64 (s32 (len + eventlen) + (if response_type genrep =? XCB_REPLY then 0 else 4)).

(** The first reader the loop signals. *)
Fixpoint find_reader (l : list reader) (read : Z) : option reader :=
  match l with
  | [] => None
  | r :: t =>
      if XCB_SEQUENCE_COMPARE_32 (reader_request r) Z.leb read then
        if XCB_SEQUENCE_COMPARE_32 (reader_request r) Z.eqb read then Some r
        else find_reader t read
      else None
  end.

(** "reply, or checked error" *)
Definition deliver_reply (buf : list byte) : xM bool :=
  ok ← malloc 16;
  if negb ok then _xcb_conn_shutdown;; ret false else
  modify_in (λ i, set_current_reply (current_reply i ++ [buf]) i);;
  i ← gets w_in;
  match find_reader (readers i) (request_read i) with
  | Some r => pthread_cond_signal (ReaderCond (reader_id r))
  | None => ret ()
  end;;
  ret true.

(** "event, or unchecked error" *)
Definition deliver_event (buf : list byte) : xM bool :=
  ok ← malloc 16;
  if negb ok then _xcb_conn_shutdown;; ret false else
  modify_in (λ i, set_events (events i ++ [buf]) i);;
  pthread_cond_signal EventCond;;
  ret true.

(** [read_packet] once the whole packet has been read into its buffer: [bs] the
    first [length] bytes, [ev] the rest of a generic event. *)
Definition dispatch_packet (genrep : generic_reply) (pend : option pending_reply)
    (size : Z) (bs ev : list byte) : xM bool :=
  if pend_flag pend XCB_REQUEST_DISCARD_REPLY then ret true else
  if response_type genrep =? XCB_REPLY then deliver_reply bs else
  if size <? 36 then fail FOutOfBounds else
  rr ← gets (request_read ∘ w_in);
  let buf := bs ++ host_bytes 4 rr ++ ev in
  if (response_type genrep =? XCB_ERROR) && pend_flag pend XCB_REQUEST_CHECKED
  then deliver_reply buf else deliver_event buf.

(** [read_packet] from [malloc] on. *)
Definition receive_packet (genrep : generic_reply) (pend : option pending_reply)
    (len eventlen : Z) : xM bool :=
  let size := packet_size genrep len eventlen in
  ok ← malloc size;
  if negb ok then _xcb_conn_shutdown;; ret false else
  r ← _xcb_in_read_block size len;
  if r.1 <=? 0 then ret false else
  if eventlen =? 0 then dispatch_packet genrep pend size r.2 [] else
  e ← _xcb_in_read_block (size - 36) eventlen;
  if e.1 <=? 0 then ret false else dispatch_packet genrep pend size r.2 e.2.

Definition read_packet : xM bool :=
  queue ← gets (in_queue ∘ w_in);
  if zlength queue <? 32 then ret false else
  let genrep := parse_generic_reply queue in
  update_sequence genrep;;
  i ← gets w_in;
  let pend := find_pend genrep i in
  let lens := packet_lengths genrep pend queue in
  receive_packet genrep pend lens.1 lens.2.

(** [while(read_packet(c));] *)
Fixpoint read_packets (fuel : nat) : xM () :=
  match fuel with
  | O => fail FFuel
  | S fuel' => b ← read_packet; if b then read_packets fuel' else ret ()
  end.

(** [_xcb_in_read]; the fuel covers every packet, since each one shortens the
    queue.  The C code looks at [errno] after the loop: when [recv] has failed the
    queue is what the last call left, less than a header, so that nothing has
    changed [errno] in between. *)
Definition _xcb_in_read : xM bool :=
  queue ← gets (in_queue ∘ w_in);
  r ← recv (IN_QUEUE_SIZE - zlength queue);
  let bs := match r with Received bs => bs | _ => [] end in
  modify_in (set_in_queue (queue ++ bs));;
  read_packets (S (length (queue ++ bs)));;
  match r with
  | Received (_ :: _) | RecvWouldBlock => ret true
  | _ => _xcb_conn_shutdown;; ret false
  end.

Definition get_event : xM (option (list byte)) :=
  l ← gets (events ∘ w_in);
  match l with
  | [] => ret None
  | e :: t => modify_in (set_events t);; ret (Some e)
  end.

(** The end of [poll_for_reply]: [Some] of what is stored in [*reply] and
    [*error].  [want_error] says whether [error] is not null. *)
Definition return_reply (head : option (list byte)) (want_error : bool)
    : xM (option (option (list byte) * option (list byte))) :=
  match head with
  | None => ret (Some (None, None))
  | Some buf =>
      if zlength buf <? 1 then fail FOutOfBounds else
      if field 0 1 buf =? XCB_ERROR
      then ret (Some (None, if want_error then Some buf else None))
      else ret (Some (Some buf, None))
  end.

(** [poll_for_reply]; [None] is the result 0, "would block". *)
Definition poll_for_reply (request : Z) (want_error : bool)
    : xM (option (option (list byte) * option (list byte))) :=
  i ← gets w_in;
  if request =? 0 then return_reply None want_error
  else if XCB_SEQUENCE_COMPARE_32 request Z.ltb (request_read i) then
    let r := map_remove (replies i) request in
    modify_in (set_replies r.2);;
    match r.1 with
    | Some (buf :: rest) =>
        when (negb (bool_decide (rest = []))) (replies_put request rest;; ret ());;
        return_reply (Some buf) want_error
    | _ => return_reply None want_error
    end
  else
    match current_reply i with
    | buf :: rest =>
        if XCB_SEQUENCE_COMPARE_32 request Z.eqb (request_read i) then
          modify_in (set_current_reply rest);; return_reply (Some buf) want_error
        else if XCB_SEQUENCE_COMPARE_32 request Z.eqb (request_completed i)
        then return_reply None want_error else ret None
    | [] =>
        if XCB_SEQUENCE_COMPARE_32 request Z.eqb (request_completed i)
        then return_reply None want_error else ret None
    end.

(** [insert_pending_discard]; [at_] is the number of elements before
    [prev_next]. *)
Definition insert_pending_discard (at_ : nat) (seq : Z) : xM () :=
  ok ← malloc 32;
  if negb ok then _xcb_conn_shutdown else
  modify_in (λ i, set_pending_replies
    (take at_ (pending_replies i) ++
     PendingReply seq seq WORKAROUND_NONE XCB_REQUEST_DISCARD_REPLY ::
     drop at_ (pending_replies i)) i).

Definition mark_discard (p : pending_reply) : pending_reply :=
  set_flags (Z.lor (flags p) XCB_REQUEST_DISCARD_REPLY) p.

(** The walk over the pending requests: [inl] of the list with the first match
    marked, or [inr] of the number of elements passed. *)
Fixpoint discard_walk (request : Z) (l : list pending_reply)
    : list pending_reply + nat :=
  match l with
  | [] => inr 0%nat
  | p :: t =>
      if XCB_SEQUENCE_COMPARE_32 (first_request p) Z.gtb request then inr 0%nat
      else if XCB_SEQUENCE_COMPARE_32 (first_request p) Z.eqb request
      then inl (mark_discard p :: t)
      else match discard_walk request t with
           | inl t' => inl (p :: t')
           | inr n => inr (S n)
           end
  end.

Definition discard_reply (request : Z) : xM () :=
  w ← gets id;
  let i := w_in w in
  if XCB_SEQUENCE_COMPARE_32 request Z.ltb (request_read i) then
    modify_in (set_replies (map_remove (replies i) request).2)
  else if XCB_SEQUENCE_COMPARE_32 request Z.eqb (request_read i) &&
          negb (bool_decide (current_reply i = [])) then
    modify_in (set_current_reply []);;
    match matching_pend i, pending_replies i with
    | Some p, _ :: t => modify_in (set_pending_replies (mark_discard p :: t))
    | _, _ => insert_pending_discard 0 (request_read i)
    end
  else
    match discard_walk request (pending_replies i) with
    | inl l => modify_in (set_pending_replies l)
    | inr n => insert_pending_discard n (widen (out_request (w_out w)) request)
    end.

Definition xcb_discard_reply (sequence : Z) : xM () :=
  e ← gets has_error;
  if e then ret () else
  if sequence =? 0 then ret () else
  pthread_mutex_lock IoLock;;
  discard_reply sequence;;
  pthread_mutex_unlock IoLock.

(** [xcb_poll_for_reply]; [reply] is not null. *)
Definition xcb_poll_for_reply (request : Z) (want_error : bool)
    : xM (option (option (list byte) * option (list byte))) :=
  e ← gets has_error;
  if e then ret (Some (None, None)) else
  pthread_mutex_lock IoLock;;
  r ← poll_for_reply request want_error;
  pthread_mutex_unlock IoLock;;
  ret r.

(** [xcb_poll_for_event] under [iolock]. *)
Definition poll_for_event : xM (option (list byte)) :=
  r ← get_event;
  match r with
  | Some ev => ret (Some ev)
  | None => b ← _xcb_in_read; if b then get_event else ret None
  end.

Definition xcb_poll_for_event : xM (option (list byte)) :=
  e ← gets has_error;
  if e then ret None else
  pthread_mutex_lock IoLock;;
  r ← poll_for_event;
  pthread_mutex_unlock IoLock;;
  ret r.

Definition _xcb_in_wake_up_next_reader : xM () :=
  l ← gets (readers ∘ w_in);
  match l with
  | r :: _ => pthread_cond_signal (ReaderCond (reader_id r))
  | [] => pthread_cond_signal EventCond
  end.

Definition _xcb_in_expect_reply (request : Z) (wk : workarounds) (fl : Z) : xM bool :=
  ok ← malloc 32;
  assertM (negb (bool_decide (wk = WORKAROUND_NONE)) || negb (fl =? 0));;
  if negb ok then _xcb_conn_shutdown;; ret false else
  modify_in (λ i, set_pending_replies
    (pending_replies i ++ [PendingReply request request wk fl]) i);;
  ret true.

(** [_xcb_in_replies_done] *)
Definition _xcb_in_replies_done : xM () :=
  w ← gets id;
  match last (pending_replies (w_in w)) with
  | Some p =>
      when (bool_decide (workaround p = WORKAROUND_EXTERNAL_SOCKET_OWNER))
        (modify_in (λ i, set_pending_replies
           (take (length (pending_replies i) - 1) (pending_replies i) ++
            [PendingReply (first_request p) (out_request (w_out w)) WORKAROUND_NONE (flags p)]) i))
  | None => ret ()
  end.

(** [_xcb_in_init], on a structure [calloc] has cleared. *)
Definition _xcb_in_init : xM bool :=
  ok ← sysret;
  if negb ok then ret false else
  modify_in (λ i, set_in_reading 0 (set_in_queue []
    (set_request_read 0 (set_request_completed 0 i))));;
  ok ← malloc 16;
  if negb ok then ret false else
  modify_in (set_replies []);;
  ret true.

Definition _xcb_in_destroy : xM () :=
  modify_in (λ i, set_current_reply [] (set_replies []
    (set_events [] (set_pending_replies [] i)))).
End In.
