(* ===== verification/InFrame.v ===== *)
(** * Framing and frame conditions of the input side

    Which bytes the reading functions take off the server's stream, that their
    loops terminate, and what they leave alone. *)
From S2P Require Import Prelude Effects Seq XcbMap State In.
#[local] Open Scope Z_scope.

(** ** Specifications *)

(** The bytes the server will still deliver, up to the end of its stream. *)
Fixpoint stream (l : list recv_event) : list byte :=
  match l with
  | [] => []
  | RecvData bs :: t => bs ++ stream t
  | RecvEof :: _ => []
  | _ :: t => stream t
  end.

(** Everything not yet consumed from the server: the queue, then the stream. *)
Definition input (w : world) : list byte :=
  in_queue (w_in w) ++ stream (os_recvs (w_os w)).

(** What reading from the socket may change. *)
Definition read_frame (w w' : world) : Prop :=
  (∃ rs ps, w_os w' = set_os_recvs rs (set_os_polls ps (w_os w))) ∧
  (∃ q, w_in w' = set_in_queue q (w_in w)) ∧
  w_out w' = w_out w ∧ w_ext w' = w_ext w ∧ w_xid w' = w_xid w ∧
  held w' = held w ∧ setup w' = setup w ∧
  (has_error w = true → has_error w' = true).

(** No allocation fails. *)
Definition no_oom (w : world) : Prop := os_mallocs (w_os w) = [].

(** ** System calls *)

Lemma set_queue_id i : set_in_queue (in_queue i) i = i.
Proof. by destruct i. Qed.

Lemma set_w_in_id w : set_w_in (w_in w) w = w.
Proof. by destruct w. Qed.

Lemma set_recvs_polls_id o : set_os_recvs (os_recvs o) (set_os_polls (os_polls o) o) = o.
Proof. by destruct o. Qed.

#[export] Instance read_frame_preorder : PreOrder read_frame.
Proof.
  split.
  - intros w. unfold read_frame. split_and!; try done.
    + exists (os_recvs (w_os w)), (os_polls (w_os w)). by rewrite set_recvs_polls_id.
    + exists (in_queue (w_in w)). by rewrite set_queue_id.
  - intros w1 w2 w3 ((r1 & p1 & E1) & (q1 & F1) & ? & ? & ? & ? & ? & ?)
      ((r2 & p2 & E2) & (q2 & F2) & ? & ? & ? & ? & ? & ?).
    unfold read_frame. split_and!; try congruence; eauto.
    + exists r2, p2. by rewrite E2, E1.
    + exists q2. by rewrite F2, F1.
Qed.

Lemma read_frame_queue q w : read_frame w (set_w_in (set_in_queue q (w_in w)) w).
Proof.
  unfold read_frame. split_and!; try done; [|by eexists].
  exists (os_recvs (w_os w)), (os_polls (w_os w)). by rewrite set_recvs_polls_id.
Qed.

Lemma read_frame_shutdown w : read_frame w (set_has_error true w).
Proof.
  unfold read_frame. split_and!; try done; [|by eexists; rewrite set_queue_id].
  exists (os_recvs (w_os w)), (os_polls (w_os w)). by rewrite set_recvs_polls_id.
Qed.

Lemma malloc_ok size w :
  no_oom w → u64 size < 2 ^ 63 → malloc size w = Ret true w.
Proof.
  intros Ho Hs. unfold malloc. destruct (Z.leb_spec (2 ^ 63) (u64 size)); [lia|].
  unfold bind, gets, compose. simpl. by rewrite Ho.
Qed.

Lemma malloc_small size w :
  no_oom w → 0 <= size < 2 ^ 63 → malloc size w = Ret true w.
Proof. intros ? ?. apply malloc_ok; [done|]. rewrite u64_small; lia. Qed.

Lemma length_skip_intr l : (length (skip_intr l) <= length l)%nat.
Proof. induction l as [|[] l IH]; simpl; lia. Qed.

(** [recv] takes at most [n] bytes off the stream. *)
Lemma wp_recv n w :
  0 < n →
  wp (recv n) (λ r w', read_frame w w' ∧
    os_polls (w_os w') = os_polls (w_os w) ∧ in_queue (w_in w') = in_queue (w_in w) ∧
    has_error w' = has_error w ∧
    match r with
    | Received bs => zlength bs <= n ∧
        stream (os_recvs (w_os w)) = bs ++ stream (os_recvs (w_os w')) ∧
        (bs ≠ [] → (length (os_recvs (w_os w')) < length (os_recvs (w_os w)))%nat ∨
           zlength bs = n ∧ (0 < length (os_recvs (w_os w)))%nat)
    | RecvWouldBlock =>
        stream (os_recvs (w_os w)) = stream (os_recvs (w_os w')) ∧
        ((length (os_recvs (w_os w')) < length (os_recvs (w_os w)))%nat ∨
         os_recvs (w_os w') = os_recvs (w_os w))
    | RecvFailed => stream (os_recvs (w_os w)) = stream (os_recvs (w_os w'))
    end) w.
Proof.
  intros Hn. unfold recv. destruct (Z.leb_spec n 0); [lia|].
  assert (∀ rs, read_frame w (set_w_os (set_os_recvs rs (w_os w)) w)) as Hf.
  { intros rs. unfold read_frame. split_and!; try done.
    - exists rs, (os_polls (w_os w)). by destruct w as [? ? ? ? ? ? ? ? []].
    - exists (in_queue (w_in w)). by rewrite set_queue_id. }
  assert (read_frame w w) by reflexivity.
  unfold wp, bind, gets, compose.
  destruct (os_recvs (w_os w)) as [|[bs| | |] t] eqn:E; simpl.
  - rewrite E. split_and!; auto.
  - destruct (Z.leb_spec (zlength bs) n); simpl; split_and!; auto.
    + rewrite zlength_take; lia.
    + rewrite app_assoc. f_equal. symmetry. apply take_drop.
    + intros _. right. rewrite zlength_take; lia.
  - split_and!; auto.
  - rewrite E. split_and!; auto; [rewrite zlength_nil; lia|done].
  - split_and!; auto.
Qed.

Lemma wp_poll w :
  wp poll (λ r w', read_frame w w' ∧ os_recvs (w_os w') = os_recvs (w_os w) ∧
    in_queue (w_in w') = in_queue (w_in w) ∧ has_error w' = has_error w ∧
    (length (os_polls (w_os w')) < length (os_polls (w_os w)))%nat) w.
Proof.
  pose proof (length_skip_intr (os_polls (w_os w))) as Hl.
  assert (∀ ps, read_frame w (set_w_os (set_os_polls ps
    (w_os (set_w_os (set_os_polls (skip_intr (os_polls (w_os w))) (w_os w)) w)))
    (set_w_os (set_os_polls (skip_intr (os_polls (w_os w))) (w_os w)) w))) as Hf.
  { intros ps. unfold read_frame. split_and!; try done.
    - exists (os_recvs (w_os w)), ps. by destruct w as [? ? ? ? ? ? ? ? []].
    - exists (in_queue (w_in w)). by rewrite set_queue_id. }
  unfold poll, wp, bind, gets, modify_os, modify, compose. simpl.
  destruct (skip_intr (os_polls (w_os w))) as [|[] t] eqn:E; simpl in *; try done.
  all: split_and!; [apply Hf|done..|lia].
Qed.

(** ** Reading a block *)

(** The specification of [read_block_loop] from [buf]: no fault, and in
    particular enough fuel; the bytes read extend [buf] and come off the stream
    in order; a positive result means the block is full. *)
Lemma wp_read_block_loop fuel len buf w :
  (length (os_recvs (w_os w)) + length (os_polls (w_os w)) < fuel)%nat ∨
    (len <= zlength buf ∧ (0 < fuel)%nat) →
  zlength buf <= len → 0 < len →
  wp (read_block_loop fuel len buf) (λ r w', read_frame w w' ∧
    in_queue (w_in w') = in_queue (w_in w) ∧ has_error w' = has_error w ∧
    (0 < r.1 → r.1 = len ∧ zlength r.2 = len) ∧
    ∃ bs, r.2 = buf ++ bs ∧
      stream (os_recvs (w_os w)) = bs ++ stream (os_recvs (w_os w'))) w.
Proof.
  revert buf w. induction fuel as [|fuel IH]; intros buf w Hfuel Hlen Hpos; [lia|].
  cbn [read_block_loop].
  destruct (Z.ltb_spec (zlength buf) len) as [Hlt|Hge].
  2: { unfold wp, ret. simpl. split; [reflexivity|]. split; [done|]. split; [done|]. split.
       { intros _. split; [done|lia]. }
       exists []. by rewrite app_nil_r. }
  destruct Hfuel as [Hfuel|]; [|lia].
  apply wp_bind. eapply wp_mono; [apply wp_recv; lia|].
  intros [bs| |] w1 (Hf1 & Hp1 & Hq1 & He1 & Hr).
  - destruct Hr as (Hl & Hs & Hdec). destruct bs as [|b bs].
    { unfold wp, ret. simpl. split_and!; [done|done|done|lia|].
      exists []. by rewrite app_nil_r. }
    eapply wp_mono; [apply IH|].
    + rewrite zlength_app, Hp1. destruct Hdec as [?|[? ?]]; [done|left; lia|].
      right. lia.
    + rewrite zlength_app. lia.
    + done.
    + intros r w2 (Hf2 & Hq2 & He2 & Hr2 & bs2 & E2 & Hs2). split_and!; try congruence.
      * by transitivity w1.
      * done.
      * exists ((b :: bs) ++ bs2). rewrite E2, Hs, Hs2, !app_assoc. done.
  - destruct Hr as (Hs & Hdec). apply wp_bind. eapply wp_mono; [apply wp_poll|].
    intros [p|] w2 (Hf2 & Hr2 & Hq2 & He2 & Hd2).
    + eapply wp_mono; [apply IH; [|done..]|].
      * left. rewrite Hr2. rewrite Hp1 in Hd2. destruct Hdec as [?|Hdec]; [lia|rewrite Hdec; lia].
      * intros r w3 (Hf3 & Hq3 & He3 & Hr3 & bs3 & E3 & Hs3). split_and!; try congruence.
        -- by do 2 (etransitivity; [done|]).
        -- done.
        -- exists bs3. split; [done|]. congruence.
    + unfold wp, ret. simpl. split_and!; try congruence; try lia.
      * by transitivity w1.
      * exists []. rewrite app_nil_r. split; [done|]. simpl. congruence.
  - unfold wp, ret. simpl. split_and!; try done. exists [].
    rewrite app_nil_r. done.
Qed.

Lemma wp_read_block len w :
  0 < len →
  wp (read_block len) (λ r w', read_frame w w' ∧
    in_queue (w_in w') = in_queue (w_in w) ∧ has_error w' = has_error w ∧
    (0 < r.1 → r.1 = len ∧ zlength r.2 = len) ∧
    stream (os_recvs (w_os w)) = r.2 ++ stream (os_recvs (w_os w'))) w.
Proof.
  intros Hl. unfold read_block. apply wp_bind. unfold wp at 1. cbn [gets].
  eapply wp_mono; [apply wp_read_block_loop; [left; lia|rewrite zlength_nil; lia|done]|].
  intros r w' (? & ? & ? & ? & bs & E & ?). split_and!; try done. by rewrite E.
Qed.

(** A block that is in the queue is taken from it; nothing else changes. *)
Lemma in_read_block_queue room len w :
  0 <= len <= zlength (in_queue (w_in w)) → len <= room →
  _xcb_in_read_block room len w =
    Ret (len, take (Z.to_nat len) (in_queue (w_in w)))
      (set_w_in (set_in_queue (drop (Z.to_nat len) (in_queue (w_in w))) (w_in w)) w).
Proof.
  intros Hl Hr. unfold _xcb_in_read_block.
  destruct (Z.ltb_spec room len); [lia|]. rewrite bind_gets. unfold compose.
  assert ((if len <? zlength (in_queue (w_in w)) then len
           else zlength (in_queue (w_in w))) = len) as ->.
  { destruct (Z.ltb_spec len (zlength (in_queue (w_in w)))); lia. }
  cbv zeta. destruct (Z.ltb_spec len 0); [lia|].
  unfold modify_in. rewrite bind_modify.
  destruct (Z.ltb_spec len len); [lia|]. done.
Qed.

(** The general specification of [_xcb_in_read_block]. *)
Lemma wp_in_read_block room len w :
  0 <= len <= room →
  wp (_xcb_in_read_block room len) (λ r w', read_frame w w' ∧
    input w = r.2 ++ input w' ∧
    (0 < r.1 → r.1 = len ∧ zlength r.2 = len ∧
       in_queue (w_in w') = drop (Z.to_nat len) (in_queue (w_in w)) ∧
       has_error w' = has_error w) ∧
    (r.1 <= 0 → 0 < len → has_error w' = true)) w.
Proof.
  intros Hl. destruct (decide (len <= zlength (in_queue (w_in w)))) as [Hq|Hq].
  { unfold wp. rewrite in_read_block_queue by lia. simpl. split_and!.
    - apply read_frame_queue.
    - unfold input. simpl. by rewrite app_assoc, take_drop.
    - intros _. split_and!; try done. apply zlength_take. lia.
    - lia. }
  unfold _xcb_in_read_block. destruct (Z.ltb_spec room len); [lia|].
  apply wp_bind. unfold wp at 1. cbn [gets]. unfold compose.
  set (queue := in_queue (w_in w)) in *.
  destruct (Z.ltb_spec len (zlength queue)); [lia|]. cbv zeta.
  pose proof (zlength_nonneg queue).
  destruct (Z.ltb_spec (zlength queue) 0); [lia|].
  apply wp_bind. unfold wp at 1, modify_in, modify.
  set (w1 := set_w_in _ w). destruct (Z.ltb_spec (zlength queue) len); [|lia].
  assert (read_frame w w1) as Hf1 by apply read_frame_queue.
  assert (drop (Z.to_nat (zlength queue)) queue = []) as Hd.
  { apply drop_ge. unfold zlength. lia. }
  assert (take (Z.to_nat (zlength queue)) queue = queue) as Ht.
  { apply take_ge. unfold zlength. lia. }
  apply wp_bind. eapply wp_mono; [apply wp_read_block; lia|].
  intros [n bs] w2 (Hf2 & Hq2 & He2 & Hr2 & Hs2). simpl in *.
  rewrite Hd in Hq2. rewrite Ht.
  assert (input w = (queue ++ bs) ++ input w2) as Hi.
  { unfold input. rewrite Hq2, <- app_assoc. f_equal. simpl. exact Hs2. }
  destruct (Z.leb_spec n 0) as [Hn|Hn].
  - apply wp_bind. unfold wp, _xcb_conn_shutdown, modify, ret. simpl. split_and!.
    + transitivity w1; [done|]. transitivity w2; [done|]. apply read_frame_shutdown.
    + exact Hi.
    + lia.
    + done.
  - destruct (Hr2 Hn) as [-> Hbs]. unfold wp, ret. simpl. split_and!.
    + by transitivity w1.
    + exact Hi.
    + intros _. split_and!; [done| | |].
      * rewrite zlength_app. lia.
      * rewrite Hq2. symmetry. apply drop_ge. unfold zlength in *. lia.
      * exact He2.
    + lia.
Qed.

(** ** What the input side leaves alone

    Reading packets and serving replies never touch the output side, the
    caches, the mutexes or the list of waiting readers, and never clear
    [has_error]. *)

(** The parts of the system the input side has no access to. *)
Definition same_os (o o' : os_state) : Prop :=
  os_writevs o' = os_writevs o ∧ os_sysrets o' = os_sysrets o ∧
  os_sent o' = os_sent o ∧ os_stderr o' = os_stderr o ∧ os_net o' = os_net o ∧
  os_fresh o' = os_fresh o ∧ os_global_ids o' = os_global_ids o ∧
  os_next_global_id o' = os_next_global_id o.

Record in_side (w w' : world) : Prop := {
  side_out : w_out w' = w_out w;
  side_ext : w_ext w' = w_ext w;
  side_xid : w_xid w' = w_xid w;
  side_held : held w' = held w;
  side_setup : setup w' = setup w;
  side_fd : fd w' = fd w;
  side_error : has_error w = true → has_error w' = true;
  side_reading : in_reading (w_in w') = in_reading (w_in w);
  side_readers : readers (w_in w') = readers (w_in w);
  side_os : same_os (w_os w) (w_os w')
}.

#[export] Instance in_side_preorder : PreOrder in_side.
Proof.
  split.
  - intros w. by split.
  - intros w1 w2 w3 [?????????(?&?&?&?&?&?&?&?)] [?????????(?&?&?&?&?&?&?&?)].
    split; try congruence; auto. unfold same_os. split_and!; congruence.
Qed.

Lemma obeys_modify_os f : (∀ o, same_os o (f o)) → obeys in_side (modify_os f).
Proof. intros Hf. apply obeys_modify. intros w. specialize (Hf (w_os w)). by split. Qed.

Lemma obeys_modify_in f :
  (∀ i, in_reading (f i) = in_reading i ∧ readers (f i) = readers i) →
  obeys in_side (modify_in f).
Proof. intros Hf. apply obeys_modify. intros w. destruct (Hf (w_in w)). by split. Qed.

Lemma obeys_shutdown : obeys in_side _xcb_conn_shutdown.
Proof.
  apply obeys_modify. intros w. by split.
Qed.

Ltac side_tac :=
  first
    [ apply obeys_modify_in; intros; by split
    | apply obeys_modify_os; intros; by repeat split ].
#[export] Hint Extern 1 (obeys in_side (modify_in _)) => side_tac : obeys.
#[export] Hint Extern 1 (obeys in_side (modify_os _)) => side_tac : obeys.
#[export] Hint Resolve obeys_shutdown : obeys.
#[export] Hint Extern 0 (PreOrder _) => apply _ : obeys.

Lemma obeys_malloc n : obeys in_side (malloc n).
Proof. unfold malloc. obeys_auto. Qed.

Lemma obeys_signal c : obeys in_side (pthread_cond_signal c).
Proof. unfold pthread_cond_signal. obeys_auto. Qed.
Lemma obeys_broadcast c : obeys in_side (pthread_cond_broadcast c).
Proof. unfold pthread_cond_broadcast. obeys_auto. Qed.
#[export] Hint Resolve obeys_malloc obeys_signal obeys_broadcast : obeys.

Lemma obeys_recv n : obeys in_side (recv n).
Proof. unfold recv. obeys_auto. Qed.

Lemma obeys_poll : obeys in_side poll.
Proof. unfold poll. obeys_auto. Qed.
#[export] Hint Resolve obeys_recv obeys_poll : obeys.

Section InSide.
Context `{Host} `{XProto}.

Lemma obeys_read_block_loop fuel len buf : obeys in_side (read_block_loop fuel len buf).
Proof. revert buf. induction fuel; intros buf; simpl; obeys_auto. Qed.

Lemma obeys_in_read_block room len : obeys in_side (_xcb_in_read_block room len).
Proof.
  unfold _xcb_in_read_block, read_block. pose proof obeys_read_block_loop. obeys_auto.
Qed.

Lemma obeys_replies_put k d : obeys in_side (replies_put k d).
Proof. unfold replies_put. obeys_auto. Qed.

Lemma obeys_update_sequence g : obeys in_side (update_sequence g).
Proof. unfold update_sequence. pose proof obeys_replies_put. obeys_auto. Qed.

Lemma obeys_deliver_reply buf : obeys in_side (deliver_reply buf).
Proof. unfold deliver_reply. obeys_auto. Qed.

Lemma obeys_deliver_event buf : obeys in_side (deliver_event buf).
Proof. unfold deliver_event. obeys_auto. Qed.

Lemma obeys_receive_packet g pend len elen : obeys in_side (receive_packet g pend len elen).
Proof.
  unfold receive_packet, dispatch_packet.
  pose proof obeys_in_read_block. pose proof obeys_deliver_reply.
  pose proof obeys_deliver_event. obeys_auto.
Qed.

Lemma obeys_read_packet : obeys in_side read_packet.
Proof.
  unfold read_packet. pose proof obeys_update_sequence.
  pose proof obeys_receive_packet. obeys_auto.
Qed.

Lemma obeys_read_packets fuel : obeys in_side (read_packets fuel).
Proof. pose proof obeys_read_packet. induction fuel; simpl; obeys_auto. Qed.

Lemma obeys_in_read : obeys in_side _xcb_in_read.
Proof. unfold _xcb_in_read. pose proof obeys_read_packets. obeys_auto. Qed.

Lemma obeys_poll_for_reply r e : obeys in_side (poll_for_reply r e).
Proof.
  unfold poll_for_reply, return_reply. pose proof obeys_replies_put. obeys_auto.
Qed.

Lemma obeys_get_event : obeys in_side get_event.
Proof. unfold get_event. obeys_auto. Qed.

Lemma obeys_insert_pending_discard n s : obeys in_side (insert_pending_discard n s).
Proof. unfold insert_pending_discard. obeys_auto. Qed.

Lemma obeys_discard_reply r : obeys in_side (discard_reply r).
Proof. unfold discard_reply. pose proof obeys_insert_pending_discard. obeys_auto. Qed.

Lemma obeys_wake_up : obeys in_side _xcb_in_wake_up_next_reader.
Proof. unfold _xcb_in_wake_up_next_reader. obeys_auto. Qed.

Lemma obeys_expect_reply r k f : obeys in_side (_xcb_in_expect_reply r k f).
Proof. unfold _xcb_in_expect_reply. obeys_auto. Qed.

Lemma obeys_replies_done : obeys in_side _xcb_in_replies_done.
Proof. unfold _xcb_in_replies_done. obeys_auto. Qed.
End InSide.
#[export] Hint Resolve obeys_in_read obeys_poll_for_reply obeys_get_event
  obeys_discard_reply obeys_wake_up obeys_expect_reply obeys_replies_done : obeys.

(** ** No read loop runs out of fuel *)

Section InFuel.
Context `{Host} `{XProto}.

Lemma never_malloc f n : never f (malloc n).
Proof. unfold malloc, modify_os. never_auto. Qed.

Lemma never_in_read_block room len : never FFuel (_xcb_in_read_block room len).
Proof.
  unfold _xcb_in_read_block, modify_in, _xcb_conn_shutdown.
  apply never_if; [never_auto|]. apply never_bind; [never_auto|]. intros q. cbv zeta.
  apply never_if; [never_auto|]. apply never_bind; [never_auto|]. intros _.
  destruct (Z.ltb_spec (if len <? zlength q then len else zlength q) len) as [Hlt|];
    [|never_auto].
  apply never_bind; [|never_auto].
  intros w. eapply wp_no_fault, wp_read_block. lia.
Qed.

Lemma never_read_packet : never FFuel read_packet.
Proof.
  pose proof (never_malloc FFuel). pose proof never_in_read_block.
  unfold read_packet, update_sequence, replies_put, receive_packet, dispatch_packet,
    deliver_reply, deliver_event, pthread_cond_signal, _xcb_conn_shutdown, modify_in, modify_os.
  never_auto.
Qed.
End InFuel.
