(* ===== verification/InFacts.v ===== *)
(** * The packet reader as a function

    [read_packet] on a packet that is complete in the queue, its safety on any
    input, and the progress of the read loop. *)
From S2P Require Import Prelude Effects Seq XcbMap State In InFrame.
#[local] Open Scope Z_scope.

(** ** The sequence bookkeeping as a function

    [sequence_effect ok g i] is the input state after the header [g] has been
    processed; [ok] tells whether the node for the finished replies could be
    allocated. *)
Definition sequence_effect (ok : bool) (g : generic_reply) (i : xcb_in)
    `{XProto} : xcb_in :=
  if Z.land (response_type g) 0x7f =? XCB_KEYMAP_NOTIFY then i else
  let rr := read_sequence (request_read i) (sequence g) in
  let i1 := set_request_read rr i in
  let i2 := if XCB_SEQUENCE_COMPARE rr Z.gtb (request_expected i)
            then set_request_expected rr i1 else i1 in
  let i3 :=
    if rr =? request_read i then i2 else
    set_request_completed (u64 (rr - 1))
      (match current_reply i with
       | [] => i2
       | cur => set_current_reply []
           (if ok then set_replies (map_put (replies i) (u32 (request_read i)) cur) i2
            else i2)
       end) in
  let i4 := set_pending_replies
    (drop_completed (request_completed i3) (pending_replies i)) i3 in
  if response_type g =? XCB_ERROR then set_request_completed rr i4 else i4.

(** [with_mallocs ms w]: only the allocator's tape has moved. *)
Definition with_mallocs (ms : list bool) (w : world) : world :=
  set_w_os (set_os_mallocs ms (w_os w)) w.

Lemma with_mallocs_id w : with_mallocs (os_mallocs (w_os w)) w = w.
Proof. by destruct w as [? ? ? ? ? ? ? ? []]. Qed.

Lemma malloc_cases n w :
  0 <= n < 2 ^ 63 →
  ∃ ok ms, malloc n w = Ret ok (with_mallocs ms w) ∧ (no_oom w → ok = true ∧ ms = []).
Proof.
  intros Hn. unfold malloc. rewrite (u64_small n) by lia.
  destruct (Z.leb_spec (2 ^ 63) n); [lia|]. rewrite bind_gets. unfold compose.
  destruct (os_mallocs (w_os w)) as [|b t] eqn:E.
  - exists true, []. split; [|done]. rewrite <- E, with_mallocs_id. done.
  - exists b, t. split; [done|]. unfold no_oom. by rewrite E.
Qed.

Section Sequence.
Context `{Host} `{XProto}.

Lemma update_sequence_effect g w :
  ∃ ok ms, update_sequence g w =
    Ret () (with_mallocs ms (set_w_in (sequence_effect ok g (w_in w)) w)) ∧
    (no_oom w → ok = true ∧ ms = []).
Proof.
  unfold update_sequence, sequence_effect.
  destruct (Z.land (response_type g) 127 =? XCB_KEYMAP_NOTIFY).
  { exists true, (os_mallocs (w_os w)). rewrite set_w_in_id, with_mallocs_id. done. }
  rewrite bind_gets. unfold compose. set (i := w_in w). cbv zeta.
  set (rr := read_sequence (request_read i) (sequence g)).
  unfold modify_in. rewrite bind_modify, bind_gets. fold i. unfold compose.
  set (w1 := set_w_in (set_request_read rr i) w).
  change (request_expected (w_in w1)) with (request_expected i).
  set (i2 := if XCB_SEQUENCE_COMPARE rr Z.gtb (request_expected i)
             then set_request_expected rr (set_request_read rr i)
             else set_request_read rr i).
  assert (when (XCB_SEQUENCE_COMPARE rr Z.gtb (request_expected i))
    (modify (λ w, set_w_in (set_request_expected rr (w_in w)) w)) w1 =
    Ret () (set_w_in i2 w)) as E2.
  { subst i2. by destruct (XCB_SEQUENCE_COMPARE rr Z.gtb (request_expected i)). }
  rewrite (bind_run _ _ _ _ _ E2).
  destruct (Z.eqb_spec rr (request_read i)) as [Hrr|Hrr]; cbn [negb].
  { exists true, (os_mallocs (w_os w)). split; [|done].
    rewrite bind_when_false, bind_modify. subst i2.
    destruct (XCB_SEQUENCE_COMPARE rr Z.gtb (request_expected i)), (response_type g =? XCB_ERROR);
      by rewrite <- (with_mallocs_id (set_w_in _ w)). }
  rewrite bind_when_true, bind_assoc, bind_gets. unfold compose.
  assert (current_reply i2 = current_reply i ∧ replies i2 = replies i ∧
    pending_replies i2 = pending_replies i) as (Hc & Hr & Hp).
  { subst i2. by destruct (XCB_SEQUENCE_COMPARE rr Z.gtb (request_expected i)). }
  change (w_in (set_w_in i2 w)) with i2. rewrite Hc.
  destruct (current_reply i) as [|b cur] eqn:Ec.
  - exists true, (os_mallocs (w_os w)). split; [|done].
    destruct (response_type g =? XCB_ERROR); 
      rewrite <- (with_mallocs_id (set_w_in _ w)); cbn; by rewrite ?Hp.
  - rewrite bool_decide_eq_false_2 by done. cbn [negb].
    unfold replies_put.
    destruct (malloc_cases 24 (set_w_in i2 w)) as (ok & ms & E & Hok); [lia|].
    exists ok, ms. split; [|exact Hok].
    rewrite bind_assoc, bind_when_true, bind_assoc, bind_assoc, (bind_run _ _ _ _ _ E).
    destruct ok, (response_type g =? XCB_ERROR); cbn; by rewrite ?Hp, ?Hr.
Qed.
End Sequence.

(** ** A whole packet in the queue *)

Inductive destination := ToNobody | ToReplies | ToEvents.

(** Where [dispatch_packet] puts a packet. *)
Definition destination_of (g : generic_reply) (pend : option pending_reply) : destination :=
  if pend_flag pend XCB_REQUEST_DISCARD_REPLY then ToNobody
  else if (response_type g =? XCB_REPLY) ||
          ((response_type g =? XCB_ERROR) && pend_flag pend XCB_REQUEST_CHECKED)
  then ToReplies else ToEvents.

Definition store (d : destination) (buf : list byte) (i : xcb_in) : xcb_in :=
  match d with
  | ToNobody => i
  | ToReplies => set_current_reply (current_reply i ++ [buf]) i
  | ToEvents => set_events (events i ++ [buf]) i
  end.

(** The condition variables that are signalled. *)
Definition wakes (d : destination) (i : xcb_in) : list wakeup :=
  match d with
  | ToNobody => []
  | ToReplies =>
      match find_reader (readers i) (request_read i) with
      | Some r => [Signal (ReaderCond (reader_id r))]
      | None => []
      end
  | ToEvents => [Signal EventCond]
  end.

Definition with_signals (ss : list wakeup) (w : world) : world :=
  set_w_os (set_os_signals (os_signals (w_os w) ++ ss) (w_os w)) w.

Lemma with_signals_nil w : with_signals [] w = w.
Proof. unfold with_signals. rewrite app_nil_r. by destruct w as [? ? ? ? ? ? ? ? []]. Qed.

Section Packet.
Context `{Host} `{XProto}.

(** The buffer made of a packet: errors and events carry the widened sequence
    number after their first 32 bytes. *)
Definition packet_buffer (g : generic_reply) (read : Z) (bs ev : list byte) : list byte :=
  if response_type g =? XCB_REPLY then bs else bs ++ host_bytes 4 read ++ ev.

Lemma deliver_reply_ok buf w :
  no_oom w →
  deliver_reply buf w =
    Ret true (with_signals (wakes ToReplies (w_in w))
      (set_w_in (store ToReplies buf (w_in w)) w)).
Proof.
  intros Ho. unfold deliver_reply. rewrite (bind_run _ _ _ _ _ (malloc_small 16 w Ho ltac:(lia))).
  cbn [negb]. unfold modify_in. rewrite bind_modify, bind_gets.
  cbn [w_in set_w_in readers set_current_reply request_read wakes store].
  destruct (find_reader (readers (w_in w)) (request_read (w_in w))); [done|].
  by rewrite with_signals_nil.
Qed.

Lemma deliver_event_ok buf w :
  no_oom w →
  deliver_event buf w =
    Ret true (with_signals (wakes ToEvents (w_in w))
      (set_w_in (store ToEvents buf (w_in w)) w)).
Proof.
  intros Ho. unfold deliver_event. rewrite (bind_run _ _ _ _ _ (malloc_small 16 w Ho ltac:(lia))).
  done.
Qed.

Lemma dispatch_ok g pend size bs ev w :
  no_oom w → ((response_type g =? XCB_REPLY) = false → 36 <= size) →
  dispatch_packet g pend size bs ev w =
    let d := destination_of g pend in
    let buf := packet_buffer g (request_read (w_in w)) bs ev in
    Ret true (with_signals (wakes d (w_in w)) (set_w_in (store d buf (w_in w)) w)).
Proof.
  intros Ho Hs. unfold dispatch_packet, destination_of, packet_buffer. cbv zeta.
  destruct (pend_flag pend XCB_REQUEST_DISCARD_REPLY).
  { cbn [wakes store]. by rewrite with_signals_nil, set_w_in_id. }
  destruct (response_type g =? XCB_REPLY) eqn:Er; cbn [orb].
  { by rewrite deliver_reply_ok. }
  destruct (Z.ltb_spec size 36); [specialize (Hs eq_refl); lia|]. rewrite bind_gets.
  unfold compose. destruct ((response_type g =? XCB_ERROR) && _).
  - by rewrite deliver_reply_ok.
  - by rewrite deliver_event_ok.
Qed.

Lemma receive_packet_ok g pend len elen w :
  no_oom w → 0 < len → 0 <= elen →
  ((response_type g =? XCB_REPLY) = true → elen = 0) →
  ((response_type g =? XCB_REPLY) = false → len = 32) →
  len + elen <= zlength (in_queue (w_in w)) → len + elen < 2 ^ 31 →
  let q := in_queue (w_in w) in
  let d := destination_of g pend in
  let buf := packet_buffer g (request_read (w_in w)) (take (Z.to_nat len) q)
               (take (Z.to_nat elen) (drop (Z.to_nat len) q)) in
  receive_packet g pend len elen w =
    Ret true (with_signals (wakes d (w_in w))
      (set_w_in (store d buf
        (set_in_queue (drop (Z.to_nat (len + elen)) q) (w_in w))) w)).
Proof.
  intros Ho Hl He Hrep Hev Hq Hb q d buf. unfold receive_packet.
  set (extra := if response_type g =? XCB_REPLY then 0 else 4).
  assert (0 <= extra <= 4) by (subst extra; destruct (response_type g =? XCB_REPLY); lia).
  assert (packet_size g len elen = len + elen + extra) as Hsize.
  { unfold packet_size. fold extra.
    rewrite s32_small by (unfold int_range; lia). apply u64_small. lia. }
  rewrite Hsize. cbv zeta.
  rewrite (bind_run _ _ _ _ _ (malloc_small (len + elen + extra) w Ho ltac:(lia))). cbn [negb].
  assert (0 <= len <= zlength (in_queue (w_in w))) as Hq0 by lia.
  rewrite (bind_run _ _ _ _ _ (in_read_block_queue (len + elen + extra) len w
    Hq0 ltac:(lia))). cbn [fst snd].
  destruct (Z.leb_spec len 0); [lia|].
  set (w1 := set_w_in _ w). fold q.
  assert (36 <= len + elen + extra ∨ (response_type g =? XCB_REPLY) = true) as Hsz.
  { subst extra. destruct (response_type g =? XCB_REPLY); [by right|left].
    rewrite Hev by done. lia. }
  destruct (Z.eqb_spec elen 0) as [He0|He0].
  - rewrite dispatch_ok; [|done|intros Hf; destruct Hsz; [done|congruence]].
    cbv zeta. subst d buf. rewrite He0, Z.add_0_r. done.
  - assert ((response_type g =? XCB_REPLY) = false) as Hnr.
    { destruct (response_type g =? XCB_REPLY) eqn:E; [|done]. by destruct He0; apply Hrep. }
    assert (extra = 4) as Hx by (subst extra; by rewrite Hnr).
    assert (drop (Z.to_nat len) q = in_queue (w_in w1)) as Hq1 by done.
    assert (zlength (in_queue (w_in w1)) = zlength q - len) as Hql.
    { rewrite <- Hq1. apply zlength_drop. fold q in Hq0. lia. }
    assert (0 <= elen <= zlength (in_queue (w_in w1))) as Hq2.
    { fold q in Hq. lia. }
    pose proof (Hev Hnr) as Hlen.
    rewrite (bind_run _ _ _ _ _ (in_read_block_queue (len + elen + extra - 36) elen w1
      Hq2 ltac:(lia))). cbn [fst snd].
    destruct (Z.leb_spec elen 0); [lia|].
    rewrite dispatch_ok; [|done|intros _; destruct Hsz; [done|congruence]].
    cbv zeta. subst d buf.
    replace (drop (Z.to_nat (len + elen)) q) with
      (drop (Z.to_nat elen) (in_queue (w_in w1))).
    2: { rewrite <- Hq1, drop_drop. f_equal. lia. }
    rewrite Hq1. by destruct (destination_of g pend).
Qed.
End Packet.

(** ** Reading a complete packet *)

Section ReadPacket.
Context `{Host} `{XProto}.

(** The header at the front of the queue, the input state after it has been
    processed, the pending reply it belongs to and the packet's two lengths. *)
Definition front_header (w : world) : generic_reply :=
  parse_generic_reply (in_queue (w_in w)).
Definition front_state (w : world) : xcb_in :=
  sequence_effect true (front_header w) (w_in w).
Definition front_pend (w : world) : option pending_reply :=
  find_pend (front_header w) (front_state w).
Definition front_lengths (w : world) : Z * Z :=
  packet_lengths (front_header w) (front_pend w) (in_queue (w_in w)).
Definition front_length (w : world) : Z := (front_lengths w).1 + (front_lengths w).2.
Definition front_buffer (w : world) : list byte :=
  let q := in_queue (w_in w) in
  let len := (front_lengths w).1 in
  packet_buffer (front_header w) (request_read (front_state w)) (take (Z.to_nat len) q)
    (take (Z.to_nat (front_lengths w).2) (drop (Z.to_nat len) q)).
Definition front_destination (w : world) : destination :=
  destination_of (front_header w) (front_pend w).

(** The queue holds a whole packet whose length field does not wrap around. *)
Definition front_complete (w : world) : Prop :=
  32 <= (front_lengths w).1 ∧ 0 <= (front_lengths w).2 ∧
  front_length w <= zlength (in_queue (w_in w)) ∧ front_length w < 2 ^ 31.

Lemma sequence_effect_keeps ok g i :
  in_queue (sequence_effect ok g i) = in_queue i ∧
  events (sequence_effect ok g i) = events i ∧
  readers (sequence_effect ok g i) = readers i ∧
  in_reading (sequence_effect ok g i) = in_reading i.
Proof.
  unfold sequence_effect. destruct (_ =? XCB_KEYMAP_NOTIFY); [done|]. cbv zeta.
  destruct (XCB_SEQUENCE_COMPARE _ Z.gtb _), (_ =? request_read i), (current_reply i), ok,
    (response_type g =? XCB_ERROR); done.
Qed.

Lemma packet_lengths_reply g pend q :
  (response_type g =? XCB_REPLY) = true → (packet_lengths g pend q).2 = 0.
Proof. unfold packet_lengths. by intros ->. Qed.

Lemma packet_lengths_other g pend q :
  (response_type g =? XCB_REPLY) = false → (packet_lengths g pend q).1 = 32.
Proof. unfold packet_lengths. intros ->. by destruct (_ =? XCB_XGE_EVENT). Qed.

(** [read_packet] after the sequence bookkeeping. *)
Lemma read_packet_header w :
  no_oom w → 32 <= zlength (in_queue (w_in w)) →
  read_packet w =
    receive_packet (front_header w) (front_pend w) (front_lengths w).1 (front_lengths w).2
      (set_w_in (front_state w) w).
Proof.
  intros Ho Hq. unfold read_packet. rewrite bind_gets. unfold compose.
  destruct (Z.ltb_spec (zlength (in_queue (w_in w))) 32); [lia|]. cbv zeta.
  destruct (update_sequence_effect (front_header w) w) as (ok & ms & E & Hok).
  destruct (Hok Ho) as [-> ->]. unfold front_header in E.
  rewrite (bind_run _ _ _ _ _ E), bind_gets. fold (front_header w) (front_state w).
  assert (with_mallocs [] (set_w_in (front_state w) w) = set_w_in (front_state w) w) as ->; [|done].
  unfold no_oom in Ho. rewrite <- Ho.
  change (os_mallocs (w_os w)) with (os_mallocs (w_os (set_w_in (front_state w) w))).
  apply with_mallocs_id.
Qed.

Lemma read_packet_front w :
  no_oom w → front_complete w →
  read_packet w =
    Ret true (with_signals (wakes (front_destination w) (front_state w))
      (set_w_in (store (front_destination w) (front_buffer w)
        (set_in_queue (drop (Z.to_nat (front_length w)) (in_queue (w_in w)))
          (front_state w))) w)).
Proof.
  intros Ho (Hl1 & Hl2 & Hl & Hb). unfold front_length in *.
  rewrite read_packet_header by (done || lia).
  pose proof (sequence_effect_keeps true (front_header w) (w_in w)) as (Hqs & _ & _ & _).
  fold (front_state w) in Hqs.
  rewrite receive_packet_ok; cbn [w_in set_w_in]; rewrite ?Hqs; try done; try lia.
  - apply packet_lengths_reply.
  - apply packet_lengths_other.
Qed.

(** ** Progress *)

Lemma in_read_block_ret room len w r w' :
  _xcb_in_read_block room len w = Ret r w' → 0 <= len <= room.
Proof.
  unfold _xcb_in_read_block. destruct (Z.ltb_spec room len); [done|].
  rewrite bind_gets. unfold compose. cbv zeta.
  pose proof (zlength_nonneg (in_queue (w_in w))).
  destruct (Z.ltb_spec len (zlength (in_queue (w_in w)))) as [Hl|Hl].
  - destruct (Z.ltb_spec len 0); [done|]. lia.
  - lia.
Qed.

(** A successful read takes [len] bytes, first of all from the queue. *)
Lemma in_read_block_inv room len w r w' :
  _xcb_in_read_block room len w = Ret r w' → 0 < r.1 →
  0 < len ∧ in_queue (w_in w') = drop (Z.to_nat len) (in_queue (w_in w)).
Proof.
  intros E Hr. pose proof (in_read_block_ret _ _ _ _ _ E) as Hl.
  pose proof (wp_ret_inv _ _ _ _ _ (wp_in_read_block room len w Hl) E) as (_ & _ & Hp & _).
  destruct (Hp Hr) as (Hlen & _ & Hq & _). split; [lia|done].
Qed.

Definition same_queue (w w' : world) : Prop := in_queue (w_in w') = in_queue (w_in w).

#[local] Instance same_queue_preorder : PreOrder same_queue.
Proof. split; unfold same_queue; [by intros ?|intros ???; congruence]. Qed.

Lemma obeys_queue_modify_in f :
  (∀ i, in_queue (f i) = in_queue i) → obeys same_queue (modify_in f).
Proof. intros Hf. apply obeys_modify. intros w. apply Hf. Qed.

Lemma obeys_queue_modify_os f : obeys same_queue (modify_os f).
Proof. by apply obeys_modify. Qed.

Lemma obeys_queue_malloc n : obeys same_queue (malloc n).
Proof. pose proof obeys_queue_modify_os. unfold malloc. obeys_auto. Qed.

Lemma obeys_queue_dispatch g pend size bs ev :
  obeys same_queue (dispatch_packet g pend size bs ev).
Proof.
  pose proof obeys_queue_modify_os. pose proof obeys_queue_malloc.
  assert (obeys same_queue _xcb_conn_shutdown) by (by apply obeys_modify).
  assert (∀ b, obeys same_queue (modify_in (λ i, set_current_reply (current_reply i ++ [b]) i)))
    by (intros; by apply obeys_queue_modify_in).
  assert (∀ b, obeys same_queue (modify_in (λ i, set_events (events i ++ [b]) i)))
    by (intros; by apply obeys_queue_modify_in).
  unfold dispatch_packet, deliver_reply, deliver_event, pthread_cond_signal.
  obeys_auto.
Qed.

Lemma receive_packet_shrinks g pend len elen w w' :
  receive_packet g pend len elen w = Ret true w' →
  0 < zlength (in_queue (w_in w)) →
  zlength (in_queue (w_in w')) < zlength (in_queue (w_in w)).
Proof.
  unfold receive_packet. cbv zeta. intros E Hq.
  apply bind_inv in E as (ok & w1 & E1 & E). apply obeys_queue_malloc in E1.
  destruct ok; cbn [negb] in E; [|by apply bind_inv in E as (? & ? & _ & ?)].
  apply bind_inv in E as (r & w2 & E2 & E).
  destruct (Z.leb_spec r.1 0); [done|].
  apply in_read_block_inv in E2 as [Hlen Hq2]; [|done].
  assert (zlength (in_queue (w_in w2)) < zlength (in_queue (w_in w))) as Hlt.
  { rewrite Hq2, E1. unfold zlength in *. rewrite length_drop. lia. }
  destruct (elen =? 0).
  { apply obeys_queue_dispatch in E. by rewrite E. }
  apply bind_inv in E as (e & w3 & E3 & E).
  destruct (Z.leb_spec e.1 0); [done|].
  apply in_read_block_inv in E3 as [_ Hq3]; [|done].
  apply obeys_queue_dispatch in E. rewrite E, Hq3.
  unfold zlength in *. rewrite length_drop. lia.
Qed.

(** Every packet that is read shortens the queue. *)
Lemma read_packet_shrinks w w' :
  read_packet w = Ret true w' →
  zlength (in_queue (w_in w')) < zlength (in_queue (w_in w)).
Proof.
  unfold read_packet. rewrite bind_gets. unfold compose.
  destruct (Z.ltb_spec (zlength (in_queue (w_in w))) 32) as [|Hq]; [done|]. cbv zeta.
  destruct (update_sequence_effect (parse_generic_reply (in_queue (w_in w))) w)
    as (ok & ms & E & _).
  rewrite (bind_run _ _ _ _ _ E), bind_gets. intros E2.
  destruct (sequence_effect_keeps ok (parse_generic_reply (in_queue (w_in w))) (w_in w))
    as (Hqs & _).
  apply receive_packet_shrinks in E2; cbn [w_in with_mallocs set_w_in set_w_os] in *;
    rewrite Hqs in *; lia.
Qed.

Lemma never_read_packets fuel w :
  (length (in_queue (w_in w)) < fuel)%nat → read_packets fuel w ≠ Fault FFuel.
Proof.
  revert w. induction fuel as [|fuel IH]; intros w Hf; [lia|]. cbn [read_packets].
  unfold bind. destruct (read_packet w) as [[] w'|w'|f] eqn:E; [|done..|].
  - apply IH. pose proof (read_packet_shrinks _ _ E). unfold zlength in *. lia.
  - intros [= ->]. by apply never_read_packet in E.
Qed.

(** When [_xcb_in_read] fails, the connection has been shut down. *)
Lemma in_read_false w w' : _xcb_in_read w = Ret false w' → has_error w' = true.
Proof.
  unfold _xcb_in_read. rewrite bind_gets. unfold compose.
  intros (r & w1 & _ & E)%bind_inv. cbv zeta in E.
  apply bind_inv in E as ([] & w2 & _ & E). apply bind_inv in E as ([] & w3 & _ & E).
  destruct r as [[]| |]; by inversion E.
Qed.

(** [_xcb_in_read] terminates: its packet loop never runs out of fuel. *)
Lemma never_in_read : never FFuel _xcb_in_read.
Proof.
  intros w. unfold _xcb_in_read. rewrite bind_gets. unfold compose. cbv zeta.
  assert (never FFuel (recv (IN_QUEUE_SIZE - zlength (in_queue (w_in w))))) as Hr.
  { unfold recv, modify_os. never_auto. }
  unfold bind at 1. specialize (Hr w). destruct (recv _ w) as [r w1|w1|f]; [|done|congruence].
  unfold modify_in. rewrite bind_modify. unfold bind at 1.
  set (q := in_queue (w_in w) ++ _).
  match goal with |- context [read_packets ?n ?w2] =>
    pose proof (never_read_packets n w2) as Hp end.
  destruct (read_packets _ _) as [[] w3|w3|f]; [|done|].
  - destruct r as [[]| |]; intros ?; done.
  - specialize (Hp ltac:(cbn; lia)). congruence.
Qed.
End ReadPacket.
