(* ===== verification/InSafety.v ===== *)
(** * Memory safety of the packet reader

    The length fields of a packet come from the server.  For every packet whose
    generic-event length is below a bound the reader neither overruns a buffer
    nor fails an assertion, whatever the system calls return; at the bound it
    does overrun. *)
From S2P Require Import Prelude Effects Seq XcbMap State In InFrame InFacts Sample.
#[local] Open Scope Z_scope.

(** The length of a generic event, counted modulo the wrap-around of its size in
    bytes, leaves room for the header. *)
Definition ge_length_ok (g : generic_reply) : Prop :=
  response_type g = XCB_XGE_EVENT → reply_length g mod 2 ^ 30 < 2 ^ 30 - 9.

Section Safety.
Context `{Host} `{XProto}.

Lemma never_signal f c : never f (pthread_cond_signal c).
Proof. unfold pthread_cond_signal, modify_os. never_auto. Qed.

Lemma never_deliver_reply f buf : never f (deliver_reply buf).
Proof.
  pose proof (never_malloc f). pose proof (never_signal f).
  unfold deliver_reply, modify_in, _xcb_conn_shutdown. never_auto.
Qed.

Lemma never_deliver_event f buf : never f (deliver_event buf).
Proof.
  pose proof (never_malloc f). pose proof (never_signal f).
  unfold deliver_event, modify_in, _xcb_conn_shutdown. never_auto.
Qed.

Lemma never_dispatch f g pend size bs ev :
  36 <= size ∨ (response_type g =? XCB_REPLY) = true →
  never f (dispatch_packet g pend size bs ev).
Proof.
  intros Hs. pose proof (never_deliver_reply f). pose proof (never_deliver_event f).
  unfold dispatch_packet. apply never_if; [never_auto|].
  destruct (response_type g =? XCB_REPLY); [never_auto|].
  destruct Hs as [Hs|]; [|done].
  destruct (Z.ltb_spec size 36); [lia|]. never_auto.
Qed.

Lemma malloc_true n w w' : malloc n w = Ret true w' → u64 n < 2 ^ 63.
Proof. unfold malloc. destruct (Z.leb_spec (2 ^ 63) (u64 n)); done. Qed.

(** What the reader needs of the two lengths it has computed. *)
Definition lengths_ok (g : generic_reply) (len elen : Z) : Prop :=
  int_range len ∧ int_range elen ∧
  if response_type g =? XCB_REPLY then elen = 0
  else len = 32 ∧ (0 <= elen ∨ elen < -36).

Lemma lengths_room g len elen :
  lengths_ok g len elen → u64 (packet_size g len elen) < 2 ^ 63 →
  0 <= len <= packet_size g len elen ∧
  0 <= elen ∧ (elen ≠ 0 → elen <= packet_size g len elen - 36) ∧
  (36 <= packet_size g len elen ∨ (response_type g =? XCB_REPLY) = true).
Proof.
  intros (Hl & He & Hk) Hs.
  destruct (response_type g =? XCB_REPLY) eqn:Er; unfold packet_size in *; rewrite Er in *.
  - subst elen.
    assert (0 <= len ∧ u64 (s32 (len + 0) + 0) = len) as [Hl0 ->] by words.
    split_and!; [lia..|by right].
  - destruct Hk as [-> Hk].
    assert (0 <= elen ∧ u64 (s32 (32 + elen) + 4) = 36 + elen) as [He0 ->] by words.
    split_and!; lia.
Qed.

Lemma never_receive_packet f g pend len elen :
  lengths_ok g len elen → never f (receive_packet g pend len elen).
Proof.
  intros Hk w. unfold receive_packet. cbv zeta.
  unfold bind at 1. destruct (malloc _ w) as [ok w1|w1|f'] eqn:Em; [|done|].
  2: { intros [= ->]. by apply never_malloc in Em. }
  destruct ok; cbn [negb]; [|done].
  apply malloc_true in Em. destruct (lengths_room g len elen Hk) as (Hl & He & Her & Hs).
  { unfold packet_size in *. words. }
  unfold bind at 1. pose proof (wp_in_read_block _ _ w1 Hl) as Hr.
  unfold wp in Hr. destruct (_xcb_in_read_block _ _ w1) as [r w2| |]; [|done..].
  destruct (r.1 <=? 0); [done|].
  destruct (Z.eqb_spec elen 0) as [|Hne]; [by apply never_dispatch|].
  unfold bind at 1.
  pose proof (wp_in_read_block _ _ w2 (conj He (Her Hne))) as Hr2.
  unfold wp in Hr2. destruct (_xcb_in_read_block _ _ w2) as [e w3| |]; [|done..].
  destruct (e.1 <=? 0); [done|]. by apply never_dispatch.
Qed.

Lemma packet_lengths_ok g pend q :
  0 <= reply_length g → ge_length_ok g →
  lengths_ok g (packet_lengths g pend q).1 (packet_lengths g pend q).2.
Proof.
  intros Hr Hg. unfold lengths_ok, packet_lengths.
  destruct (response_type g =? XCB_REPLY).
  { cbn. split_and!; [apply s32_range|words|done]. }
  destruct (Z.eqb_spec (response_type g) XCB_XGE_EVENT) as [E|]; cbn.
  - specialize (Hg E). split_and!; [words|apply s32_range|done|].
    assert (u32 (reply_length g * 4) = 4 * (reply_length g mod 2 ^ 30)) as -> by words.
    pose proof (Z.mod_pos_bound (reply_length g) (2 ^ 30)). words.
  - split_and!; [words..|lia].
Qed.

Lemma parse_length_nonneg q : 0 <= reply_length (parse_generic_reply q).
Proof. apply field_range. Qed.

(** C16. Whatever the server sends, whatever the allocator, [recv] and [poll]
    answer, [read_packet] never accesses memory out of bounds, fails an
    assertion or loops, provided the front packet is not a generic event whose
    length field is within 9 of a multiple of [2^30]. *)
Theorem read_packet_safe w f :
  (32 <= zlength (in_queue (w_in w)) → ge_length_ok (front_header w)) →
  read_packet w ≠ Fault f.
Proof.
  intros Hg. unfold read_packet. rewrite bind_gets. unfold compose.
  destruct (Z.ltb_spec (zlength (in_queue (w_in w))) 32) as [|Hq]; [done|].
  specialize (Hg Hq). cbv zeta.
  destruct (update_sequence_effect (parse_generic_reply (in_queue (w_in w))) w)
    as (ok & ms & E & _).
  rewrite (bind_run _ _ _ _ _ E), bind_gets.
  apply never_receive_packet, packet_lengths_ok; [apply parse_length_nonneg|done].
Qed.

(** C37. The bound is sharp: a generic event whose length field is between
    [2^30 - 9] and [2^30 - 1] makes the size of the allocation wrap around below
    what is then written, and [read_packet] leaves its buffer. *)
Theorem read_packet_ge_overrun w :
  no_oom w → 32 <= zlength (in_queue (w_in w)) →
  response_type (front_header w) = XCB_XGE_EVENT →
  2 ^ 30 - 9 <= reply_length (front_header w) < 2 ^ 30 →
  read_packet w = Fault FOutOfBounds.
Proof.
  intros Ho Hq Ht Hl. unfold read_packet. rewrite bind_gets. unfold compose.
  destruct (Z.ltb_spec (zlength (in_queue (w_in w))) 32) as [|_]; [lia|]. cbv zeta.
  fold (front_header w).
  destruct (update_sequence_effect (front_header w) w) as (ok & ms & E & Hok).
  destruct (Hok Ho) as [-> ->]. rewrite (bind_run _ _ _ _ _ E), bind_gets.
  destruct (sequence_effect_keeps true (front_header w) (w_in w)) as (Hqs & _).
  set (w1 := with_mallocs [] (set_w_in _ w)) in *.
  assert (in_queue (w_in w1) = in_queue (w_in w)) as Hq1 by exact Hqs.
  set (g := front_header w) in *. generalize (find_pend g (w_in w1)). intros pend.
  set (elen := 4 * reply_length g - 2 ^ 32).
  assert (-36 <= elen <= -4) as He by (subst elen; lia).
  assert (packet_lengths g pend (in_queue (w_in w)) = (32, elen)) as ->.
  { unfold packet_lengths. rewrite Ht. cbn [Z.eqb Pos.eqb XCB_XGE_EVENT XCB_REPLY].
    f_equal. subst elen. words. }
  cbn [fst snd]. unfold receive_packet. cbv zeta.
  assert (packet_size g 32 elen = 36 + elen) as ->.
  { unfold packet_size. rewrite Ht. cbn [Z.eqb Pos.eqb XCB_XGE_EVENT XCB_REPLY].
    subst elen. words. }
  assert (0 <= 36 + elen < 2 ^ 63) as Hsz by lia.
  rewrite (bind_run _ _ _ _ _ (malloc_small (36 + elen) w1 eq_refl Hsz)).
  cbn [negb]. destruct (decide (36 + elen < 32)) as [Hlt|Hge].
  { apply bind_fault. unfold _xcb_in_read_block.
    by destruct (Z.ltb_spec (36 + elen) 32); [|lia]. }
  assert (0 <= 32 <= zlength (in_queue (w_in w1))) as Hr by (rewrite Hq1; lia).
  rewrite (bind_run _ _ _ _ _ (in_read_block_queue (36 + elen) 32 w1 Hr ltac:(lia))).
  cbn [fst snd Z.leb Z.compare].
  destruct (Z.eqb_spec elen 0); [lia|].
  apply bind_fault. unfold _xcb_in_read_block.
  destruct (Z.ltb_spec (36 + elen - 36) elen); [lia|]. rewrite bind_gets. unfold compose.
  cbv zeta. match goal with |- context [zlength ?l] => pose proof (zlength_nonneg l) end.
  destruct (Z.ltb_spec elen (zlength (in_queue (w_in (set_w_in
    (set_in_queue (drop (Z.to_nat 32) (in_queue (w_in w1))) (w_in w1)) w1)))));
    [|lia].
  destruct (Z.ltb_spec elen 0); [done|lia].
Qed.
End Safety.

(** ** The hypotheses can hold *)

Section Witnesses.
#[local] Existing Instances sample_host sample_proto.

(** A packet of 32 bytes with the given type, sequence number and length
    field. *)
Definition sample_packet (type seq len : Z) : list byte :=
  [byte_of type; byte_of 0] ++ host_bytes 2 seq ++ host_bytes 4 len ++
  replicate 24 (byte_of 0).

Definition packet_world (packet : list byte) : world :=
  sample_world (sample_in packet) (sample_out [] 1 1) (sample_os [] [] []).

Lemma read_packet_safe_witness :
  read_packet (packet_world (sample_packet XCB_XGE_EVENT 1 3)) ≠ Fault FOutOfBounds.
Proof.
  apply (read_packet_safe (packet_world (sample_packet XCB_XGE_EVENT 1 3)) FOutOfBounds).
  intros _ _. vm_compute. reflexivity.
Defined.

Lemma read_packet_ge_overrun_witness :
  read_packet (packet_world (sample_packet XCB_XGE_EVENT 1 (2 ^ 30 - 1))) = Fault FOutOfBounds.
Proof.
  apply (read_packet_ge_overrun (packet_world (sample_packet XCB_XGE_EVENT 1 (2 ^ 30 - 1))));
    [reflexivity|vm_compute; discriminate|vm_compute; reflexivity|].
  split; vm_compute; [discriminate|reflexivity].
Defined.
End Witnesses.
