(* ===== verification/Demux.v ===== *)
(** * The input side is a demultiplexer

    Abstractly, the input side of a connection maps every request to the queue
    of its undelivered replies, and keeps one queue of events.  This file
    defines that machine and proves that [read_packet], [poll_for_reply] and
    [get_event] implement it: replies are sorted by the 64-bit number of their
    request, whether they are still on [current_reply] or already in the map,
    and each queue is first in, first out. *)
From S2P Require Import Prelude Effects Seq XcbMap State In InFrame InFacts InSafety Sample.
From stdpp Require Import functions list.
#[local] Open Scope Z_scope.

(** ** The abstract machine *)

Record demux := Demux {
  d_read : Z;                              (** the request being answered *)
  d_replies : Z → list (list byte);        (** undelivered replies per request *)
  d_events : list (list byte)
}.

(** A packet that answers request [s] arrives. *)
Definition demux_packet (s : Z) (d : destination) (buf : list byte) (m : demux) : demux :=
  match d with
  | ToNobody => Demux s (d_replies m) (d_events m)
  | ToReplies => Demux s (<[s := d_replies m s ++ [buf]]> (d_replies m)) (d_events m)
  | ToEvents => Demux s (d_replies m) (d_events m ++ [buf])
  end.

(** The oldest reply of request [s] is collected. *)
Definition demux_take (s : Z) (m : demux) : option (list byte) * demux :=
  match d_replies m s with
  | [] => (None, m)
  | buf :: rest => (Some buf, Demux (d_read m) (<[s := rest]> (d_replies m)) (d_events m))
  end.

Definition demux_event (m : demux) : option (list byte) * demux :=
  match d_events m with
  | [] => (None, m)
  | e :: t => (Some e, Demux (d_read m) (d_replies m) t)
  end.

(** ** The abstraction relation *)

(** The undelivered replies of request [t] in the concrete state. *)
Definition pending_for (i : xcb_in) (t : Z) : list (list byte) :=
  if t =? request_read i then current_reply i
  else default [] (map_get (replies i) (u32 t)).

(** [Sim lo i m]: [i] implements [m] for the requests from [lo] on.  Nothing older
    than [lo] is left in the map, and [lo] is less than [2^31] requests behind;
    within that window the 32-bit keys and comparisons are exact. *)
Record Sim (lo : Z) (i : xcb_in) (m : demux) : Prop := {
  sim_read : d_read m = request_read i;
  sim_events : d_events m = events i;
  sim_replies : ∀ t, lo <= t <= request_read i → d_replies m t = pending_for i t;
  sim_future : ∀ t, request_read i < t → d_replies m t = [];
  sim_keys : ∀ k, k ∈ (replies i).*1 → ∃ t, k = u32 t ∧ lo <= t < request_read i;
  sim_nodup : NoDup (replies i).*1;
  sim_full : ∀ k l, (k, l) ∈ replies i → l ≠ [];
  sim_window : 0 <= lo <= request_read i ∧ request_read i - lo < 2 ^ 31;
  sim_range : request_read i < 2 ^ 63;
  sim_completed : 0 <= request_completed i ∧
    request_read i - 1 <= request_completed i <= request_read i
}.

Section SequenceStep.
Context `{Host} `{XProto}.

(** The state after the reader has moved on to request [s], ignoring the fields
    the machine does not see. *)
Definition advance (s : Z) (i : xcb_in) : xcb_in :=
  if s =? request_read i then i else
  set_request_completed (s - 1) (set_current_reply []
    (set_replies
      (match current_reply i with
       | [] => replies i
       | cur => map_put (replies i) (u32 (request_read i)) cur
       end) (set_request_read s i))).

(** [i] and [j] agree on what the machine sees. *)
Definition same_view (i j : xcb_in) : Prop :=
  request_read i = request_read j ∧ current_reply i = current_reply j ∧
  replies i = replies j ∧ events i = events j.

(** The header answers request [s]: a keymap event has no sequence number. *)
Definition answers (g : generic_reply) (i : xcb_in) (s : Z) : Prop :=
  if Z.land (response_type g) 0x7f =? XCB_KEYMAP_NOTIFY then s = request_read i
  else request_read i <= s < request_read i + 2 ^ 16 ∧ sequence g = u16 s.

Lemma sequence_effect_view g i s :
  answers g i s → 0 <= request_read i → s < 2 ^ 63 →
  same_view (sequence_effect true g i) (advance s i) ∧
  request_completed (sequence_effect true g i) =
    if (response_type g =? XCB_ERROR) &&
       negb (Z.land (response_type g) 0x7f =? XCB_KEYMAP_NOTIFY)
    then s else request_completed (advance s i).
Proof.
  unfold answers, sequence_effect.
  destruct (_ =? XCB_KEYMAP_NOTIFY) eqn:Ek.
  { intros -> _ _. unfold advance. rewrite Z.eqb_refl, andb_false_r. done. }
  intros [Hs Hseq] Hr Hb. rewrite Hseq, read_sequence_exact by lia. cbv zeta.
  rewrite andb_true_r. unfold advance, same_view.
  assert (0 < s → u64 (s - 1) = s - 1) as Hu by (intros; apply u64_small; lia).
  destruct (Z.eqb_spec s (request_read i)) as [->|Hne].
  - destruct (XCB_SEQUENCE_COMPARE _ Z.gtb _), (response_type g =? XCB_ERROR); done.
  - rewrite Hu by lia.
    destruct (XCB_SEQUENCE_COMPARE _ Z.gtb _), (current_reply i) eqn:?,
      (response_type g =? XCB_ERROR); done.
Qed.

Lemma pending_for_view i j t : same_view i j → pending_for i t = pending_for j t.
Proof. intros (E1 & E2 & E3 & _). unfold pending_for. by rewrite E1, E2, E3. Qed.

Lemma sim_view lo i j m :
  same_view i j → request_completed i = request_completed j ∨
    request_completed i = request_read j →
  Sim lo j m → Sim lo i m.
Proof.
  intros Hv Hc []. pose proof Hv as (E1 & E2 & E3 & E4).
  split; rewrite ?E1, ?E3, ?E4; try done.
  - intros t Ht. rewrite (pending_for_view i j) by done. auto.
  - lia.
Qed.

(** Within a window of [2^32] numbers the truncated key determines the
    number. *)
Lemma u32_inj lo a b : lo <= a < lo + 2 ^ 32 → lo <= b < lo + 2 ^ 32 → u32 a = u32 b → a = b.
Proof. words. Qed.

Lemma sim_fresh lo i m t :
  Sim lo i m → request_read i <= t < lo + 2 ^ 31 → u32 t ∉ (replies i).*1.
Proof.
  intros Hs Ht Hin. apply (sim_keys _ _ _ Hs) in Hin as (t' & E & Ht').
  apply (u32_inj lo) in E; lia.
Qed.

Lemma pending_for_advance lo i m s t :
  Sim lo i m → request_read i <= s < lo + 2 ^ 31 → lo <= t <= s →
  pending_for (advance s i) t = if t <=? request_read i then pending_for i t else [].
Proof.
  intros Hs Hr Ht. unfold advance.
  destruct (Z.eqb_spec s (request_read i)) as [->|Hne].
  { destruct (Z.leb_spec t (request_read i)); [done|lia]. }
  unfold pending_for. cbn.
  pose proof (sim_window _ _ _ Hs).
  destruct (Z.eqb_spec t s) as [->|Hts].
  { destruct (Z.leb_spec s (request_read i)); [lia|done]. }
  assert (u32 (request_read i) = u32 t → t = request_read i) as Hinj.
  { intros E. apply (u32_inj lo) in E; lia. }
  assert (map_get (match current_reply i with [] => replies i
      | _ :: _ => map_put (replies i) (u32 (request_read i)) (current_reply i) end) (u32 t) =
    if t =? request_read i then match current_reply i with [] => None | _ => Some (current_reply i) end
    else map_get (replies i) (u32 t)) as E.
  { assert (u32 (request_read i) ∉ (replies i).*1) as Hf by (eapply sim_fresh; eauto; lia).
    destruct (current_reply i).
    - destruct (Z.eqb_spec t (request_read i)) as [->|]; [by apply map_get_none|done].
    - rewrite map_get_put by done.
      destruct (Z.eqb_spec (u32 (request_read i)) (u32 t)) as [E|Hn],
        (Z.eqb_spec t (request_read i)) as [->|Hn']; try done.
      by destruct Hn'; apply Hinj. }
  transitivity (default [] (map_get (match current_reply i with [] => replies i
      | _ :: _ => map_put (replies i) (u32 (request_read i)) (current_reply i) end) (u32 t))).
  { by destruct (current_reply i). }
  rewrite E. destruct (Z.eqb_spec t (request_read i)) as [->|].
  - destruct (Z.leb_spec (request_read i) (request_read i)); [|lia].
    by destruct (current_reply i).
  - destruct (Z.leb_spec t (request_read i)) as [|Ht2]; [done|].
    rewrite map_get_none; [done|]. eapply sim_fresh; eauto. lia.
Qed.

(** Moving on to request [s] changes nothing the machine can see but the
    request being answered. *)
Lemma sim_advance lo i m s :
  Sim lo i m → request_read i <= s < lo + 2 ^ 31 → s < 2 ^ 63 →
  Sim lo (advance s i) (Demux s (d_replies m) (d_events m)).
Proof.
  intros Hs Hr Hb. pose proof (sim_window _ _ _ Hs). pose proof Hs as Hs'. destruct Hs'.
  destruct (decide (s = request_read i)) as [->|Hne].
  { unfold advance. rewrite Z.eqb_refl. by split. }
  assert (request_read (advance s i) = s ∧ events (advance s i) = events i ∧
    request_completed (advance s i) = s - 1 ∧
    replies (advance s i) = match current_reply i with [] => replies i
      | cur => map_put (replies i) (u32 (request_read i)) cur end) as (E1 & E2 & E3 & E4).
  { unfold advance. destruct (Z.eqb_spec s (request_read i)); [done|]. done. }
  assert (u32 (request_read i) ∉ (replies i).*1) as Hf by (eapply sim_fresh; eauto; lia).
  split; rewrite ?E1, ?E2, ?E3, ?E4; cbn; try done.
  - intros t Ht. rewrite (pending_for_advance lo i m) by (try done; lia).
    destruct (Z.leb_spec t (request_read i)); [apply sim_replies0; lia|].
    apply sim_future0. lia.
  - intros t Ht. apply sim_future0. lia.
  - intros k Hk. destruct (current_reply i).
    + destruct (sim_keys0 k Hk) as (t & -> & ?). exists t. split; [done|lia].
    + rewrite map_put_keys in Hk. apply elem_of_app in Hk as [Hk| ->%list_elem_of_singleton].
      * destruct (sim_keys0 k Hk) as (t & -> & ?). exists t. split; [done|lia].
      * exists (request_read i). split; [done|lia].
  - destruct (current_reply i); [done|]. rewrite map_put_keys.
    apply NoDup_app. split; [done|]. split; [set_solver|apply NoDup_singleton].
  - intros k l Hk. destruct (current_reply i); [eauto|].
    apply elem_of_app in Hk as [?|[= -> ->]%list_elem_of_singleton]; [eauto|done].
  - lia.
  - lia.
Qed.
End SequenceStep.

(** ** The operations refine the machine *)

Section Refinement.
Context `{Host} `{XProto}.

Lemma sim_store lo i m d buf q :
  Sim lo i m →
  Sim lo (store d buf (set_in_queue q i)) (demux_packet (request_read i) d buf m).
Proof.
  intros Hs. pose proof Hs as []. pose proof (sim_window _ _ _ Hs).
  destruct d; split; cbn; try done.
  - intros t Ht. destruct (decide (t = request_read i)) as [->|Hne].
    + rewrite fn_lookup_insert, sim_replies0 by lia. unfold pending_for. cbn.
      by rewrite Z.eqb_refl.
    + rewrite fn_lookup_insert_ne, sim_replies0 by lia. unfold pending_for. cbn.
      by destruct (Z.eqb_spec t (request_read i)).
  - intros t Ht. rewrite fn_lookup_insert_ne by lia. apply sim_future0. lia.
  - by rewrite sim_events0.
Qed.

(** The machine with another queue for request [s]. *)
Definition demux_set (s : Z) (q : list (list byte)) (m : demux) : demux :=
  Demux (d_read m) (<[s := q]> (d_replies m)) (d_events m).

(** Only the contents of the queues count. *)
Lemma sim_ext_replies lo i m m' :
  Sim lo i m → d_read m' = d_read m → d_events m' = d_events m →
  (∀ t, d_replies m' t = d_replies m t) → Sim lo i m'.
Proof.
  intros [] E1 E2 E3. split; try done; try congruence; intros t ?; rewrite E3; auto.
Qed.

(** Replacing the queue of the request being answered. *)
Lemma sim_set_current lo i m q :
  Sim lo i m → Sim lo (set_current_reply q i) (demux_set (request_read i) q m).
Proof.
  intros Hs. pose proof Hs as []. pose proof (sim_window _ _ _ Hs).
  split; cbn; try done.
  - intros t Ht. destruct (decide (t = request_read i)) as [->|Hne].
    + rewrite fn_lookup_insert. unfold pending_for. cbn. by rewrite Z.eqb_refl.
    + rewrite fn_lookup_insert_ne, sim_replies0 by lia. unfold pending_for. cbn.
      by destruct (Z.eqb_spec t (request_read i)).
  - intros t Ht. rewrite fn_lookup_insert_ne by lia. apply sim_future0. lia.
Qed.

Lemma sim_current lo i m : Sim lo i m → d_replies m (request_read i) = current_reply i.
Proof.
  intros Hs. pose proof (sim_window _ _ _ Hs).
  rewrite (sim_replies _ _ _ Hs) by lia. unfold pending_for. by rewrite Z.eqb_refl.
Qed.

(** Collecting a reply that is still on [current_reply]. *)
Lemma sim_take_current lo i m buf rest :
  Sim lo i m → current_reply i = buf :: rest →
  (demux_take (request_read i) m).1 = Some buf ∧
  Sim lo (set_current_reply rest i) (demux_take (request_read i) m).2.
Proof.
  intros Hs Hc. unfold demux_take. rewrite (sim_current _ _ _ Hs), Hc.
  split; [done|]. by apply sim_set_current.
Qed.

(** The map with another queue for [k]. *)
Definition set_in_map (l : list (Z * list (list byte))) (k : Z) (q : list (list byte)) :=
  match q with
  | [] => (map_remove l k).2
  | _ => map_put (map_remove l k).2 k q
  end.

Lemma map_get_elem {D} (l : list (Z * D)) k d : map_get l k = Some d → (k, d) ∈ l.
Proof.
  induction l as [|[k' d'] l IH]; [done|]. rewrite map_get_cons.
  destruct (Z.eqb_spec k' k) as [->|]; [intros [= ->]; left|right; auto].
Qed.

Lemma map_remove_elem {D} (l : list (Z * D)) k x : x ∈ (map_remove l k).2 → x ∈ l.
Proof.
  induction l as [|[k' d'] l IH]; [done|]. rewrite map_remove_cons.
  destruct (k' =? k); set_solver.
Qed.

Lemma set_in_map_keys l k q k' :
  NoDup l.*1 → k' ∈ (set_in_map l k q).*1 → k' ∈ l.*1 ∨ k' = k ∧ q ≠ [].
Proof.
  intros Hn Hin. unfold set_in_map in Hin. destruct q.
  - left. by apply map_remove_keys in Hin as [? _].
  - rewrite map_put_keys in Hin. apply elem_of_app in Hin as [Hin|Hin].
    + left. by apply map_remove_keys in Hin as [? _].
    + right. apply list_elem_of_singleton in Hin. by split.
Qed.

Lemma set_in_map_nodup l k q : NoDup l.*1 → NoDup (set_in_map l k q).*1.
Proof.
  intros Hn. unfold set_in_map. destruct q; [by apply map_remove_nodup|].
  rewrite map_put_keys. apply NoDup_app. split; [by apply map_remove_nodup|].
  split; [|apply NoDup_singleton]. intros x Hx ->%list_elem_of_singleton.
  by apply map_remove_keys in Hx as [_ ?].
Qed.

Lemma set_in_map_get l k q k' :
  NoDup l.*1 → default [] (map_get (set_in_map l k q) k') =
    if k =? k' then q else default [] (map_get l k').
Proof.
  intros Hn. unfold set_in_map. destruct q.
  - rewrite map_get_remove by done. by destruct (k =? k').
  - rewrite map_get_put, map_get_remove; [by destruct (k =? k')|done|].
    rewrite map_remove_keys by done. naive_solver.
Qed.

Lemma set_in_map_full l k q :
  (∀ k' l', (k', l') ∈ l → l' ≠ []) → ∀ k' l', (k', l') ∈ set_in_map l k q → l' ≠ [].
Proof.
  intros Hf k' l' Hin. unfold set_in_map in Hin. destruct q; [by eapply Hf, map_remove_elem|].
  apply elem_of_app in Hin as [?%map_remove_elem|[= -> ->]%list_elem_of_singleton]; [eauto|done].
Qed.

(** Replacing the queue of a request the reader has moved past. *)
Lemma sim_set_map lo i m s q :
  Sim lo i m → lo <= s < request_read i →
  Sim lo (set_replies (set_in_map (replies i) (u32 s) q) i) (demux_set s q m).
Proof.
  intros Hs Hr. pose proof Hs as []. pose proof (sim_window _ _ _ Hs).
  split; cbn; try done.
  - intros t Ht. unfold pending_for. cbn. rewrite set_in_map_get by done.
    destruct (decide (s = t)) as [<-|Hn].
    + rewrite fn_lookup_insert, Z.eqb_refl. by destruct (Z.eqb_spec s (request_read i)); [lia|].
    + rewrite fn_lookup_insert_ne, sim_replies0 by lia. unfold pending_for.
      destruct (Z.eqb_spec (u32 s) (u32 t)) as [E|]; [|done].
      destruct Hn. apply (u32_inj lo); lia.
  - intros t Ht. rewrite fn_lookup_insert_ne by lia. by apply sim_future0.
  - intros k [Hk|[-> _]]%set_in_map_keys; [by apply sim_keys0| |done]. by exists s.
  - by apply set_in_map_nodup.
  - by apply set_in_map_full.
Qed.

(** Collecting a reply from the map. *)
Lemma sim_take_map lo i m s buf rest :
  Sim lo i m → lo <= s < request_read i → map_get (replies i) (u32 s) = Some (buf :: rest) →
  (demux_take s m).1 = Some buf ∧
  Sim lo (set_replies (set_in_map (replies i) (u32 s) rest) i) (demux_take s m).2.
Proof.
  intros Hs Hr Hg. unfold demux_take.
  rewrite (sim_replies _ _ _ Hs) by lia. unfold pending_for.
  destruct (Z.eqb_spec s (request_read i)); [lia|]. rewrite Hg. cbn.
  split; [done|]. by apply (sim_set_map lo i m).
Qed.

(** What [poll_for_reply] stores for a collected packet. *)
Definition reply_result (buf : list byte) (want_error : bool) :=
  if field 0 1 buf =? XCB_ERROR then (None, if want_error then Some buf else None)
  else (Some buf, None).

Lemma return_reply_some buf e w :
  1 <= zlength buf → return_reply (Some buf) e w = Ret (Some (reply_result buf e)) w.
Proof.
  intros Hb. unfold return_reply, reply_result.
  destruct (Z.ltb_spec (zlength buf) 1); [lia|]. by destruct (_ =? XCB_ERROR).
Qed.

Lemma sim_no_replies lo i m s :
  Sim lo i m → map_get (replies i) (u32 s) = None → set_replies (map_remove (replies i) (u32 s)).2 i = i.
Proof.
  intros _ Hg.
  assert (∀ l : list (Z * list (list byte)), map_get l (u32 s) = None → (map_remove l (u32 s)).2 = l) as Hl.
  { induction l as [|[k d] l IH]; [done|]. rewrite map_get_cons, map_remove_cons.
    destruct (k =? u32 s); [done|]. intros ?. f_equal. auto. }
  rewrite Hl by done. by destruct i.
Qed.

(** [read_packet] refines the arrival of a packet: for a complete packet that
    answers request [s], the reply or checked error is appended to the queue of
    [s] and of no other request, the event or unchecked error to the event
    queue, and exactly the bytes of the packet leave the input queue. *)
Lemma read_packet_demux lo w m s :
  Sim lo (w_in w) m → no_oom w → front_complete w →
  answers (front_header w) (w_in w) s → s < lo + 2 ^ 31 → s < 2 ^ 63 →
  ∃ w', read_packet w = Ret true w' ∧
    Sim lo (w_in w') (demux_packet s (front_destination w) (front_buffer w) m) ∧
    in_queue (w_in w') = drop (Z.to_nat (front_length w)) (in_queue (w_in w)).
Proof.
  intros Hs Ho Hc Ha Hlo Hb. rewrite read_packet_front by done.
  eexists. split; [done|].
  pose proof (sim_window _ _ _ Hs).
  assert (request_read (w_in w) <= s) as Hrs.
  { unfold answers in Ha. destruct (_ =? XCB_KEYMAP_NOTIFY); lia. }
  destruct (sequence_effect_view _ _ _ Ha) as [Hv Hcp]; [lia|done|].
  pose proof (sim_advance lo (w_in w) m s Hs ltac:(lia) Hb) as Hadv.
  assert (request_read (advance s (w_in w)) = s) as Hr.
  { unfold advance. by destruct (Z.eqb_spec s (request_read (w_in w))). }
  assert (Sim lo (front_state w) (Demux s (d_replies m) (d_events m))) as Hf.
  { eapply sim_view; [exact Hv| |exact Hadv]. rewrite Hr.
    unfold front_state. rewrite Hcp. destruct (_ && _); [by right|by left]. }
  assert (request_read (front_state w) = s) as Hrf.
  { destruct Hv as [Hv _]. unfold front_state. congruence. }
  split.
  - pose proof (sim_store lo _ _ (front_destination w) (front_buffer w)
      (drop (Z.to_nat (front_length w)) (in_queue (w_in w))) Hf) as Hst.
    rewrite Hrf in Hst. exact Hst.
  - cbn. by destruct (front_destination w).
Qed.

(** [poll_for_reply] of a request the reader has moved past. *)
Lemma poll_past lo w m s e :
  Sim lo (w_in w) m → no_oom w → u32 s ≠ 0 → lo <= s < request_read (w_in w) →
  (∀ b, b ∈ d_replies m s → 1 <= zlength b) →
  ∃ w', poll_for_reply (u32 s) e w =
    Ret (Some match (demux_take s m).1 with
              | Some buf => reply_result buf e
              | None => (None, None)
              end) w' ∧
    Sim lo (w_in w') (demux_take s m).2.
Proof.
  intros Hs Ho Hz Hr Hb. pose proof (sim_window _ _ _ Hs). pose proof (sim_range _ _ _ Hs).
  unfold poll_for_reply. rewrite bind_gets. set (i := w_in w) in *.
  destruct (Z.eqb_spec (u32 s) 0) as [|_]; [done|].
  rewrite compare_32_counter by lia.
  destruct (Z.ltb_spec (s - request_read i) 0) as [_|]; [|lia].
  unfold modify_in. rewrite bind_modify. fold i.
  change (map_remove (replies i) (u32 s)).1 with (map_get (replies i) (u32 s)).
  destruct (map_get (replies i) (u32 s)) as [[|buf rest]|] eqn:Eg.
  - by destruct (sim_full _ _ _ Hs _ _ (map_get_elem _ _ _ Eg)).
  - destruct (sim_take_map lo i m s buf rest Hs ltac:(lia) Eg) as [E1 Hs'].
    rewrite E1. assert (1 <= zlength buf) as Hbuf.
    { apply Hb. unfold demux_take in E1. destruct (d_replies m s); [done|].
      injection E1 as ->. set_solver. }
    destruct rest as [|b rest].
    + eexists. split; [apply return_reply_some; done|]. exact Hs'.
    + unfold replies_put. rewrite bool_decide_eq_false_2 by done. cbn [negb].
      rewrite bind_when_true, bind_assoc, bind_assoc.
      rewrite (bind_run _ _ _ _ _ (malloc_small 24 (set_w_in _ w) Ho ltac:(lia))).
      unfold modify_in. rewrite bind_assoc, bind_modify.
      eexists. split; [by apply return_reply_some|].
      cbn [w_in set_w_in replies set_replies]. rewrite (u32_small (u32 s)) by apply u32_range.
      exact Hs'.
  - assert ((demux_take s m) = (None, m)) as ->.
    { unfold demux_take. rewrite (sim_replies _ _ _ Hs) by lia. unfold pending_for.
      destruct (Z.eqb_spec s (request_read i)); [lia|]. by rewrite Eg. }
    eexists. split; [done|]. cbn [w_in set_w_in snd].
    by rewrite (sim_no_replies lo i m).
Qed.

(** [poll_for_reply] of the request being answered, or of a later one. *)
Lemma poll_current lo w m s e :
  Sim lo (w_in w) m → u32 s ≠ 0 →
  request_read (w_in w) <= s < request_read (w_in w) + 2 ^ 31 - 1 →
  (∀ b, b ∈ d_replies m s → 1 <= zlength b) →
  ∃ w', poll_for_reply (u32 s) e w =
    Ret (match (demux_take s m).1 with
         | Some buf => Some (reply_result buf e)
         | None => if s =? request_completed (w_in w) then Some (None, None) else None
         end) w' ∧
    Sim lo (w_in w') (demux_take s m).2.
Proof.
  intros Hs Hz Hr Hb. pose proof (sim_window _ _ _ Hs).
  pose proof (sim_range _ _ _ Hs). pose proof (sim_completed _ _ _ Hs).
  unfold poll_for_reply. rewrite bind_gets. set (i := w_in w) in *.
  destruct (Z.eqb_spec (u32 s) 0) as [|_]; [done|].
  rewrite !compare_32_counter by lia.
  destruct (Z.ltb_spec (s - request_read i) 0) as [|_]; [lia|].
  assert (current_reply i = [] ∨ s ≠ request_read i → demux_take s m = (None, m)) as Hnone.
  { intros Hn. unfold demux_take. assert (d_replies m s = []) as ->; [|done].
    destruct (decide (s = request_read i)) as [->|].
    - rewrite (sim_replies _ _ _ Hs) by lia. unfold pending_for. rewrite Z.eqb_refl.
      destruct Hn; done.
    - apply (sim_future _ _ _ Hs). lia. }
  assert ((s - request_completed i =? 0) = (s =? request_completed i)) as Ec.
  { destruct (Z.eqb_spec (s - request_completed i) 0), (Z.eqb_spec s (request_completed i)); lia. }
  rewrite Ec. destruct (current_reply i) as [|buf rest] eqn:Ecur.
  - rewrite Hnone by auto. exists w. by destruct (s =? request_completed i).
  - destruct (Z.eqb_spec (s - request_read i) 0) as [E0|Hn0].
    + assert (s = request_read i) as -> by lia.
      destruct (sim_take_current lo i m buf rest Hs Ecur) as [E1 Hs']. rewrite E1.
      assert (1 <= zlength buf) as Hbuf.
      { apply Hb. unfold demux_take in E1. destruct (d_replies m (request_read i)); [done|].
        injection E1 as ->. set_solver. }
      unfold modify_in. rewrite bind_modify.
      eexists. split; [by apply return_reply_some|exact Hs'].
    + rewrite Hnone by (right; lia). exists w. by destruct (s =? request_completed i).
Qed.

(** [poll_for_reply] refines the collection of a reply: it returns the oldest
    uncollected reply of the request and removes it and nothing else; without
    one it answers "none" exactly when no more can arrive and "would block"
    otherwise. *)
Lemma poll_for_reply_demux lo w m s e :
  Sim lo (w_in w) m → no_oom w → u32 s ≠ 0 →
  lo <= s < request_read (w_in w) + 2 ^ 31 - 1 →
  (∀ b, b ∈ d_replies m s → 1 <= zlength b) →
  ∃ w', poll_for_reply (u32 s) e w =
    Ret (match (demux_take s m).1 with
         | Some buf => Some (reply_result buf e)
         | None => if (s <? request_read (w_in w)) || (s =? request_completed (w_in w))
                   then Some (None, None) else None
         end) w' ∧
    Sim lo (w_in w') (demux_take s m).2.
Proof.
  intros Hs Ho Hz Hr Hb. destruct (Z.ltb_spec s (request_read (w_in w))) as [Hlt|Hge].
  - destruct (poll_past lo w m s e Hs Ho Hz ltac:(lia) Hb) as (w' & E & Hs').
    exists w'. rewrite E. split; [|done]. by destruct (demux_take s m).1.
  - apply (poll_current lo w m s e); [done|done|lia|done].
Qed.

(** [get_event] refines the collection of an event: first in, first out. *)
Lemma get_event_demux lo w m :
  Sim lo (w_in w) m →
  ∃ w', get_event w = Ret (demux_event m).1 w' ∧ Sim lo (w_in w') (demux_event m).2.
Proof.
  intros Hs. unfold get_event, demux_event. rewrite bind_gets. unfold compose.
  rewrite (sim_events _ _ _ Hs).
  destruct (events (w_in w)) as [|ev t] eqn:E; [by exists w|].
  eexists. split; [done|]. destruct Hs. by split.
Qed.
End Refinement.

(** ** A concrete state *)

Section Concrete.
#[local] Existing Instances sample_host sample_proto.

(** Nothing has been read yet. *)
Definition no_replies : demux := Demux 0 (λ _, []) [].

Lemma sample_sim (i : xcb_in) :
  request_read i = 0 → request_completed i = 0 → current_reply i = [] → replies i = [] →
  events i = [] → Sim 0 i no_replies.
Proof.
  intros E1 E2 E3 E4 E5. split; rewrite ?E1, ?E2, ?E4, ?E5; try done.
  - intros t Ht. unfold pending_for. rewrite E1, E3, E4. by destruct (t =? 0).
  - set_solver.
  - constructor.
  - set_solver.
Qed.
End Concrete.
