(* ===== verification/Conn.v ===== *)
(** * Waiting on the socket: [src/xcb_conn.c]

    [_xcb_conn_wait] is the only place where the library blocks on the server;
    it reads what has arrived and, for a writer, writes what the kernel takes.
    The connection setup of the same C file is in Connect.v. *)
From S2P Require Import Prelude Effects Seq State In.
#[local] Open Scope Z_scope.

Definition POLLIN : Z := 1.
Definition POLLOUT : Z := 4.

Section Conn.
Context `{Host} `{XProto}.

(** The [for] loop of [write_vec]: [n] bytes of the vector have been written.
    [iov_len] is converted to [int], so an entry of [2^31] bytes or more moves
    [iov_base] backwards. *)
Fixpoint advance_iov (n : Z) (vector : list (list byte)) : xM (Z * list (list byte)) :=
  match vector with
  | [] => ret (n, [])
  | b :: t =>
      let cur := if s32 (zlength b) >? n then n else s32 (zlength b) in
      if cur <? 0 then fail FOutOfBounds else
      let b' := drop (Z.to_nat cur) b in
      if bool_decide (b' = []) then advance_iov (n - cur) t
      else ret (n - cur, b' :: t)
  end.

(** [write_vec]: the C result and what is left of the vector.  The C code keeps
    the result of [writev] in an [int]; Linux transfers at most [0x7ffff000] bytes
    at a time, so that the conversion changes nothing. *)
Definition write_vec (vector : list (list byte)) : xM (bool * list (list byte)) :=
  queue ← gets (out_queue ∘ w_out);
  assertM (bool_decide (queue = []));;
  r ← writev vector;
  match r with
  | WritevWouldBlock => ret (true, vector)
  | WritevFailed => _xcb_conn_shutdown;; ret (false, vector)
  | Written n =>
      if n <=? 0 then _xcb_conn_shutdown;; ret (false, vector) else
      a ← advance_iov n vector;
      assertM (a.1 =? 0);;
      ret (true, a.2)
  end.

(** The part of [_xcb_conn_wait] between [pthread_mutex_lock] and the updates of
    the counters. *)
Definition conn_io (revents : Z) (vector : option (list (list byte)))
    : xM (bool * option (list (list byte))) :=
  r ← (if Z.land revents POLLIN =? POLLIN then _xcb_in_read else ret true);
  if negb r then ret (false, vector) else
  if Z.land revents POLLOUT =? POLLOUT then
    match vector with
    | None => fail FNull
    | Some v => o ← write_vec v; ret (o.1, Some o.2)
    end
  else ret (true, vector).

(** The counters that say that the thing to do is already being done. *)
Definition wait_busy (vector : option (list (list byte))) (w : world) : bool :=
  negb (match vector with
        | Some _ => out_writing (w_out w)
        | None => in_reading (w_in w)
        end =? 0).

(** [fd.events] *)
Definition wait_events (vector : option (list (list byte))) : Z :=
  match vector with Some _ => Z.lor POLLIN POLLOUT | None => POLLIN end.

(** The three stages of [_xcb_conn_wait]: from the test to the [unlock], between
    [unlock] and [lock], and from the [lock] on. *)
Definition enter_poll (vector : option (list (list byte))) : xM () :=
  modify_in (λ i, set_in_reading (in_reading i + 1) i);;
  when (bool_decide (is_Some vector))
    (modify_out (λ o, set_out_writing (out_writing o + 1) o));;
  pthread_mutex_unlock IoLock.

Definition poll_socket (vector : option (list (list byte))) : xM (option Z) :=
  p ← poll;
  let ready := match p with
               | Some revents =>
                   if Z.land revents (Z.lnot (wait_events vector)) =? 0 then Some revents else None
               | None => None
               end in
  when (bool_decide (ready = None)) _xcb_conn_shutdown;;
  ret ready.

Definition leave_poll (ready : option Z) (vector : option (list (list byte)))
    : xM (bool * option (list (list byte))) :=
  r ← match ready with
      | Some revents => conn_io revents vector
      | None => ret (false, vector)
      end;
  when (bool_decide (is_Some vector))
    (modify_out (λ o, set_out_writing (out_writing o - 1) o));;
  modify_in (λ i, set_in_reading (in_reading i - 1) i);;
  ret r.

(** [_xcb_conn_wait(c, cond, vector, count)]; [vector] is [None] when [count] is
    null.  The result is the C result and what is left of the vector. *)
Definition _xcb_conn_wait (c : cond) (vector : option (list (list byte)))
    : xM (bool * option (list (list byte))) :=
  busy ← gets (wait_busy vector);
  if busy then pthread_cond_wait c IoLock;; ret (true, vector) else
  enter_poll vector;;
  ready ← poll_socket vector;
  pthread_mutex_lock IoLock;;
  leave_poll ready vector.
End Conn.
