(* ===== verification/Chunks.v ===== *)
(** * Reading packets that arrive in pieces

    The kernel hands over the server's stream in pieces of its own choosing.
    When the pieces keep coming, [read_packet] does with the beginning of a
    packet what it would do if the rest had arrived already. *)
From S2P Require Import Prelude Effects Seq XcbMap State In InFrame InFacts Conn.
#[local] Open Scope Z_scope.

(** ** A server that goes on sending *)

(** Non-empty pieces, and now and then nothing yet. *)
Definition sending (l : list recv_event) : Prop :=
  Forall (λ e, match e with RecvData bs => bs ≠ [] | RecvAgain => True | _ => False end) l.

(** How often [recv] can be called at most before the tape is at its end. *)
Fixpoint effort (l : list recv_event) : nat :=
  match l with
  | [] => 0
  | RecvData bs :: t => length bs + effort t
  | _ :: t => S (effort t)
  end.

Definition readable (l : list poll_event) : Prop := Forall (eq (PollReady POLLIN)) l.

(** The server sends, and [poll] reports it often enough. *)
Definition served (w : world) : Prop :=
  sending (os_recvs (w_os w)) ∧ readable (os_polls (w_os w)) ∧
  (effort (os_recvs (w_os w)) <= length (os_polls (w_os w)))%nat.

Definition with_tapes (rs : list recv_event) (ps : list poll_event) (w : world) : world :=
  set_w_os (set_os_recvs rs (set_os_polls ps (w_os w))) w.

Definition with_in_queue (q : list byte) (w : world) : world :=
  set_w_in (set_in_queue q (w_in w)) w.

(** The world in which everything the server still sends has been received. *)
Definition whole (w : world) : world := with_in_queue (input w) (with_tapes [] [] w).

Lemma with_tapes_id w : with_tapes (os_recvs (w_os w)) (os_polls (w_os w)) w = w.
Proof. by destruct w as [? ? ? ? ? ? ? ? []]. Qed.

(** One call of [recv]: a piece, or nothing yet, and the tape is nearer its end. *)
Lemma recv_sending n w :
  0 < n → sending (os_recvs (w_os w)) → os_recvs (w_os w) ≠ [] →
  ∃ r bs rs, recv n w = Ret r (with_tapes rs (os_polls (w_os w)) w) ∧
    (r = Received bs ∧ bs ≠ [] ∨ r = RecvWouldBlock ∧ bs = []) ∧
    zlength bs <= n ∧ stream (os_recvs (w_os w)) = bs ++ stream rs ∧
    sending rs ∧ (effort rs < effort (os_recvs (w_os w)))%nat.
Proof.
  intros Hn Hs Hne. unfold recv. destruct (Z.leb_spec n 0); [lia|]. rewrite bind_gets.
  unfold compose. destruct (os_recvs (w_os w)) as [|[bs| | |] t] eqn:E; [done| | |by inversion Hs..].
  - apply Forall_cons in Hs as [Hb Hs]. destruct (Z.leb_spec (zlength bs) n) as [Hle|Hgt].
    + exists (Received bs), bs, t. split_and!; [|by left|done..|].
      * cbn. by destruct w as [? ? ? ? ? ? ? ? []].
      * destruct bs; [done|]. cbn. lia.
    + exists (Received (take (Z.to_nat n) bs)), (take (Z.to_nat n) bs),
        (RecvData (drop (Z.to_nat n) bs) :: t).
      unfold zlength in Hgt. split_and!.
      * cbn. by destruct w as [? ? ? ? ? ? ? ? []].
      * left. split; [done|]. intros Ht%(f_equal length). rewrite length_take in Ht. cbn in Ht. lia.
      * rewrite zlength_take; unfold zlength; lia.
      * cbn. by rewrite app_assoc, take_drop.
      * apply Forall_cons. split; [|done]. intros Ht%(f_equal length).
        rewrite length_drop in Ht. cbn in Ht. lia.
      * cbn. rewrite length_drop. lia.
  - apply Forall_cons in Hs as [_ Hs]. exists RecvWouldBlock, [], t. split_and!; [|by right| |done|done|cbn; lia].
    + cbn. by destruct w as [? ? ? ? ? ? ? ? []].
    + rewrite zlength_nil. lia.
Qed.

Lemma poll_readable w :
  readable (os_polls (w_os w)) → os_polls (w_os w) ≠ [] →
  ∃ ps, os_polls (w_os w) = PollReady POLLIN :: ps ∧
    poll w = Ret (Some POLLIN) (with_tapes (os_recvs (w_os w)) ps w).
Proof.
  intros Hr Hne. destruct (os_polls (w_os w)) as [|p ps] eqn:E; [done|].
  apply Forall_cons in Hr as [<- _]. exists ps. split; [done|].
  unfold poll, modify_os. rewrite bind_modify, bind_gets. unfold compose.
  cbn [w_os set_w_os os_polls set_os_polls]. rewrite E. cbn [skip_intr].
  cbn. by destruct w as [? ? ? ? ? ? ? ? []].
Qed.

(** ** Reading a block *)

Lemma read_block_loop_sending fuel len buf w :
  served w → (effort (os_recvs (w_os w)) < fuel)%nat →
  zlength buf <= len <= zlength buf + zlength (stream (os_recvs (w_os w))) →
  ∃ bs rs ps, read_block_loop fuel len buf w = Ret (len, buf ++ bs) (with_tapes rs ps w) ∧
    zlength buf + zlength bs = len ∧ stream (os_recvs (w_os w)) = bs ++ stream rs ∧
    served (with_tapes rs ps w).
Proof.
  revert buf w. induction fuel as [|fuel IH]; intros buf w (Hs & Hr & Hk) Hf Hl; [lia|].
  cbn [read_block_loop]. destruct (Z.ltb_spec (zlength buf) len) as [Hlt|Hge].
  2: { exists [], (os_recvs (w_os w)), (os_polls (w_os w)). rewrite app_nil_r, with_tapes_id.
       split_and!; [by replace len with (zlength buf) by lia| |done..].
       rewrite zlength_nil. lia. }
  assert (os_recvs (w_os w) ≠ []) as Hne.
  { intros E. rewrite E in Hl. cbn [stream] in Hl. rewrite zlength_nil in Hl. lia. }
  destruct (recv_sending (len - zlength buf) w) as (r & bs & rs & E & Hc & Hn & Hst & Hs' & He);
    [lia|done..|].
  rewrite (bind_run _ _ _ _ _ E). set (w1 := with_tapes rs (os_polls (w_os w)) w) in *.
  rewrite Hst, zlength_app in Hl. destruct Hc as [[-> Hb]|[-> ->]].
  - destruct bs as [|b bs]; [done|].
    destruct (IH (buf ++ b :: bs) w1) as (bs2 & rs2 & ps2 & E2 & Hz & Hst2 & Hsv).
    + split_and!; [done|done|]. cbn. lia.
    + cbn. lia.
    + cbn [w1 with_tapes w_os set_w_os os_recvs set_os_recvs]. rewrite zlength_app. lia.
    + exists ((b :: bs) ++ bs2), rs2, ps2. rewrite E2, app_assoc. split_and!; try done.
      * rewrite zlength_app in *. lia.
      * rewrite Hst, <- app_assoc. by f_equal.
  - destruct (poll_readable w1) as (ps & Hp & E1); [done| |].
    { intros Hp. cbn in Hp. rewrite Hp in Hk. cbn in Hk. lia. }
    rewrite (bind_run _ _ _ _ _ E1). cbn in Hp. rewrite Hp in Hr, Hk. apply Forall_cons in Hr as [_ Hr].
    destruct (IH buf (with_tapes (os_recvs (w_os w1)) ps w1)) as (bs2 & rs2 & ps2 & E2 & Hz & Hst2 & Hsv).
    + split_and!; [done|done|]. cbn in Hk |- *. lia.
    + cbn. lia.
    + cbn. rewrite zlength_nil in Hl. lia.
    + exists bs2, rs2, ps2. by rewrite E2, Hst.
Qed.

(** [m] treats a stream in pieces like a stream that has arrived. *)
Definition piecewise {A} (m : xM A) (w : world) : Prop :=
  ∃ a w', m w = Ret a w' ∧ served w' ∧ m (whole w) = Ret a (whole w').

Lemma piecewise_bind {A B} (m : xM A) (f : A → xM B) w :
  piecewise m w → (∀ a w', m w = Ret a w' → served w' → piecewise (f a) w') →
  piecewise (bind m f) w.
Proof.
  intros (a & w1 & E1 & Hs1 & W1) Hf. destruct (Hf a w1 E1 Hs1) as (b & w2 & E2 & Hs2 & W2).
  exists b, w2. by rewrite (bind_run _ _ _ _ _ E1), (bind_run _ _ _ _ _ W1).
Qed.

Lemma in_read_block_piecewise room len w :
  served w → 0 <= len <= zlength (input w) → len <= room →
  piecewise (_xcb_in_read_block room len) w ∧
  ∃ w', _xcb_in_read_block room len w = Ret (len, take (Z.to_nat len) (input w)) w' ∧
    input w' = drop (Z.to_nat len) (input w) ∧
    ∃ q rs ps, w' = with_in_queue q (with_tapes rs ps w).
Proof.
  intros Hs Hl Hr.
  assert (∃ w', _xcb_in_read_block room len w = Ret (len, take (Z.to_nat len) (input w)) w' ∧
    served w' ∧ input w' = drop (Z.to_nat len) (input w) ∧
    ∃ q rs ps, w' = with_in_queue q (with_tapes rs ps w)) as (w' & E & Hs' & Hi & q & rs & ps & ->).
  2: { split; [|by eauto 10]. eexists _, _. split; [exact E|]. split; [done|].
       rewrite in_read_block_queue by done. f_equal. unfold whole. rewrite Hi. reflexivity. }
  destruct (decide (len <= zlength (in_queue (w_in w)))) as [Hq|Hq].
  { rewrite in_read_block_queue by lia. unfold input.
    assert (Z.to_nat len <= length (in_queue (w_in w)))%nat by (unfold zlength in *; lia).
    rewrite take_app_le, drop_app_le by done. eexists. split_and!; try done.
    exists (drop (Z.to_nat len) (in_queue (w_in w))), (os_recvs (w_os w)), (os_polls (w_os w)).
    by rewrite with_tapes_id. }
  set (queue := in_queue (w_in w)) in *. pose proof (zlength_nonneg queue).
  assert (zlength (input w) = zlength queue + zlength (stream (os_recvs (w_os w)))) as Hz.
  { unfold input. by rewrite zlength_app. }
  unfold _xcb_in_read_block. destruct (Z.ltb_spec room len); [lia|]. rewrite bind_gets.
  unfold compose. fold queue. destruct (Z.ltb_spec len (zlength queue)); [lia|]. cbv zeta.
  destruct (Z.ltb_spec (zlength queue) 0); [lia|]. unfold modify_in. rewrite bind_modify.
  destruct (Z.ltb_spec (zlength queue) len); [|lia].
  rewrite drop_ge, take_ge by (unfold zlength; lia).
  set (w1 := set_w_in _ w). unfold read_block. rewrite bind_assoc, bind_gets.
  destruct (read_block_loop_sending (S (length (os_recvs (w_os w1)) + length (os_polls (w_os w1))))
    (len - zlength queue) [] w1) as (bs & rs & ps & E & Hlb & Hst & Hsv).
  - done.
  - destruct Hs as (_ & _ & Hk). cbn. lia.
  - rewrite zlength_nil. cbn. lia.
  - rewrite (bind_run _ _ _ _ _ E). cbn [fst snd]. destruct (Z.leb_spec (len - zlength queue) 0); [lia|].
    assert (input w = (queue ++ bs) ++ stream rs) as Hi.
    { unfold input. fold queue. cbn in Hst. by rewrite Hst, app_assoc. }
    rewrite zlength_nil in Hlb.
    assert (Z.to_nat len = length (queue ++ bs)) as Hn.
    { rewrite length_app. unfold zlength in *. lia. }
    rewrite Hi, Hn, take_app_length, drop_app_length. eexists. split_and!; [done|done|done|].
    by exists [], rs, ps.
Qed.

(** ** Reading a packet *)

Section Packets.
Context `{Host} `{XProto}.

Lemma piecewise_malloc n w : served w → no_oom w → 0 <= n < 2 ^ 63 → piecewise (malloc n) w.
Proof.
  intros Hs Ho Hn. exists true, w.
  rewrite !malloc_small by done. done.
Qed.

Lemma piecewise_dispatch g pend size bs ev w :
  served w → no_oom w → ((response_type g =? XCB_REPLY) = false → 36 <= size) →
  piecewise (dispatch_packet g pend size bs ev) w.
Proof.
  intros Hs Ho Hz. eexists true, _. rewrite !dispatch_ok by done. cbv zeta.
  split; [done|]. split; [done|]. by destruct (destination_of g pend).
Qed.

Lemma piecewise_receive g pend len elen w :
  served w → no_oom w → 0 < len → 0 <= elen →
  ((response_type g =? XCB_REPLY) = true → elen = 0) →
  ((response_type g =? XCB_REPLY) = false → len = 32) →
  len + elen <= zlength (input w) → len + elen < 2 ^ 31 →
  piecewise (receive_packet g pend len elen) w.
Proof.
  intros Hs Ho Hl He Hrep Hev Hq Hb. unfold receive_packet.
  set (extra := if response_type g =? XCB_REPLY then 0 else 4).
  assert (packet_size g len elen = len + elen + extra ∧ 0 <= extra <= 4) as [-> Hx].
  { assert (0 <= extra <= 4) by (subst extra; destruct (response_type g =? XCB_REPLY); lia).
    split; [|done]. unfold packet_size. fold extra.
    rewrite s32_small by (unfold int_range; lia). apply u64_small. lia. }
  assert ((response_type g =? XCB_REPLY) = false → len + elen + extra = 36 + elen) as Hsz.
  { intros Hr. subst extra. rewrite Hr, (Hev Hr). lia. }
  cbv zeta. apply piecewise_bind; [apply piecewise_malloc; [done..|lia]|].
  intros ok w1 E1 Hs1. rewrite malloc_small in E1 by (done || lia). injection E1 as <- <-.
  cbn [negb].
  destruct (in_read_block_piecewise (len + elen + extra) len w) as [Hp (w2 & E2 & Hi & Hf)]; [done|lia|lia|].
  apply piecewise_bind; [done|]. intros r w2' E2' Hs2. rewrite E2 in E2'. injection E2' as <- <-.
  assert (no_oom w2) as Ho2 by by destruct Hf as (? & ? & ? & ->).
  cbn [fst snd]. destruct (Z.leb_spec len 0); [lia|]. destruct (Z.eqb_spec elen 0) as [->|Hne].
  { apply piecewise_dispatch; [done..|]. intros Hr. rewrite (Hsz Hr). lia. }
  assert ((response_type g =? XCB_REPLY) = false) as Hr.
  { destruct (_ =? XCB_REPLY); [|done]. by destruct Hne; apply Hrep. }
  pose proof (Hsz Hr).
  destruct (in_read_block_piecewise (len + elen + extra - 36) elen w2) as [Hp3 (w3 & E3 & _ & Hf3)];
    [done|rewrite Hi, zlength_drop; lia|lia|].
  apply piecewise_bind; [done|]. intros r w3' E3' Hs3. rewrite E3 in E3'. injection E3' as <- <-.
  cbn [fst snd]. destruct (Z.leb_spec elen 0); [lia|].
  apply piecewise_dispatch; [done|by destruct Hf3 as (? & ? & ? & ->)|lia].
Qed.

(** The header is in the first 32 bytes. *)
Lemma parse_prefix q s :
  32 <= zlength q → parse_generic_reply (q ++ s) = parse_generic_reply q.
Proof. intros Hq. unfold parse_generic_reply, zlength in *. rewrite !field_app_l by lia. done. Qed.

Lemma lengths_prefix g pend q s :
  32 <= zlength q → packet_lengths g pend (q ++ s) = packet_lengths g pend q.
Proof. intros Hq. unfold packet_lengths, zlength in *. rewrite !field_app_l by lia. done. Qed.

Lemma sequence_effect_queue ok g q i :
  sequence_effect ok g (set_in_queue q i) = set_in_queue q (sequence_effect ok g i).
Proof.
  unfold sequence_effect. destruct (_ =? XCB_KEYMAP_NOTIFY); [done|]. cbv zeta.
  cbn [request_read request_expected current_reply set_in_queue].
  destruct (XCB_SEQUENCE_COMPARE _ Z.gtb _), (_ =? request_read i), (current_reply i), ok,
    (response_type g =? XCB_ERROR); in_fields.
Qed.

(** The header of the first packet does not depend on how much of it is there. *)
Lemma front_whole w :
  32 <= zlength (in_queue (w_in w)) →
  front_header (whole w) = front_header w ∧
  front_state (whole w) = set_in_queue (input w) (front_state w) ∧
  front_pend (whole w) = front_pend w ∧ front_lengths (whole w) = front_lengths w.
Proof.
  intros Hq. assert (front_header (whole w) = front_header w) as Eh by by apply parse_prefix.
  assert (front_state (whole w) = set_in_queue (input w) (front_state w)) as Es.
  { unfold front_state. rewrite Eh. apply sequence_effect_queue. }
  assert (front_pend (whole w) = front_pend w) as Ep by (unfold front_pend; by rewrite Eh, Es).
  split_and!; [done..|]. unfold front_lengths. rewrite Eh, Ep. by apply lengths_prefix.
Qed.

Lemma sequence_effect_readers ok g rd n i :
  sequence_effect ok g (set_readers rd (set_in_reading n i)) =
    set_readers rd (set_in_reading n (sequence_effect ok g i)).
Proof.
  unfold sequence_effect. destruct (_ =? XCB_KEYMAP_NOTIFY); [done|]. cbv zeta.
  cbn [request_read request_expected current_reply set_readers set_in_reading].
  destruct (XCB_SEQUENCE_COMPARE _ Z.gtb _), (_ =? request_read i), (current_reply i), ok,
    (response_type g =? XCB_ERROR); in_fields.
Qed.

(** [read_packet] on the beginning of a packet whose rest is still to come. *)
Lemma read_packet_piecewise w :
  served w → no_oom w → 32 <= zlength (in_queue (w_in w)) → front_complete (whole w) →
  ∃ w', read_packet w = Ret true w' ∧ served w' ∧ read_packet (whole w) = Ret true (whole w').
Proof.
  intros Hs Ho Hq Hc. pose proof (read_packet_front (whole w) Ho Hc) as Et.
  destruct Hc as (Hl1 & Hl2 & Hl3 & Hl4). unfold front_length in *.
  destruct (front_whole w Hq) as (Eh & Es & Ep & El).
  change (in_queue (w_in (whole w))) with (input w) in Hl3. rewrite El in *.
  pose proof (read_packet_header w Ho Hq) as Rw.
  assert (32 <= zlength (in_queue (w_in (whole w)))) as Hqw.
  { change (in_queue (w_in (whole w))) with (input w). lia. }
  pose proof (read_packet_header (whole w) Ho Hqw) as Rv. rewrite Rw.
  rewrite Eh, Ep, El, Es in Rv.
  pose proof (sequence_effect_keeps true (front_header w) (w_in w)) as (Hqs & _).
  fold (front_state w) in Hqs. set (w1 := set_w_in (front_state w) w) in *.
  assert (input w1 = input w) as Hi by (unfold input; cbn; by rewrite Hqs).
  assert (set_w_in (set_in_queue (input w) (front_state w)) (whole w) = whole w1) as Ew.
  { unfold whole. by rewrite Hi. }
  rewrite Ew in Rv.
  destruct (piecewise_receive (front_header w) (front_pend w) (front_lengths w).1
    (front_lengths w).2 w1) as (b & w' & E & Hs' & E'); rewrite ?Hi; try done; try lia.
  - apply packet_lengths_reply.
  - apply packet_lengths_other.
  - rewrite E' in Rv.
    assert (b = true) as -> by (rewrite Et in Rv; congruence). by exists w'.
Qed.
End Packets.
