(* ===== verification/Arrivals.v ===== *)
(** * Reading packets from any kernel

    Whatever [recv] and [poll] answer: as long as the connection is not in error,
    [read_packet] has done with the beginning of a packet what it would have done
    if the rest had arrived already. *)
From S2P Require Import Prelude Effects Seq XcbMap State In InFrame InFacts Conn Chunks.
#[local] Open Scope Z_scope.

Section Arrivals.
Context `{Host} `{XProto}.

Lemma in_read_block_arrives room len w r w' :
  _xcb_in_read_block room len w = Ret r w' → 0 < len → has_error w' = false →
  r = (len, take (Z.to_nat len) (input w)) ∧ _xcb_in_read_block room len (whole w) = Ret r (whole w') ∧
  input w' = drop (Z.to_nat len) (input w) ∧ ∃ q rs ps, w' = with_in_queue q (with_tapes rs ps w).
Proof.
  intros E Hl He. pose proof (in_read_block_ret _ _ _ _ _ E) as Hr.
  pose proof (wp_ret_inv _ _ _ _ _ (wp_in_read_block room len w Hr) E) as
    (((rs & ps & Eos) & (q & Ein) & Eout & Eext & Exid & Eh & Eset & _) & Hi & Hgood & Hbad).
  destruct (decide (r.1 <= 0)) as [Hn|Hn]; [by rewrite Hbad in He|].
  destruct (Hgood ltac:(lia)) as (Hr1 & Hr2 & _ & Her).
  assert (r = (len, take (Z.to_nat len) (input w))) as Hr'.
  { rewrite Hi, take_app_length' by (unfold zlength in Hr2; lia). by rewrite <- Hr1; destruct r. }
  assert (input w' = drop (Z.to_nat len) (input w)) as Hd.
  { by rewrite Hi, drop_app_length' by (unfold zlength in Hr2; lia). }
  assert (w' = with_in_queue q (with_tapes rs ps w)) as Hw.
  { pose proof (obeys_in_read_block room len w _ _ E) as [_ _ _ _ _ Hfd _ _ _ _].
    destruct w as [? ? ? ? ? ? ? ? ?], w' as [? ? ? ? ? ? ? ? ?]. cbn in *. by subst. }
  split; [done|]. split; [|split; [done|by exists q, rs, ps]].
  rewrite in_read_block_queue.
  - rewrite Hr'. f_equal. unfold whole. by rewrite Hd, Hw.
  - change (in_queue (w_in (whole w))) with (input w). rewrite Hi, zlength_app.
    pose proof (zlength_nonneg (input w')). lia.
  - lia.
Qed.

(** [m] does with the stream what it would do with the same bytes in the queue. *)
Definition arrives {A} (m : xM A) (w : world) : Prop :=
  ∀ a w', m w = Ret a w' → has_error w' = false → m (whole w) = Ret a (whole w').

Lemma arrives_bind {A B} (m : xM A) (k : A → xM B) w :
  arrives m w → (∀ a, obeys in_side (k a)) →
  (∀ a w', m w = Ret a w' → has_error w' = false → arrives (k a) w') → arrives (bind m k) w.
Proof.
  intros Hm Hs Hk b w' (a & w1 & E1 & E2)%bind_inv He.
  assert (has_error w1 = false) as He1.
  { destruct (has_error w1) eqn:Hx; [|done]. by rewrite (side_error _ _ (Hs _ _ _ _ E2) Hx) in He. }
  rewrite (bind_run _ _ _ _ _ (Hm _ _ E1 He1)). by eapply Hk.
Qed.

Lemma arrives_malloc n w : no_oom w → 0 <= n < 2 ^ 63 → arrives (malloc n) w.
Proof. intros Ho Hn a w' E _. rewrite malloc_small in * by done. by injection E as <- <-. Qed.

Lemma obeys_dispatch g pend size bs ev : obeys in_side (dispatch_packet g pend size bs ev).
Proof.
  unfold dispatch_packet. pose proof obeys_deliver_reply. pose proof obeys_deliver_event. obeys_auto.
Qed.

Lemma arrives_dispatch g pend size bs ev w :
  no_oom w → ((response_type g =? XCB_REPLY) = false → 36 <= size) →
  arrives (dispatch_packet g pend size bs ev) w.
Proof.
  intros Ho Hz a w' E _. rewrite dispatch_ok in * by done. injection E as <- <-.
  cbv zeta. by destruct (destination_of g pend).
Qed.

Lemma arrives_receive g pend len elen w :
  no_oom w → 0 < len → 0 <= elen →
  ((response_type g =? XCB_REPLY) = true → elen = 0) →
  ((response_type g =? XCB_REPLY) = false → len = 32) → len + elen < 2 ^ 31 →
  arrives (receive_packet g pend len elen) w.
Proof.
  intros Ho Hl He Hrep Hev Hb. unfold receive_packet.
  set (extra := if response_type g =? XCB_REPLY then 0 else 4).
  assert (packet_size g len elen = len + elen + extra ∧ 0 <= extra <= 4) as [-> Hx].
  { assert (0 <= extra <= 4) by (subst extra; destruct (response_type g =? XCB_REPLY); lia).
    split; [|done]. unfold packet_size. fold extra.
    rewrite s32_small by (unfold int_range; lia). apply u64_small. lia. }
  assert ((response_type g =? XCB_REPLY) = false → 36 <= len + elen + extra) as Hz.
  { intros Hr. subst extra. rewrite Hr, (Hev Hr). lia. }
  pose proof obeys_in_read_block. pose proof obeys_dispatch. cbv zeta.
  apply arrives_bind; [apply arrives_malloc; [done|lia]|obeys_auto|].
  intros ok w0 E0 _. rewrite malloc_small in E0 by (done || lia). injection E0 as <- <-. cbn [negb].
  apply arrives_bind; [intros r w1 E Her; by eapply in_read_block_arrives in E as (_ & ? & _)|obeys_auto|].
  intros r w1 E Her. eapply in_read_block_arrives in E as (-> & _ & _ & q & rs & ps & ->); [|done..].
  cbn [fst snd]. destruct (Z.leb_spec len 0); [lia|].
  destruct (Z.eqb_spec elen 0); [by apply arrives_dispatch|].
  apply arrives_bind; [|obeys_auto|].
  { intros r w2 E Her2. eapply in_read_block_arrives in E as (_ & ? & _); [done|lia|done]. }
  intros r w2 E Her2. eapply in_read_block_arrives in E as (-> & _ & _ & q2 & rs2 & ps2 & ->); [|lia|done].
  cbn [fst snd]. destruct (Z.leb_spec elen 0); [lia|]. by apply arrives_dispatch.
Qed.

Lemma read_packet_arrives w b w' :
  no_oom w → 32 <= zlength (in_queue (w_in w)) → front_complete (whole w) →
  read_packet w = Ret b w' → has_error w' = false →
  b = true ∧ read_packet (whole w) = Ret true (whole w').
Proof.
  intros Ho Hq Hc E He. pose proof (read_packet_front (whole w) Ho Hc) as Et.
  destruct Hc as (Hl1 & Hl2 & Hl3 & Hl4). unfold front_length in *.
  destruct (front_whole w Hq) as (Eh & Es & Ep & El).
  change (in_queue (w_in (whole w))) with (input w) in Hl3. rewrite El in *.
  rewrite read_packet_header in E by done.
  assert (32 <= zlength (in_queue (w_in (whole w)))) as Hqw.
  { change (in_queue (w_in (whole w))) with (input w). lia. }
  pose proof (read_packet_header (whole w) Ho Hqw) as Rv. rewrite Eh, Ep, El, Es in Rv.
  pose proof (sequence_effect_keeps true (front_header w) (w_in w)) as (Hqs & _).
  fold (front_state w) in Hqs. set (w1 := set_w_in (front_state w) w) in *.
  assert (input w1 = input w) as Hi by (unfold input; cbn; by rewrite Hqs).
  assert (set_w_in (set_in_queue (input w) (front_state w)) (whole w) = whole w1) as Ew.
  { unfold whole. by rewrite Hi. }
  assert (arrives (receive_packet (front_header w) (front_pend w) (front_lengths w).1
    (front_lengths w).2) w1) as Ha.
  { apply arrives_receive; [done|lia|lia|apply packet_lengths_reply|apply packet_lengths_other|lia]. }
  rewrite Ew, (Ha _ _ E He) in Rv. by assert (b = true) as -> by (rewrite Et in Rv; congruence).
Qed.
End Arrivals.
