(* ===== verification/Pieces.v ===== *)
(** * The pieces of the stream do not matter

    The kernel hands the server's bytes over in pieces of its choosing, and each
    [_xcb_in_read] reads what is there.  Two connections that get the same bytes
    in different pieces end in the same state. *)
From S2P Require Import Prelude Effects Seq XcbMap State In InFrame InFacts InSafety Conn Chunks Arrivals.
From S2P Require Import Sample.
#[local] Open Scope Z_scope.

Section Pieces.
Context `{Host} `{XProto}.

(** ** Receiving *)

(** [recv] moves the tape only. *)
Lemma recv_tape n w r w' :
  recv n w = Ret r w' → ∃ rs, w' = with_tapes rs (os_polls (w_os w)) w.
Proof.
  assert (∀ rs, set_w_os (set_os_recvs rs (w_os w)) w = with_tapes rs (os_polls (w_os w)) w) as Hid.
  { intros rs. unfold with_tapes. by f_equal. }
  unfold recv. destruct (n <=? 0); [intros [= _ <-]; exists (os_recvs (w_os w)); by rewrite with_tapes_id|].
  rewrite bind_gets. unfold compose.
  destruct (os_recvs (w_os w)) as [|[bs| | |] t] eqn:El;
    try (intros [= _ <-]; rewrite ?Hid; by eauto);
    try (intros [= _ <-]; exists (os_recvs (w_os w)); by rewrite with_tapes_id).
  destruct (_ <=? _); intros [= _ <-]; rewrite Hid; by eauto.
Qed.

Lemma recv_frame n w r w' :
  recv n w = Ret r w' →
  w_in w' = w_in w ∧ w_out w' = w_out w ∧ os_mallocs (w_os w') = os_mallocs (w_os w) ∧
  stream (os_recvs (w_os w)) =
    match r with Received bs => bs | _ => [] end ++ stream (os_recvs (w_os w')).
Proof.
  unfold recv. destruct (n <=? 0); [by intros [= <- <-]|]. rewrite bind_gets. unfold compose.
  destruct (os_recvs (w_os w)) as [|[bs| | |] t] eqn:El; try (intros [= <- <-]; by rewrite ?El).
  destruct (_ <=? _); intros [= <- <-]; [done|]. split_and!; [done..|]. cbn.
  by rewrite app_assoc, take_drop.
Qed.

(** ** Packets of the whole stream *)

(** [read_packet] of a packet that is there. *)
Definition packet_step (v v' : world) : Prop :=
  32 <= zlength (in_queue (w_in v)) ∧ read_packet v = Ret true v'.

(** The bytes of [v] are complete packets, as far as they have headers. *)
Fixpoint whole_packets (fuel : nat) (v : world) : Prop :=
  match fuel with
  | O => True
  | S fuel' =>
      32 <= zlength (in_queue (w_in v)) →
      front_complete v ∧
      match read_packet v with Ret true v' => whole_packets fuel' v' | _ => True end
  end.

(** So is everything the connection still gets; a packet has 32 bytes at least, so
    the fuel is enough. *)
Definition tidy (w : world) : Prop :=
  no_oom w ∧ whole_packets (S (length (input w))) (whole w).

Lemma whole_packets_mono n m v : (n <= m)%nat → whole_packets m v → whole_packets n v.
Proof.
  revert m v. induction n as [|n IH]; intros [|m] v Hn Hm; cbn [whole_packets] in *; try done; [lia|].
  intros Hq. destruct (Hm Hq) as [Hc Hr]. split; [done|].
  destruct (read_packet v) as [[] v'| |]; try done. eapply IH; [|exact Hr]. lia.
Qed.

Lemma tidy_whole w w' : whole w = whole w' → tidy w → tidy w'.
Proof.
  intros E [Ho Hp]. assert (input w = input w') as Ei.
  { change (in_queue (w_in (whole w)) = in_queue (w_in (whole w'))). by rewrite E. }
  split; [|by rewrite <- E, <- Ei]. change (no_oom (whole w')). by rewrite <- E.
Qed.

(** Reading a packet of which the rest may still be to come. *)
Lemma tidy_packet w b w' :
  tidy w → 32 <= zlength (in_queue (w_in w)) → read_packet w = Ret b w' → has_error w' = false →
  b = true ∧ packet_step (whole w) (whole w') ∧ tidy w'.
Proof.
  intros [Ho Hp] Hq E He. cbn [whole_packets] in Hp.
  assert (32 <= zlength (in_queue (w_in (whole w)))) as Hqw.
  { change (in_queue (w_in (whole w))) with (input w). unfold input. rewrite zlength_app.
    pose proof (zlength_nonneg (stream (os_recvs (w_os w)))). lia. }
  destruct (Hp Hqw) as [Hc Hr]. destruct (read_packet_arrives w b w' Ho Hq Hc E He) as [-> Ew].
  rewrite Ew in Hr. split; [done|]. split; [by split|]. split.
  - change (no_oom (whole w')). pose proof (read_packet_front (whole w) Ho Hc) as Ef. rewrite Ew in Ef.
    match type of Ef with _ = Ret true ?v => assert (whole w' = v) as -> by congruence end. done.
  - eapply whole_packets_mono; [|exact Hr]. apply read_packet_shrinks in Ew.
    change (zlength (input w') < zlength (input w)) in Ew. unfold zlength in Ew. lia.
Qed.

Lemma tidy_packets fuel : ∀ w w',
  tidy w → read_packets fuel w = Ret () w' → has_error w' = false →
  rtc packet_step (whole w) (whole w') ∧ tidy w'.
Proof.
  induction fuel as [|fuel IH]; intros w w' Ht E He; [done|]. cbn [read_packets] in E.
  apply bind_inv in E as (b & w1 & E1 & E).
  destruct (decide (32 <= zlength (in_queue (w_in w)))) as [Hq|Hq].
  - assert (has_error w1 = false) as He1.
    { destruct (has_error w1) eqn:Hx; [|done]. destruct b.
      - by rewrite (side_error _ _ (obeys_read_packets _ _ _ _ E) Hx) in He.
      - injection E as <-. congruence. }
    destruct (tidy_packet w b w1 Ht Hq E1 He1) as (-> & Hst & Ht1).
    destruct (IH w1 w' Ht1 E He) as [Hrtc Ht']. split; [by eapply rtc_l|done].
  - unfold read_packet in E1. rewrite bind_gets in E1. unfold compose in E1.
    destruct (Z.ltb_spec (zlength (in_queue (w_in w))) 32); [|lia].
    injection E1 as <- <-. injection E as <-. by split.
Qed.

(** One call of [_xcb_in_read] is some packets of the whole stream. *)
Lemma tidy_in_read w b w' :
  tidy w → _xcb_in_read w = Ret b w' → has_error w' = false →
  rtc packet_step (whole w) (whole w') ∧ tidy w'.
Proof.
  intros Ht E He. unfold _xcb_in_read in E. rewrite bind_gets in E. unfold compose in E.
  apply bind_inv in E as (r & w1 & E1 & E). cbv zeta in *.
  destruct (recv_frame _ _ _ _ E1) as (Hi & _ & _ & Hst). destruct (recv_tape _ _ _ _ E1) as [rs Hw1].
  set (q := in_queue (w_in w) ++ _) in *. unfold modify_in in E. rewrite bind_modify in E.
  apply bind_inv in E as ([] & w2 & E2 & E).
  assert (whole w = whole (with_in_queue q w1)) as Eq.
  { unfold whole. assert (input (with_in_queue q w1) = input w) as ->.
    - unfold input. cbn. subst q. by rewrite Hst, app_assoc.
    - by rewrite Hw1. }
  assert (w' = w2) as ->.
  { destruct r as [[|]| |]; try (injection E as _ <-; done);
      apply bind_inv in E as ([] & w3 & E3 & E4); injection E3 as <-; injection E4 as _ <-; by cbn in He. }
  rewrite Eq. eapply tidy_packets; [by eapply tidy_whole|exact E2|done].
Qed.

(** Reading over and over. *)
Definition in_reads (w w' : world) : Prop := ∃ b, _xcb_in_read w = Ret b w'.

Lemma tidy_reads w w' :
  rtc in_reads w w' → tidy w → has_error w' = false → rtc packet_step (whole w) (whole w').
Proof.
  assert (∀ v v', rtc in_reads v v' → has_error v = true → has_error v' = true) as Herr.
  { induction 1 as [|? v ? [b E] _ IH]; [done|]. intros Hx.
    exact (IH (side_error _ _ (obeys_in_read _ _ _ E) Hx)). }
  induction 1 as [w|w w1 w' [b E] Hrest IH]; intros Ht He; [done|].
  assert (has_error w1 = false) as He1.
  { destruct (has_error w1) eqn:Hx; [|done]. by rewrite (Herr _ _ Hrest Hx) in He. }
  destruct (tidy_in_read w b w1 Ht E He1) as [Hs Ht1]. etransitivity; [exact Hs|by apply IH].
Qed.

(** What comes out at the end of the stream is determined. *)
Lemma packet_steps_end v v1 v2 :
  rtc packet_step v v1 → rtc packet_step v v2 →
  zlength (in_queue (w_in v1)) < 32 → zlength (in_queue (w_in v2)) < 32 → v1 = v2.
Proof.
  intros H1 H2 Hq1 Hq2. revert H2. induction H1 as [v1|v u1 v1 [Hq E] _ IH]; intros H2.
  - inversion H2 as [|? u2 ? [Hq _]]; subst; [done|lia].
  - inversion H2 as [|? u2 ? [_ E2] H2']; subst; [lia|].
    apply IH; [done|]. rewrite E in E2. by injection E2 as ->.
Qed.
End Pieces.

(** C27. The pieces in which the stream arrives make no difference.  Two connections are
    in the same state and get the same bytes from the server, but one may have more
    of them in its queue, and [recv] may hand them over in other pieces, with
    [EAGAIN] in between.  However often either calls [_xcb_in_read] until no packet
    is left, if neither is in error then, they are in the same state again: the
    same replies and events in the same order, the same numbers, the same pending
    requests and bytes left over, and the same threads woken up. *)
Theorem pieces_do_not_matter `{Host} `{XProto} w1 w2 w1' w2' :
  whole w1 = whole w2 → tidy w1 → rtc in_reads w1 w1' → rtc in_reads w2 w2' →
  has_error w1' = false → has_error w2' = false →
  zlength (input w1') < 32 → zlength (input w2') < 32 → whole w1' = whole w2'.
Proof.
  intros Ew Ht H1 H2 He1 He2 Hq1 Hq2. apply (packet_steps_end (whole w1)); [|rewrite Ew|done..].
  - by apply tidy_reads.
  - apply tidy_reads; [done|by eapply tidy_whole|done].
Qed.

(** ** The hypotheses can hold *)

Section Witnesses.
#[local] Existing Instances sample_host sample_proto.

(** A reply to request 1 and an event, at once or in three pieces. *)
Definition two_packets : list byte := sample_packet XCB_REPLY 1 0 ++ sample_packet 2 1 0.

Definition fed_by (recvs : list recv_event) : world :=
  sample_world (sample_in []) (sample_out [] 1 1)
    (sample_os recvs [PollReady POLLIN; PollReady POLLIN] []).

Definition at_once : world := fed_by [RecvData two_packets].
Definition in_pieces : world :=
  fed_by [RecvData (take 40 two_packets); RecvAgain; RecvData (drop 40 two_packets)].

Definition read_again (w : world) : world := final w (_xcb_in_read w).

Lemma in_read_returned w :
  match _xcb_in_read w with Ret true _ => true | _ => false end = true →
  _xcb_in_read w = Ret true (read_again w).
Proof. unfold read_again. by destruct (_xcb_in_read w) as [[] ?| |]. Qed.

Lemma pieces_do_not_matter_witness :
  length (events (w_in (read_again at_once))) = 1%nat ∧
  whole (read_again at_once) = whole (read_again (read_again (read_again in_pieces))).
Proof.
  split; [by vm_compute|].
  apply (pieces_do_not_matter at_once in_pieces).
  - vm_compute. reflexivity.
  - split; [reflexivity|]. vm_compute.
    repeat match goal with
      | |- _ ∧ _ => split
      | |- (Gt = Gt → False) → _ => intros []; reflexivity
      | |- (_ = _ → False) → _ => intros _
      | |- _ = _ → False => discriminate
      | |- _ => reflexivity
      end.
  - apply rtc_once. exists true. apply in_read_returned. vm_compute. reflexivity.
  - do 3 (eapply rtc_l; [exists true; apply in_read_returned; vm_compute; reflexivity|]). reflexivity.
  - vm_compute. reflexivity.
  - vm_compute. reflexivity.
  - vm_compute. reflexivity.
  - vm_compute. reflexivity.
Defined.
End Witnesses.
