(* ===== verification/Out.v ===== *)
(** * Writing to the server: [src/xcb_out.c]

    The output queue and the functions that flush it, and the hand-over of the
    socket to an external owner.  [xcb_send_request] is in Request.v. *)
From S2P Require Import Prelude Effects Seq State In Conn.
#[local] Open Scope Z_scope.

Section Out.
Context `{Host} `{XProto}.

(** [while(ret && count) ret = _xcb_conn_wait(c, &c->out.cond, &vector, &count);]
    Each round uses up an event of the tape of [poll]. *)
Fixpoint send_loop (fuel : nat) (vector : list (list byte)) : xM bool :=
  match fuel with
  | O => fail FFuel
  | S fuel' =>
      match vector with
      | [] => ret true
      | _ =>
          r ← _xcb_conn_wait OutCond (Some vector);
          if r.1 then send_loop fuel' (default [] r.2) else ret false
      end
  end.

Definition _xcb_out_send (vector : list (list byte)) : xM bool :=
  fuel ← gets (λ w, S (length (os_polls (w_os w))));
  r ← send_loop fuel vector;
  modify_out (λ o, set_out_request_written (out_request o) o);;
  pthread_cond_broadcast OutCond;;
  _xcb_in_wake_up_next_reader;;
  ret r.

Definition _xcb_out_flush_to (request : Z) : xM bool :=
  o ← gets w_out;
  assertM (XCB_SEQUENCE_COMPARE request Z.leb (out_request o));;
  if XCB_SEQUENCE_COMPARE (out_request_written o) Z.geb request then ret true else
  if negb (bool_decide (out_queue o = [])) then
    modify_out (set_out_queue []);; _xcb_out_send [out_queue o]
  else
    when (negb (out_writing o =? 0)) (pthread_cond_wait OutCond IoLock);;
    written ← gets (out_request_written ∘ w_out);
    assertM (XCB_SEQUENCE_COMPARE written Z.geb request);;
    ret true.

(** The first loop of [write_block]: copy entries into the queue while they fit.
    The result is the number of array slots before the rest of the vector, and
    the rest. *)
Fixpoint fill_queue (slots : nat) (vector : list (list byte))
    : xM (nat * list (list byte)) :=
  match vector with
  | [] => ret (slots, [])
  | v :: t =>
      queue ← gets (out_queue ∘ w_out);
      if zlength queue + zlength v <=? XCB_QUEUE_BUFFER_SIZE then
        modify_out (set_out_queue (queue ++ v));; fill_queue (S slots) t
      else ret (slots, vector)
  end.

(** [write_block(c, vector, count)]; [slots] is the number of array elements in
    front of [vector[0]]. *)
Definition write_block (slots : nat) (vector : list (list byte)) : xM bool :=
  f ← fill_queue slots vector;
  match f.2 with
  | [] => ret true
  | rest =>
      if decide (f.1 = 0%nat) then fail FOutOfBounds else
      queue ← gets (out_queue ∘ w_out);
      modify_out (set_out_queue []);;
      _xcb_out_send (queue :: rest)
  end.

Definition get_socket_back : xM () :=
  o ← gets w_out;
  when (bool_decide (is_Some (out_return_socket o)) && out_socket_moving o)
    (pthread_cond_wait SocketCond IoLock);;
  match out_return_socket o with
  | None => ret ()
  | Some return_socket =>
      modify_out (set_out_socket_moving true);;
      pthread_mutex_unlock IoLock;;
      return_socket_callback return_socket (out_socket_closure o);;
      pthread_mutex_lock IoLock;;
      modify_out (set_out_socket_moving false);;
      pthread_cond_broadcast SocketCond;;
      modify_out (λ o, set_out_socket_closure 0 (set_out_return_socket None o));;
      _xcb_in_replies_done
  end.

(** [xcb_take_socket] behind the flush, whose result is [r]: what is stored in
    [*sent]. *)
Definition lend_socket (return_socket closure fl : Z) (r : bool) : xM (option Z) :=
  if r then
    modify_out (λ o, set_out_socket_closure closure
      (set_out_return_socket (Some return_socket) o));;
    request ← gets (out_request ∘ w_out);
    when (negb (fl =? 0))
      (_xcb_in_expect_reply request WORKAROUND_EXTERNAL_SOCKET_OWNER fl;; ret ());;
    o ← gets w_out;
    assertM (out_request o =? out_request_written o);;
    ret (Some (out_request o))
  else ret None.

(** [xcb_take_socket]: the C result with what is stored in [*sent]. *)
Definition xcb_take_socket (return_socket closure fl : Z) : xM (bool * option Z) :=
  e ← gets has_error;
  if e then ret (false, None) else
  pthread_mutex_lock IoLock;;
  get_socket_back;;
  request ← gets (out_request ∘ w_out);
  r ← _xcb_out_flush_to request;
  sent ← lend_socket return_socket closure fl r;
  pthread_mutex_unlock IoLock;;
  ret (r, sent).

Definition xcb_writev (vector : list (list byte)) (requests : Z) : xM bool :=
  e ← gets has_error;
  if e then ret false else
  pthread_mutex_lock IoLock;;
  modify_out (λ o, set_out_request (u64 (out_request o + requests)) o);;
  r ← _xcb_out_send vector;
  pthread_mutex_unlock IoLock;;
  ret r.

Definition xcb_flush : xM bool :=
  e ← gets has_error;
  if e then ret false else
  pthread_mutex_lock IoLock;;
  request ← gets (out_request ∘ w_out);
  r ← _xcb_out_flush_to request;
  pthread_mutex_unlock IoLock;;
  ret r.

(** [_xcb_out_init], on a structure [calloc] has cleared. *)
Definition _xcb_out_init : xM bool :=
  ok ← sysret;
  if negb ok then ret false else
  modify_out (λ o, set_out_socket_moving false (set_out_socket_closure 0
    (set_out_return_socket None o)));;
  ok ← sysret;
  if negb ok then ret false else
  modify_out (λ o, set_out_writing 0 (set_out_queue []
    (set_out_request 0 (set_out_request_written 0 o))));;
  ok ← sysret;
  if negb ok then ret false else
  modify_out (set_mrl_tag LAZY_NONE);;
  ret true.
End Out.
