(* ===== verification/Wait.v ===== *)
(** * Blocking for replies and events: [src/xcb_in.c]

    [xcb_wait_for_reply], [xcb_wait_for_event] and [xcb_request_check], with the
    sorted list of waiting readers. *)
From S2P Require Import Prelude Effects Seq State In Conn Out.
#[local] Open Scope Z_scope.

Section Wait.
Context `{Host} `{XProto}.

(** The first loop over the readers in [xcb_wait_for_reply]: insert behind the
    readers whose request does not come after this one. *)
Fixpoint insert_reader (r : reader) (l : list reader) : list reader :=
  match l with
  | [] => [r]
  | r' :: t =>
      if XCB_SEQUENCE_COMPARE_32 (reader_request r') Z.leb (reader_request r)
      then r' :: insert_reader r t else r :: l
  end.

(** The second loop: unlink the reader, found by its address. *)
Fixpoint remove_reader (r : reader) (l : list reader) : list reader :=
  match l with
  | [] => []
  | r' :: t =>
      if XCB_SEQUENCE_COMPARE_32 (reader_request r') Z.leb (reader_request r) then
        if decide (reader_id r' = reader_id r) then t else r' :: remove_reader r t
      else l
  end.

(** [while(!poll_for_reply(c, request, &ret, e)) if(!_xcb_conn_wait(...)) break;]
    The result is what has been stored in [ret] and [*e]. *)
Fixpoint wait_reply_loop (fuel : nat) (request : Z) (want_error : bool) (c : cond)
    : xM (option (list byte) * option (list byte)) :=
  match fuel with
  | O => fail FFuel
  | S fuel' =>
      r ← poll_for_reply request want_error;
      match r with
      | Some res => ret res
      | None =>
          b ← _xcb_conn_wait c None;
          if b.1 then wait_reply_loop fuel' request want_error c else ret (None, None)
      end
  end.

Definition xcb_wait_for_reply (request : Z) (want_error : bool)
    : xM (option (list byte) * option (list byte)) :=
  e ← gets has_error;
  if e then ret (None, None) else
  pthread_mutex_lock IoLock;;
  o ← gets w_out;
  let widened_request := widen (out_request o) request in
  sent ← (if bool_decide (is_Some (out_return_socket o)) then ret true
          else _xcb_out_flush_to widened_request);
  res ←
    (if sent then
       id ← gets (os_fresh ∘ w_os);
       modify_os (set_os_fresh (S id));;
       let r := Reader request id in
       modify_in (λ i, set_readers (insert_reader r (readers i)) i);;
       fuel ← gets (λ w, S (length (os_polls (w_os w))));
       res ← wait_reply_loop fuel request want_error (ReaderCond id);
       modify_in (λ i, set_readers (remove_reader r (readers i)) i);;
       ret res
     else ret (None, None));
  _xcb_in_wake_up_next_reader;;
  pthread_mutex_unlock IoLock;;
  ret res.

(** [while(!(ret = get_event(c))) if(!_xcb_conn_wait(...)) break;] *)
Fixpoint wait_event_loop (fuel : nat) : xM (option (list byte)) :=
  match fuel with
  | O => fail FFuel
  | S fuel' =>
      r ← get_event;
      match r with
      | Some ev => ret (Some ev)
      | None =>
          b ← _xcb_conn_wait EventCond None;
          if b.1 then wait_event_loop fuel' else ret None
      end
  end.

Definition xcb_wait_for_event : xM (option (list byte)) :=
  e ← gets has_error;
  if e then ret None else
  pthread_mutex_lock IoLock;;
  fuel ← gets (λ w, S (length (os_polls (w_os w))));
  r ← wait_event_loop fuel;
  _xcb_in_wake_up_next_reader;;
  pthread_mutex_unlock IoLock;;
  ret r.

(** [xcb_request_check] of a cookie with the sequence number [seq]: the error. *)
Definition xcb_request_check (seq : Z) : xM (option (list byte)) :=
  e ← gets has_error;
  if e then ret None else
  i ← gets w_in;
  when (XCB_SEQUENCE_COMPARE_32 seq Z.geb (request_expected i) &&
        XCB_SEQUENCE_COMPARE_32 seq Z.gtb (request_completed i))
    (cookie ← xcb_get_input_focus;
     r ← xcb_get_input_focus_reply cookie;
     assertM (bool_decide (r.2 = None)));;
  r ← xcb_wait_for_reply seq true;
  assertM (bool_decide (r.1 = None));;
  ret r.2.
End Wait.
