(* ===== verification/Ext.v ===== *)
(** * The extension cache: [src/xcb_ext.c]

    [w_ext] is the array [c->ext.extensions]; its length is [extensions_size]. *)
From S2P Require Import Prelude Effects State.
#[local] Open Scope Z_scope.

Section Ext.
Context `{XProto}.

Definition set_lazy (k : nat) (v : lazyreply) : xM () :=
  modify (λ w, set_w_ext (<[k := v]> (w_ext w)) w).

(** [get_index(c, idx)]: the position of the entry; [None] for a null pointer. *)
Definition get_index (idx : Z) : xM (option nat) :=
  l ← gets w_ext;
  if idx >? zlength l then
    let new_size := Z.shiftl idx 1 in
    ok ← malloc (16 * new_size);
    if negb ok then ret None else
    modify (set_w_ext (l ++ replicate (Z.to_nat (new_size - zlength l)) LazyNone));;
    ret (Some (Z.to_nat (idx - 1)))
  else ret (Some (Z.to_nat (idx - 1))).

Fixpoint global_id (l : list (nat * Z)) (addr : nat) : Z :=
  match l with
  | [] => 0
  | (a, i) :: t => if decide (a = addr) then i else global_id t addr
  end.

(** The critical section of [get_lazyreply] on the global counter. *)
Definition ensure_global_id (ext : xcb_extension) : xM Z :=
  pthread_mutex_lock GlobalLock;;
  o ← gets w_os;
  (if global_id (os_global_ids o) (ext_addr ext) =? 0 then
     let n := os_next_global_id o + 1 in
     modify_os (λ o, set_os_next_global_id n
       (set_os_global_ids ((ext_addr ext, n) :: os_global_ids o) o))
   else ret ());;
  pthread_mutex_unlock GlobalLock;;
  o ← gets w_os;
  ret (global_id (os_global_ids o) (ext_addr ext)).

Definition get_lazyreply (ext : xcb_extension) : xM (option nat) :=
  id ← ensure_global_id ext;
  data ← get_index id;
  match data with
  | None => ret None
  | Some k =>
      l ← gets w_ext;
      match l !! k with
      | None => fail FOutOfBounds
      | Some LazyNone =>
          set_lazy k (LazyCookie 0);;
          cookie ← xcb_query_extension (ext_name ext);
          set_lazy k (LazyCookie cookie);;
          ret (Some k)
      | Some _ => ret (Some k)
      end
  end.

Definition xcb_get_extension_data (ext : xcb_extension)
    : xM (option query_extension_reply) :=
  e ← gets has_error;
  if e then ret None else
  pthread_mutex_lock ExtLock;;
  data ← get_lazyreply ext;
  match data with
  | None => pthread_mutex_unlock ExtLock;; ret None
  | Some k =>
      l ← gets w_ext;
      (match l !! k with
       | Some (LazyCookie cookie) =>
           set_lazy k (LazyForced None);;
           reply ← xcb_query_extension_reply cookie;
           set_lazy k (LazyForced reply)
       | _ => ret ()
       end);;
      pthread_mutex_unlock ExtLock;;
      l ← gets w_ext;
      match l !! k with
      | Some (LazyForced reply) => ret reply
      | Some LazyNone => ret None
      | _ => fail FOutOfBounds
      end
  end.

Definition xcb_prefetch_extension_data (ext : xcb_extension) : xM () :=
  e ← gets has_error;
  if e then ret () else
  pthread_mutex_lock ExtLock;;
  get_lazyreply ext;;
  pthread_mutex_unlock ExtLock.

Definition _xcb_ext_init : xM bool := sysret.

Definition _xcb_ext_destroy : xM () := modify (set_w_ext []).
End Ext.
