(* ===== verification/Xid.v ===== *)
(** * Resource identifiers: [src/xcb_xid.c] *)
From S2P Require Import Prelude Effects State Ext.
#[local] Open Scope Z_scope.

Section Xid.
Context `{XProto}.

(** [c->setup], dereferenced. *)
Definition get_setup : xM setup_info :=
  s ← gets setup;
  match s with
  | None => fail FNull
  | Some bs => ret (setup_view bs)
  end.

(** The branch of [xcb_generate_id] taken when the range is used up; [false] when
    the function gives up with -1. *)
Definition next_range : xM bool :=
  x ← gets w_xid;
  assertM (xid_last x =? xid_max x);;
  if xid_last x =? 0 then
    s ← get_setup;
    modify_xid (set_xid_max (setup_resource_id_mask s));;
    ret true
  else
    xc_misc_reply ← xcb_get_extension_data xcb_xc_misc_id;
    if bool_decide (xc_misc_reply = None) then ret false else
    cookie ← xcb_xc_misc_get_xid_range;
    range ← xcb_xc_misc_get_xid_range_reply cookie;
    match range with
    | None => ret false
    | Some (start_id, count) =>
        if (start_id =? 0) && (count =? 1) then ret false else
        assertM ((count >? 0) && (start_id >? 0));;
        modify_xid (λ x, set_xid_max (u32 (start_id + u32 (u32 (count - 1) * xid_inc x)))
          (set_xid_last start_id x));;
        ret true
    end.

Definition xcb_generate_id : xM Z :=
  e ← gets has_error;
  if e then ret (u32 (-1)) else
  pthread_mutex_lock XidLock;;
  x ← gets w_xid;
  ok ← (if xid_last x >=? u32 (xid_max x - xid_inc x + 1) then next_range
        else modify_xid (λ x, set_xid_last (u32 (xid_last x + xid_inc x)) x);; ret true);
  if negb ok then pthread_mutex_unlock XidLock;; ret (u32 (-1)) else
  x ← gets w_xid;
  pthread_mutex_unlock XidLock;;
  ret (Z.lor (xid_last x) (xid_base x)).

Definition _xcb_xid_init : xM bool :=
  ok ← sysret;
  if negb ok then ret false else
  s ← get_setup;
  modify_xid (λ _, XcbXid 0 (setup_resource_id_base s) 0
    (Z.land (setup_resource_id_mask s) (u32 (- setup_resource_id_mask s))));;
  ret true.
End Xid.
