(* ===== verification/Display.v ===== *)
(** * Display names: [src/xcb_util.c]

    [xcb_popcount] and the parser of display names.  A C string is the list of
    its bytes before the terminating null. *)
From S2P Require Import Prelude Effects State.
From Stdlib Require Import Strings.Byte.
From Stdlib Require Strings.String.
#[local] Open Scope Z_scope.

(** [c_string s]: the bytes of a string literal. *)
Definition c_string (s : string) : list byte := String.list_byte_of_string s.

(** ** [xcb_popcount]

    Octal constants: 033333333333 is 0xdb6db6db and 030707070707 is
    0xc71c71c7. *)
Definition xcb_popcount (mask : Z) : Z :=
  let y := Z.land (Z.shiftr mask 1) 0xdb6db6db in
  let y := u32 (u32 (mask - y) - Z.land (Z.shiftr y 1) 0xdb6db6db) in
  Z.land (u32 (y + Z.shiftr y 3)) 0xc71c71c7 mod 63.

(** ** The C library

    [isspace] in the C locale, [strrchr], [strtoul] with base 10 on a machine
    whose [unsigned long] has 64 bits, and the conversion [%d] of [snprintf]. *)

Definition isspace (b : byte) : bool :=
  let v := byte_val b in (v =? 32) || ((9 <=? v) && (v <=? 13)).

Definition digit_val (b : byte) : option Z :=
  let v := byte_val b in
  if (48 <=? v) && (v <=? 57) then Some (v - 48) else None.

(** The index of the last occurrence. *)
Fixpoint strrchr (c : byte) (s : list byte) : option nat :=
  match s with
  | [] => None
  | b :: t =>
      match strrchr c t with
      | Some n => Some (S n)
      | None => if decide (b = c) then Some 0%nat else None
      end
  end.

Fixpoint skip_space (s : list byte) : list byte :=
  match s with
  | b :: t => if isspace b then skip_space t else s
  | [] => []
  end.

(** The value of the digits at the start, after those that gave [acc], and what
    follows them. *)
Fixpoint scan_digits (acc : Z) (s : list byte) : Z * list byte :=
  match s with
  | [] => (acc, [])
  | b :: t =>
      match digit_val b with
      | Some d => scan_digits (10 * acc + d) t
      | None => (acc, s)
      end
  end.

(** An optional sign. *)
Definition scan_sign (s : list byte) : bool * list byte :=
  match s with
  | b :: t => if decide (b = "-"%byte) then (true, t)
              else if decide (b = "+"%byte) then (false, t) else (false, s)
  | [] => (false, [])
  end.

(** The result of [strtoul] and the string at [*endptr]; an overflow gives
    [ULONG_MAX], a minus sign the negated value. *)
Definition strtoul (s : list byte) : Z * list byte :=
  let '(neg, digits) := scan_sign (skip_space s) in
  match digits with
  | b :: _ =>
      match digit_val b with
      | Some _ =>
          let '(v, rest) := scan_digits 0 digits in
          (if 2 ^ 64 - 1 <? v then 2 ^ 64 - 1 else if neg then u64 (- v) else v, rest)
      | None => (0, s)
      end
  | [] => (0, s)
  end.

(** The decimal digits of [n], at most [fuel] of them. *)
Fixpoint digits (fuel : nat) (n : Z) : list byte :=
  match fuel with
  | O => []
  | S fuel' =>
      (if n <? 10 then [] else digits fuel' (n / 10)) ++ [byte_of (48 + n mod 10)]
  end.

(** The conversion [%d] of an [int], which has at most ten digits. *)
Definition dec (n : Z) : list byte :=
  if n <? 0 then "-"%byte :: digits 10 (- n) else digits 10 n.

(** ** The parser *)

(** What [_xcb_parse_display] stores in [*host], [*protocol] (a null pointer is
    [None]), [*displayp] and [*screenp]. *)
Record display_name := DisplayName {
  dn_host : list byte;
  dn_protocol : option (list byte);
  dn_display : Z;
  dn_screen : Z
}.

(** [_xcb_parse_display] from [colon = strrchr(name, ':')] to "the display string
    is fully parsed": the values of [len], [display] and [screen]; [None] for
    [goto error_out]. *)
Definition parse_numbers (name : list byte) : option (Z * Z * Z) :=
  match strrchr ":"%byte name with
  | None => None
  | Some i =>
      let colon := drop (S i) name in
      let '(display, dot) := strtoul colon in
      if decide (dot = colon) then None else
      match dot with
      | [] => Some (s32 (Z.of_nat i), s32 display, 0)
      | b :: dot =>
          if decide (b = "."%byte) then
            let '(screen, end_) := strtoul dot in
            if decide (end_ = dot) then None
            else if decide (end_ = []) then Some (s32 (Z.of_nat i), s32 display, s32 screen)
            else None
          else None
      end
  end.

(** The copy of the first [len] bytes of [name], null-terminated; [None] when
    [malloc] fails. *)
Definition copy_prefix (len : Z) (name : list byte) : xM (option (list byte)) :=
  ok ← malloc (s32 (len + 1));
  ret (if ok then Some (take (Z.to_nat len) name) else None).

(** [_xcb_parse_display] once the protocol has been taken off. *)
Definition parse_host (protocol : option (list byte)) (name : list byte)
    : xM (option display_name) :=
  match parse_numbers name with
  | None => ret None
  | Some (len, display, screen) =>
      host ← copy_prefix len name;
      ret (match host with
           | Some h => Some (DisplayName h protocol display screen)
           | None => None
           end)
  end.

(** [_xcb_parse_display]; [None] is the result 0, with [*protocol] null and the
    rest of the caller's memory untouched.  [display_env] is
    [getenv("DISPLAY")]; [want_protocol] says whether [protocol] is not null. *)
Definition _xcb_parse_display (display_env name : option (list byte))
    (want_protocol : bool) : xM (option display_name) :=
  let name := match name with Some (b :: t) => Some (b :: t) | _ => display_env end in
  match name with
  | None => ret None
  | Some name =>
      p ← match strrchr "/"%byte name with
          | Some i =>
              if want_protocol then
                copy ← copy_prefix (s32 (Z.of_nat i)) name;
                ret (match copy with
                     | Some proto => Some (Some proto, drop (S i) name)
                     | None => None
                     end)
              else ret (Some (None, drop (S i) name))
          | None => ret (Some (None, name))
          end;
      match p with
      | None => ret None
      | Some (protocol, name) => parse_host protocol name
      end
  end.

Definition xcb_parse_display (display_env name : option (list byte))
    : xM (option display_name) :=
  _xcb_parse_display display_env name false.
