(* ===== verification/Connect.v ===== *)
(** * Setting a connection up: [src/xcb_conn.c]

    The exchange that opens a connection, and its release. *)
From S2P Require Import Prelude Effects State In Out Ext Xid.
#[local] Open Scope Z_scope.

(** [xcb_auth_info_t]; [namelen] and [datalen] are the lengths. *)
Record auth_info := AuthInfo { auth_name : list byte; auth_data : list byte }.

(** An [xcb_connection_t *]: the connection, or the static object that stands for
    a failed attempt, whose [has_error] reads 1. *)
Inductive connection := Connection | error_connection.

#[export] Instance connection_eq_dec : EqDecision connection.
Proof. solve_decision. Defined.

(** [sizeof(xcb_setup_generic_t)] *)
Definition setup_generic_size : Z := 8.

(** [XCB_PAD(i)] of a [size_t] or [int] *)
Definition XCB_PAD (i : Z) : Z := Z.land (- i) 3.

Section Connect.
Context `{Host} `{XProto}.

(** [close(fd)] and [shutdown(fd, SHUT_RDWR)] *)
Definition close (d : Z) : xM () :=
  modify_net (λ n, set_net_fds (filter (λ d', d' ≠ d) (net_fds n)) n).

(** [set_fd_flags], which makes three calls of [fcntl]. *)
Definition set_fd_flags : xM bool :=
  ok ← sysret;
  if negb ok then ret false else
  ok ← sysret;
  if negb ok then ret false else
  ok ← sysret;
  ret ok.

(** The vector [parts] of [write_setup].  The lengths are assigned through the
    16-bit fields of [out]. *)
Definition setup_parts (auth : option auth_info) : list (list byte) :=
  let pad n := replicate (Z.to_nat (XCB_PAD n)) Byte.x00 in
  let order := match host_endian with BigEndian => 0x42 | LittleEndian => 0x6c end in
  let namelen := match auth with Some a => u16 (zlength (auth_name a)) | None => 0 end in
  let datalen := match auth with Some a => u16 (zlength (auth_data a)) | None => 0 end in
  let out := setup_request_bytes
    (SetupRequest order X_PROTOCOL X_PROTOCOL_REVISION namelen datalen) in
  [out; pad (zlength out)] ++
  match auth with
  | Some a =>
      [take (Z.to_nat namelen) (auth_name a); pad namelen;
       take (Z.to_nat datalen) (auth_data a); pad datalen]
  | None => []
  end.

Definition write_setup (auth : option auth_info) : xM bool :=
  pthread_mutex_lock IoLock;;
  r ← _xcb_out_send (setup_parts auth);
  pthread_mutex_unlock IoLock;;
  ret r.

(** [write(STDERR_FILENO, reason, length)] with a text inside the reply. *)
Definition write_reason (reply : list byte) (reason : Z * Z) : xM () :=
  if (reason.1 <? 0) || (reason.2 <? 0) || (zlength reply <? reason.1 + reason.2)
  then fail FOutOfBounds
  else modify_os (λ o, set_os_stderr (os_stderr o ++
         take (Z.to_nat reason.2) (drop (Z.to_nat reason.1) reply)) o).

(** [c->setup->status] and [c->setup->length] *)
Definition setup_status (s : list byte) : Z := field 0 1 s.
Definition setup_length (s : list byte) : Z := field 6 2 s.

Definition read_setup : xM bool :=
  ok ← malloc setup_generic_size;
  if negb ok then ret false else
  r ← _xcb_in_read_block setup_generic_size setup_generic_size;
  modify (set_setup (Some r.2));;
  if negb (r.1 =? setup_generic_size) then ret false else
  let len := setup_length r.2 * 4 in
  ok ← malloc (len + setup_generic_size);
  if negb ok then ret false else
  r' ← _xcb_in_read_block len len;
  let s := r.2 ++ r'.2 in
  modify (set_setup (Some s));;
  if r'.1 <=? 0 then ret false else
  if setup_status s =? 0 then write_reason s (setup_failed_reason s);; ret false
  else if setup_status s =? 2 then write_reason s (setup_authenticate_reason s);; ret false
  else ret true.

Definition xcb_get_setup : xM (option (list byte)) :=
  e ← gets has_error;
  if e then ret None else gets setup.

Definition xcb_get_file_descriptor : xM Z :=
  e ← gets has_error;
  if e then ret (-1) else gets fd.

(** [c->has_error] of either kind of pointer. *)
Definition xcb_connection_has_error (c : connection) : xM bool :=
  match c with
  | error_connection => ret true
  | Connection => gets has_error
  end.

Definition xcb_disconnect (c : connection) : xM () :=
  match c with
  | error_connection => ret ()
  | Connection =>
      modify (set_setup None);;
      d ← gets fd;
      close d;;
      _xcb_in_destroy;;
      _xcb_ext_destroy
  end.

(** The fields of a structure [calloc] has cleared. *)
Definition calloc_connection (w : world) : world :=
  World false 0 None (XcbIn 0 [] 0 0 0 [] [] [] [] [])
    (XcbOut 0 None 0 false [] 0 0 LAZY_NONE 0) [] (XcbXid 0 0 0 0) (held w) (w_os w).

(** [if(!(a && b))]: [a && b] for computations. *)
Definition and_then (a b : xM bool) : xM bool :=
  r ← a; if r then b else ret false.

(** [xcb_connect_to_fd], built with [USE_POLL].  The size of the structure is
    immaterial to [malloc]. *)
Definition xcb_connect_to_fd (d : Z) (auth : option auth_info) : xM connection :=
  ok ← malloc 1;
  if negb ok then close d;; ret error_connection else
  modify (λ w, set_fd d (calloc_connection w));;
  ok ← and_then set_fd_flags (and_then sysret (and_then _xcb_in_init
         (and_then _xcb_out_init (and_then (write_setup auth) (and_then read_setup
           (and_then _xcb_ext_init _xcb_xid_init))))));
  if ok then ret Connection
  else xcb_disconnect Connection;; ret error_connection.
End Connect.
