(* ===== verification/Auth.v ===== *)
(** * Authorization data: [src/xcb_auth.c]

    Choosing the key under which credentials are looked up and computing what is
    sent to the server, built with [HASXDMAUTH] and IPv6 for Linux.  Blocks of
    the heap are named by their addresses, so that a block released twice or
    never shows.  libXau and libXdmcp are parameters. *)
From S2P Require Import Prelude Effects State Display Connect.
From Stdlib Require Import Strings.Byte.
#[local] Open Scope Z_scope.

(** The fields of [Xauth] the library reads. *)
Record Xauth := MkXauth { xau_name : list byte; xau_data : list byte }.

(** Libraries and system calls. *)
Class XAuth := {
  FamilyLocal : Z;
  XCB_FAMILY_INTERNET : Z;
  XCB_FAMILY_INTERNET_6 : Z;
  (** family, address, display number *)
  XauGetBestAuthByAddr : Z → list byte → list byte → option Xauth;
  (** the encryption of a text with a key of eight bytes *)
  XdmcpWrap : list byte → list byte → list byte;
  gethostname : option (list byte);
  getpid : Z;
  time : Z
}.

(** Address families of Linux. *)
Definition AF_UNIX : Z := 1.
Definition AF_INET : Z := 2.
Definition AF_INET6 : Z := 10.

Inductive auth_protos := AUTH_XA1 | AUTH_MC1.

Definition authnames (kind : auth_protos) : list byte :=
  match kind with
  | AUTH_XA1 => c_string "XDM-AUTHORIZATION-1"
  | AUTH_MC1 => c_string "MIT-MAGIC-COOKIE-1"
  end.

Definition authname_match (kind : auth_protos) (name : list byte) : bool :=
  if zlength (authnames kind) =? zlength name then bool_decide (authnames kind = name)
  else false.

(** [htonl] and [htons], as bytes in memory. *)
Definition net32 (z : Z) : list byte := rev (le_bytes 4 z).
Definition net16 (z : Z) : list byte := rev (le_bytes 2 z).

(** ** Socket addresses *)

(** The members of [struct sockaddr_in] and [sockaddr_in6]. *)
Definition sin_port (s : list byte) : list byte := take 2 (drop 2 s).
Definition sin_addr (s : list byte) : list byte := take 4 (drop 4 s).
Definition sin6_addr (s : list byte) : list byte := take 16 (drop 8 s).

Definition in6_v4mapped (a : list byte) : bool :=
  bool_decide (take 12 a = replicate 10 x00 ++ [xff; xff]).
Definition in6_loopback (a : list byte) : bool :=
  bool_decide (a = replicate 15 x00 ++ [x01]).

Section Auth.
Context `{Host} `{XAuth}.

Definition sa_family (s : list byte) : Z := field 0 2 s.

(** The first part of [get_authptr]: the family and, unless that is
    [FamilyLocal], the address; [None] for a family that cannot authenticate. *)
Definition auth_address (sockname : list byte) : option (Z * list byte) :=
  let inet addr :=
    Some (if bool_decide (addr = net32 0x7f000001) then FamilyLocal
          else XCB_FAMILY_INTERNET, addr) in
  if sa_family sockname =? AF_INET6 then
    let addr := sin6_addr sockname in
    if in6_v4mapped addr then inet (drop 12 addr)
    else Some (if in6_loopback addr then FamilyLocal else XCB_FAMILY_INTERNET_6, addr)
  else if sa_family sockname =? AF_INET then inet (sin_addr sockname)
  else if sa_family sockname =? AF_UNIX then Some (FamilyLocal, [])
  else None.

(** [get_authptr] *)
Definition get_authptr (sockname : list byte) (display : Z) : option Xauth :=
  match auth_address sockname with
  | None => None
  | Some (family, addr) =>
      let dispbuf := take 39 (dec display) in
      if family =? FamilyLocal then
        match gethostname with
        | None => None
        | Some hostname => XauGetBestAuthByAddr family hostname dispbuf
        end
      else XauGetBestAuthByAddr family addr dispbuf
  end.

(** ** The heap *)

(** [malloc] of a block that has a name. *)
Definition heap_alloc (size : Z) : xM (option nat) :=
  ok ← malloc size;
  if negb ok then ret None else
  a ← gets (os_fresh ∘ w_os);
  modify_os (set_os_fresh (S a));;
  modify_net (λ n, set_net_live (a :: net_live n) n);;
  ret (Some a).

(** [free] of a pointer that is not null *)
Definition heap_free (a : nat) : xM () :=
  live ← gets (net_live ∘ os_net ∘ w_os);
  if decide (a ∈ live)
  then modify_net (set_net_live (filter (λ b, b ≠ a) live))
  else fail FFree.

(** [realloc]: the old block is released unless the call fails. *)
Definition heap_realloc (a : nat) (size : Z) : xM (option nat) :=
  r ← heap_alloc size;
  match r with
  | None => ret None
  | Some b => heap_free a;; ret (Some b)
  end.

(** [memdup]: the block and its contents; [None] for the result 0. *)
Definition memdup (src : list byte) : xM (option (nat * list byte)) :=
  if zlength src =? 0 then ret None else
  a ← heap_alloc (zlength src);
  ret (match a with Some a => Some (a, src) | None => None end).

(** ** [compute_auth] *)

Definition next_nonce : xM Z :=
  pthread_mutex_lock NonceLock;;
  n ← gets (net_nonce ∘ os_net ∘ w_os);
  modify_net (set_net_nonce (s32 (n + 1)));;
  pthread_mutex_unlock NonceLock;;
  ret n.

(** The address and port an XDM-AUTHORIZATION-1 record contains; [None] for
    [default]. *)
Definition xdm_address (sockname : list byte) : xM (option (list byte)) :=
  if sa_family sockname =? AF_INET then ret (Some (sin_addr sockname ++ sin_port sockname))
  else if sa_family sockname =? AF_INET6 then
    if in6_v4mapped (sin6_addr sockname)
    then ret (Some (drop 12 (sin6_addr sockname) ++ sin_port sockname))
    else ret (Some (replicate 6 x00))
  else if sa_family sockname =? AF_UNIX then
    n ← next_nonce;
    ret (Some (net32 (u32 (0xffffffff - n)) ++ net16 getpid))
  else ret None.

(** The text of an XDM-AUTHORIZATION-1 record: 192 bits. *)
Definition xdm_text (key addr : list byte) : list byte :=
  let text := key ++ addr ++ net32 time in
  text ++ replicate (24 - length text) x00.

(** [compute_auth]: the block of [info->data] and its contents; [None] for the
    result 0.  Of an XDM-AUTHORIZATION-1 record 8 bytes are copied, and 8 more are
    the key of [XdmcpWrap]; neither is compared with [data_length]. *)
Definition compute_auth (authptr : Xauth) (sockname : list byte)
    : xM (option (nat * list byte)) :=
  if authname_match AUTH_MC1 (xau_name authptr) then memdup (xau_data authptr)
  else if authname_match AUTH_XA1 (xau_name authptr) then
    a ← heap_alloc 24;
    match a with
    | None => ret None
    | Some a =>
        if zlength (xau_data authptr) <? 8 then fail FOutOfBounds else
        addr ← xdm_address sockname;
        match addr with
        | None => heap_free a;; ret None
        | Some addr =>
            let key := take 8 (xau_data authptr) in
            assertM (zlength (key ++ addr ++ net32 time) <=? 24);;
            if zlength (xau_data authptr) <? 16 then fail FOutOfBounds else
            ret (Some (a, XdmcpWrap (xdm_text key addr) (take 8 (drop 8 (xau_data authptr)))))
        end
    end
  else ret None.

(** ** Names of sockets *)

(** [getpeername] and [getsockname] *)
Definition socket_name : xM (option (list byte)) :=
  l ← gets (net_names ∘ os_net ∘ w_os);
  match l with
  | [] => ret None
  | r :: t => modify_net (set_net_names t);; ret r
  end.

(** [sizeof(struct sockaddr) + INITIAL_SOCKNAME_SLACK] *)
Definition socknamelen : Z := 124.

(** [get_peer_sock_name], which is the same for both functions: the block and the
    address stored in it.  After [realloc] has succeeded [sockname] is no longer
    a valid pointer; the error exit still releases it. *)
Definition get_peer_sock_name : xM (option (nat * list byte)) :=
  sockname ← heap_alloc socknamelen;
  match sockname with
  | None => ret None
  | Some sockname =>
      r ← socket_name;
      match r with
      | None => heap_free sockname;; ret None
      | Some name =>
          if zlength name <=? socknamelen then ret (Some (sockname, name)) else
          new ← heap_realloc sockname (zlength name);
          match new with
          | None => heap_free sockname;; ret None
          | Some new =>
              r ← socket_name;
              match r with
              | None => heap_free sockname;; ret None
              | Some name' =>
                  if zlength name <? zlength name'
                  then heap_free sockname;; ret None
                  else ret (Some (new, name'))
              end
          end
      end
  end.

(** The result of [_xcb_get_auth_info]: what is stored in [*info], with the
    blocks of its two members. *)
Record auth_result := AuthResult { res_info : auth_info; res_name : nat; res_data : nat }.

(** The part of [_xcb_get_auth_info] that finds a name of the socket:
    [(block, address, gotsockname)]. *)
Definition find_sockname : xM (option (nat * list byte * bool)) :=
  peer ← get_peer_sock_name;
  match peer with
  | Some (a, s) => ret (Some (a, s, false))
  | None =>
      own ← get_peer_sock_name;
      match own with
      | None => ret None
      | Some (a, s) =>
          if negb (sa_family s =? AF_UNIX) then heap_free a;; ret None
          else ret (Some (a, s, true))
      end
  end.

(** The rest of [_xcb_get_auth_info] once [info->name] has been set. *)
Definition finish_auth (authptr : Xauth) (sockname : nat * list byte) (gotsockname : bool)
    (name : nat * list byte) : xM (option auth_result) :=
  sock ← (if gotsockname then ret (Some sockname) else get_peer_sock_name);
  match sock with
  | None => heap_free name.1;; ret None
  | Some (a, s) =>
      data ← compute_auth authptr s;
      match data with
      | None => heap_free name.1;; heap_free a;; ret None
      | Some d =>
          heap_free a;;
          ret (Some (AuthResult (AuthInfo name.2 d.2) name.1 d.1))
      end
  end.

Definition _xcb_get_auth_info (display : Z) : xM (option auth_result) :=
  s ← find_sockname;
  match s with
  | None => ret None
  | Some (a, sockname, gotsockname) =>
      match get_authptr sockname display with
      | None => heap_free a;; ret None
      | Some authptr =>
          name ← memdup (xau_name authptr);
          match name with
          | None => heap_free a;; ret None
          | Some name => finish_auth authptr (a, sockname) gotsockname name
          end
      end
  end.
End Auth.
