(* ===== verification/Open.v ===== *)
(** * Opening a display: [src/xcb_util.c]

    From a display name to a connection, built for Linux with abstract sockets
    and IPv6, without launchd and DECnet.  Name resolution is a parameter. *)
From S2P Require Import Prelude Effects State Display Connect Auth.
From Stdlib Require Import Strings.Byte.
#[local] Open Scope Z_scope.

(** [getaddrinfo]: the host, the service, and whether [AI_NUMERICHOST] and
    [AF_INET6] are asked for; the addresses, or [None] for an error. *)
Class XResolver :=
  getaddrinfo : list byte → list byte → bool → option (list (list byte)).

Definition ENOENT : Z := 2.
Definition EINVAL : Z := 22.
Definition ECONNREFUSED : Z := 111.

(** [sizeof(addr.sun_path)] *)
Definition sun_path_size : Z := 108.

Definition unix_base : list byte := c_string "/tmp/.X11-unix/X".

(** ** Sockets *)

(** [socket]; the domain and type do not matter here. *)
Definition socket : xM Z :=
  l ← gets (net_socks ∘ os_net ∘ w_os);
  modify_net (set_net_socks (tail l));;
  if default 0 (head l) =? 0 then
    d ← gets (net_next_fd ∘ os_net ∘ w_os);
    modify_net (λ n, set_net_next_fd (d + 1) (set_net_fds (d :: net_fds n) n));;
    ret d
  else modify_net (set_net_errno (default 0 (head l)));; ret (-1).

Definition connect (d : Z) (addr : sockaddr) : xM Z :=
  l ← gets (net_conns ∘ os_net ∘ w_os);
  modify_net (set_net_conns (tail l));;
  if default 0 (head l) =? 0 then
    modify_net (λ n, set_net_connected (net_connected n ++ [(d, addr)]) n);; ret 0
  else modify_net (set_net_errno (default 0 (head l)));; ret (-1).

(** [_xcb_socket], with [SOCK_CLOEXEC]: an old kernel rejects the flag. *)
Definition _xcb_socket : xM Z :=
  d ← socket;
  errno ← gets (net_errno ∘ os_net ∘ w_os);
  if (d =? -1) && (errno =? EINVAL) then
    d ← socket;
    when (0 <=? d) (sysret;; ret ());;
    ret d
  else ret d.

Section Open.
Context `{XResolver}.

(** [_xcb_socket] and [connect] with the same error exit. *)
Definition open_socket (addr : sockaddr) : xM Z :=
  d ← _xcb_socket;
  if d =? -1 then ret (-1) else
  r ← connect d addr;
  if r =? -1 then close d;; ret (-1) else ret d.

Definition _xcb_open_unix (protocol : option (list byte)) (file : list byte) : xM Z :=
  if match protocol with Some p => bool_decide (p ≠ c_string "unix") | None => false end
  then ret (-1) else
  if sun_path_size <=? zlength file then fail FOutOfBounds else
  open_socket (AddrUnix file).

Definition _xcb_open_abstract (protocol : option (list byte)) (file : list byte)
    (filelen : Z) : xM Z :=
  if match protocol with Some p => bool_decide (p ≠ c_string "unix") | None => false end
  then ret (-1) else
  if sun_path_size - 1 <=? zlength file then fail FOutOfBounds else
  open_socket (AddrAbstract (take (Z.to_nat filelen) file)).

(** The loop over the results of [getaddrinfo]. *)
Fixpoint try_addresses (addrs : list (list byte)) : xM Z :=
  match addrs with
  | [] => ret (-1)
  | a :: t =>
      d ← _xcb_socket;
      if 0 <=? d then
        r ← connect d (AddrInfo a);
        if 0 <=? r then ret d else close d;; try_addresses t
      else try_addresses t
  end.

(** An IPv6 address enclosed in brackets, without them. *)
Definition strip_brackets (host : list byte) : option (list byte) :=
  match host with
  | b :: _ =>
      if decide (b = "["%byte) then
        match strrchr "]"%byte host with
        | Some i => if decide (drop (S i) host = []) then Some (drop 1 (take i host)) else None
        | None => None
        end
      else None
  | [] => None
  end.

Definition _xcb_open_tcp (host : list byte) (protocol : option (list byte)) (port : Z) : xM Z :=
  if match protocol with
     | Some p => bool_decide (p ∉ [c_string "tcp"; c_string "inet"; c_string "inet6"])
     | None => false
     end
  then ret (-1) else
  let host := match host with [] => c_string "localhost" | _ => host end in
  let '(host, numeric) :=
    match strip_brackets host with Some h => (h, true) | None => (host, false) end in
  let service := take 5 (dec port) in
  match getaddrinfo host service numeric with
  | None => ret (-1)
  | Some addrs => try_addresses addrs
  end.

(** [X_TCP_PORT] *)
Definition X_TCP_PORT : Z := 6000.

Definition _xcb_open (host : list byte) (protocol : option (list byte)) (display : Z) : xM Z :=
  if (bool_decide (host ≠ []) || bool_decide (is_Some protocol)) &&
     (bool_decide (is_Some protocol) || bool_decide (host ≠ c_string "unix"))
  then _xcb_open_tcp host protocol (u16 (X_TCP_PORT + display))
  else
    let filelen := zlength unix_base + 1 + 4 * 3 + 1 in
    ok ← malloc filelen;
    if negb ok then ret (-1) else
    let text := unix_base ++ dec display in
    let file := take (Z.to_nat (filelen - 1)) text in
    let filelen := Z.min (zlength text) (filelen - 1) in
    d ← _xcb_open_abstract protocol file filelen;
    errno ← gets (net_errno ∘ os_net ∘ w_os);
    if (0 <=? d) || (negb (errno =? ENOENT) && negb (errno =? ECONNREFUSED))
    then ret d
    else _xcb_open_unix protocol file.
End Open.

(** ** Connecting *)

Section Display.
Context `{Host} `{XProto} `{XAuth} `{XResolver}.

(** [xcb_connect_to_display_with_auth_info]: the connection and the preferred
    screen. *)
Definition xcb_connect_to_display_with_auth_info (display_env displayname : option (list byte))
    (auth : option auth_info) : xM (connection * option Z) :=
  parsed ← _xcb_parse_display display_env displayname true;
  match parsed with
  | None => ret (error_connection, None)
  | Some dn =>
      let screen := Some (dn_screen dn) in
      d ← _xcb_open (dn_host dn) (dn_protocol dn) (dn_display dn);
      if d =? -1 then ret (error_connection, screen) else
      match auth with
      | Some a => c ← xcb_connect_to_fd d (Some a); ret (c, screen)
      | None =>
          ours ← _xcb_get_auth_info (dn_display dn);
          match ours with
          | Some r =>
              c ← xcb_connect_to_fd d (Some (res_info r));
              heap_free (res_name r);; heap_free (res_data r);;
              ret (c, screen)
          | None => c ← xcb_connect_to_fd d None; ret (c, screen)
          end
      end
  end.

Definition xcb_connect (display_env displayname : option (list byte))
    : xM (connection * option Z) :=
  xcb_connect_to_display_with_auth_info display_env displayname None.
End Display.
