(* ===== verification/Request.v ===== *)
(** * Sending a request: [xcb_send_request] of [src/xcb_out.c] *)
From S2P Require Import Prelude Effects Seq State In Conn Out Ext Xid.
#[local] Open Scope Z_scope.

(** [struct iovec]: the bytes at [iov_base], or a null base with a length. *)
Inductive iovec := IovBuf (bs : list byte) | IovNull (len : Z).

Definition iov_len (v : iovec) : Z :=
  match v with IovBuf bs => zlength bs | IovNull len => len end.

(** [xcb_protocol_request_t]; [count] is the length of the vector. *)
Record protocol_request := ProtocolRequest {
  req_ext : option xcb_extension;
  req_opcode : Z;
  req_isvoid : bool
}.

Section Request.
Context `{Host} `{XProto}.

Definition xcb_prefetch_maximum_request_length : xM () :=
  e ← gets has_error;
  if e then ret () else
  pthread_mutex_lock ReqLenLock;;
  o ← gets w_out;
  when (bool_decide (mrl_tag o = LAZY_NONE))
    (ext ← xcb_get_extension_data xcb_big_requests_id;
     if match ext with Some r => present r | None => false end then
       modify_out (set_mrl_tag LAZY_COOKIE);;
       cookie ← xcb_big_requests_enable;
       modify_out (set_mrl cookie)
     else
       modify_out (set_mrl_tag LAZY_FORCED);;
       s ← get_setup;
       modify_out (set_mrl (setup_maximum_request_length s)));;
  pthread_mutex_unlock ReqLenLock.

Definition xcb_get_maximum_request_length : xM Z :=
  e ← gets has_error;
  if e then ret 0 else
  xcb_prefetch_maximum_request_length;;
  pthread_mutex_lock ReqLenLock;;
  o ← gets w_out;
  when (bool_decide (mrl_tag o = LAZY_COOKIE))
    (r ← xcb_big_requests_enable_reply (mrl o);
     modify_out (set_mrl_tag LAZY_FORCED);;
     match r with
     | Some v => modify_out (set_mrl v)
     | None => s ← get_setup; modify_out (set_mrl (setup_maximum_request_length s))
     end);;
  pthread_mutex_unlock ReqLenLock;;
  o ← gets w_out;
  ret (mrl o).

(** [memcpy] of [bs] into a buffer at an offset. *)
Definition overwrite (off : nat) (bs buf : list byte) : list byte :=
  take off buf ++ bs ++ drop (off + length bs) buf.

(** The loop over the vector: the total length, and the vector with the null
    bases replaced by padding. *)
Fixpoint pad_vector (vector : list iovec) : xM (Z * list (list byte)) :=
  match vector with
  | [] => ret (0, [])
  | v :: t =>
      b ← match v with
          | IovBuf bs => ret bs
          | IovNull len =>
              assertM (len <=? 3);; ret (replicate (Z.to_nat len) Byte.x00)
          end;
      r ← pad_vector t;
      ret (zlength b + r.1, b :: r.2)
  end.

(** The opcode bytes of the request; [None] when the extension is missing. *)
Definition request_opcodes (req : protocol_request) : xM (option (list byte)) :=
  match req_ext req with
  | None => ret (Some [byte_of (req_opcode req)])
  | Some ext =>
      extension ← xcb_get_extension_data ext;
      match extension with
      | Some r =>
          if present r then ret (Some [byte_of (major_opcode r); byte_of (req_opcode req)])
          else ret None
      | None => ret None
      end
  end.

(** "set the major opcode [...]", "put together the length field", "set the
    length field": the vector with its header filled in, and [prefix[2]].
    [None] when the function shuts the connection down and returns 0. *)
Definition fill_header (vector : list iovec) (req : protocol_request)
    : xM (option (list (list byte) * Z)) :=
  match vector with
  | [] => fail FAssert
  | v0 :: rest =>
      assertM (4 <=? iov_len v0);;
      ops ← request_opcodes req;
      match ops with
      | None => _xcb_conn_shutdown;; ret None
      | Some ops =>
          data ← match v0 with IovBuf bs => ret bs | IovNull _ => fail FNull end;
          let data := overwrite 0 ops data in
          p ← pad_vector rest;
          let total := zlength data + p.1 in
          assertM (Z.land total 3 =? 0);;
          let longlen := Z.shiftr total 2 in
          s ← get_setup;
          lens ←
            (if longlen <=? setup_maximum_request_length s
             then ret (Some (u16 longlen, 0))
             else
               max ← xcb_get_maximum_request_length;
               if longlen >? max then ret None else ret (Some (0, longlen)));
          match lens with
          | None => _xcb_conn_shutdown;; ret None
          | Some (shortlen, longlen) =>
              let data := overwrite 2 (host_bytes 2 shortlen) data in
              ret (Some (data :: p.2, if shortlen =? 0 then u32 (longlen + 1) else 0))
          end
      end
  end.

(** The vector of a raw request, whose bases are used as they are. *)
Fixpoint raw_vector (vector : list iovec) : xM (list (list byte)) :=
  match vector with
  | [] => ret []
  | IovBuf bs :: t => r ← raw_vector t; ret (bs :: r)
  | IovNull len :: t =>
      if len =? 0 then r ← raw_vector t; ret ([] :: r) else fail FNull
  end.

(** The test for the GLX bug; it reads the second word of [vector[0]]. *)
Definition glx_workaround (req : protocol_request) (data : list byte) : xM workarounds :=
  match req_ext req with
  | None => ret WORKAROUND_NONE
  | Some ext =>
      if negb (req_isvoid req) && bool_decide (ext_name ext = "GLX"%string) then
        if req_opcode req =? 17 then
          if zlength data <? 8 then fail FOutOfBounds
          else ret (if field 4 4 data =? 0x10004
                    then WORKAROUND_GLX_GET_FB_CONFIGS_BUG else WORKAROUND_NONE)
        else if req_opcode req =? 21 then ret WORKAROUND_GLX_GET_FB_CONFIGS_BUG
        else ret WORKAROUND_NONE
      else ret WORKAROUND_NONE
  end.

(** The condition of the [sync_req] loop. *)
Definition sync_needed (isvoid : bool) (request : Z) (w : world) : bool :=
  (isvoid && (out_request (w_out w) =? u64 (request_expected (w_in w) + 2 ^ 16 - 1)))
  || (request =? 0).

(** The [while] loop that makes room for a [GetInputFocus]: the sequence number of
    the request and whether [prefix[0]] has been set.  It runs at most twice
    (when the 64-bit counter wraps around), so three units of fuel are
    enough. *)
Fixpoint sync_loop (fuel : nat) (isvoid : bool) (request : Z) (synced : bool)
    : xM (Z * bool) :=
  match fuel with
  | O => fail FFuel
  | S fuel' =>
      b ← gets (sync_needed isvoid request);
      if b then
        _xcb_in_expect_reply request WORKAROUND_NONE XCB_REQUEST_DISCARD_REPLY;;
        w ← gets id;
        modify_in (set_request_expected (out_request (w_out w)));;
        modify_out (λ o, set_out_request (u64 (out_request o + 1)) o);;
        request' ← gets (out_request ∘ w_out);
        sync_loop fuel' isvoid request' true
      else ret (request, synced)
  end.

(** [sync_req]: a [GetInputFocus] request. *)
Definition sync_req : list byte := [byte_of 43; byte_of 0] ++ host_bytes 2 1.

(** The entries in front of the request's own: the vector and the array slots
    left before it.  [big] is [prefix[2]]. *)
Definition add_prefix (slots : nat) (synced : bool) (big : Z) (vector : list (list byte))
    : xM (nat * list (list byte)) :=
  if synced || negb (big =? 0) then
    if decide (slots = 0%nat) then fail FOutOfBounds else
    match vector with
    | [] => fail FOutOfBounds
    | data :: rest =>
        let sync := if synced then sync_req else [] in
        if big =? 0 then ret ((slots - 1)%nat, sync :: vector)
        else if zlength data <? 4 then fail FOutOfBounds
        else ret ((slots - 1)%nat,
                  (sync ++ take 4 data ++ host_bytes 4 big) :: drop 4 data :: rest)
    end
  else ret (slots, vector).

(** [xcb_send_request] once no other thread writes, up to [write_block]: the
    sequence number, the array slots left and the vector. *)
Definition number_request (fl : Z) (slots : nat) (vector : list (list byte)) (big : Z)
    (wk : workarounds) (isvoid : bool) : xM (Z * (nat * list (list byte))) :=
  get_socket_back;;
  modify_out (λ o, set_out_request (u64 (out_request o + 1)) o);;
  request ← gets (out_request ∘ w_out);
  s ← sync_loop 3 isvoid request false;
  when (negb (bool_decide (wk = WORKAROUND_NONE)) || negb (fl =? 0))
    (_xcb_in_expect_reply s.1 wk fl;; ret ());;
  when (negb isvoid)
    (o ← gets w_out; modify_in (set_request_expected (out_request o)));;
  p ← add_prefix slots s.2 big vector;
  ret (s.1, p).

(** [xcb_send_request] under [iolock]. *)
Definition send_locked (fl : Z) (slots : nat) (vector : list (list byte)) (big : Z)
    (wk : workarounds) (isvoid : bool) : xM Z :=
  writing ← gets (out_writing ∘ w_out);
  when (negb (writing =? 0)) (pthread_cond_wait OutCond IoLock);;
  n ← number_request fl slots vector big wk isvoid;
  ok ← write_block n.2.1 n.2.2;
  if ok then ret n.1 else _xcb_conn_shutdown;; ret 0.

(** [xcb_send_request(c, flags, vector, req)]; [slots] is the number of array
    elements in front of [vector[0]].  The result is an [unsigned int]. *)
Definition xcb_send_request (fl : Z) (slots : nat) (vector : list iovec)
    (req : protocol_request) : xM Z :=
  e ← gets has_error;
  if e then ret 0 else
  assertM (negb (bool_decide (zlength vector = 0)));;
  h ← (if has_flag fl XCB_REQUEST_RAW
       then v ← raw_vector vector; ret (Some (v, 0))
       else fill_header vector req);
  match h with
  | None => ret 0
  | Some (vec, big) =>
      wk ← glx_workaround req (default [] (vec !! 0%nat));
      pthread_mutex_lock IoLock;;
      request ← send_locked (Z.land fl (Z.lnot XCB_REQUEST_RAW)) slots vec big wk
                  (req_isvoid req);
      pthread_mutex_unlock IoLock;;
      ret (u32 request)
  end.
End Request.
