(* ===== verification/OutFacts.v ===== *)
(** * The bytes that reach the server

    What [_xcb_conn_wait], [write_vec] and the loops of [src/xcb_out.c] do to the
    output stream: the bytes the kernel has accepted, followed by the queue. *)
From S2P Require Import Prelude Effects Seq XcbMap State In InFrame InFacts Conn Out.
#[local] Open Scope Z_scope.

(** ** What a wait on the socket may change *)

(** What [_xcb_conn_wait] leaves alone: everything but the input state, the bytes
    sent and the tapes of [recv], [poll], [writev] and [malloc]. *)
Record conn_side (w w' : world) : Prop := {
  conn_out : w_out w' = w_out w;
  conn_ext : w_ext w' = w_ext w;
  conn_xid : w_xid w' = w_xid w;
  conn_held : held w' = held w;
  conn_setup : setup w' = setup w;
  conn_error : has_error w = true → has_error w' = true;
  conn_reading : in_reading (w_in w') = in_reading (w_in w);
  conn_readers : readers (w_in w') = readers (w_in w);
  conn_fd : fd w' = fd w;
  conn_fresh : os_fresh (w_os w') = os_fresh (w_os w);
  conn_net : os_net (w_os w') = os_net (w_os w);
  conn_stderr : os_stderr (w_os w') = os_stderr (w_os w);
  conn_sysrets : os_sysrets (w_os w') = os_sysrets (w_os w);
  conn_polls : (length (os_polls (w_os w')) <= length (os_polls (w_os w)))%nat
}.

#[export] Instance conn_side_preorder : PreOrder conn_side.
Proof.
  split.
  - intros w. by split.
  - intros w1 w2 w3 [] []. split; try congruence; auto. lia.
Qed.

(** ** Polling only uses up events *)

Definition polls_le (w w' : world) : Prop :=
  (length (os_polls (w_os w')) <= length (os_polls (w_os w)))%nat.

#[export] Instance polls_le_preorder : PreOrder polls_le.
Proof. split; unfold polls_le; [by intros ?|intros ???; lia]. Qed.

Ltac polls_tac := apply obeys_modify; intros; unfold polls_le; cbn; lia.
#[export] Hint Extern 1 (obeys polls_le (modify_in _)) => polls_tac : obeys.
#[export] Hint Extern 1 (obeys polls_le (modify_os _)) => polls_tac : obeys.
#[export] Hint Extern 1 (obeys polls_le _xcb_conn_shutdown) => polls_tac : obeys.

Lemma polls_poll : obeys polls_le poll.
Proof.
  intros w a w' E. apply (wp_ret_inv _ _ _ _ _ (wp_poll w)) in E as (_ & _ & _ & _ & ?).
  unfold polls_le. lia.
Qed.

Lemma polls_malloc n : obeys polls_le (malloc n).
Proof. unfold malloc. obeys_auto. Qed.

Lemma polls_recv n : obeys polls_le (recv n).
Proof. unfold recv. obeys_auto. Qed.

Lemma polls_signal c : obeys polls_le (pthread_cond_signal c).
Proof. unfold pthread_cond_signal. obeys_auto. Qed.
#[export] Hint Resolve polls_poll polls_malloc polls_recv polls_signal : obeys.

Section Polls.
Context `{Host} `{XProto}.

Lemma polls_read_block_loop fuel len buf : obeys polls_le (read_block_loop fuel len buf).
Proof. revert buf. induction fuel; intros buf; simpl; obeys_auto. Qed.

Lemma polls_in_read_block room len : obeys polls_le (_xcb_in_read_block room len).
Proof.
  unfold _xcb_in_read_block, read_block. pose proof polls_read_block_loop. obeys_auto.
Qed.

Lemma polls_read_packet : obeys polls_le read_packet.
Proof.
  pose proof polls_in_read_block.
  unfold read_packet, update_sequence, replies_put, receive_packet, dispatch_packet,
    deliver_reply, deliver_event. obeys_auto.
Qed.

Lemma polls_read_packets fuel : obeys polls_le (read_packets fuel).
Proof. pose proof polls_read_packet. induction fuel; simpl; obeys_auto. Qed.

Lemma polls_in_read : obeys polls_le _xcb_in_read.
Proof. unfold _xcb_in_read. pose proof polls_read_packets. obeys_auto. Qed.

Lemma conn_side_in_read w r w' :
  _xcb_in_read w = Ret r w' → conn_side w w' ∧ same_os (w_os w) (w_os w').
Proof.
  intros E. pose proof (polls_in_read _ _ _ E) as Hp.
  apply obeys_in_read in E as [? ? ? ? ? ? ? ? ? Hos]. split; [|done].
  split; try done; apply Hos.
Qed.
End Polls.

(** ** Writing a vector *)

(** The entries whose length fits the [int] of [write_vec]. *)
Definition small_iov (v : list (list byte)) : Prop := Forall (λ b, zlength b < 2 ^ 31) v.

(** [poll] as a function. *)
Lemma poll_run w :
  match skip_intr (os_polls (w_os w)) with
  | PollReady r :: t => poll w = Ret (Some r) (set_w_os (set_os_polls t (w_os w)) w)
  | PollError :: t => poll w = Ret None (set_w_os (set_os_polls t (w_os w)) w)
  | _ => poll w = Blocked (set_w_os (set_os_polls (skip_intr (os_polls (w_os w))) (w_os w)) w)
  end.
Proof.
  unfold poll, bind, gets, modify_os, modify, compose. cbn.
  destruct (skip_intr (os_polls (w_os w))) as [|[] t]; try done;
    by destruct w as [? ? ? ? ? ? ? ? []].
Qed.

Lemma bind_lock {B} l h (k : () → xM B) w :
  held w = h → l ∉ h → bind (pthread_mutex_lock l) k w = k () (set_held (l :: h) w).
Proof.
  intros <- Hl. unfold pthread_mutex_lock. rewrite bind_assoc, bind_gets.
  by rewrite decide_False.
Qed.

Lemma unlock_run l h w :
  held w = l :: h → pthread_mutex_unlock l w = Ret () (set_held h w).
Proof.
  intros Hl. unfold pthread_mutex_unlock. rewrite bind_gets, Hl, decide_True by set_solver.
  cbn. by rewrite decide_True.
Qed.

Lemma bind_unlock {B} l h (k : () → xM B) w :
  held w = l :: h → bind (pthread_mutex_unlock l) k w = k () (set_held h w).
Proof. intros Hl. by rewrite (bind_run _ _ _ _ _ (unlock_run l h w Hl)). Qed.

Section WriteVec.
Context `{Host} `{XProto}.

(** [advance_iov] drops the written bytes from the front of the vector. *)
Lemma advance_iov_ok v n w :
  small_iov v → 0 <= n <= zlength (concat v) →
  ∃ v', advance_iov n v w = Ret (0, v') w ∧
    concat v' = drop (Z.to_nat n) (concat v) ∧ small_iov v' ∧ (v' = [] ∨ concat v' ≠ []).
Proof.
  revert n. induction v as [|b v IH]; intros n Hs Hn.
  { exists []. assert (n = 0) as -> by (unfold zlength in Hn; cbn in Hn; lia).
    split_and!; auto. }
  apply Forall_cons in Hs as [Hb Hs]. cbn [concat advance_iov] in *.
  rewrite zlength_app in Hn. pose proof (zlength_nonneg b).
  rewrite s32_small by (unfold int_range; lia). rewrite Z.gtb_ltb.
  destruct (Z.ltb_spec n (zlength b)) as [Hlt|Hge]; cbv zeta.
  - destruct (Z.ltb_spec n 0); [lia|].
    assert (drop (Z.to_nat n) b ≠ []) as Hne.
    { intros E. apply (f_equal zlength) in E.
      rewrite zlength_drop, zlength_nil in E by lia. lia. }
    rewrite bool_decide_eq_false_2 by done.
    rewrite Z.sub_diag. eexists. split; [done|]. split_and!.
    + cbn [concat]. rewrite drop_app_le; [done|]. unfold zlength in *. lia.
    + apply Forall_cons. split; [|done]. rewrite zlength_drop; lia.
    + right. cbn. by intros [? ?]%app_nil.
  - destruct (Z.ltb_spec (zlength b) 0); [lia|].
    rewrite bool_decide_eq_true_2.
    2: { apply drop_ge. unfold zlength. lia. }
    destruct (IH (n - zlength b) Hs) as (v' & E & Hc & Hs' & Hne); [lia|].
    exists v'. split; [exact E|]. split; [|done]. rewrite Hc, drop_app_ge.
    + f_equal. unfold zlength in *. lia.
    + unfold zlength in *. lia.
Qed.

(** [writev] accepts a prefix of the vector. *)
Lemma wp_writev v w :
  wp (writev v) (λ r w', w_in w' = w_in w ∧ w_out w' = w_out w ∧ w_ext w' = w_ext w ∧
    w_xid w' = w_xid w ∧ held w' = held w ∧ setup w' = setup w ∧
    has_error w' = has_error w ∧ fd w' = fd w ∧ os_fresh (w_os w') = os_fresh (w_os w) ∧
    os_net (w_os w') = os_net (w_os w) ∧ os_stderr (w_os w') = os_stderr (w_os w) ∧
    os_sysrets (w_os w') = os_sysrets (w_os w) ∧
    os_polls (w_os w') = os_polls (w_os w) ∧
    match r with
    | Written n => 0 <= n <= zlength (concat v) ∧
        os_sent (w_os w') = os_sent (w_os w) ++ take (Z.to_nat n) (concat v)
    | _ => os_sent (w_os w') = os_sent (w_os w)
    end) w.
Proof.
  pose proof (zlength_nonneg (concat v)).
  unfold writev, wp. cbv zeta. rewrite bind_gets. unfold compose.
  destruct (os_writevs (w_os w)) as [|[] t]; cbn; split_and!; try done; try lia.
  f_equal. symmetry. apply take_ge. unfold zlength. lia.
Qed.

(** The bytes sent and those left of the vector are the bytes that were there. *)
Definition vec_progress (v : list (list byte)) (w : world)
    (r : bool * list (list byte)) (w' : world) : Prop :=
  os_sent (w_os w') ++ concat r.2 = os_sent (w_os w) ++ concat v ∧
  small_iov r.2 ∧ (r.1 = false → has_error w' = true).

Lemma wp_write_vec v w :
  out_queue (w_out w) = [] → small_iov v →
  wp (write_vec v) (λ r w', conn_side w w' ∧ vec_progress v w r w') w.
Proof.
  intros Hq Hs. unfold write_vec. apply wp_bind. unfold wp at 1. cbn [gets]. unfold compose.
  rewrite Hq, bool_decide_eq_true_2 by done.
  apply wp_bind. unfold wp at 1. cbn [assertM ret].
  apply wp_bind. eapply wp_mono; [apply wp_writev|].
  intros r w1 (Hi & Ho & ? & ? & ? & ? & He & ? & Hf & ? & ? & ? & Hp & Hr).
  assert (conn_side w w1) as Hc by (split; congruence || (rewrite ?Hp; lia)).
  assert (conn_side w (set_has_error true w1)) as Hc2 by (destruct Hc; by split).
  destruct r as [n| |].
  - destruct Hr as [Hn Hsent]. destruct (Z.leb_spec n 0).
    { unfold wp. cbn. split; [done|]. split; [|done]. cbn. rewrite Hsent.
      assert (n = 0) as -> by lia. cbn. by rewrite app_nil_r. }
    destruct (advance_iov_ok v n w1 Hs Hn) as (v' & E & Hc' & Hs' & _).
    unfold wp. rewrite (bind_run _ _ _ _ _ E). cbn. split; [done|]. split; [|done].
    cbn. by rewrite Hsent, Hc', <- app_assoc, take_drop.
  - unfold wp. cbn. split; [done|]. split; [|done]. cbn. by rewrite Hr.
  - unfold wp. cbn. split; [done|]. split; [|done]. cbn. by rewrite Hr.
Qed.

(** What a wait leaves of the caller's vector. *)
Definition wait_progress (vector : option (list (list byte))) (w : world)
    (r : bool * option (list (list byte))) (w' : world) : Prop :=
  match vector, r.2 with
  | Some v, Some v' =>
      os_sent (w_os w') ++ concat v' = os_sent (w_os w) ++ concat v ∧ small_iov v'
  | None, None => os_sent (w_os w') = os_sent (w_os w)
  | _, _ => False
  end ∧ (r.1 = false → has_error w' = true).

Lemma conn_io_inv revents vector w r w' :
  (is_Some vector → out_queue (w_out w) = []) → small_iov (default [] vector) →
  conn_io revents vector w = Ret r w' →
  conn_side w w' ∧ wait_progress vector w r w'.
Proof.
  intros Hq Hs E. unfold conn_io in E. apply bind_inv in E as (b & w1 & E1 & E).
  assert (conn_side w w1 ∧ os_sent (w_os w1) = os_sent (w_os w) ∧
    (b = false → has_error w1 = true)) as (Hc1 & Hs1 & He1).
  { destruct (_ =? POLLIN).
    - pose proof (conn_side_in_read _ _ _ E1) as [? (_ & _ & ? & _)].
      split_and!; [done..|]. intros ->. by eapply in_read_false.
    - injection E1 as <- <-. done. }
  destruct b; cbn [negb] in E.
  2: { injection E as <- <-. split; [done|]. split; [|by auto]. cbn.
       destruct vector; [split; [by rewrite Hs1|done]|done]. }
  destruct (_ =? POLLOUT).
  - destruct vector as [v|]; [|done]. apply bind_inv in E as (o & w2 & E2 & E).
    injection E as <- <-.
    assert (out_queue (w_out w1) = []) as Hq1 by (rewrite (conn_out _ _ Hc1); auto).
    pose proof (wp_ret_inv _ _ _ _ _ (wp_write_vec v w1 Hq1 Hs) E2) as [Hc2 (Hv & Hs2 & He2)].
    split; [by transitivity w1|]. split; [|done]. cbn. by rewrite <- Hs1.
  - injection E as <- <-. split; [done|]. split; [|done]. cbn.
    destruct vector; [split; [by rewrite Hs1|done]|done].
Qed.

(** The state of a waiting thread between [poll] and the updates of the counters,
    and the updates. *)
Definition bump_writing (d : Z) (vector : option (list (list byte))) (o : xcb_out) : xcb_out :=
  match vector with
  | Some _ => set_out_writing (out_writing o + d) o
  | None => o
  end.

Definition enter_wait (vector : option (list (list byte))) (ps : list poll_event)
    (failed : bool) (w : world) : world :=
  set_has_error (failed || has_error w) (set_w_os (set_os_polls ps (w_os w))
    (set_w_out (bump_writing 1 vector (w_out w))
      (set_w_in (set_in_reading (in_reading (w_in w) + 1) (w_in w)) w))).

Definition leave_wait (vector : option (list (list byte))) (w : world) : world :=
  set_w_in (set_in_reading (in_reading (w_in w) - 1) (w_in w))
    (set_w_out (bump_writing (-1) vector (w_out w)) w).

Lemma leave_wait_run vector (m : xM (bool * option (list (list byte)))) w :
  (r ← m;
   when (bool_decide (is_Some vector)) (modify_out (λ o, set_out_writing (out_writing o - 1) o));;
   modify_in (λ i, set_in_reading (in_reading i - 1) i);;
   ret r) w =
  match m w with
  | Ret r w' => Ret r (leave_wait vector w')
  | Blocked w' => Blocked w'
  | Fault f => Fault f
  end.
Proof.
  unfold bind at 1. destruct (m w) as [r w'| |]; [|done..].
  unfold leave_wait. destruct vector; [done|]. cbn. by destruct w'.
Qed.

(** What [poll] answers: the events, or [None] for a failure, with the rest of the
    tape. *)
Definition poll_answer (events : Z) (l : list poll_event)
    : option (option Z * list poll_event) :=
  match skip_intr l with
  | PollReady r :: t => Some (if Z.land r (Z.lnot events) =? 0 then Some r else None, t)
  | PollError :: t => Some (None, t)
  | _ => None
  end.

Lemma poll_answer_lt events l a t :
  poll_answer events l = Some (a, t) → (length t < length l)%nat.
Proof.
  unfold poll_answer. pose proof (length_skip_intr l).
  destruct (skip_intr l) as [|[] ?]; try done; intros [= _ <-]; cbn in *; lia.
Qed.

(** The first two stages of the wait as functions. *)
Definition entered (vector : option (list (list byte))) (w : world) : world :=
  set_w_out (bump_writing 1 vector (w_out w))
    (set_w_in (set_in_reading (in_reading (w_in w) + 1) (w_in w)) w).

Definition polled (ps : list poll_event) (failed : bool) (w : world) : world :=
  set_has_error (failed || has_error w) (set_w_os (set_os_polls ps (w_os w)) w).

Lemma enter_poll_run vector w h :
  held w = IoLock :: h → enter_poll vector w = Ret () (set_held h (entered vector w)).
Proof.
  intros Hh. unfold enter_poll, modify_in. rewrite bind_modify.
  match goal with |- context [bind (when ?b ?m) _ ?w1] =>
    assert (when b m w1 = Ret () (entered vector w)) as E
      by (destruct vector; [done|]; cbn; by destruct w) end.
  rewrite (bind_run _ _ _ _ _ E). by apply unlock_run.
Qed.

Lemma poll_socket_run vector w :
  match poll_answer (wait_events vector) (os_polls (w_os w)) with
  | None => ∃ w', poll_socket vector w = Blocked w'
  | Some (None, ps) => poll_socket vector w = Ret None (polled ps true w)
  | Some (Some revents, ps) => poll_socket vector w = Ret (Some revents) (polled ps false w)
  end.
Proof.
  pose proof (poll_run w) as Ep. unfold poll_answer, poll_socket, polled.
  destruct (skip_intr (os_polls (w_os w))) as [|[rv| |] t].
  - eexists. by rewrite (bind_blocked _ _ _ _ Ep).
  - rewrite (bind_run _ _ _ _ _ Ep). cbv zeta.
    destruct (Z.land rv (Z.lnot (wait_events vector)) =? 0).
    + rewrite bool_decide_eq_false_2, bind_when_false by done. by destruct w.
    + by rewrite bool_decide_eq_true_2.
  - eexists. by rewrite (bind_blocked _ _ _ _ Ep).
  - rewrite (bind_run _ _ _ _ _ Ep). cbv zeta. by rewrite bool_decide_eq_true_2.
Qed.

(** [_xcb_conn_wait] of a thread that holds [iolock], as a function. *)
Lemma conn_wait_eq c vector w h :
  held w = IoLock :: h → IoLock ∉ h → wait_busy vector w = false →
  match poll_answer (wait_events vector) (os_polls (w_os w)) with
  | None => ∃ w', _xcb_conn_wait c vector w = Blocked w'
  | Some (None, ps) => _xcb_conn_wait c vector w =
      Ret (false, vector) (leave_wait vector (enter_wait vector ps true w))
  | Some (Some revents, ps) => _xcb_conn_wait c vector w =
      match conn_io revents vector (enter_wait vector ps false w) with
      | Ret r w' => Ret r (leave_wait vector w')
      | Blocked w' => Blocked w'
      | Fault f => Fault f
      end
  end.
Proof.
  intros Hh Hn Hb. unfold _xcb_conn_wait. rewrite bind_gets, Hb.
  rewrite (bind_run _ _ _ _ _ (enter_poll_run vector w h Hh)).
  pose proof (poll_socket_run vector (set_held h (entered vector w))) as Ep.
  change (os_polls (w_os (set_held h (entered vector w)))) with (os_polls (w_os w)) in Ep.
  assert (∀ ps failed, set_held (IoLock :: h) (polled ps failed (set_held h (entered vector w))) =
    enter_wait vector ps failed w) as Ew.
  { intros. unfold enter_wait, entered, polled. rewrite <- Hh. by destruct w. }
  destruct (poll_answer _ _) as [[[rv|] ps]|].
  - rewrite (bind_run _ _ _ _ _ Ep), (bind_lock IoLock h), Ew by done.
    apply leave_wait_run.
  - rewrite (bind_run _ _ _ _ _ Ep), (bind_lock IoLock h), Ew by done.
    exact (leave_wait_run vector (ret (false, vector)) _).
  - destruct Ep as [w' Ep]. eexists. by rewrite (bind_blocked _ _ _ _ Ep).
Qed.

Lemma conn_wait_busy c vector w h :
  held w = IoLock :: h → wait_busy vector w = true →
  _xcb_conn_wait c vector w = Blocked (set_held h w).
Proof.
  intros Hh Hb. unfold _xcb_conn_wait. rewrite bind_gets, Hb.
  unfold pthread_cond_wait. rewrite bind_assoc. by rewrite (bind_unlock IoLock h).
Qed.

Lemma conn_wait_split c vector w r w' h :
  held w = IoLock :: h → IoLock ∉ h →
  _xcb_conn_wait c vector w = Ret r w' →
  ∃ ps ready w7,
    (length ps < length (os_polls (w_os w)))%nat ∧
    (match ready with
     | Some revents => conn_io revents vector (enter_wait vector ps false w) = Ret r w7
     | None => r = (false, vector) ∧ w7 = enter_wait vector ps true w
     end) ∧
    w' = leave_wait vector w7.
Proof.
  intros Hh Hn E. destruct (wait_busy vector w) eqn:Hb.
  { by rewrite (conn_wait_busy c _ _ h) in E. }
  pose proof (conn_wait_eq c vector w h Hh Hn Hb) as Eq.
  destruct (poll_answer _ _) as [[ready ps]|] eqn:Ea; [|destruct Eq as [? Eq]; congruence].
  apply poll_answer_lt in Ea. exists ps, ready. destruct ready as [rv|]; rewrite Eq in E.
  - destruct (conn_io _ _ _) as [r' w7| |] eqn:Eio; [|done..]. injection E as -> <-. by exists w7.
  - injection E as <- <-. by exists (enter_wait vector ps true w).
Qed.

Lemma bump_writing_back v o : bump_writing (-1) v (bump_writing 1 v o) = o.
Proof.
  destruct v, o; [|done]. unfold bump_writing, set_out_writing; cbn.
  by rewrite <- Z.add_assoc, Z.add_0_r.
Qed.

(** Waiting on the socket changes nothing but the input state, what was sent and
    the tapes, if the work in between does not. *)
Lemma wait_conn_side vector ps failed w w7 :
  (length ps < length (os_polls (w_os w)))%nat →
  conn_side (enter_wait vector ps failed w) w7 →
  conn_side w (leave_wait vector w7) ∧
  (length (os_polls (w_os (leave_wait vector w7))) < length (os_polls (w_os w)))%nat.
Proof.
  intros Hps []. cbn in *. split; [|lia]. split; cbn; try done.
  - rewrite conn_out0. apply bump_writing_back.
  - intros He. apply conn_error0. by rewrite He, orb_true_r.
  - lia.
  - lia.
Qed.

(** A wait on the socket: the connection is as before, up to what was read and
    sent; it uses up an event of [poll]. *)
Lemma conn_wait_inv c vector w r w' h :
  held w = IoLock :: h → IoLock ∉ h →
  (is_Some vector → out_queue (w_out w) = []) → small_iov (default [] vector) →
  _xcb_conn_wait c vector w = Ret r w' →
  conn_side w w' ∧ (length (os_polls (w_os w')) < length (os_polls (w_os w)))%nat ∧
  wait_progress vector w r w'.
Proof.
  intros Hh Hn Hq Hs E.
  destruct (conn_wait_split _ _ _ _ _ _ Hh Hn E) as (ps & ready & w7 & Hps & Hio & ->).
  destruct ready as [revents|].
  - apply conn_io_inv in Hio as [Hc Hp]; [|by destruct vector|done].
    destruct (wait_conn_side _ _ _ _ _ Hps Hc). done.
  - destruct Hio as [-> ->].
    destruct (wait_conn_side vector ps true w (enter_wait vector ps true w) Hps) as [? ?];
      [reflexivity|].
    split_and!; [done..|]. split; [by destruct vector|done].
Qed.
End WriteVec.

(** ** Sending and flushing *)

(** [m] has handed [bytes] to the kernel in order: all of them if [r], a prefix
    otherwise, and then the connection is in error. *)
Definition delivered (bytes : list byte) (w : world) (r : bool) (w' : world) : Prop :=
  ∃ rest, os_sent (w_os w') ++ rest = os_sent (w_os w) ++ bytes ∧
    (r = true → rest = []) ∧ (r = false → has_error w' = true).

(** As [conn_side], but for the output state. *)
Definition send_side (w w' : world) : Prop := conn_side (set_w_out (w_out w') w) w'.

Lemma send_side_trans w1 w2 w3 : send_side w1 w2 → send_side w2 w3 → send_side w1 w3.
Proof. intros [] []. cbn in *. split; cbn; try congruence; auto. lia. Qed.

Lemma conn_send_side w w' : conn_side w w' → send_side w w'.
Proof. intros []. by split. Qed.

Lemma send_side_out o w : send_side w (set_w_out o w).
Proof. by split. Qed.

(** The thread holds [iolock], once. *)
Definition holds_iolock (w : world) : Prop := ∃ h, held w = IoLock :: h ∧ IoLock ∉ h.

Lemma holds_iolock_side w w' : send_side w w' → holds_iolock w → holds_iolock w'.
Proof. intros Hc (h & Hh & Hn). exists h. by rewrite (conn_held _ _ Hc). Qed.

Section Send.
Context `{Host} `{XProto}.

Lemma send_loop_inv fuel v w r w' :
  holds_iolock w → out_queue (w_out w) = [] → small_iov v →
  send_loop fuel v w = Ret r w' →
  conn_side w w' ∧ delivered (concat v) w r w'.
Proof.
  revert v w. induction fuel as [|fuel IH]; intros v w Hl Hq Hs E; [done|].
  cbn [send_loop] in E. destruct v as [|b v].
  { injection E as <- <-. split; [reflexivity|]. by exists []. }
  apply bind_inv in E as (o & w1 & E1 & E). destruct Hl as (h & Hh & Hn).
  apply (conn_wait_inv _ _ _ _ _ h) in E1 as (Hc1 & _ & Hp & He); [|done..].
  destruct o as [o v']. cbn in Hp, He, E. destruct v' as [v'|]; [|done]. destruct Hp as [Hp Hs'].
  destruct o.
  - apply IH in E as (Hc2 & rest & Hr & Hr1 & Hr2); [|by exists h; rewrite (conn_held _ _ Hc1)
      |by rewrite (conn_out _ _ Hc1)|done].
    split; [by transitivity w1|]. exists rest. by rewrite Hr.
  - injection E as <- <-. split; [done|]. exists (concat v'). split; [exact Hp|]. by auto.
Qed.

Lemma out_send_inv v w r w' :
  holds_iolock w → out_queue (w_out w) = [] → small_iov v →
  _xcb_out_send v w = Ret r w' →
  send_side w w' ∧ w_out w' = set_out_request_written (out_request (w_out w)) (w_out w) ∧
  delivered (concat v) w r w'.
Proof.
  intros Hl Hq Hs E. unfold _xcb_out_send in E. rewrite bind_gets in E.
  apply bind_inv in E as (r' & w1 & E1 & E).
  apply send_loop_inv in E1 as [Hc (rest & Hr & Hr1 & Hr2)]; [|done..].
  unfold modify_out, pthread_cond_broadcast, pthread_cond_signal, modify_os in E.
  rewrite !bind_modify in E. apply bind_inv in E as ([] & w3 & E3 & E). injection E as <- <-.
  assert (∃ ss, w3 = with_signals ss (set_w_out
    (set_out_request_written (out_request (w_out w1)) (w_out w1)) w1)) as (ss & ->).
  { unfold _xcb_in_wake_up_next_reader in E3. rewrite bind_gets in E3.
    unfold with_signals. cbn in E3.
    destruct (readers (w_in w1)); cbn in E3; injection E3 as <-;
      eexists [Broadcast OutCond; _]; cbn; by rewrite <- app_assoc. }
  rewrite (conn_out _ _ Hc). split; [|split; [done|]].
  - destruct Hc. by split.
  - exists rest. done.
Qed.

(** Everything up to [request] has been handed over. *)
Definition flushed (request : Z) (o : xcb_out) : Prop :=
  XCB_SEQUENCE_COMPARE (out_request_written o) Z.geb request = true.

Lemma flush_to_inv request w r w' :
  holds_iolock w → zlength (out_queue (w_out w)) < 2 ^ 31 →
  u64 (out_request (w_out w) - request) ≠ 2 ^ 63 →
  _xcb_out_flush_to request w = Ret r w' →
  send_side w w' ∧ flushed request (w_out w') ∧
  (w_out w' = w_out w ∧ w' = w ∧ r = true ∨
   w_out w' = set_out_request_written (out_request (w_out w)) (set_out_queue [] (w_out w)) ∧
   delivered (out_queue (w_out w)) w r w').
Proof.
  intros Hl Hq Hne E. unfold _xcb_out_flush_to in E. rewrite bind_gets in E.
  apply bind_inv in E as ([] & w0 & E0 & E).
  destruct (XCB_SEQUENCE_COMPARE request Z.leb (out_request (w_out w))) eqn:Ha; [|done].
  injection E0 as <-.
  destruct (XCB_SEQUENCE_COMPARE (out_request_written (w_out w)) Z.geb request) eqn:Ew.
  { injection E as <- <-. split; [apply conn_send_side; reflexivity|]. split; [done|]. by left. }
  rewrite bool_decide_decide in E. destruct (decide (out_queue (w_out w) = [])) as [Hn|Hn]; cbn [negb] in E.
  - destruct (negb (out_writing (w_out w) =? 0)).
    { cbn [when] in E. unfold pthread_cond_wait in E. rewrite bind_assoc in E.
      by apply bind_inv in E as (? & ? & _ & ?). }
    rewrite bind_when_false, bind_gets in E. unfold compose in E. rewrite Ew in E. done.
  - unfold modify_out in E. rewrite bind_modify in E.
    apply out_send_inv in E as (Hc & Ho & Hd); [| |done|by apply Forall_singleton].
    2: { destruct Hl as (h & ?). by exists h. }
    split; [|split].
    + eapply send_side_trans; [apply send_side_out|exact Hc].
    + unfold flushed. rewrite Ho. cbn. by apply compare_swap.
    + right. split; [exact Ho|]. cbn [concat] in Hd. by rewrite app_nil_r in Hd.
Qed.

(** [fill_queue] moves a prefix of the vector into the queue. *)
Lemma fill_queue_ok slots v w :
  ∃ n,
    fill_queue slots v w = Ret ((slots + n)%nat, drop n v)
      (set_w_out (set_out_queue (out_queue (w_out w) ++ concat (take n v)) (w_out w)) w) ∧
    (n <= length v)%nat ∧
    (zlength (out_queue (w_out w)) <= XCB_QUEUE_BUFFER_SIZE →
     zlength (out_queue (w_out w) ++ concat (take n v)) <= XCB_QUEUE_BUFFER_SIZE).
Proof.
  revert slots w. induction v as [|b v IH]; intros slots w; cbn [fill_queue].
  { exists 0%nat. rewrite Nat.add_0_r. cbn. rewrite app_nil_r. split; [|by split; [lia|]].
    by destruct w as [? ? ? ? [] ? ? ? ?]. }
  rewrite bind_gets. unfold compose.
  destruct (Z.leb_spec (zlength (out_queue (w_out w)) + zlength b) XCB_QUEUE_BUFFER_SIZE) as [Hle|Hgt].
  - unfold modify_out. rewrite bind_modify.
    destruct (IH (S slots) (set_w_out (set_out_queue (out_queue (w_out w) ++ b) (w_out w)) w))
      as (n & E & Hn & Hb).
    exists (S n). rewrite E. cbn in Hb |- *. rewrite <- app_assoc in *. split_and!; [|lia|].
    + by rewrite Nat.add_succ_r.
    + intros _. apply Hb. rewrite zlength_app. lia.
  - exists 0%nat. rewrite Nat.add_0_r. cbn. rewrite app_nil_r. split; [|by split; [lia|]].
    by destruct w as [? ? ? ? [] ? ? ? ?].
Qed.

(** A vector that fits goes into the queue. *)
Lemma write_block_fits slots v w :
  zlength (out_queue (w_out w)) + zlength (concat v) <= XCB_QUEUE_BUFFER_SIZE →
  write_block slots v w =
    Ret true (set_w_out (set_out_queue (out_queue (w_out w) ++ concat v) (w_out w)) w).
Proof.
  intros Hf. unfold write_block.
  assert (∃ s, fill_queue slots v w = Ret (s, [])
    (set_w_out (set_out_queue (out_queue (w_out w) ++ concat v) (w_out w)) w)) as (s & E).
  { revert slots w Hf. induction v as [|b v IH]; intros slots w Hf; cbn [fill_queue concat] in *.
    { exists slots. rewrite app_nil_r. by destruct w as [? ? ? ? [] ? ? ? ?]. }
    rewrite zlength_app in Hf. pose proof (zlength_nonneg (concat v)).
    rewrite bind_gets. unfold compose.
    destruct (Z.leb_spec (zlength (out_queue (w_out w)) + zlength b) XCB_QUEUE_BUFFER_SIZE); [|lia].
    unfold modify_out. rewrite bind_modify.
    destruct (IH (S slots) (set_w_out (set_out_queue (out_queue (w_out w) ++ b) (w_out w)) w))
      as (s & E); [cbn; rewrite zlength_app; lia|].
    exists s. rewrite E. cbn. by rewrite <- app_assoc. }
  by rewrite (bind_run _ _ _ _ _ E).
Qed.

(** [write_block]: the vector follows the queue on the wire, and what is not sent
    is in the queue. *)
Lemma write_block_inv slots v w r w' :
  holds_iolock w → small_iov v → zlength (out_queue (w_out w)) <= XCB_QUEUE_BUFFER_SIZE →
  write_block slots v w = Ret r w' →
  send_side w w' ∧ zlength (out_queue (w_out w')) <= XCB_QUEUE_BUFFER_SIZE ∧
  ((∃ q, w_out w' = set_out_queue q (w_out w) ∧ q = out_queue (w_out w) ++ concat v ∧
      r = true ∧ os_sent (w_os w') = os_sent (w_os w)) ∨
   (w_out w' = set_out_request_written (out_request (w_out w)) (set_out_queue [] (w_out w)) ∧
    delivered (out_queue (w_out w) ++ concat v) w r w')).
Proof.
  intros Hl Hs Hq E. unfold write_block in E.
  destruct (fill_queue_ok slots v w) as (n & Ef & Hn & Hb). specialize (Hb Hq).
  rewrite (bind_run _ _ _ _ _ Ef) in E. cbn [fst snd] in E.
  set (q := out_queue (w_out w) ++ concat (take n v)) in *.
  destruct (drop n v) as [|b t] eqn:Ed.
  { injection E as <- <-. split; [apply send_side_out|]. split; [exact Hb|]. left.
    exists q. split_and!; try done. subst q. f_equal.
    rewrite <- (take_drop n v) at 2. by rewrite Ed, app_nil_r. }
  destruct (decide (slots + n = 0)%nat); [done|]. rewrite bind_gets in E.
  unfold modify_out in E. rewrite bind_modify in E.
  apply out_send_inv in E as (Hc & Ho & Hd); [|done|done|].
  2: { apply Forall_cons. cbn. split; [unfold XCB_QUEUE_BUFFER_SIZE in Hb; lia|].
       rewrite <- Ed. by apply Forall_drop. }
  split; [eapply send_side_trans; [apply send_side_out|exact Hc]|].
  rewrite Ho. split; [done|]. right. split; [done|].
  cbn [concat] in Hd. unfold compose in Hd. cbn in Hd.
  replace (out_queue (w_out w) ++ concat v) with (q ++ b ++ concat t); [done|].
  subst q. rewrite <- app_assoc. f_equal.
  rewrite <- (take_drop n v) at 2. by rewrite Ed, concat_app.
Qed.
End Send.
