(* ===== verification/OutProps.v ===== *)
(** * The output side keeps its promises

    Every byte handed to the output side reaches the server once and in order;
    flushing empties the queue; no loop runs for ever and no assertion of
    [src/xcb_out.c] and [src/xcb_conn.c] fails. *)
From S2P Require Import Prelude Effects Seq XcbMap State In InFrame InFacts Conn Out OutFacts.
From S2P Require Import Sample.
#[local] Open Scope Z_scope.

(** ** Which faults the socket loops can end in *)

Section Faults.
Context `{Host} `{XProto}.

(** Reading can only fail by leaving a buffer: the one fault of [read_packet] a
    malicious server can cause (see InSafety.v). *)
Lemma in_read_faults w f : _xcb_in_read w = Fault f → f = FOutOfBounds.
Proof.
  intros E. destruct (decide (f = FOutOfBounds)) as [|Hf]; [done|].
  destruct (decide (f = FFuel)) as [->|Hfuel]; [by apply never_in_read in E|].
  assert (∀ A, never (W:=world) f (fail (A:=A) FOutOfBounds)) as Ho by (intros; by apply never_fail).
  assert (∀ A, never (W:=world) f (fail (A:=A) FFuel)) as Hu by (intros; by apply never_fail).
  pose proof (never_malloc f) as Hm.
  assert (∀ n, never f (recv n)) as Hr by (intros; unfold recv, modify_os; never_auto).
  assert (never f poll) as Hp by (unfold poll, modify_os; never_auto).
  assert (∀ n l b, never f (read_block_loop n l b)) as Hl.
  { intros n. induction n; intros l b; simpl; never_auto. }
  assert (∀ a b, never f (_xcb_in_read_block a b)) as Hb.
  { unfold _xcb_in_read_block, read_block, modify_in, _xcb_conn_shutdown. never_auto. }
  assert (never f read_packet) as Hk.
  { unfold read_packet, update_sequence, replies_put, receive_packet, dispatch_packet,
      deliver_reply, deliver_event, pthread_cond_signal, _xcb_conn_shutdown, modify_in, modify_os.
    never_auto. }
  assert (∀ n, never f (read_packets n)) as Hks by (intros n; induction n; simpl; never_auto).
  assert (never f _xcb_in_read) as Hn.
  { unfold _xcb_in_read, modify_in, _xcb_conn_shutdown. never_auto. }
  by apply Hn in E.
Qed.

Lemma write_vec_faults v w f :
  out_queue (w_out w) = [] → small_iov v → write_vec v w ≠ Fault f.
Proof. intros Hq Hs. eapply wp_no_fault, wp_write_vec; done. Qed.

Lemma never_poll f : never f poll.
Proof. unfold poll, modify_os. never_auto. Qed.

Lemma conn_io_faults revents vector w f :
  match vector with
  | Some v => out_queue (w_out w) = [] ∧ small_iov v
  | None => Z.land revents POLLOUT ≠ POLLOUT
  end →
  conn_io revents vector w = Fault f → f = FOutOfBounds.
Proof.
  intros Hv. unfold conn_io. unfold bind at 1.
  destruct (Z.land revents POLLIN =? POLLIN).
  - destruct (_xcb_in_read w) as [[] w1| |f'] eqn:Er; [|done..|].
    2: { intros [= ->]. by eapply in_read_faults. }
    cbn [negb]. destruct (Z.eqb_spec (Z.land revents POLLOUT) POLLOUT); [|done].
    destruct vector as [v|]; [|done]. destruct Hv as [Hq Hs].
    apply conn_side_in_read in Er as [Hc _].
    unfold bind. destruct (write_vec v w1) eqn:Ew; [done..|].
    exfalso. eapply write_vec_faults; [|exact Hs|exact Ew]. by rewrite (conn_out _ _ Hc).
  - cbn. destruct (Z.eqb_spec (Z.land revents POLLOUT) POLLOUT); [|done].
    destruct vector as [v|]; [|done]. destruct Hv as [Hq Hs].
    unfold bind. destruct (write_vec v w) eqn:Ew; [done..|].
    exfalso. by eapply write_vec_faults.
Qed.

(** A reader is never told that it can write. *)
Lemma poll_answer_events events l r ps :
  poll_answer events l = Some (Some r, ps) → Z.land r (Z.lnot events) = 0.
Proof.
  unfold poll_answer. destruct (skip_intr l) as [|[] ?]; try done.
  destruct (Z.eqb_spec (Z.land revents (Z.lnot events)) 0) as [E|]; [|done].
  by intros [= <- <-].
Qed.

Lemma no_pollout r : Z.land r (Z.lnot POLLIN) = 0 → Z.land r POLLOUT ≠ POLLOUT.
Proof.
  intros E1 E2. assert (Z.testbit (Z.land r (Z.lnot POLLIN)) 2 = true); [|by rewrite E1 in *].
  assert (Z.testbit (Z.land r POLLOUT) 2 = true) as E3 by by rewrite E2.
  rewrite Z.land_spec in E3 |- *. apply andb_true_iff in E3 as [-> _]. done.
Qed.

Lemma conn_wait_faults c vector w f :
  holds_iolock w →
  (is_Some vector → out_queue (w_out w) = []) → small_iov (default [] vector) →
  _xcb_conn_wait c vector w = Fault f → f = FOutOfBounds.
Proof.
  intros (h & Hh & Hn) Hq Hs E. destruct (wait_busy vector w) eqn:Hb.
  { by rewrite (conn_wait_busy c _ _ h) in E. }
  pose proof (conn_wait_eq c vector w h Hh Hn Hb) as Eq.
  destruct (poll_answer _ _) as [[[r|] ps]|] eqn:Ea; [| |destruct Eq as [? Eq]];
    rewrite Eq in E; [|done..].
  destruct (conn_io _ _ _) as [| |f'] eqn:Eio; [done..|]. injection E as ->.
  eapply conn_io_faults; [|exact Eio]. destruct vector as [v|].
  - by split; [apply Hq|].
  - by apply no_pollout, (poll_answer_events POLLIN _ _ _ Ea).
Qed.

Lemma send_loop_faults fuel v w f :
  holds_iolock w → out_queue (w_out w) = [] → small_iov v →
  (length (os_polls (w_os w)) < fuel)%nat →
  send_loop fuel v w = Fault f → f = FOutOfBounds.
Proof.
  revert v w. induction fuel as [|fuel IH]; intros v w Hl Hq Hs Hf; [lia|].
  cbn [send_loop]. destruct v as [|b v]; [done|]. unfold bind.
  destruct (_xcb_conn_wait _ _ w) as [[o v'] w1| |f'] eqn:E1; [|done|].
  2: { intros [= ->]. by eapply conn_wait_faults in E1. }
  pose proof Hl as (h & Hh & Hn).
  apply (conn_wait_inv _ _ _ _ _ h) in E1 as (Hc & Hp & Hv & _); [|done..].
  cbn in Hv |- *. destruct o; [|done]. destruct v' as [v'|]; [|done]. destruct Hv as [_ Hs'].
  apply IH; [|by rewrite (conn_out _ _ Hc)|done|lia].
  by eapply holds_iolock_side; [apply conn_send_side|].
Qed.

Lemma out_send_faults v w f :
  holds_iolock w → out_queue (w_out w) = [] → small_iov v →
  _xcb_out_send v w = Fault f → f = FOutOfBounds.
Proof.
  intros Hl Hq Hs. unfold _xcb_out_send. rewrite bind_gets. unfold bind at 1.
  destruct (send_loop _ v w) as [r w1| |f'] eqn:E; [|done|].
  - unfold modify_out, pthread_cond_broadcast, pthread_cond_signal, modify_os.
    rewrite !bind_modify. unfold _xcb_in_wake_up_next_reader. rewrite bind_assoc, bind_gets.
    unfold compose. by destruct (readers _).
  - intros [= ->]. eapply send_loop_faults; [..|exact E]; try done. lia.
Qed.
End Faults.

(** ** A server that takes what it is sent *)

Section Progress.
Context `{Host} `{XProto}.

(** [writev] may answer [EAGAIN] or take any positive number of bytes. *)
Definition willing (l : list writev_event) : Prop :=
  Forall (λ e, match e with WritevData n => 0 < n | WritevAgain => True | WritevError => False end) l.

(** What sending does not touch when nothing is read in between. *)
Definition quiet (w w' : world) : Prop :=
  w_in w' = w_in w ∧ os_recvs (w_os w') = os_recvs (w_os w) ∧
  os_mallocs (w_os w') = os_mallocs (w_os w) ∧ has_error w' = has_error w.

Lemma quiet_trans w1 w2 w3 : quiet w1 w2 → quiet w2 w3 → quiet w1 w3.
Proof. intros (? & ? & ? & ?) (? & ? & ? & ?). unfold quiet. split_and!; congruence. Qed.

(** A wait that reads nothing. *)
Lemma quiet_wait v ps w w1 :
  quiet (enter_wait v ps false w) w1 → quiet w (leave_wait v w1).
Proof.
  intros (Hi & Hr & Hm & He). unfold quiet, leave_wait. cbn in *. rewrite Hi. split_and!; try done.
  destruct (w_in w). unfold set_in_reading. cbn. f_equal. lia.
Qed.

Lemma write_vec_step v w :
  out_queue (w_out w) = [] → small_iov v → concat v ≠ [] → willing (os_writevs (w_os w)) →
  ∃ v' w', write_vec v w = Ret (true, v') w' ∧ (v' = [] ∨ concat v' ≠ []) ∧ small_iov v' ∧
    w_out w' = w_out w ∧ held w' = held w ∧ os_polls (w_os w') = os_polls (w_os w) ∧
    os_writevs (w_os w') = drop 1 (os_writevs (w_os w)) ∧ (os_writevs (w_os w) = [] → v' = []) ∧
    quiet w w'.
Proof.
  intros Hq Hs Hne Hw. unfold write_vec. rewrite bind_gets. unfold compose.
  rewrite Hq, bool_decide_eq_true_2 by done. cbn [assertM]. rewrite bind_ret.
  assert (0 < zlength (concat v)) as Hpos.
  { destruct (concat v); [done|]. rewrite zlength_cons. pose proof (zlength_nonneg l). lia. }
  unfold writev. cbv zeta. rewrite bind_assoc, bind_gets. unfold compose.
  destruct (os_writevs (w_os w)) as [|[n| |] t] eqn:Ew.
  - unfold modify_os. rewrite bind_assoc, bind_modify, bind_ret.
    destruct (Z.leb_spec (zlength (concat v)) 0); [lia|]. cbv beta.
    edestruct (advance_iov_ok v (zlength (concat v))) as (v' & E & Hc & Hs' & Hor); [done|lia|].
    rewrite (bind_run _ _ _ _ _ E). cbn. exists v'. eexists. split; [done|].
    rewrite drop_ge in Hc by (unfold zlength; lia).
    destruct Hor as [->|]; [|by rewrite Hc in *]. split_and!; auto. done.
  - apply Forall_cons in Hw as [Hn Hw]. unfold modify_os.
    rewrite bind_assoc, bind_modify, bind_ret.
    destruct (Z.leb_spec (Z.max 0 (Z.min n (zlength (concat v)))) 0); [lia|]. cbv beta.
    edestruct (advance_iov_ok v (Z.max 0 (Z.min n (zlength (concat v)))))
      as (v' & E & Hc & Hs' & Hor); [done|lia|].
    rewrite (bind_run _ _ _ _ _ E). cbn. exists v'. eexists. by split_and!.
  - exists v. eexists. split; [done|]. by split_and!; auto.
  - by apply Forall_cons in Hw as [[] _].
Qed.

Lemma conn_wait_write c v w ps :
  holds_iolock w → out_writing (w_out w) = 0 → os_polls (w_os w) = PollReady POLLOUT :: ps →
  _xcb_conn_wait c (Some v) w =
    match write_vec v (enter_wait (Some v) ps false w) with
    | Ret r w' => Ret (r.1, Some r.2) (leave_wait (Some v) w')
    | Blocked w' => Blocked w'
    | Fault f => Fault f
    end.
Proof.
  intros (h & Hh & Hn) Hw Hp.
  assert (wait_busy (Some v) w = false) as Hb by (unfold wait_busy; by rewrite Hw).
  pose proof (conn_wait_eq c (Some v) w h Hh Hn Hb) as E. rewrite Hp in E.
  change (poll_answer _ _) with (Some (Some POLLOUT, ps)) in E. cbv beta iota in E.
  rewrite E. unfold conn_io.
  change (Z.land POLLOUT POLLIN =? POLLIN) with false.
  change (Z.land POLLOUT POLLOUT =? POLLOUT) with true. cbv iota.
  unfold bind. cbn [ret negb]. by destruct (write_vec _ _).
Qed.

Lemma send_loop_completes k fuel v w ps :
  holds_iolock w → out_queue (w_out w) = [] → out_writing (w_out w) = 0 → small_iov v →
  v = [] ∨ concat v ≠ [] → willing (os_writevs (w_os w)) →
  os_polls (w_os w) = replicate k (PollReady POLLOUT) ++ ps →
  (length (os_writevs (w_os w)) < k < fuel)%nat →
  ∃ w', send_loop fuel v w = Ret true w' ∧ quiet w w'.
Proof.
  revert fuel v w. induction k as [|k IH]; intros fuel v w Hl Hq Hz Hs Hne Hw Hp Hk; [lia|].
  destruct fuel as [|fuel]; [lia|]. cbn [send_loop].
  destruct v as [|b v]; [by eexists|]. destruct Hne as [|Hne]; [done|].
  cbn [replicate app] in Hp.
  edestruct (write_vec_step (b :: v)) as (v' & w1 & E1 & Hor & Hs' & Ho' & Hh' & Hp' & Hw' & Hlast & Hqt);
    [| |exact Hne| |unfold bind; rewrite (conn_wait_write OutCond (b :: v) w _ Hl Hz Hp), E1];
    [done..|].
  cbn [fst snd default]. destruct (decide (os_writevs (w_os w) = [])) as [Hnil|Hnn].
  - destruct fuel; [lia|]. rewrite Hlast by done. eexists. split; [done|].
    by eapply quiet_wait.
  - edestruct (IH fuel v' (leave_wait (Some (b :: v)) w1)) as (w2 & E2 & Hq2);
      [..|exists w2; split; [exact E2|];
          eapply quiet_trans; [by eapply quiet_wait|exact Hq2]];
      cbn; rewrite ?Hw', ?Hp', ?Ho'; cbn; try done.
    + destruct Hl as (h & Hh & Hn). exists h. cbn. by rewrite Hh'.
    + cbn in Ho' |- *. rewrite ?Ho'. cbn. lia.
    + destruct (os_writevs (w_os w)); [done|]. by apply Forall_cons in Hw as [_ Hw].
    + destruct (os_writevs (w_os w)); [done|]. rewrite length_drop. cbn in *. lia.
Qed.

Lemma out_send_completes k v w ps :
  holds_iolock w → out_queue (w_out w) = [] → out_writing (w_out w) = 0 → small_iov v →
  v = [] ∨ concat v ≠ [] → willing (os_writevs (w_os w)) →
  os_polls (w_os w) = replicate k (PollReady POLLOUT) ++ ps →
  (length (os_writevs (w_os w)) < k)%nat →
  ∃ w', _xcb_out_send v w = Ret true w' ∧ quiet w w'.
Proof.
  intros Hl Hq Hz Hs Hne Hw Hp Hk. unfold _xcb_out_send. rewrite bind_gets.
  assert (k <= length (os_polls (w_os w)))%nat as Hlen.
  { rewrite Hp, length_app, length_replicate. lia. }
  edestruct (send_loop_completes k (S (length (os_polls (w_os w)))) v w ps) as (w1 & E & Hqt);
    [done..|lia|].
  rewrite (bind_run _ _ _ _ _ E).
  unfold modify_out, pthread_cond_broadcast, pthread_cond_signal, modify_os.
  rewrite !bind_modify. unfold _xcb_in_wake_up_next_reader. rewrite bind_assoc, bind_gets.
  unfold compose. destruct Hqt as (? & ? & ? & ?).
  destruct (readers _); eexists; split; [done| |done|]; by split_and!.
Qed.

(** A server that takes everything at once. *)
Lemma out_send_once v w ps :
  holds_iolock w → out_queue (w_out w) = [] → out_writing (w_out w) = 0 → small_iov v →
  concat v ≠ [] → os_writevs (w_os w) = [] → os_polls (w_os w) = PollReady POLLOUT :: ps →
  ∃ w', _xcb_out_send v w = Ret true w' ∧ quiet w w' ∧ os_polls (w_os w') = ps ∧
    os_writevs (w_os w') = [].
Proof.
  intros Hl Hq Hz Hs Hne Hw Hp. unfold _xcb_out_send. rewrite bind_gets, Hp.
  assert (∃ w1, send_loop (S (length (PollReady POLLOUT :: ps))) v w = Ret true w1 ∧
    quiet w w1 ∧ os_polls (w_os w1) = ps ∧ os_writevs (w_os w1) = [])
    as (w1 & E & (? & ? & ? & ?) & Hps & Hws).
  { destruct v as [|b v]; [done|]. cbn [send_loop length].
    edestruct (write_vec_step (b :: v)) as
      (v' & w1 & E1 & _ & _ & _ & _ & Hp' & Hw' & Hlast & Hqt);
      [| |exact Hne| |unfold bind; rewrite (conn_wait_write OutCond (b :: v) w _ Hl Hz Hp), E1];
      [done|done|cbn; rewrite Hw; by constructor|].
    cbn [fst snd default]. rewrite Hlast by done. eexists. split; [done|].
    split; [by eapply quiet_wait|]. cbn in Hw' |- *. by rewrite Hw', Hw. }
  rewrite (bind_run _ _ _ _ _ E).
  unfold modify_out, pthread_cond_broadcast, pthread_cond_signal, modify_os.
  rewrite !bind_modify. unfold _xcb_in_wake_up_next_reader. rewrite bind_assoc, bind_gets.
  unfold compose. destruct (readers _); eexists; (split; [done|]); by split_and!.
Qed.
End Progress.

(** ** The state of the output side between two calls *)

(** [out_ok]: the queue fits its array, and it is empty exactly when every request
    has been handed over. *)
Record out_ok (o : xcb_out) : Prop := {
  ok_queue : zlength (out_queue o) <= XCB_QUEUE_BUFFER_SIZE;
  ok_written : 0 <= out_request_written o < 2 ^ 64;
  ok_request : 0 <= out_request o < 2 ^ 64;
  ok_empty : out_queue o = [] → out_request_written o = out_request o;
  ok_pending : out_queue o ≠ [] → 0 < u64 (out_request o - out_request_written o) < 2 ^ 63
}.

(** Everything handed to the output side so far. *)
Definition wire (w : world) : list byte := os_sent (w_os w) ++ out_queue (w_out w).

Section Props.
Context `{Host} `{XProto}.

Lemma out_ok_flushed o : out_ok o → out_ok (set_out_request_written (out_request o) (set_out_queue [] o)).
Proof. intros []. split; cbn; try done. Qed.

Lemma flush_all_inv w r w' :
  holds_iolock w → out_ok (w_out w) →
  _xcb_out_flush_to (out_request (w_out w)) w = Ret r w' →
  send_side w w' ∧
  w_out w' = set_out_request_written (out_request (w_out w)) (set_out_queue [] (w_out w)) ∧
  delivered (out_queue (w_out w)) w r w'.
Proof.
  intros Hl Hk E. apply flush_to_inv in E as (Hs & Hf & Hc); [|done|..].
  - split; [done|]. destruct Hc as [(Ho & -> & ->)|Hc]; [|done].
    assert (out_queue (w_out w) = []) as Hq.
    { destruct (decide (out_queue (w_out w) = [])) as [|Hn]; [done|].
      pose proof (ok_pending _ Hk Hn). unfold flushed, XCB_SEQUENCE_COMPARE in Hf.
      rewrite Z.geb_leb, Z.leb_le in Hf. words. }
    pose proof (ok_empty _ Hk Hq) as Hw. split.
    + rewrite <- Hw, <- Hq. by destruct (w_out w).
    + rewrite Hq. by exists [].
  - pose proof (ok_queue _ Hk). unfold XCB_QUEUE_BUFFER_SIZE in *. lia.
  - rewrite Z.sub_diag. by vm_compute.
Qed.

(** [_xcb_out_flush_to] of everything, as a function. *)
Lemma flush_all_eq w :
  out_ok (w_out w) →
  _xcb_out_flush_to (out_request (w_out w)) w =
    if decide (out_queue (w_out w) = []) then Ret true w
    else _xcb_out_send [out_queue (w_out w)] (set_w_out (set_out_queue [] (w_out w)) w).
Proof.
  intros Hk. unfold _xcb_out_flush_to. rewrite bind_gets. unfold XCB_SEQUENCE_COMPARE at 1.
  rewrite Z.sub_diag. change (s64 (u64 0) <=? 0) with true. cbn [assertM]. rewrite bind_ret.
  destruct (decide (out_queue (w_out w) = [])) as [Hn|Hn].
  - rewrite (ok_empty _ Hk Hn). unfold XCB_SEQUENCE_COMPARE. by rewrite Z.sub_diag.
  - rewrite bool_decide_eq_false_2 by done.
    assert (XCB_SEQUENCE_COMPARE (out_request_written (w_out w)) Z.geb (out_request (w_out w)) = false)
      as ->; [|done].
    pose proof (ok_pending _ Hk Hn). unfold XCB_SEQUENCE_COMPARE. rewrite Z.geb_leb. words.
Qed.

(** The answers of [poll] that flushing takes from a kernel that is ready. *)
Definition flush_polls (o : xcb_out) : list poll_event :=
  if decide (out_queue o = []) then [] else [PollReady POLLOUT].

(** Flushing everything to a kernel that takes it at once. *)
Lemma flush_now w ps :
  holds_iolock w → out_ok (w_out w) → out_writing (w_out w) = 0 →
  os_writevs (w_os w) = [] → os_polls (w_os w) = flush_polls (w_out w) ++ ps →
  ∃ w', _xcb_out_flush_to (out_request (w_out w)) w = Ret true w' ∧ quiet w w' ∧ send_side w w' ∧
    os_polls (w_os w') = ps ∧ os_writevs (w_os w') = [] ∧
    w_out w' = set_out_request_written (out_request (w_out w)) (set_out_queue [] (w_out w)) ∧
    os_sent (w_os w') = wire w.
Proof.
  intros Hl Hk Hz Hw Hp. unfold flush_polls in Hp.
  assert (∃ w', _xcb_out_flush_to (out_request (w_out w)) w = Ret true w' ∧ quiet w w' ∧
    os_polls (w_os w') = ps ∧ os_writevs (w_os w') = []) as (w' & E & Hqt & Hps & Hws).
  { rewrite flush_all_eq by done. destruct (decide _) as [|Hn]; [by exists w|].
    destruct (out_send_once [out_queue (w_out w)] (set_w_out (set_out_queue [] (w_out w)) w) ps)
      as (w' & E & Hqt & Hps & Hws); try done.
    - apply Forall_singleton. pose proof (ok_queue _ Hk). unfold XCB_QUEUE_BUFFER_SIZE in *. lia.
    - cbn. by rewrite app_nil_r.
    - by exists w'. }
  exists w'. apply flush_all_inv in E as Hf; [|done..]. destruct Hf as (Hs & Ho & rest & Hd & Hr & _).
  rewrite Hr, app_nil_r in Hd by done. by split_and!.
Qed.

(** [xcb_flush] under the lock. *)
Lemma xcb_flush_run w :
  has_error w = false → IoLock ∉ held w →
  xcb_flush w =
    match _xcb_out_flush_to (out_request (w_out w)) (set_held (IoLock :: held w) w) with
    | Ret r w' => (pthread_mutex_unlock IoLock;; ret r) w'
    | Blocked w' => Blocked w'
    | Fault f => Fault f
    end.
Proof.
  intros He Hl. unfold xcb_flush. rewrite bind_gets, He, (bind_lock IoLock (held w)) by done.
  by rewrite bind_gets.
Qed.

(** [xcb_flush] sends exactly the queue, behind everything sent before: when it
    returns, the queue is empty, every request counts as written, and either the
    server's stream holds every byte ever handed to the output side, in order,
    or it holds a prefix of them, the result is 0 and the connection is in
    error.  The lock is released and the invariant holds again. *)
Theorem xcb_flush_wire w r w' :
  has_error w = false → IoLock ∉ held w → out_ok (w_out w) →
  xcb_flush w = Ret r w' →
  (∃ rest, os_sent (w_os w') ++ rest = wire w ∧ (r = true → rest = []) ∧
     (r = false → has_error w' = true)) ∧
  out_queue (w_out w') = [] ∧ out_request (w_out w') = out_request (w_out w) ∧
  out_request_written (w_out w') = out_request (w_out w) ∧
  out_ok (w_out w') ∧ held w' = held w.
Proof.
  intros He Hl Hk E. rewrite xcb_flush_run in E by done.
  destruct (_xcb_out_flush_to _ _) as [r1 w1| |] eqn:E1; [|done..].
  apply (flush_all_inv (set_held (IoLock :: held w) w)) in E1 as (Hs & Ho & rest & Hd & Hr & He');
    [|by exists (held w)|done].
  cbn in Ho, Hd. rewrite (bind_unlock IoLock (held w)) in E by by rewrite (conn_held _ _ Hs).
  injection E as -> <-. cbn. rewrite Ho. split_and!; try done.
  - by exists rest.
  - by apply out_ok_flushed.
Qed.

(** [xcb_flush] terminates without a failed assertion, a null dereference, a
    double lock or an unlock of a free mutex, whatever the server sends and the
    system calls answer; the only fault it can end in is the overrun of
    [read_packet] on a malformed generic event. *)
Lemma xcb_flush_safe w :
  IoLock ∉ held w → out_ok (w_out w) →
  match xcb_flush w with Fault f => f = FOutOfBounds | _ => True end.
Proof.
  intros Hl Hk. destruct (xcb_flush w) as [| |f] eqn:E; [done..|]. revert E. destruct (has_error w) eqn:He.
  { unfold xcb_flush. by rewrite bind_gets, He. }
  rewrite xcb_flush_run by done. set (w1 := set_held (IoLock :: held w) w).
  assert (holds_iolock w1) as Hl1 by by exists (held w).
  destruct (_xcb_out_flush_to _ w1) as [r w2| |f'] eqn:E1; [|done|].
  { apply (flush_all_inv w1) in E1 as [Hs _]; [|done..].
    by rewrite (bind_unlock IoLock (held w)) by by rewrite (conn_held _ _ Hs). }
  intros [= ->]. revert E1. change (out_request (w_out w)) with (out_request (w_out w1)).
  rewrite flush_all_eq by done. destruct (decide _) as [Hn|Hn]; [done|].
  apply out_send_faults; [by exists (held w)|done|].
  apply Forall_singleton. pose proof (ok_queue _ Hk). unfold XCB_QUEUE_BUFFER_SIZE in *.
  cbn. lia.
Qed.

(** Against a server that takes what it is sent and meanwhile sends nothing,
    [xcb_flush] returns success: however few bytes each [writev] accepts, and
    though it may answer [EAGAIN], the loop ends with the queue on the wire. *)
Theorem xcb_flush_completes w k ps :
  has_error w = false → IoLock ∉ held w → out_ok (w_out w) → out_writing (w_out w) = 0 →
  willing (os_writevs (w_os w)) → os_polls (w_os w) = replicate k (PollReady POLLOUT) ++ ps →
  (length (os_writevs (w_os w)) < k)%nat →
  ∃ w', xcb_flush w = Ret true w' ∧ os_sent (w_os w') = wire w ∧ out_queue (w_out w') = [].
Proof.
  intros He Hl Hk Hz Hw Hp Hlen. rewrite xcb_flush_run by done.
  set (w1 := set_held (IoLock :: held w) w).
  assert (holds_iolock w1) as Hl1 by by exists (held w).
  assert (∃ w2, _xcb_out_flush_to (out_request (w_out w)) w1 = Ret true w2) as (w2 & E2).
  { change (out_request (w_out w)) with (out_request (w_out w1)).
    rewrite flush_all_eq by done. destruct (decide _) as [Hn|Hn]; [by exists w1|].
    edestruct (out_send_completes k) as (w2 & E2 & _); [..|by exists w2]; try done; cbn;
      rewrite ?app_nil_r; [|by right].
    apply Forall_singleton. pose proof (ok_queue _ Hk). unfold XCB_QUEUE_BUFFER_SIZE in *. lia. }
  rewrite E2. apply (flush_all_inv w1) in E2 as (Hs & Ho & rest & Hd & Hr & _); [|done..].
  rewrite (bind_unlock IoLock (held w)) by by rewrite (conn_held _ _ Hs).
  eexists. split; [done|]. cbn in Hd, Ho |- *. rewrite Ho.
  by rewrite Hr, app_nil_r in Hd.
Qed.

(** [write_block] in terms of the wire. *)
Lemma write_block_on_wire slots v w r w' :
  holds_iolock w → small_iov v → zlength (out_queue (w_out w)) <= XCB_QUEUE_BUFFER_SIZE →
  write_block slots v w = Ret r w' →
  send_side w w' ∧ zlength (out_queue (w_out w')) <= XCB_QUEUE_BUFFER_SIZE ∧
  out_request (w_out w') = out_request (w_out w) ∧
  ∃ rest, wire w' ++ rest = wire w ++ concat v ∧ (r = true → rest = []) ∧
    (r = false → has_error w' = true).
Proof.
  intros Hl Hs Hq E. apply write_block_inv in E as (Hc & Hb & Ho); [|done..].
  split; [done|]. split; [done|]. unfold wire.
  destruct Ho as [(q & -> & -> & -> & ->)|(-> & rest & Hd & Hr)]; cbn.
  - split; [done|]. exists []. by rewrite app_nil_r, app_assoc.
  - split; [done|]. exists rest. by rewrite app_nil_r, Hd, app_assoc.
Qed.

(** Registering a pending reply adds it at the tail, unless allocation fails. *)
Lemma expect_reply_inv request wk fl w r w' :
  _xcb_in_expect_reply request wk fl w = Ret r w' →
  w_out w' = w_out w ∧ held w' = held w ∧ os_sent (w_os w') = os_sent (w_os w) ∧
  if r then last (pending_replies (w_in w')) = Some (PendingReply request request wk fl)
  else has_error w' = true.
Proof.
  intros E. pose proof (obeys_expect_reply _ _ _ _ _ _ E) as [-> _ _ -> _ _ _ _ _ (_ & _ & -> & _)].
  split_and!; [done..|]. unfold _xcb_in_expect_reply in E.
  apply bind_inv in E as (ok & w1 & _ & E). apply bind_inv in E as ([] & w2 & _ & E).
  destruct ok; injection E as <- <-; [|done]. cbn. by rewrite last_snoc.
Qed.

Lemma expect_owner_inv request fl w w' :
  when (negb (fl =? 0))
    (_xcb_in_expect_reply request WORKAROUND_EXTERNAL_SOCKET_OWNER fl;; ret ()) w = Ret () w' →
  w_out w' = w_out w ∧ held w' = held w ∧ os_sent (w_os w') = os_sent (w_os w) ∧
  (fl ≠ 0 → has_error w' = true ∨ last (pending_replies (w_in w')) =
     Some (PendingReply request request WORKAROUND_EXTERNAL_SOCKET_OWNER fl)).
Proof.
  destruct (Z.eqb_spec fl 0) as [->|Hf]; cbn [negb when].
  { by intros [= <-]. }
  intros (r & w1 & E & [= <-])%bind_inv.
  apply expect_reply_inv in E as (? & ? & ? & Hr). split_and!; try done.
  intros _. destruct r; auto.
Qed.

(** [xcb_take_socket] on a connection without a socket owner: on success all
    earlier requests are on the wire, the new owner is recorded and told the
    number of the last of them, and if it asked for replies they are expected
    under its number (unless memory ran out and the connection is in error); on
    failure there is still no owner. *)
Theorem xcb_take_socket_hands_over w cb closure fl r sent w' :
  has_error w = false → IoLock ∉ held w → out_ok (w_out w) →
  out_return_socket (w_out w) = None →
  xcb_take_socket cb closure fl w = Ret (r, sent) w' →
  held w' = held w ∧ out_queue (w_out w') = [] ∧
  if r then
    os_sent (w_os w') = wire w ∧ sent = Some (out_request (w_out w)) ∧
    out_return_socket (w_out w') = Some cb ∧ out_socket_closure (w_out w') = closure ∧
    (fl ≠ 0 → has_error w' = true ∨ last (pending_replies (w_in w')) =
       Some (PendingReply (out_request (w_out w)) (out_request (w_out w))
               WORKAROUND_EXTERNAL_SOCKET_OWNER fl))
  else sent = None ∧ out_return_socket (w_out w') = None ∧ has_error w' = true.
Proof.
  intros He Hl Hk Hn E. unfold xcb_take_socket, lend_socket in E.
  rewrite bind_gets, He, (bind_lock IoLock (held w)) in E by done.
  set (w1 := set_held (IoLock :: held w) w) in E.
  assert (get_socket_back w1 = Ret () w1) as Eg.
  { unfold get_socket_back. rewrite bind_gets. cbn. by rewrite Hn. }
  rewrite (bind_run _ _ _ _ _ Eg), bind_gets in E. unfold compose in E.
  apply bind_inv in E as (r1 & w2 & E2 & E).
  apply (flush_all_inv w1) in E2 as (Hs & Ho & rest & Hd & Hr & He'); [|by exists (held w)|done].
  assert (held w2 = IoLock :: held w) as Hh2 by by rewrite (conn_held _ _ Hs).
  cbn in Ho, Hd.
  destruct r1.
  - unfold modify_out in E. rewrite bind_assoc, bind_modify, bind_assoc, bind_gets, bind_assoc in E.
    apply bind_inv in E as ([] & w3 & (Ho3 & Hh3 & Hs3 & Hp3)%expect_owner_inv & E).
    rewrite bind_assoc, bind_gets, bind_assoc in E.
    apply bind_inv in E as ([] & w4 & E4 & E).
    destruct (out_request (w_out w3) =? _); [injection E4 as <-|done].
    rewrite bind_ret, (bind_unlock IoLock (held w)) in E by by rewrite Hh3.
    injection E as <- <- <-. cbn in Ho3, Hs3, Hp3 |- *. unfold compose in Hp3. cbn in Hp3.
    rewrite Hr, app_nil_r in Hd by done. rewrite Ho3, Hs3. rewrite Ho in *. cbn in *.
    by split_and!.
  - rewrite bind_ret, (bind_unlock IoLock (held w)) in E by done.
    injection E as <- <- <-. cbn. rewrite Ho. split_and!; try done. by apply He'.
Qed.
End Props.

(** ** The hypotheses can hold *)

Section Witnesses.
#[local] Existing Instances sample_host sample_proto.

(** Three bytes are queued for request 1; the kernel takes them one, then two. *)
Definition flush_world : world :=
  sample_world (sample_in []) (sample_out (byte_of <$> [1; 2; 3]) 1 0)
    (sample_os [] (replicate 3 (PollReady POLLOUT)) [WritevData 1; WritevData 2]).

Lemma flush_world_ok : out_ok (w_out flush_world).
Proof. split; by vm_compute. Qed.

Lemma xcb_flush_wire_witness :
  let w' := final flush_world (xcb_flush flush_world) in
  (∃ rest, os_sent (w_os w') ++ rest = wire flush_world ∧ (true = true → rest = []) ∧
     (true = false → has_error w' = true)) ∧
  out_queue (w_out w') = [] ∧ out_request (w_out w') = out_request (w_out flush_world) ∧
  out_request_written (w_out w') = out_request (w_out flush_world) ∧
  out_ok (w_out w') ∧ held w' = held flush_world.
Proof.
  apply (xcb_flush_wire flush_world true); [reflexivity|set_solver|exact flush_world_ok|].
  vm_compute. reflexivity.
Defined.

Lemma xcb_flush_completes_witness :
  ∃ w', xcb_flush flush_world = Ret true w' ∧ os_sent (w_os w') = wire flush_world ∧
    out_queue (w_out w') = [].
Proof.
  apply (xcb_flush_completes flush_world 3 []); try reflexivity.
  - set_solver.
  - exact flush_world_ok.
  - by repeat constructor.
  - cbn. lia.
Defined.

Lemma xcb_take_socket_hands_over_witness :
  let w' := final flush_world (xcb_take_socket 5 6 XCB_REQUEST_CHECKED flush_world) in
  held w' = held flush_world ∧ out_queue (w_out w') = [] ∧
  if true then
    os_sent (w_os w') = wire flush_world ∧ Some 1 = Some (out_request (w_out flush_world)) ∧
    out_return_socket (w_out w') = Some 5 ∧ out_socket_closure (w_out w') = 6 ∧
    (XCB_REQUEST_CHECKED ≠ 0 → has_error w' = true ∨ last (pending_replies (w_in w')) =
       Some (PendingReply (out_request (w_out flush_world)) (out_request (w_out flush_world))
               WORKAROUND_EXTERNAL_SOCKET_OWNER XCB_REQUEST_CHECKED))
  else Some 1 = None ∧ out_return_socket (w_out w') = None ∧ has_error w' = true.
Proof.
  apply (xcb_take_socket_hands_over flush_world 5 6 XCB_REQUEST_CHECKED true (Some 1));
    [reflexivity|set_solver|exact flush_world_ok|reflexivity|].
  vm_compute. reflexivity.
Defined.
End Witnesses.
