(* ===== verification/ExtProps.v ===== *)
(** * The extension cache answers from memory

    Extensions are numbered on first use, each number has its own cache entry,
    and an entry is asked of the server at most once. *)
From S2P Require Import Prelude Effects State InFrame InFacts OutFacts Ext Sample.
#[local] Open Scope Z_scope.

(** ** Global identifiers *)

(** The numbers given out are those from 1 to [next_global_id], one per extension
    object. *)
Record ids_ok (o : os_state) : Prop := {
  ids_range : ∀ a i, (a, i) ∈ os_global_ids o → 1 <= i <= os_next_global_id o;
  ids_nodup : NoDup (os_global_ids o).*2;
  ids_next : 0 <= os_next_global_id o
}.

Lemma global_id_elem l a : global_id l a ≠ 0 → (a, global_id l a) ∈ l.
Proof.
  induction l as [|[b i] l IH]; [done|]. cbn [global_id].
  destruct (decide (b = a)) as [->|]; [left|right; auto].
Qed.

Lemma global_id_inj l a b :
  NoDup l.*2 → global_id l a ≠ 0 → global_id l a = global_id l b → a = b.
Proof.
  intros Hn Ha E. assert (global_id l b ≠ 0) as Hb by congruence.
  apply global_id_elem in Ha. apply global_id_elem in Hb. rewrite <- E in Hb.
  revert Ha Hb. generalize (global_id l a). clear E. intros i.
  induction l as [|[c j] l IH]; [set_solver|]. cbn in Hn. apply NoDup_cons in Hn as [Hj Hn].
  assert (∀ x, (x, j) ∈ l → False) as Hj' by (intros x Hx; apply Hj, list_elem_of_fmap; by exists (x, j)).
  rewrite !elem_of_cons. intros [Ha|Ha] [Hb|Hb]; simplify_eq; naive_solver.
Qed.

Section Ids.
Context `{XProto}.

Definition with_ids (ids : list (nat * Z)) (n : Z) (w : world) : world :=
  set_w_os (set_os_global_ids ids (set_os_next_global_id n (w_os w))) w.

Lemma with_ids_same w : with_ids (os_global_ids (w_os w)) (os_next_global_id (w_os w)) w = w.
Proof. by destruct w as [? ? ? ? ? ? ? ? []]. Qed.

(** A number is given out once; after that the critical section changes
    nothing. *)
Lemma ensure_global_id_ok ext w :
  GlobalLock ∉ held w → ids_ok (w_os w) →
  ∃ ids n, let w' := with_ids ids n w in
    ensure_global_id ext w = Ret (global_id ids (ext_addr ext)) w' ∧ ids_ok (w_os w') ∧
    1 <= global_id ids (ext_addr ext) <= n ∧ n <= os_next_global_id (w_os w) + 1 ∧
    (∀ a, a ≠ ext_addr ext ∨ global_id (os_global_ids (w_os w)) a ≠ 0 →
       global_id ids a = global_id (os_global_ids (w_os w)) a) ∧
    (global_id (os_global_ids (w_os w)) (ext_addr ext) = 0 →
       global_id ids (ext_addr ext) = os_next_global_id (w_os w) + 1) ∧
    (global_id (os_global_ids (w_os w)) (ext_addr ext) ≠ 0 → w' = w).
Proof.
  intros Hl Hk. unfold ensure_global_id.
  rewrite (bind_lock GlobalLock (held w)), bind_gets by done. cbn [w_os set_held].
  destruct (Z.eqb_spec (global_id (os_global_ids (w_os w)) (ext_addr ext)) 0) as [E0|Hne].
  - set (n := os_next_global_id (w_os w) + 1).
    exists ((ext_addr ext, n) :: os_global_ids (w_os w)), n. cbv zeta.
    unfold modify_os. rewrite bind_modify, (bind_unlock GlobalLock (held w)), bind_gets by done.
    assert (global_id ((ext_addr ext, n) :: os_global_ids (w_os w)) (ext_addr ext) = n) as Eid
      by (cbn; by rewrite decide_True).
    destruct Hk as [Hr Hn Hx]. split_and!.
    + cbn. by rewrite decide_True.
    + split; cbn; [|apply NoDup_cons; split; [|done]|lia].
      * intros a i [[= -> ->]|Hin]%elem_of_cons; [lia|]. apply Hr in Hin. lia.
      * intros ([a i] & Ei & Hin)%list_elem_of_fmap. cbn in Ei. apply Hr in Hin. lia.
    + rewrite Eid. lia.
    + rewrite Eid. lia.
    + lia.
    + intros a Ha. cbn. destruct (decide (ext_addr ext = a)); [|done]. destruct Ha; congruence.
    + intros _. exact Eid.
    + done.
  - exists (os_global_ids (w_os w)), (os_next_global_id (w_os w)). cbv zeta.
    rewrite bind_ret, (bind_unlock GlobalLock (held w)), bind_gets by done. rewrite with_ids_same.
    split_and!; try done.
    + cbn. by destruct w.
    + apply (ids_range _ Hk (ext_addr ext)). by apply global_id_elem.
    + apply (ids_range _ Hk (ext_addr ext)). by apply global_id_elem.
    + lia.
Qed.

(** ** The cache *)

(** The entry is in the array, which has only grown. *)
Lemma get_index_ok idx w :
  1 <= idx < 2 ^ 30 → no_oom w →
  ∃ l, get_index idx w = Ret (Some (Z.to_nat (idx - 1))) (set_w_ext l w) ∧
    w_ext w `prefix_of` l ∧ idx <= zlength l ∧
    ∀ k v, l !! k = Some v → (length (w_ext w) <= k)%nat → v = LazyNone.
Proof.
  intros Hi Ho. unfold get_index. rewrite bind_gets. rewrite Z.gtb_ltb.
  destruct (Z.ltb_spec (zlength (w_ext w)) idx) as [Hlt|Hge].
  - cbv zeta. rewrite Z.shiftl_mul_pow2 by lia. change (2 ^ 1) with 2.
    rewrite (bind_run _ _ _ _ _ (malloc_small (16 * (idx * 2)) w Ho ltac:(lia))). cbn [negb].
    exists (w_ext w ++ replicate (Z.to_nat (idx * 2 - zlength (w_ext w))) LazyNone).
    split; [done|]. split; [by apply prefix_app_r|]. split.
    + unfold zlength in *. rewrite length_app, length_replicate. lia.
    + intros k v Hk Hl. rewrite lookup_app_r in Hk by done.
      by apply lookup_replicate in Hk as [-> _].
  - exists (w_ext w). split; [by destruct w|]. split_and!; try done.
    intros k v Hk Hl. apply lookup_lt_Some in Hk. lia.
Qed.

(** The cache entry of the extension object at an address. *)
Definition gid (w : world) (addr : nat) : Z := global_id (os_global_ids (w_os w)) addr.
Definition entry (w : world) (addr : nat) : option lazyreply :=
  w_ext w !! Z.to_nat (gid w addr - 1).

(** The extension at [addr] has been asked for. *)
Definition known (w : world) (addr : nat) : Prop :=
  gid w addr ≠ 0 ∧ entry w addr ≠ None ∧ entry w addr ≠ Some LazyNone.

#[export] Instance lazyreply_eq_dec : EqDecision lazyreply.
Proof.
  assert (EqDecision query_extension_reply) by solve_decision. solve_decision.
Defined.

#[export] Instance known_dec w addr : Decision (known w addr).
Proof. unfold known. apply _. Defined.

(** What the generated stubs of [QueryExtension] must not touch: the cache, the
    numbering and the mutexes the caller holds; nor do they repair a connection or
    take memory away. *)
Record cache_frame (w w' : world) : Prop := {
  frame_ext : w_ext w' = w_ext w;
  frame_ids : os_global_ids (w_os w') = os_global_ids (w_os w);
  frame_next : os_next_global_id (w_os w') = os_next_global_id (w_os w);
  frame_held : held w' = held w;
  frame_error : has_error w = true → has_error w' = true;
  frame_oom : no_oom w → no_oom w'
}.

(** [queries w] are the names of the [QueryExtension] requests made so far, oldest
    first.  They are in what the connection has queued and sent; a call of
    [xcb_query_extension] makes one more, waiting for its reply none. *)
Record query_stubs (queries : world → list string) : Prop := {
  stubs_query : ∀ name w r w', xcb_query_extension name w = Ret r w' →
    cache_frame w w' ∧ queries w' = queries w ++ [name];
  stubs_reply : ∀ cookie w r w', xcb_query_extension_reply cookie w = Ret r w' →
    cache_frame w w' ∧ queries w' = queries w;
  stubs_view : ∀ w w', w_in w' = w_in w → w_out w' = w_out w →
    os_sent (w_os w') = os_sent (w_os w) → queries w' = queries w
}.

(** Numbers are well formed, and nothing is cached under numbers not given out. *)
Record cache_ok (w : world) : Prop := {
  cache_ids : ids_ok (w_os w);
  cache_fresh : ∀ k v, w_ext w !! k = Some v → os_next_global_id (w_os w) <= Z.of_nat k → v = LazyNone
}.

(** A step on behalf of the extension at [addr]: its number is fixed, the
    numbering stays well formed, and no other extension's entry changes. *)
Record cache_step (addr : nat) (w w' : world) : Prop := {
  step_ids : cache_ok w';
  step_old : ∀ a, gid w a ≠ 0 → gid w' a = gid w a;
  step_held : held w' = held w;
  step_others : ∀ a v, a ≠ addr → gid w a ≠ 0 → entry w a = Some v → entry w' a = Some v;
  step_unknown : ∀ a, a ≠ addr → known w' a → known w a;
  step_error : has_error w = true → has_error w' = true;
  step_oom : no_oom w → no_oom w'
}.

Lemma cache_step_trans addr w1 w2 w3 :
  cache_step addr w1 w2 → cache_step addr w2 w3 → cache_step addr w1 w3.
Proof.
  intros [] []. split; [done| |congruence| |by eauto|by auto..].
  - intros a Ha. rewrite step_old1; [auto|]. by rewrite step_old0.
  - intros a v Hn Ha He. apply step_others1; [done|by rewrite step_old0|]. by apply step_others0.
Qed.

Lemma cache_step_refl addr w : cache_ok w → cache_step addr w w.
Proof. by split. Qed.

Lemma cache_step_frame addr w w' : cache_ok w → cache_frame w w' → cache_step addr w w'.
Proof.
  intros [[] Hfr] []. split; [| |done| | |done..].
  - split; [split; by rewrite ?frame_ids0, ?frame_next0|]. by rewrite frame_ext0, frame_next0.
  - intros a _. unfold gid. by rewrite frame_ids0.
  - unfold entry, gid. by rewrite frame_ext0, frame_ids0.
  - intros a _. unfold known, entry, gid. by rewrite frame_ext0, frame_ids0.
Qed.

Lemma gid_range w addr : cache_ok w → gid w addr ≠ 0 → 1 <= gid w addr <= os_next_global_id (w_os w).
Proof. intros Hk Ha. exact (ids_range _ (cache_ids _ Hk) _ _ (global_id_elem _ _ Ha)). Qed.

(** Writing the extension's own entry. *)
Lemma cache_step_set addr v w :
  cache_ok w → gid w addr ≠ 0 →
  cache_step addr w (set_w_ext (<[Z.to_nat (gid w addr - 1) := v]> (w_ext w)) w).
Proof.
  intros Hk Ha. pose proof (gid_range w addr Hk Ha) as Hr.
  assert (∀ a, a ≠ addr → gid w a ≠ 0 →
    entry (set_w_ext (<[Z.to_nat (gid w addr - 1) := v]> (w_ext w)) w) a = entry w a) as Hsame.
  { intros a Hn Hb. pose proof (gid_range w a Hk Hb). unfold entry. cbn.
    change (gid (set_w_ext _ w) a) with (gid w a). apply list_lookup_insert_ne. intros Heq. apply Hn.
    apply (global_id_inj (os_global_ids (w_os w))); [apply Hk|done|].
    change (gid w a = gid w addr). lia. }
  split; try done.
  - destruct Hk as [Hk Hf]. split; [done|]. cbn. intros k u Hu Hn.
    rewrite list_lookup_insert_ne in Hu by lia. by eapply Hf.
  - intros a u Hn Hb He. by rewrite Hsame.
  - intros a Hn (Hb & He). change (gid _ a) with (gid w a) in Hb. rewrite Hsame in He by done. by split.
Qed.

(** Storing [v] in the extension's entry. *)
Lemma set_lazy_ok addr v w :
  cache_ok w → gid w addr ≠ 0 → (Z.to_nat (gid w addr - 1) < length (w_ext w))%nat →
  let w' := set_w_ext (<[Z.to_nat (gid w addr - 1) := v]> (w_ext w)) w in
  set_lazy (Z.to_nat (gid w addr - 1)) v w = Ret () w' ∧ cache_step addr w w' ∧
  entry w' addr = Some v.
Proof.
  intros Hk Ha Hl w'. split; [done|]. split; [by apply cache_step_set|].
  unfold entry. cbn. by apply list_lookup_insert_eq.
Qed.

Section Queries.
Context (queries : world → list string) (Hst : query_stubs queries).

(** What is asked on behalf of [ext]. *)
Definition asks (ext : xcb_extension) (w : world) : list string :=
  if bool_decide (known w (ext_addr ext)) then [] else [ext_name ext].

(** The effect of a call on behalf of [ext]: it is asked for unless it is known, and
    known then. *)
Record looked_up (ext : xcb_extension) (w w' : world) : Prop := {
  look_step : cache_step (ext_addr ext) w w';
  look_next : os_next_global_id (w_os w') <= os_next_global_id (w_os w) + 1;
  look_queries : queries w' = queries w ++ asks ext w;
  look_known : known w' (ext_addr ext);
  look_forced : ∀ r, known w (ext_addr ext) → entry w (ext_addr ext) = Some (LazyForced r) →
    entry w' (ext_addr ext) = Some (LazyForced r)
}.

Lemma known_lt w addr : known w addr → (Z.to_nat (gid w addr - 1) < length (w_ext w))%nat.
Proof.
  intros (_ & Hn & _). unfold entry in Hn. apply lookup_lt_is_Some. by apply not_eq_None_Some.
Qed.

(** The entry is empty: the extension is asked for. *)
Lemma query_inv ext w d w' :
  cache_ok w → gid w (ext_addr ext) ≠ 0 →
  (Z.to_nat (gid w (ext_addr ext) - 1) < length (w_ext w))%nat →
  let k := Z.to_nat (gid w (ext_addr ext) - 1) in
  (set_lazy k (LazyCookie 0);;
   cookie ← xcb_query_extension (ext_name ext);
   set_lazy k (LazyCookie cookie);; ret (Some k)) w = Ret d w' →
  cache_step (ext_addr ext) w w' ∧ os_next_global_id (w_os w') = os_next_global_id (w_os w) ∧
  queries w' = queries w ++ [ext_name ext] ∧ known w' (ext_addr ext) ∧
  d = Some (Z.to_nat (gid w' (ext_addr ext) - 1)).
Proof.
  intros Hk Ha Hl k E. destruct (set_lazy_ok (ext_addr ext) (LazyCookie 0) w Hk Ha Hl) as (E1 & Hs1 & _).
  rewrite (bind_run _ _ _ _ _ E1) in E. set (w1 := set_w_ext _ w) in *.
  apply bind_inv in E as (c & w2 & E2 & E). apply (stubs_query _ Hst) in E2 as [Hf Hq].
  pose proof (cache_step_frame (ext_addr ext) _ _ (step_ids _ _ _ Hs1) Hf) as Hs2.
  assert (gid w2 (ext_addr ext) = gid w (ext_addr ext)) as Eg.
  { unfold gid. by rewrite (frame_ids _ _ Hf). }
  unfold k in E. rewrite <- Eg in E.
  destruct (set_lazy_ok (ext_addr ext) (LazyCookie c) w2) as (E3 & Hs3 & He3);
    [apply Hs2|by rewrite Eg| |].
  { rewrite Eg, (frame_ext _ _ Hf). unfold w1. cbn. by rewrite length_insert. }
  rewrite (bind_run _ _ _ _ _ E3) in E. injection E as <- <-.
  split_and!; [by do 2 (eapply cache_step_trans; [eassumption|])| | | |done].
  - cbn. by rewrite (frame_next _ _ Hf).
  - rewrite (stubs_view _ Hst w2) by done. rewrite Hq. f_equal. by apply (stubs_view _ Hst).
  - split; [|by rewrite He3]. change (gid w2 (ext_addr ext) ≠ 0). by rewrite Eg.
Qed.

(** The number of the extension and its entry, before the tag is looked at. *)
Lemma number_entry_ok ext w :
  GlobalLock ∉ held w → cache_ok w → os_next_global_id (w_os w) < 2 ^ 30 - 1 → no_oom w →
  ∃ id w1 l v, let w2 := set_w_ext l w1 in
    ensure_global_id ext w = Ret id w1 ∧ get_index id w1 = Ret (Some (Z.to_nat (id - 1))) w2 ∧
    cache_step (ext_addr ext) w w2 ∧ os_next_global_id (w_os w2) <= os_next_global_id (w_os w) + 1 ∧
    queries w2 = queries w ∧ gid w2 (ext_addr ext) = id ∧ 1 <= id ∧
    entry w2 (ext_addr ext) = Some v ∧ (known w (ext_addr ext) ↔ v ≠ LazyNone) ∧
    (known w (ext_addr ext) → entry w (ext_addr ext) = Some v).
Proof.
  intros Hl Hk Hn Ho.
  destruct (ensure_global_id_ok ext w Hl (cache_ids _ Hk)) as
    (ids & n & E1 & Hk1 & Hid & Hnx & Hold & Hnew1 & Hsame).
  set (w1 := with_ids ids n w) in *. set (id := global_id ids (ext_addr ext)) in *.
  destruct (get_index_ok id w1) as (l & E2 & Hpre & Hlen & Hnew); [lia|done|].
  assert (os_next_global_id (w_os w) <= n) as Hnn.
  { destruct (decide (gid w (ext_addr ext) = 0)) as [Hz|Hz].
    - specialize (Hnew1 Hz). lia.
    - change n with (os_next_global_id (w_os w1)). by rewrite (Hsame Hz). }
  assert (∀ a v, gid w a ≠ 0 → entry w a = Some v → entry (set_w_ext l w1) a = Some v) as Hkeep.
  { intros a v Ha He. unfold entry, gid in *. cbn. rewrite Hold by auto. by eapply prefix_lookup_Some. }
  destruct (lookup_lt_is_Some_2 l (Z.to_nat (id - 1))) as [v Ev]; [unfold zlength in Hlen; lia|].
  assert (entry (set_w_ext l w1) (ext_addr ext) = Some v) as He2 by done.
  assert (known w (ext_addr ext) → entry w (ext_addr ext) = Some v) as Hkv.
  { intros (Ha & He & _). destruct (entry w (ext_addr ext)) as [u|] eqn:Eu; [|done].
    apply (Hkeep _ _ Ha) in Eu. congruence. }
  assert (∀ k u, l !! k = Some u → (w_ext w !! k = Some u ∨ u = LazyNone)) as Hlk.
  { intros k u Hu. destruct (decide (k < length (w_ext w))%nat) as [Hlt|Hge].
    - left. destruct (lookup_lt_is_Some_2 _ _ Hlt) as [u' Hu'].
      pose proof (prefix_lookup_Some _ _ _ _ Hu' Hpre). congruence.
    - right. apply (Hnew k); [done|]. change (w_ext w1) with (w_ext w). lia. }
  exists id, w1, l, v. cbv zeta. split_and!; try done; try lia.
  - split; [|intros a Ha; apply Hold; by right|done|by eauto| |done..].
    2: { intros a Hn' (Ha & He & Hx). assert (gid (set_w_ext l w1) a = gid w a) as Hga by (apply Hold; by left).
         rewrite Hga in Ha. unfold entry in He, Hx. rewrite Hga in He, Hx.
         change (w_ext (set_w_ext l w1)) with l in *.
         destruct (l !! Z.to_nat (gid w a - 1)) as [u|] eqn:Eu; [|done]. destruct (Hlk _ _ Eu) as [Hu| ->]; [|done].
         split; [done|]. unfold entry. by rewrite Hu. }
    split; [by destruct Hk1; split|]. cbn. intros k u Hu Hkn.
    destruct (Hlk k u Hu) as [Hu'|]; [|done]. eapply (cache_fresh _ Hk); [exact Hu'|]. lia.
  - by apply (stubs_view _ Hst).
  - split; [intros Hkw ->; pose proof (Hkv Hkw); by destruct Hkw as (_ & _ & Hx)|].
    intros Hv. destruct (Hlk _ _ Ev) as [Hu|]; [|done].
    assert (gid w (ext_addr ext) ≠ 0) as Ha.
    { intros Hz. apply Hv. eapply (cache_fresh _ Hk); [exact Hu|]. rewrite (Hnew1 Hz). lia. }
    assert (entry w (ext_addr ext) = Some v) as He
      by (unfold entry, gid; rewrite <- Hold by (by right); done).
    split; [done|]. rewrite He. split; congruence.
Qed.

Lemma get_lazyreply_ok ext w d w' :
  GlobalLock ∉ held w → cache_ok w → os_next_global_id (w_os w) < 2 ^ 30 - 1 → no_oom w →
  get_lazyreply ext w = Ret d w' →
  looked_up ext w w' ∧ d = Some (Z.to_nat (gid w' (ext_addr ext) - 1)).
Proof.
  intros Hl Hk Hn Ho E. unfold get_lazyreply in E.
  destruct (number_entry_ok ext w Hl Hk Hn Ho) as
    (id & w1 & l & v & E1 & E2 & Hs2 & Hnx & Hq2 & Hg & Hid & He & Hkn & Hkv).
  rewrite (bind_run _ _ _ _ _ E1), (bind_run _ _ _ _ _ E2), bind_gets in E.
  set (w2 := set_w_ext l w1) in *. rewrite <- Hg in *. unfold entry in He. rewrite He in E.
  destruct (decide (v = LazyNone)) as [->|Hv].
  - assert (¬ known w (ext_addr ext)) as Hnk by tauto.
    apply lookup_lt_Some in He. 
    destruct (query_inv ext w2 d w') as (Hs3 & Hn3 & Hq3 & Hk3 & ->); [apply Hs2|lia|done|exact E|].
    split; [|done]. split; [by eapply cache_step_trans|by rewrite Hn3| |done|].
    + unfold asks. by rewrite bool_decide_eq_false_2, Hq3, Hq2.
    + intros r Hc. by destruct Hnk.
  - assert (Ret (Some (Z.to_nat (gid w2 (ext_addr ext) - 1))) w2 = Ret d w') as E' by by destruct v.
    injection E' as <- <-. split; [|done]. assert (known w (ext_addr ext)) as Hkw by tauto.
    assert (entry w2 (ext_addr ext) = Some v) as He' by done. split; try done.
    + unfold asks. by rewrite bool_decide_eq_true_2, app_nil_r.
    + split; [lia|]. rewrite He'. split; congruence.
    + intros r _ Hr. rewrite (Hkv Hkw) in Hr. by rewrite He'.
Qed.
(** The reply is fetched and stored. *)
Lemma get_forced_inv ext cookie w w' :
  cache_ok w → known w (ext_addr ext) →
  let k := Z.to_nat (gid w (ext_addr ext) - 1) in
  (set_lazy k (LazyForced None);;
   reply ← xcb_query_extension_reply cookie;
   set_lazy k (LazyForced reply)) w = Ret () w' →
  cache_step (ext_addr ext) w w' ∧ os_next_global_id (w_os w') = os_next_global_id (w_os w) ∧
  queries w' = queries w ∧ gid w' (ext_addr ext) = gid w (ext_addr ext) ∧
  ∃ reply, entry w' (ext_addr ext) = Some (LazyForced reply).
Proof.
  intros Hk Hkw k E. pose proof (known_lt _ _ Hkw) as Hl. destruct Hkw as (Ha & _).
  destruct (set_lazy_ok (ext_addr ext) (LazyForced None) w Hk Ha Hl) as (E1 & Hs1 & _).
  rewrite (bind_run _ _ _ _ _ E1) in E. set (w1 := set_w_ext _ w) in *.
  apply bind_inv in E as (reply & w2 & E2 & E). apply (stubs_reply _ Hst) in E2 as [Hf Hq].
  pose proof (cache_step_frame (ext_addr ext) _ _ (step_ids _ _ _ Hs1) Hf) as Hs2.
  assert (gid w2 (ext_addr ext) = gid w (ext_addr ext)) as Eg.
  { unfold gid. by rewrite (frame_ids _ _ Hf). }
  unfold k in E. rewrite <- Eg in E.
  destruct (set_lazy_ok (ext_addr ext) (LazyForced reply) w2) as (E3 & Hs3 & He3);
    [apply Hs2|by rewrite Eg| |].
  { rewrite Eg, (frame_ext _ _ Hf). unfold w1. cbn. by rewrite length_insert. }
  rewrite E3 in E. injection E as <-.
  split_and!; [by do 2 (eapply cache_step_trans; [eassumption|])| | |done|by exists reply].
  - cbn. by rewrite (frame_next _ _ Hf).
  - rewrite (stubs_view _ Hst w2) by done. rewrite Hq. by apply (stubs_view _ Hst).
Qed.

(** The mutex the calls hold is nothing to the cache. *)
Lemma looked_up_locked ext w w' h :
  looked_up ext (set_held h w) w' → looked_up ext w (set_held (held w) w').
Proof.
  intros [[] Hn Hq Hk Hf]. split; try done.
  - split; try done. by destruct step_ids0.
  - rewrite (stubs_view _ Hst w'), Hq by done. f_equal. by apply (stubs_view _ Hst).
Qed.

Lemma prefetch_ok ext w w' :
  has_error w = false → ExtLock ∉ held w → GlobalLock ∉ held w → cache_ok w →
  os_next_global_id (w_os w) < 2 ^ 30 - 1 → no_oom w →
  xcb_prefetch_extension_data ext w = Ret () w' → looked_up ext w w' ∧ held w' = held w.
Proof.
  intros He Hl Hg Hk Hn Hoom E. unfold xcb_prefetch_extension_data in E.
  rewrite bind_gets, He, (bind_lock ExtLock (held w)) in E by done.
  apply bind_inv in E as (d & w2 & E2 & E).
  apply get_lazyreply_ok in E2 as [Hlk _]; [|set_solver|by destruct Hk|done..].
  rewrite (unlock_run ExtLock (held w)) in E by apply Hlk. injection E as <-.
  split; [by eapply looked_up_locked|done].
Qed.

Lemma get_data_ok ext w r w' :
  has_error w = false → ExtLock ∉ held w → GlobalLock ∉ held w → cache_ok w →
  os_next_global_id (w_os w) < 2 ^ 30 - 1 → no_oom w →
  xcb_get_extension_data ext w = Ret r w' →
  looked_up ext w w' ∧ held w' = held w ∧ entry w' (ext_addr ext) = Some (LazyForced r).
Proof.
  intros He Hl Hg Hk Hn Hoom E. unfold xcb_get_extension_data in E.
  rewrite bind_gets, He, (bind_lock ExtLock (held w)) in E by done.
  set (w1 := set_held (ExtLock :: held w) w) in *.
  apply bind_inv in E as (d & w2 & E2 & E).
  apply get_lazyreply_ok in E2 as [Hlk ->]; [|set_solver|by destruct Hk|done..].
  rewrite bind_gets in E. apply bind_inv in E as ([] & w3 & E3 & E).
  assert (looked_up ext w1 w3 ∧ gid w3 (ext_addr ext) = gid w2 (ext_addr ext) ∧
    ∃ reply, entry w3 (ext_addr ext) = Some (LazyForced reply)) as (Hlk3 & Hg3 & reply & He3).
  { pose proof (look_known _ _ _ Hlk) as Hk2. destruct (Hk2) as (Ha & Hne & Hx).
    destruct (entry w2 (ext_addr ext)) as [v|] eqn:Ev; [|done].
    pose proof Ev as Ev'. unfold entry in Ev'. rewrite Ev' in E3. destruct v as [|cookie|reply]; [done| |].
    - destruct (get_forced_inv ext cookie w2 w3) as (Hs3 & Hn3 & Hq3 & Hg3 & reply & He3);
        [apply Hlk|done|exact E3|].
      split; [|by eauto]. destruct Hlk as [Hs Hnx Hq _ Hf]. split.
      + by eapply cache_step_trans.
      + by rewrite Hn3.
      + by rewrite Hq3.
      + split; [by rewrite Hg3|by rewrite He3].
      + intros r0 Hkw Hr0. apply (Hf _ Hkw) in Hr0. congruence.
    - injection E3 as <-. by eauto. }
  rewrite (bind_unlock ExtLock (held w)), bind_gets in E by exact (step_held _ _ _ (look_step _ _ _ Hlk3)).
  unfold entry in He3. rewrite Hg3 in He3. cbn [w_ext set_held] in E. rewrite He3 in E.
  injection E as <- <-. split; [by eapply looked_up_locked|]. split; [done|].
  unfold entry. change (gid (set_held (held w) w3) (ext_addr ext)) with (gid w3 (ext_addr ext)).
  by rewrite Hg3.
Qed.

(** ** Sequences of calls *)

Inductive ext_call := GetData (ext : xcb_extension) | Prefetch (ext : xcb_extension).

Definition ext_of (c : ext_call) : xcb_extension :=
  match c with GetData ext | Prefetch ext => ext end.

(** The calls one after the other; the answers of [xcb_get_extension_data]. *)
Fixpoint run_ext (cs : list ext_call) : xM (list (xcb_extension * option query_extension_reply)) :=
  match cs with
  | [] => ret []
  | GetData ext :: cs' =>
      r ← xcb_get_extension_data ext; rs ← run_ext cs'; ret ((ext, r) :: rs)
  | Prefetch ext :: cs' => xcb_prefetch_extension_data ext;; run_ext cs'
  end.

Lemma run_ext_failed cs w rs w' : has_error w = true → run_ext cs w = Ret rs w' → w' = w.
Proof.
  intros He. revert rs. induction cs as [|[ext|ext] cs IH]; intros rs E; cbn [run_ext] in E.
  - by injection E.
  - unfold xcb_get_extension_data in E. rewrite bind_assoc, bind_gets, He, bind_ret in E.
    apply bind_inv in E as (rs' & w1 & E1 & E). injection E as _ <-. by eapply IH.
  - unfold xcb_prefetch_extension_data in E. rewrite bind_assoc, bind_gets, He, bind_ret in E.
    by eapply IH.
Qed.

Lemma looked_up_forced ext w w' a r :
  looked_up ext w w' → known w a → entry w a = Some (LazyForced r) → entry w' a = Some (LazyForced r).
Proof.
  intros Hlk Hkw Hr. destruct (decide (a = ext_addr ext)) as [->|Hne]; [by eapply look_forced|].
  apply (step_others _ _ _ (look_step _ _ _ Hlk)); [done|apply Hkw|done].
Qed.

Lemma looked_up_known ext w w' a :
  looked_up ext w w' → known w' a ↔ known w a ∨ a = ext_addr ext.
Proof.
  intros [Hs _ _ Hk _]. destruct (decide (a = ext_addr ext)) as [->|Hne]; [tauto|].
  split; [left; by eapply step_unknown|]. intros [(Ha & He & Hx)|]; [|done].
  destruct (entry w a) as [v|] eqn:Ev; [|done]. apply (step_others _ _ _ Hs) in Ev; [|done..].
  split; [by rewrite (step_old _ _ _ Hs)|]. by rewrite Ev.
Qed.

(** What a sequence of calls has done. *)
Record looked_up_all (cs : list ext_call) (w : world)
    (rs : list (xcb_extension * option query_extension_reply)) (w' : world)
    (asked : list xcb_extension) : Prop := {
  all_queries : queries w' = queries w ++ (ext_name <$> asked);
  all_nodup : NoDup (ext_addr <$> asked);
  all_asked : ∀ e, e ∈ asked → e ∈ ext_of <$> cs;
  all_new : ∀ a, a ∈ ext_addr <$> asked ↔ a ∈ ext_addr ∘ ext_of <$> cs ∧ ¬ known w a;
  all_known : ∀ a, known w a → known w' a;
  all_forced : ∀ a r, known w a → entry w a = Some (LazyForced r) → entry w' a = Some (LazyForced r);
  all_answers : ∀ e r, (e, r) ∈ rs → known w' (ext_addr e) ∧ entry w' (ext_addr e) = Some (LazyForced r);
  all_others : ∀ a v, a ∉ ext_addr ∘ ext_of <$> cs → gid w a ≠ 0 → entry w a = Some v → entry w' a = Some v;
  all_ok : cache_ok w';
  all_held : held w' = held w
}.
(** A call in front of a sequence. *)
Lemma looked_up_cons c cs w w1 rs rs1 w' asked :
  looked_up (ext_of c) w w1 → looked_up_all cs w1 rs w' asked →
  (rs1 = rs ∨ ∃ r, rs1 = (ext_of c, r) :: rs ∧ entry w1 (ext_addr (ext_of c)) = Some (LazyForced r)) →
  looked_up_all (c :: cs) w rs1 w'
    ((if bool_decide (known w (ext_addr (ext_of c))) then [] else [ext_of c]) ++ asked).
Proof.
  set (e := ext_of c). intros Hlk [] Hrs. pose proof (λ a, looked_up_known e w w1 a Hlk) as Hkn.
  assert (known w1 (ext_addr e)) as Hk1 by apply Hlk.
  assert (∀ a, a ∈ ext_addr <$> asked → ¬ known w1 a) as Hnew by (intros a Ha; by apply all_new0).
  split; try done.
  - rewrite all_queries0, (look_queries _ _ _ Hlk). unfold asks. rewrite <- app_assoc. f_equal.
    by case_bool_decide.
  - case_bool_decide; [done|]. cbn. apply NoDup_cons. split; [|done]. by intros ?%Hnew.
  - intros x Hx. apply elem_of_app in Hx as [Hx|Hx]; [|right; by apply all_asked0].
    case_bool_decide; [by apply not_elem_of_nil in Hx|]. apply list_elem_of_singleton in Hx as ->. by left.
  - intros a. rewrite fmap_app, elem_of_app, all_new0, Hkn, fmap_cons, elem_of_cons. unfold compose at 2.
    fold e. case_bool_decide as Hke; cbn.
    + rewrite elem_of_nil. destruct (decide (a = ext_addr e)) as [->|]; tauto.
    + rewrite list_elem_of_singleton. destruct (decide (a = ext_addr e)) as [->|]; tauto.
  - intros a Ha. apply all_known0, Hkn. by left.
  - intros a r Ha Hr. apply all_forced0; [apply Hkn; by left|]. by eapply looked_up_forced.
  - intros x r Hin. destruct Hrs as [->|(r0 & -> & Hr0)]; [by apply all_answers0|].
    apply elem_of_cons in Hin as [Hin|Hin]; [|by apply all_answers0]. injection Hin as -> ->.
    split; [by apply all_known0|by apply all_forced0].
  - intros a v Ha Hg Hv. rewrite fmap_cons, not_elem_of_cons in Ha. destruct Ha as [Ha1 Ha2].
    apply all_others0; [done| |].
    + by rewrite (step_old _ _ _ (look_step _ _ _ Hlk)).
    + by apply (step_others _ _ _ (look_step _ _ _ Hlk)).
  - by rewrite all_held0, (step_held _ _ _ (look_step _ _ _ Hlk)).
Qed.

Lemma run_ext_ok cs : ∀ w rs w',
  has_error w = false → ExtLock ∉ held w → GlobalLock ∉ held w → cache_ok w → no_oom w →
  os_next_global_id (w_os w) + zlength cs < 2 ^ 30 →
  run_ext cs w = Ret rs w' → has_error w' = false → ∃ asked, looked_up_all cs w rs w' asked.
Proof.
  induction cs as [|c cs IH]; intros w rs w' He Hl Hg Hk Hoom Hn E He'.
  { injection E as <- <-. exists []. split; try done; try by intros; set_solver.
    - by rewrite app_nil_r.
    - constructor. }
  rewrite zlength_cons in Hn. pose proof (zlength_nonneg cs).
  assert (∀ w1 rs1, looked_up (ext_of c) w w1 → held w1 = held w → run_ext cs w1 = Ret rs1 w' →
    ∃ asked, looked_up_all cs w1 rs1 w' asked) as Hrest.
  { intros w1 rs1 [[] ? ? ? ?] Hh E1. apply IH; rewrite ?Hh; auto; [|lia].
    destruct (has_error w1) eqn:Hx; [|done]. by rewrite (run_ext_failed _ _ _ _ Hx E1), Hx in He'. }
  destruct c as [ext|ext]; cbn [run_ext] in E.
  - apply bind_inv in E as (r & w1 & E1 & E). apply bind_inv in E as (rs1 & w2 & E2 & E).
    injection E as <- <-. apply get_data_ok in E1 as (Hlk & Hh & Hr); [|done..|lia|done].
    destruct (Hrest _ _ Hlk Hh E2) as (asked & Ha). eexists.
    eapply (looked_up_cons (GetData ext)); [exact Hlk|exact Ha|]. right. by exists r.
  - apply bind_inv in E as ([] & w1 & E1 & E2).
    apply prefetch_ok in E1 as (Hlk & Hh); [|done..|lia|done].
    destruct (Hrest _ _ Hlk Hh E2) as (asked & Ha). eexists.
    eapply (looked_up_cons (Prefetch ext)); [exact Hlk|exact Ha|by left].
Qed.

End Queries.

(** ** Answers from memory *)

Lemma get_lazyreply_hit ext w reply :
  GlobalLock ∉ held w → ids_ok (w_os w) → gid w (ext_addr ext) ≠ 0 →
  entry w (ext_addr ext) = Some (LazyForced reply) →
  get_lazyreply ext w = Ret (Some (Z.to_nat (gid w (ext_addr ext) - 1))) w.
Proof.
  intros Hl Hk Hid He. unfold get_lazyreply.
  destruct (ensure_global_id_ok ext w Hl Hk) as (ids & n & E & _ & Hr & _ & _ & _ & Hsame).
  rewrite (bind_run _ _ _ _ _ E), (Hsame Hid).
  assert (ids = os_global_ids (w_os w)) as -> by by rewrite <- (Hsame Hid) at 1.
  unfold entry in He. unfold gid in *. set (id := global_id _ _) in *.
  pose proof (lookup_lt_Some _ _ _ He) as Hlt.
  assert (get_index id w = Ret (Some (Z.to_nat (id - 1))) w) as E2.
  { unfold get_index. rewrite bind_gets, Z.gtb_ltb.
    destruct (Z.ltb_spec (zlength (w_ext w)) id); [unfold zlength in *; lia|done]. }
  by rewrite (bind_run _ _ _ _ _ E2), bind_gets, He.
Qed.

Lemma extension_data_hit ext w reply :
  has_error w = false → ExtLock ∉ held w → GlobalLock ∉ held w → ids_ok (w_os w) →
  gid w (ext_addr ext) ≠ 0 → entry w (ext_addr ext) = Some (LazyForced reply) →
  xcb_get_extension_data ext w = Ret reply w.
Proof.
  intros He Hl Hg Hk Hid Hent. unfold xcb_get_extension_data.
  rewrite bind_gets, He, (bind_lock ExtLock (held w)) by done.
  set (w1 := set_held (ExtLock :: held w) w).
  rewrite (bind_run _ _ _ _ _ (get_lazyreply_hit ext w1 reply ltac:(set_solver) Hk Hid Hent)).
  rewrite bind_gets. change (entry w1 (ext_addr ext) = Some (LazyForced reply)) in Hent.
  unfold entry in Hent. rewrite Hent, bind_ret, (bind_unlock ExtLock (held w)), bind_gets by done.
  cbn [w_ext set_held w1] in Hent |- *. rewrite Hent. by destruct w.
Qed.
End Ids.


(** ** The hypotheses can hold *)

Section Witnesses.

(** Stubs that keep a list of the names they are asked for, among the events. *)
Definition noting_proto : XProto := {|
  setup_request_bytes := @setup_request_bytes sample_proto;
  setup_failed_reason := @setup_failed_reason sample_proto;
  setup_authenticate_reason := @setup_authenticate_reason sample_proto;
  XCB_KEYMAP_NOTIFY := 11;
  setup_view := @setup_view sample_proto;
  xcb_big_requests_id := Extension 1 "BIG-REQUESTS";
  xcb_xc_misc_id := Extension 2 "XC-MISC";
  xcb_query_extension := λ name,
    modify_in (λ i, set_events (events i ++ [String.list_byte_of_string name]) i);; ret 7;
  xcb_query_extension_reply := λ _, ret (Some (QueryExtensionReply true 130));
  xcb_big_requests_enable := ret 8;
  xcb_big_requests_enable_reply := λ _, ret (Some 4194303);
  xcb_xc_misc_get_xid_range := ret 9;
  xcb_xc_misc_get_xid_range_reply := λ _, ret (Some (0x700, 16));
  xcb_get_input_focus := ret 10;
  xcb_get_input_focus_reply := λ _, ret (None, None);
  return_socket_callback := λ _ _, ret ()
|}.
#[local] Existing Instance noting_proto.

Definition noted (w : world) : list string := String.string_of_list_byte <$> events (w_in w).

Lemma noting_stubs : query_stubs noted.
Proof.
  split.
  - intros name w r w' E. cbn in E. injection E as _ <-. split; [by split|].
    unfold noted. cbn. rewrite fmap_app. cbn. by rewrite String.string_of_list_byte_of_string.
  - intros cookie w r w' E. cbn in E. injection E as _ <-. split; [by split|done].
  - intros w w' Hi _ _. unfold noted. by rewrite Hi.
Qed.

(** Extension object 4 has number 1 and a cached answer; objects 3 and 5 are new. *)
Definition ext_world : world :=
  let w := sample_world (sample_in []) (sample_out [] 0 0) (sample_os [] [] []) in
  set_w_ext [LazyForced None; LazyNone]
    (set_w_os (set_os_global_ids [(4%nat, 1)] (set_os_next_global_id 1 (w_os w))) w).

Lemma ext_world_cache : cache_ok ext_world.
Proof.
  split.
  - split; cbn; [|apply NoDup_singleton|lia]. intros a i [= -> ->]%list_elem_of_singleton. lia.
  - intros [|[|k]] v Hv Hk; cbn in Hv, Hk; [lia|by injection Hv|done].
Qed.

(** Object 3 is prefetched and then asked for twice. *)
Definition ext_calls : list ext_call :=
  let render := Extension 3 "RENDER" in
  [Prefetch render; GetData render; GetData (Extension 4 "SHAPE"); GetData (Extension 5 "GLX");
   GetData render].

Definition ext_answers : list (xcb_extension * option query_extension_reply) :=
  value [] (run_ext ext_calls ext_world).
Definition ext_after : world := final ext_world (run_ext ext_calls ext_world).

End Witnesses.
