(* ===== verification/XidProps.v ===== *)
(** * Resource identifiers are distinct and in range

    [xcb_generate_id] counts through the client's range, then through the ranges
    XC-MISC grants; with a range whose lowest bit is not bit 0 it leaves it. *)
From S2P Require Import Prelude Effects Seq State InFrame OutFacts Ext Xid Sample.
#[local] Open Scope Z_scope.

Section Xid.
Context `{XProto}.

(** The identifiers of [n] calls in a row. *)
Fixpoint generate_ids (n : nat) : xM (list Z) :=
  match n with
  | O => ret []
  | S n' => i ← xcb_generate_id; l ← generate_ids n'; ret (i :: l)
  end.

(** A call that does not need a new range. *)
Lemma generate_next w last base max inc :
  has_error w = false → XidLock ∉ held w → w_xid w = XcbXid last base max inc →
  0 <= last < u32 (max - inc + 1) → last + inc < 2 ^ 32 → 0 <= inc →
  xcb_generate_id w =
    Ret (Z.lor (last + inc) base) (set_w_xid (XcbXid (last + inc) base max inc) w).
Proof.
  intros He Hl Hx Hr Hm Hi. unfold xcb_generate_id.
  rewrite bind_gets, He, (bind_lock XidLock (held w)), bind_gets by done.
  cbn [w_xid set_held]. rewrite Hx. cbn [xid_last xid_max xid_inc]. rewrite Z.geb_leb.
  destruct (Z.leb_spec (u32 (max - inc + 1)) last); [lia|].
  unfold modify_xid. rewrite bind_assoc, bind_modify, bind_ret. cbn [negb].
  rewrite bind_gets. cbn [w_xid set_w_xid set_held]. rewrite Hx.
  rewrite (bind_unlock XidLock (held w)) by done.
  cbn [xid_last xid_base set_xid_last xid_max xid_inc]. rewrite (u32_small (last + inc)) by lia.
  done.
Qed.

Lemma seqZ_snoc_map (f : Z → Z) a n :
  f a :: (f <$> seqZ (a + 1) (Z.of_nat n)) = f <$> seqZ a (Z.of_nat (S n)).
Proof.
  rewrite (seqZ_cons a (Z.of_nat (S n))) by lia. cbn. f_equal. f_equal. f_equal; lia.
Qed.

(** Counting through a range. *)
Lemma generate_range n w last base max inc :
  has_error w = false → XidLock ∉ held w → w_xid w = XcbXid last base max inc →
  0 <= last → 0 < inc → last + Z.of_nat n * inc <= 2 ^ 32 - inc →
  last + (Z.of_nat n - 1) * inc < u32 (max - inc + 1) →
  ∃ w', generate_ids n w =
      Ret ((λ i, Z.lor (last + i * inc) base) <$> seqZ 1 (Z.of_nat n)) w' ∧
    w_xid w' = XcbXid (last + Z.of_nat n * inc) base max inc ∧
    has_error w' = false ∧ held w' = held w ∧ setup w' = setup w.
Proof.
  revert w last. induction n as [|n IH]; intros w last He Hl Hx H0 Hi Hm Hr.
  { exists w. cbn. rewrite Hx. split_and!; try done. by rewrite Z.add_0_r. }
  cbn [generate_ids].
  rewrite (bind_run _ _ _ _ _ (generate_next w last base max inc He Hl Hx ltac:(nia) ltac:(nia) ltac:(lia))).
  edestruct (IH (set_w_xid (XcbXid (last + inc) base max inc) w) (last + inc))
    as (w' & E & Hx' & ? & ? & ?); [done|done|done|lia|done|lia|nia|].
  rewrite (bind_run _ _ _ _ _ E). exists w'. split_and!; try done.
  - unfold ret. f_equal. rewrite <- (seqZ_snoc_map _ 1).
    f_equal; [by rewrite Z.mul_1_l|]. change (1 + 1) with (1 + 1).
    rewrite <- (fmap_add_seqZ 1 1), <- list_fmap_compose.
    apply list_fmap_ext. intros _ i _. cbn. f_equal. lia.
  - rewrite Hx'. f_equal. lia.
Qed.

(** The call that ends the initialisation or takes a new range. *)
Lemma generate_refill w x w2 :
  has_error w = false → XidLock ∉ held w → w_xid w = x →
  u32 (xid_max x - xid_inc x + 1) <= xid_last x →
  next_range (set_held (XidLock :: held w) w) = Ret true w2 → held w2 = XidLock :: held w →
  xcb_generate_id w =
    Ret (Z.lor (xid_last (w_xid w2)) (xid_base (w_xid w2))) (set_held (held w) w2).
Proof.
  intros He Hl Hx Hr En Hh. unfold xcb_generate_id.
  rewrite bind_gets, He, (bind_lock XidLock (held w)), bind_gets by done.
  cbn [w_xid set_held]. rewrite Hx, Z.geb_leb.
  destruct (Z.leb_spec (u32 (xid_max x - xid_inc x + 1)) (xid_last x)); [|lia].
  rewrite (bind_run _ _ _ _ _ En). cbn [negb].
  by rewrite bind_gets, (bind_unlock XidLock (held w)).
Qed.

Lemma next_range_initial w base inc bs :
  w_xid w = XcbXid 0 base 0 inc → setup w = Some bs →
  next_range w =
    Ret true (set_w_xid (XcbXid 0 base (setup_resource_id_mask (setup_view bs)) inc) w).
Proof.
  intros Hx Hs. unfold next_range. rewrite bind_gets, Hx. cbn [xid_last xid_max Z.eqb assertM].
  rewrite bind_ret. unfold get_setup. rewrite bind_assoc, bind_gets, Hs, bind_ret.
  unfold modify_xid. rewrite bind_modify, Hx. done.
Qed.

(** The base has none of the bits of the mask. *)
Lemma lor_base k base i :
  0 <= k → base mod 2 ^ k = 0 → 0 <= i < 2 ^ k → Z.lor i base = base + i.
Proof. intros. by rewrite Z.lor_comm, (lor_low_field _ k). Qed.

Lemma seqZ_lor k base a n (f : Z → Z) :
  0 <= k → base mod 2 ^ k = 0 →
  (∀ i, 1 <= i <= n → f i = a + i) → 0 <= a → a + n < 2 ^ k →
  ((λ i, Z.lor (f i) base) <$> seqZ 1 n) = seqZ (base + a + 1) n.
Proof.
  intros Hk Hb Hf Ha Hn.
  rewrite <- (fmap_add_seqZ (base + a) 1). apply list_fmap_ext.
  intros j i Hi. apply lookup_seqZ in Hi as [-> Hj].
  rewrite Hf, (lor_base k) by lia. lia.
Qed.

(** C31. On a fresh connection whose mask is [2^k - 1], as every server sends, the
    first [2^k] calls of [xcb_generate_id] return [base], [base + 1], ...,
    [base + mask]: all distinct, all in the client's range, none skipped. *)
Theorem xcb_generate_id_counts n k base w bs :
  has_error w = false → XidLock ∉ held w → w_xid w = XcbXid 0 base 0 1 →
  setup w = Some bs → setup_resource_id_mask (setup_view bs) = 2 ^ k - 1 →
  0 < k < 32 → base mod 2 ^ k = 0 → Z.of_nat n <= 2 ^ k →
  ∃ w', generate_ids n w = Ret (seqZ base (Z.of_nat n)) w' ∧
    held w' = held w ∧ has_error w' = false.
Proof.
  intros He Hl Hx Hs Hm Hk Hb Hn. destruct n as [|n]; [by exists w|]. cbn [generate_ids].
  assert (2 ^ k <= 2 ^ 31) as Hk31 by (apply Z.pow_le_mono_r; lia).
  set (w1 := set_w_xid (XcbXid 0 base (2 ^ k - 1) 1) (set_held (XidLock :: held w) w)).
  assert (next_range (set_held (XidLock :: held w) w) = Ret true w1) as En.
  { rewrite (next_range_initial _ base 1 bs) by done. by rewrite Hm. }
  rewrite (bind_run _ _ _ _ _ (generate_refill w _ w1 He Hl Hx ltac:(done) En eq_refl)).
  destruct (generate_range n (set_held (held w) w1) 0 base (2 ^ k - 1) 1)
    as (w' & E & _ & He' & Hh' & _); try done; try lia.
  { rewrite u32_small; lia. }
  rewrite (bind_run _ _ _ _ _ E). exists w'. split; [|done]. unfold ret. f_equal.
  rewrite (seqZ_lor k base 0) by (try done; lia).
  rewrite (seqZ_cons base) by lia. cbn [w_xid w1 set_held set_w_xid xid_last xid_base].
  rewrite Z.lor_0_l. f_equal. f_equal; lia.
Qed.

(** XC-MISC grants the range of [count] identifiers from [start]. *)
Definition xc_misc_grants (start count : Z) (w w3 : world) : Prop :=
  ∃ e cookie w1 w2,
    xcb_get_extension_data xcb_xc_misc_id w = Ret (Some e) w1 ∧
    xcb_xc_misc_get_xid_range w1 = Ret cookie w2 ∧
    xcb_xc_misc_get_xid_range_reply cookie w2 = Ret (Some (start, count)) w3 ∧
    w_xid w3 = w_xid w ∧ held w3 = held w ∧ has_error w3 = has_error w.

(** When the range is used up and XC-MISC grants the [count] identifiers from
    [start], the next [count] calls return exactly those. *)
Lemma xcb_generate_id_refills n start count last base w w3 :
  has_error w = false → XidLock ∉ held w → w_xid w = XcbXid last base last 1 →
  0 < last < 2 ^ 32 →
  xc_misc_grants start count (set_held (XidLock :: held w) w) w3 →
  0 < start → 0 < count → start + count <= 2 ^ 32 - 1 → Z.of_nat n <= count →
  ∃ w', generate_ids n w = Ret ((λ i, Z.lor i base) <$> seqZ start (Z.of_nat n)) w' ∧
    held w' = held w ∧ has_error w' = false.
Proof.
  intros He Hl Hx Hlast (e & cookie & w1 & w2 & E1 & E2 & E3 & Hx3 & Hh3 & He3) Hs Hc Hsc Hn.
  destruct n as [|n]; [by exists w|]. cbn [generate_ids].
  set (w4 := set_w_xid (XcbXid start base (start + count - 1) 1) w3).
  assert (next_range (set_held (XidLock :: held w) w) = Ret true w4) as En.
  { unfold next_range. rewrite bind_gets. cbn [w_xid set_held]. rewrite Hx.
    cbn [xid_last xid_max]. rewrite Z.eqb_refl. cbn [assertM]. rewrite bind_ret.
    destruct (Z.eqb_spec last 0); [lia|]. rewrite (bind_run _ _ _ _ _ E1).
    rewrite bool_decide_eq_false_2 by done.
    rewrite (bind_run _ _ _ _ _ E2), (bind_run _ _ _ _ _ E3).
    destruct (Z.eqb_spec start 0); [lia|]. cbn [andb]. rewrite !Z.gtb_ltb.
    destruct (Z.ltb_spec 0 count), (Z.ltb_spec 0 start); try lia. cbn [andb assertM].
    rewrite bind_ret. unfold modify_xid. rewrite bind_modify, Hx3. cbn [w_xid set_held]. rewrite Hx.
    unfold ret, set_xid_last, set_xid_max. cbn [xid_base xid_inc xid_last xid_max].
    rewrite (u32_small (count - 1)), Z.mul_1_r, (u32_small (count - 1)), (u32_small (start + _))
      by lia.
    by replace (start + (count - 1)) with (start + count - 1) by lia. }
  rewrite (bind_run _ _ _ _ _ (generate_refill w _ w4 He Hl Hx ltac:(cbn; rewrite u32_small; lia) En Hh3)).
  destruct (generate_range n (set_held (held w) w4) start base (start + count - 1) 1)
    as (w' & E & _ & He' & Hh' & _); try done; try lia.
  { exact (eq_trans He3 He). }
  { rewrite u32_small; lia. }
  rewrite (bind_run _ _ _ _ _ E). exists w'. split; [|done]. unfold ret. f_equal.
  rewrite <- (seqZ_snoc_map (λ i, Z.lor i base)). f_equal.
  replace (start + 1) with (1 + start) by lia. rewrite Z.add_comm.
  rewrite <- (fmap_add_seqZ start 1), <- list_fmap_compose.
  apply list_fmap_ext. intros _ i _. cbn. f_equal. lia.
Qed.

(** When the lowest bit of the mask is not bit 0 the initial range is never set
    up: the calls return [inc], [2 * inc], ... joined with the base, whatever the
    mask, so that for a mask of [m] bits above bit [j] call [2^m] returns a
    number outside the client's range. *)
Theorem xcb_generate_id_leaves_mask j m base w :
  has_error w = false → XidLock ∉ held w → w_xid w = XcbXid 0 base 0 (2 ^ j) →
  0 < j → 0 < m → j + m < 32 →
  ∃ w' ids, generate_ids (Z.to_nat (2 ^ m)) w = Ret ids w' ∧ has_error w' = false ∧
    last ids = Some (Z.lor (2 ^ (j + m)) base) ∧
    Z.land (2 ^ (j + m)) (2 ^ (j + m) - 2 ^ j) = 0.
Proof.
  intros He Hl Hx Hj Hm Hjm. set (n := Z.to_nat (2 ^ m)).
  assert (Z.of_nat n = 2 ^ m) as En by (subst n; rewrite Z2Nat.id; lia).
  assert (2 ^ (j + m) = 2 ^ j * 2 ^ m) as Ejm by (apply Z.pow_add_r; lia).
  assert (2 ^ (j + m) <= 2 ^ 31) as H31 by (apply Z.pow_le_mono_r; lia).
  assert (2 <= 2 ^ j <= 2 ^ 31) as Hj2.
  { split; [change 2 with (2 ^ 1) at 1|]; apply Z.pow_le_mono_r; lia. }
  assert (0 < 2 ^ m) as Hm2 by (apply Z.pow_pos_nonneg; lia).
  assert (2 ^ j <= 2 ^ 30) as Hj30 by (apply Z.pow_le_mono_r; lia).
  destruct (generate_range n w 0 base 0 (2 ^ j) He Hl Hx) as (w' & E & _ & He' & _);
    rewrite ?En; try nia.
  { replace (0 - 2 ^ j + 1) with (2 ^ 32 - 2 ^ j + 1 - 2 ^ 32) by lia.
    assert (u32 (2 ^ 32 - 2 ^ j + 1 - 2 ^ 32) = 2 ^ 32 - 2 ^ j + 1) as -> by words. nia. }
  exists w'. eexists. split; [exact E|]. split; [done|]. split.
  - replace n with (S (n - 1)) at 1 by lia.
    rewrite seqZ_S, fmap_app, last_app. cbn [fmap list_fmap last]. do 2 f_equal.
    rewrite Ejm. nia.
  - rewrite (Z.mul_comm (2 ^ j)) in Ejm.
    assert (2 ^ j <= 2 ^ (j + m)) as Hle by nia.
    apply Z.bits_inj'. intros i Hi. rewrite Z.land_spec, Z.bits_0.
    rewrite Z.pow2_bits_eqb by lia. destruct (Z.eqb_spec (j + m) i) as [<-|]; [|done].
    cbn [andb]. rewrite <- (Z.mod_small (_ - _) (2 ^ (j + m))) by lia.
    apply Z.mod_pow2_bits_high. lia.
Qed.
End Xid.

(** ** The hypotheses can hold *)

Section Witnesses.
#[local] Existing Instances sample_proto.

(** A connection whose identifiers are in the given state. *)
Definition xid_world (x : xcb_xid) : world :=
  set_w_xid x (sample_world (sample_in []) (sample_out [] 0 0) (sample_os [] [] [])).

Lemma xcb_generate_id_counts_witness :
  let w := xid_world (XcbXid 0 0x400000 0 1) in
  ∃ w', generate_ids 3 w = Ret [0x400000; 0x400001; 0x400002] w' ∧
    held w' = held w ∧ has_error w' = false.
Proof.
  apply (xcb_generate_id_counts 3 21 0x400000 (xid_world (XcbXid 0 0x400000 0 1)) []);
    try reflexivity; try lia. set_solver.
Defined.


Lemma xcb_generate_id_leaves_mask_witness :
  let w := xid_world (XcbXid 0 0x400000 0 2) in
  ∃ w' ids, generate_ids 4 w = Ret ids w' ∧ has_error w' = false ∧
    last ids = Some (Z.lor 8 0x400000) ∧ Z.land 8 6 = 0.
Proof.
  apply (xcb_generate_id_leaves_mask 1 2 0x400000 (xid_world (XcbXid 0 0x400000 0 2)));
    try reflexivity; try lia. set_solver.
Defined.
End Witnesses.
