(* ===== verification/RequestFacts.v ===== *)
(** * The wire format of requests

    What [xcb_send_request] puts on the wire: the header with the request's
    length, the padding, the BIG-REQUESTS length and the [GetInputFocus] that
    keeps the 16-bit sequence numbers unambiguous. *)
From S2P Require Import Prelude Effects Seq XcbMap State In InFrame InFacts Conn Out OutFacts.
From S2P Require Import OutProps Ext Xid Request.
#[local] Open Scope Z_scope.

(** ** Specifications *)

Definition iov_bytes (v : iovec) : list byte :=
  match v with IovBuf bs => bs | IovNull len => replicate (Z.to_nat len) Byte.x00 end.

(** The bytes the caller passes, with zeros for the padding. *)
Definition payload (vector : list iovec) : list byte := concat (iov_bytes <$> vector).

Section Format.
Context `{Host}.

(** The number of words a server takes the request at the front of a stream to
    have: the length field, or with BIG-REQUESTS the word behind a zero one. *)
Definition request_words (bs : list byte) : Z :=
  if field 2 2 bs =? 0 then field 4 4 bs else field 2 2 bs.

(** The bytes of a request whose vector is [vec] and whose [prefix[2]] is
    [big]. *)
Definition request_bytes (big : Z) (vec : list (list byte)) : list byte :=
  if big =? 0 then concat vec
  else take 4 (concat vec) ++ host_bytes 4 big ++ drop 4 (concat vec).

Lemma length_overwrite off bs buf :
  (off + length bs <= length buf)%nat → length (overwrite off bs buf) = length buf.
Proof. intros. unfold overwrite. rewrite !length_app, length_take, length_drop. lia. Qed.

Lemma drop_overwrite k off bs buf :
  (off + length bs <= k)%nat → (off <= length buf)%nat →
  drop k (overwrite off bs buf) = drop k buf.
Proof.
  intros Hk Hl. unfold overwrite. rewrite drop_app_ge by (rewrite length_take; lia).
  rewrite length_take, drop_app_ge by lia. rewrite drop_drop. f_equal. lia.
Qed.

Lemma take_overwrite k off bs buf :
  (k <= off)%nat → (off <= length buf)%nat → take k (overwrite off bs buf) = take k buf.
Proof.
  intros Hk Hl. unfold overwrite. rewrite take_app_le by (rewrite length_take; lia).
  rewrite take_take. f_equal. lia.
Qed.

Lemma field_overwrite off n z buf :
  (off + n <= length buf)%nat →
  field off n (overwrite off (host_bytes n z) buf) = z mod 256 ^ Z.of_nat n.
Proof.
  intros Hl. unfold field, overwrite.
  rewrite drop_app_ge by (rewrite length_take; lia).
  rewrite length_take, Nat.min_l, Nat.sub_diag, drop_0 by lia.
  rewrite take_app_le, take_ge by (rewrite length_host_bytes; lia).
  apply host_val_bytes.
Qed.

(** A big request: the length is behind the first word. *)
Lemma field_inserted z bs :
  (4 <= length bs)%nat →
  field 4 4 (take 4 bs ++ host_bytes 4 z ++ drop 4 bs) = z mod 2 ^ 32.
Proof.
  intros Hl. unfold field. rewrite drop_app_ge by (rewrite length_take; lia).
  rewrite length_take, Nat.min_l, Nat.sub_diag, drop_0 by lia.
  rewrite take_app_le, take_ge by (rewrite length_host_bytes; lia).
  apply host_val_bytes.
Qed.

Lemma request_words_short bs :
  field 2 2 bs ≠ 0 → request_words bs = field 2 2 bs.
Proof. intros Hf. unfold request_words. by destruct (Z.eqb_spec (field 2 2 bs) 0). Qed.
End Format.

Section Header.
Context `{Host} `{XProto}.

Lemma pad_vector_inv vector w r w' :
  pad_vector vector w = Ret r w' →
  w' = w ∧ r = (zlength (payload vector), iov_bytes <$> vector).
Proof.
  revert r w'. induction vector as [|v t IH]; intros r w' E; cbn [pad_vector] in E.
  { by injection E as <- <-. }
  apply bind_inv in E as (b & w1 & E1 & E).
  assert (w1 = w ∧ b = iov_bytes v) as [-> ->].
  { destruct v as [bs|len]; [by injection E1 as <- <-|].
    apply bind_inv in E1 as ([] & w2 & E2 & E1). injection E1 as <- <-.
    destruct (len <=? 3); [by injection E2 as <-|done]. }
  apply bind_inv in E as (r2 & w2 & E2 & E). apply IH in E2 as [-> ->].
  injection E as <- <-. split; [done|]. unfold payload. cbn. by rewrite zlength_app.
Qed.

Lemma request_opcodes_inv req w ops w' :
  request_opcodes req w = Ret (Some ops) w' →
  (1 <= length ops <= 2)%nat ∧
  (req_ext req = None → w' = w ∧ ops = [byte_of (req_opcode req)]).
Proof.
  unfold request_opcodes. destruct (req_ext req) as [ext|].
  - intros (d & w1 & _ & E)%bind_inv. destruct d as [r|]; [|done].
    destruct (present r); [|done]. injection E as <- _. split; [cbn; lia|done].
  - intros [= <- <-]. split; [cbn; lia|done].
Qed.

(** The setup's limit is a 16-bit field. *)
Definition setup_limit_16 : Prop :=
  ∀ bs, 0 <= setup_maximum_request_length (setup_view bs) < 2 ^ 16.

(** The limit and its excess, when the header has been accepted: a short length,
    or zero and the length for BIG-REQUESTS. *)
Definition lengths_for (n : Z) (vec : list (list byte)) (ops d : list byte)
    (rest : list iovec) (big : Z) : Prop :=
  ∃ shortlen, vec = overwrite 2 (host_bytes 2 shortlen) (overwrite 0 ops d) :: (iov_bytes <$> rest) ∧
    (0 < shortlen < 2 ^ 16 ∧ shortlen = n ∧ big = 0 ∨ shortlen = 0 ∧ big = u32 (n + 1)).

Lemma words_of_bytes total :
  4 <= total → Z.land total 3 = 0 → 4 * Z.shiftr total 2 = total ∧ 0 < Z.shiftr total 2.
Proof.
  intros H4 Hl. change 3 with (Z.ones 2) in Hl. rewrite Z.land_ones in Hl by lia.
  rewrite Z.shiftr_div_pow2 by lia. change (2 ^ 2) with 4 in *.
  pose proof (Z.div_mod total 4). lia.
Qed.

Lemma fill_header_inv vector req w vec big w' :
  setup_limit_16 →
  fill_header vector req w = Ret (Some (vec, big)) w' →
  ∃ d rest ops,
    vector = IovBuf d :: rest ∧ (4 <= length d)%nat ∧ (1 <= length ops <= 2)%nat ∧
    (req_ext req = None → ops = [byte_of (req_opcode req)]) ∧
    zlength (payload vector) = 4 * Z.shiftr (zlength (payload vector)) 2 ∧
    lengths_for (Z.shiftr (zlength (payload vector)) 2) vec ops d rest big.
Proof.
  intros H16 E. destruct vector as [|v0 rest]; [done|]. cbn [fill_header] in E.
  apply bind_inv in E as ([] & w1 & E1 & E).
  destruct (Z.leb_spec 4 (iov_len v0)) as [H4|]; [injection E1 as <-|done].
  apply bind_inv in E as (ops & w2 & E2 & E). destruct ops as [ops|]; [|by apply bind_inv in E as (? & ? & ? & ?)].
  apply request_opcodes_inv in E2 as [Hops Hcore].
  apply bind_inv in E as (d' & w3 & E3 & E). destruct v0 as [d|]; [|done].
  injection E3 as <- <-. cbn in H4. cbv zeta in E.
  apply bind_inv in E as (p & w4 & E4 & E). apply pad_vector_inv in E4 as [-> ->]. cbn [fst snd] in E.
  assert (zlength (overwrite 0 ops d) = zlength d) as Hd.
  { unfold zlength in *. rewrite length_overwrite; lia. }
  rewrite Hd in E. assert (zlength d + zlength (payload rest) = zlength (payload (IovBuf d :: rest))) as Ht.
  { unfold payload. cbn. by rewrite zlength_app. }
  rewrite Ht in E. set (total := zlength (payload (IovBuf d :: rest))) in *.
  apply bind_inv in E as ([] & w5 & E5 & E).
  destruct (Z.eqb_spec (Z.land total 3) 0) as [Hl|]; [injection E5 as <-|done].
  pose proof (zlength_nonneg (payload rest)).
  destruct (words_of_bytes total) as [Hn Hpos]; [lia|done|].
  exists d, rest, ops. split_and!; try done.
  { unfold zlength in *. lia. } { apply Hops. } { apply Hops. } { naive_solver. }
  apply bind_inv in E as (s & w6 & E6 & E). apply bind_inv in E as (lens & w7 & E7 & E).
  assert (setup_maximum_request_length s < 2 ^ 16) as Hs.
  { unfold get_setup in E6. rewrite bind_gets in E6. destruct (setup w2); [|done].
    injection E6 as <- _. apply H16. }
  destruct (Z.leb_spec (Z.shiftr total 2) (setup_maximum_request_length s)) as [Hle|Hgt].
  - injection E7 as <- <-. rewrite u16_small in E by lia. injection E as <- <- _.
    eexists. split; [done|]. left.
    destruct (Z.eqb_spec (Z.shiftr total 2) 0); lia.
  - apply bind_inv in E7 as (max & w8 & _ & E7).
    destruct (Z.shiftr total 2 >? max); injection E7 as <- <-.
    { by apply bind_inv in E as (? & ? & ? & ?). }
    injection E as <- <- _. eexists. split; [done|]. by right.
Qed.

(** The request behind an accepted header, on the wire. *)
Lemma fill_header_bytes n vec ops d rest big :
  (4 <= length d)%nat → (1 <= length ops <= 2)%nat → 0 < n < 2 ^ 32 - 1 →
  zlength (payload (IovBuf d :: rest)) = 4 * n →
  lengths_for n vec ops d rest big →
  zlength (concat vec) = 4 * n ∧
  take (length ops) (concat vec) = ops ∧
  drop 4 (concat vec) = drop 4 (payload (IovBuf d :: rest)) ∧
  request_words (request_bytes big vec) * 4 = zlength (request_bytes big vec).
Proof.
  intros Hd Hops Hn Ht (shortlen & -> & Hs). cbn [concat].
  set (d1 := overwrite 0 ops d). set (h := host_bytes 2 shortlen).
  set (tl := concat (iov_bytes <$> rest)).
  assert (length d1 = length d) as Hl1 by (apply length_overwrite; lia).
  assert (length h = 2%nat) as Hh by apply length_host_bytes.
  assert (length (overwrite 2 h d1) = length d) as Hl2.
  { rewrite length_overwrite; rewrite ?Hh; lia. }
  assert (zlength (overwrite 2 h d1 ++ tl) = 4 * n) as Hlen.
  { rewrite <- Ht. unfold payload. cbn. rewrite !zlength_app. unfold zlength. by rewrite Hl2. }
  assert (field 2 2 (overwrite 2 h d1 ++ tl) = shortlen mod 2 ^ 16) as Hf.
  { rewrite field_app_l by (rewrite Hl2; lia). subst h. rewrite field_overwrite by lia. done. }
  split_and!; [done| | |].
  - rewrite take_app_le by lia. subst d1. rewrite take_overwrite by lia.
    unfold overwrite. rewrite take_0. cbn [app]. by rewrite take_app_length.
  - unfold payload. cbn. rewrite !drop_app_le by lia. f_equal.
    rewrite drop_overwrite by lia. subst d1. apply drop_overwrite; lia.
  - unfold request_bytes. cbn [concat]. fold tl.
    destruct Hs as [(Hs & -> & ->)|[-> ->]].
    + cbn [Z.eqb]. rewrite request_words_short; rewrite Hf, Z.mod_small by lia; lia.
    + rewrite (u32_small (n + 1)) by lia. destruct (Z.eqb_spec (n + 1) 0); [lia|].
      set (bs := overwrite 2 h d1 ++ tl) in *.
      assert (4 <= length bs)%nat as Hb4 by (unfold zlength in Hlen; lia).
      assert (field 2 2 (take 4 bs ++ host_bytes 4 (n + 1) ++ drop 4 bs) = 0) as Hz.
      { rewrite field_app_l by (rewrite length_take; lia).
        rewrite <- (field_app_l 2 2 (take 4 bs) (drop 4 bs)) by (rewrite length_take; lia).
        by rewrite take_drop, Hf. }
      unfold request_words. rewrite Hz. cbn [Z.eqb].
      rewrite field_inserted, Z.mod_small by lia.
      rewrite !zlength_app. unfold zlength at 1 2 3. unfold zlength in Hlen.
      rewrite length_take, length_drop, length_host_bytes. lia.
Qed.
End Header.

(** ** Sequence numbers *)

Section Sync.
Context `{Host} `{XProto}.

(** What registering pending replies may change. *)
Record expects (w w' : world) : Prop := {
  exp_side : send_side w w';
  exp_sent : os_sent (w_os w') = os_sent (w_os w);
  exp_signals : os_signals (w_os w') = os_signals (w_os w);
  exp_oom : no_oom w → has_error w' = has_error w ∧ no_oom w'
}.

Lemma expects_trans w1 w2 w3 : expects w1 w2 → expects w2 w3 → expects w1 w3.
Proof.
  intros [] []. split; [by eapply send_side_trans|congruence..|].
  intros Ho. destruct (exp_oom0 Ho) as [? Ho2]. destruct (exp_oom1 Ho2). split; congruence.
Qed.

Lemma expect_reply_ret q wk fl w :
  wk ≠ WORKAROUND_NONE ∨ fl ≠ 0 →
  ∃ r w', _xcb_in_expect_reply q wk fl w = Ret r w' ∧ conn_side w w' ∧
    expects w w' ∧ request_expected (w_in w') = request_expected (w_in w).
Proof.
  intros Hw. unfold _xcb_in_expect_reply.
  destruct (malloc_cases 32 w) as (ok & ms & E & Hok); [lia|].
  rewrite (bind_run _ _ _ _ _ E).
  assert (negb (bool_decide (wk = WORKAROUND_NONE)) || negb (fl =? 0) = true) as ->.
  { destruct Hw as [Hw|Hw].
    - by rewrite bool_decide_eq_false_2.
    - rewrite (proj2 (Z.eqb_neq fl 0)) by done. apply orb_true_r. }
  cbn [assertM]. rewrite bind_ret.
  assert (conn_side w (set_has_error true (with_mallocs ms w))) by by split.
  destruct ok; cbn [negb]; do 2 eexists; (split; [done|]); (split; [by repeat split|]);
    (split; [|done]); (split; [by repeat split|done|done|]).
  - intros Ho. by destruct (Hok Ho) as [_ ->].
  - intros Ho. by destruct (Hok Ho) as [? _].
Qed.

(** [xcb_send_request] sends a [GetInputFocus] first. *)
Definition needs_sync (isvoid : bool) (q expected : Z) : bool :=
  isvoid && (q =? u64 (expected + 2 ^ 16 - 1)).

(** The loop ends when the condition is false. *)
Lemma sync_loop_done fuel isvoid q synced w :
  sync_needed isvoid q w = false → sync_loop (S fuel) isvoid q synced w = Ret (q, synced) w.
Proof. intros E. cbn [sync_loop]. by rewrite bind_gets, E. Qed.

Lemma sync_loop_again fuel isvoid q synced w w1 r :
  sync_needed isvoid q w = true →
  _xcb_in_expect_reply q WORKAROUND_NONE XCB_REQUEST_DISCARD_REPLY w = Ret r w1 →
  sync_loop (S fuel) isvoid q synced w =
    let q' := u64 (out_request (w_out w1) + 1) in
    sync_loop fuel isvoid q' true (set_w_out (set_out_request q' (w_out w1))
      (set_w_in (set_request_expected (out_request (w_out w1)) (w_in w1)) w1)).
Proof.
  intros E E1. cbn [sync_loop]. by rewrite bind_gets, E, (bind_run _ _ _ _ _ E1).
Qed.

(** The loop runs at most once below the wrap-around of the 64-bit counter; it
    leaves the request with the next free number. *)
Lemma sync_loop_ok isvoid q w :
  out_request (w_out w) = q → 0 < q < 2 ^ 64 - 1 →
  let b := needs_sync isvoid q (request_expected (w_in w)) in
  let q' := if b then q + 1 else q in
  ∃ w', sync_loop 3 isvoid q false w = Ret (q', b) w' ∧ expects w w' ∧
    w_out w' = set_out_request q' (w_out w) ∧
    request_expected (w_in w') = if b then q else request_expected (w_in w).
Proof.
  intros Hq Hr b q'.
  assert (sync_needed isvoid q w = b) as Hb.
  { unfold sync_needed. rewrite Hq. destruct (Z.eqb_spec q 0); [lia|]. apply orb_false_r. }
  subst q'. clearbody b. destruct b.
  2: { exists w. split; [by apply sync_loop_done|]. split; [by repeat split|]. split; [|done].
       rewrite <- Hq. by destruct (w_out w). }
  edestruct (expect_reply_ret q WORKAROUND_NONE XCB_REQUEST_DISCARD_REPLY w)
    as (r & w1 & E & Hc & Hx & _); [by right|].
  rewrite (sync_loop_again _ _ _ _ _ _ _ Hb E). cbv zeta.
  pose proof (conn_out _ _ Hc) as Ho. rewrite Ho, Hq, (u64_small (q + 1)) by lia.
  rewrite sync_loop_done.
  - eexists. split; [done|]. split_and!; [|done|done].
    destruct Hx as [Hx1 Hx2 Hx3]. split; cbn; [|done..].
    eapply send_side_trans; [exact Hx1|]. by split.
  - unfold sync_needed.
    cbn [w_out w_in set_w_out set_w_in out_request set_out_request request_expected set_request_expected].
    destruct (Z.eqb_spec (q + 1) (u64 (q + 2 ^ 16 - 1))) as [Hw|]; [words|].
    destruct (Z.eqb_spec (q + 1) 0); [lia|]. by rewrite andb_false_r.
Qed.
End Sync.

(** ** The request behind the lock *)

Section SendLocked.
Context `{Host} `{XProto}.

(** [add_prefix]: the synchronising request, then the request with its
    BIG-REQUESTS length. *)
Lemma add_prefix_ok slots synced big vec w :
  (0 < slots)%nat → small_iov vec → 4 <= zlength (default [] (vec !! 0%nat)) →
  ∃ s v', add_prefix slots synced big vec w = Ret (s, v') w ∧ small_iov v' ∧
    (slots - 1 <= s)%nat ∧ (v' = [] → vec = []) ∧
    concat v' = (if synced then sync_req else []) ++ request_bytes big vec.
Proof.
  intros Hs Hv Hl. destruct vec as [|d rest]; [by unfold zlength in Hl; cbn in Hl; lia|].
  change (4 <= zlength d) in Hl.
  unfold add_prefix, request_bytes.
  apply Forall_cons in Hv as [Hd Hrest]. unfold zlength in Hl, Hd.
  assert (zlength sync_req < 2 ^ 31) as Hsl.
  { unfold sync_req, zlength. rewrite length_app, length_host_bytes. cbn. lia. }
  destruct (decide (slots = 0%nat)); [lia|].
  destruct (Z.eqb_spec big 0) as [->|Hb]; cbn [negb].
  - destruct synced; cbn [orb]; do 2 eexists; (split; [done|]); split_and!; try done; try lia.
    + apply Forall_cons. split; [exact Hsl|]. by apply Forall_cons.
    + by apply Forall_cons.
  - rewrite orb_true_r. destruct (Z.ltb_spec (zlength d) 4); [unfold zlength in *; lia|].
    do 2 eexists. split; [done|]. split_and!; [|lia|done|].
    + apply Forall_cons. split; [|apply Forall_cons; split; [|done]].
      * unfold zlength, sync_req. rewrite !length_app, length_host_bytes, length_take.
        destruct synced; cbn [length app]; rewrite ?length_app, ?length_host_bytes; cbn [length]; lia.
      * unfold zlength. rewrite length_drop. lia.
    + cbn [concat]. rewrite take_app_le, drop_app_le by lia. by rewrite <- !app_assoc.
Qed.

(** The window of sequence numbers: fewer than [2^16] requests are outstanding
    without an expected reply. *)
Definition sync_window (w : world) : Prop :=
  0 <= request_expected (w_in w) <= out_request (w_out w) ∧
  out_request (w_out w) - request_expected (w_in w) <= 2 ^ 16 - 2.

(** What [send_locked] does to a connection without a socket owner or a writer. *)
Definition sent_request (isvoid : bool) (big : Z) (vec : list (list byte))
    (w : world) (r : Z) (w' : world) : Prop :=
  let q := out_request (w_out w) + 1 in
  let b := needs_sync isvoid q (request_expected (w_in w)) in
  let q' := if b then q + 1 else q in
  out_request (w_out w') = q' ∧ held w' = held w ∧
  zlength (out_queue (w_out w')) <= XCB_QUEUE_BUFFER_SIZE ∧
  ∃ rest,
    wire w' ++ rest =
      wire w ++ (if b then sync_req else []) ++ request_bytes big vec ∧
    (r = q' ∧ rest = [] ∨ r = 0 ∧ has_error w' = true).

Lemma get_socket_back_none w : out_return_socket (w_out w) = None → get_socket_back w = Ret () w.
Proof. intros E. unfold get_socket_back. by rewrite bind_gets, E. Qed.

(** Registering the reply of the request itself. *)
Lemma expect_own q wk fl w :
  ∃ w', when (negb (bool_decide (wk = WORKAROUND_NONE)) || negb (fl =? 0))
      (_xcb_in_expect_reply q wk fl;; ret ()) w = Ret () w' ∧ conn_side w w' ∧
    expects w w' ∧ request_expected (w_in w') = request_expected (w_in w).
Proof.
  destruct (negb (bool_decide (wk = WORKAROUND_NONE)) || negb (fl =? 0)) eqn:E; cbn [when].
  - destruct (expect_reply_ret q wk fl w) as (r & w' & E1 & H1).
    { apply orb_true_iff in E as [E|E].
      - left. intros ->. by rewrite bool_decide_eq_true_2 in E.
      - right. intros ->. done. }
    exists w'. by rewrite (bind_run _ _ _ _ _ E1).
  - exists w. split; [done|]. by repeat split.
Qed.

(** [number_request]: the numbers and the vector it hands to [write_block]. *)
Lemma number_request_step fl slots vec big wk isvoid w :
  out_return_socket (w_out w) = None →
  0 <= out_request (w_out w) < 2 ^ 64 - 2 →
  (0 < slots)%nat → small_iov vec → 4 <= zlength (default [] (vec !! 0%nat)) →
  let q := out_request (w_out w) + 1 in
  let b := needs_sync isvoid q (request_expected (w_in w)) in
  let q' := if b then q + 1 else q in
  ∃ w4 s v',
    number_request fl slots vec big wk isvoid w = Ret (q', (s, v')) w4 ∧
    (slots - 1 <= s)%nat ∧ small_iov v' ∧
    concat v' = (if b then sync_req else []) ++ request_bytes big vec ∧
    expects w w4 ∧ w_out w4 = set_out_request q' (w_out w) ∧
    request_expected (w_in w4) =
      (if isvoid then (if b then q else request_expected (w_in w)) else q').
Proof.
  intros Hn Hr Hs Hv Hd q b q'. unfold number_request.
  rewrite (bind_run _ _ _ _ _ (get_socket_back_none w Hn)).
  unfold modify_out. rewrite bind_modify, bind_gets. unfold compose.
  set (w1 := set_w_out _ w).
  assert (out_request (w_out w1) = q) as Hq1 by (subst w1 q; cbn; apply u64_small; lia).
  rewrite Hq1.
  destruct (sync_loop_ok isvoid q w1 Hq1 ltac:(subst q; lia)) as (w2 & E2 & Hx2 & Ho2 & Hre2).
  change (request_expected (w_in w1)) with (request_expected (w_in w)) in *.
  fold b q' in E2, Ho2, Hre2. rewrite (bind_run _ _ _ _ _ E2). cbn [fst snd].
  destruct (expect_own q' wk fl w2) as (w3 & E3 & Hc3 & Hx3 & Hre3).
  rewrite (bind_run _ _ _ _ _ E3). pose proof (conn_out _ _ Hc3) as Ho3.
  assert (∃ w4, when (negb isvoid) (o ← gets w_out; modify_in (set_request_expected (out_request o))) w3
      = Ret () w4 ∧ expects w3 w4 ∧ w_out w4 = w_out w2 ∧
      request_expected (w_in w4) = if isvoid then request_expected (w_in w3) else q')
    as (w4 & E4 & Hx4 & Ho4 & Hre4).
  { destruct isvoid; cbn; eexists; (split; [done|]); (split; [by repeat split|]);
      (split; [done|]); [done|]. cbn. by rewrite Ho3, Ho2. }
  rewrite (bind_run _ _ _ _ _ E4).
  destruct (add_prefix_ok slots b big vec w4 Hs Hv Hd) as (s & v' & E5 & Hv' & Hsl & _ & Hcat).
  rewrite (bind_run _ _ _ _ _ E5). exists w4, s, v'. split_and!; try done.
  - assert (expects w w1) as Hx1 by by repeat split.
    by do 3 (eapply expects_trans; [eassumption|]).
  - by rewrite Ho4, Ho2.
  - rewrite Hre4. destruct isvoid; [by rewrite Hre3, Hre2|done].
Qed.

(** [send_locked] up to [write_block]. *)
Lemma send_locked_step fl slots vec big wk isvoid w :
  out_writing (w_out w) = 0 → out_return_socket (w_out w) = None →
  0 <= out_request (w_out w) < 2 ^ 64 - 2 →
  (0 < slots)%nat → small_iov vec → 4 <= zlength (default [] (vec !! 0%nat)) →
  let q := out_request (w_out w) + 1 in
  let b := needs_sync isvoid q (request_expected (w_in w)) in
  let q' := if b then q + 1 else q in
  ∃ w4 s v',
    send_locked fl slots vec big wk isvoid w =
      (ok ← write_block s v'; if ok then ret q' else _xcb_conn_shutdown;; ret 0) w4 ∧
    number_request fl slots vec big wk isvoid w = Ret (q', (s, v')) w4 ∧
    small_iov v' ∧ concat v' = (if b then sync_req else []) ++ request_bytes big vec ∧
    expects w w4 ∧ w_out w4 = set_out_request q' (w_out w) ∧
    request_expected (w_in w4) =
      (if isvoid then (if b then q else request_expected (w_in w)) else q').
Proof.
  intros Hw Hn Hr Hs Hv Hd q b q'. unfold send_locked.
  rewrite bind_gets. unfold compose. rewrite Hw. cbn [Z.eqb negb]. rewrite bind_when_false.
  destruct (number_request_step fl slots vec big wk isvoid w)
    as (w4 & s & v' & E & _ & Hv' & Hcat & Hx & Ho & Hre); [done..|].
  fold q b q' in E, Hcat, Ho, Hre. rewrite (bind_run _ _ _ _ _ E).
  by exists w4, s, v'.
Qed.

Lemma send_locked_inv fl slots vec big wk isvoid w r w' :
  holds_iolock w → out_writing (w_out w) = 0 → out_return_socket (w_out w) = None →
  0 <= out_request (w_out w) < 2 ^ 64 - 2 →
  zlength (out_queue (w_out w)) <= XCB_QUEUE_BUFFER_SIZE →
  (0 < slots)%nat → small_iov vec → 4 <= zlength (default [] (vec !! 0%nat)) →
  send_locked fl slots vec big wk isvoid w = Ret r w' →
  sent_request isvoid big vec w r w'.
Proof.
  intros Hl Hw Hn Hr Hq Hs Hv Hd E.
  destruct (send_locked_step fl slots vec big wk isvoid w)
    as (w4 & s & v' & Eq & _ & Hv' & Hcat & Hx & Ho & _); [done..|].
  rewrite Eq in E. clear Eq. apply bind_inv in E as (ok & w6 & E6 & E).
  apply write_block_on_wire in E6 as (Hs6 & Hb6 & Hq6 & rest & Hwire & Hok & _); [|..|done|].
  2: { eapply holds_iolock_side; [apply Hx|exact Hl]. }
  2: { rewrite Ho. exact Hq. }
  assert (held w6 = held w) as Hh6.
  { transitivity (held w4); [exact (conn_held _ _ Hs6)|exact (conn_held _ _ (exp_side _ _ Hx))]. }
  unfold wire at 2 in Hwire. rewrite Ho in Hq6. rewrite Ho, (exp_sent _ _ Hx), Hcat in Hwire.
  unfold sent_request. destruct ok.
  - injection E as <- <-. split_and!; try done. exists rest. split; [done|]. left. auto.
  - injection E as <- <-. cbn. split_and!; try done. exists rest. split; [exact Hwire|]. by right.
Qed.

(** When everything fits the queue, [send_locked] does no input or output. *)
Lemma send_locked_fits fl slots vec big wk isvoid w :
  out_writing (w_out w) = 0 → out_return_socket (w_out w) = None →
  0 <= out_request (w_out w) < 2 ^ 64 - 2 →
  (0 < slots)%nat → small_iov vec → 4 <= zlength (default [] (vec !! 0%nat)) →
  zlength (out_queue (w_out w)) + 4 + zlength (request_bytes big vec) <= XCB_QUEUE_BUFFER_SIZE →
  let q := out_request (w_out w) + 1 in
  let b := needs_sync isvoid q (request_expected (w_in w)) in
  let q' := if b then q + 1 else q in
  ∃ w', send_locked fl slots vec big wk isvoid w = Ret q' w' ∧
    expects w w' ∧
    w_out w' = set_out_queue (out_queue (w_out w) ++ (if b then sync_req else []) ++
      request_bytes big vec) (set_out_request q' (w_out w)) ∧
    request_expected (w_in w') =
      (if isvoid then (if b then q else request_expected (w_in w)) else q') ∧
    ∃ p wn, number_request fl slots vec big wk isvoid w = Ret p wn ∧ w' = set_w_out (w_out w') wn.
Proof.
  intros Hw Hn Hr Hs Hv Hd Hf q b q'.
  destruct (send_locked_step fl slots vec big wk isvoid w)
    as (w4 & s & v' & Eq & En & Hv' & Hcat & Hx & Ho & Hre); [done..|].
  fold q b q' in Eq, Hcat, Ho, Hre. rewrite Eq. clear Eq.
  assert (zlength (if b then sync_req else []) <= 4) as Hsl.
  { unfold zlength, sync_req. destruct b; [rewrite length_app, length_host_bytes|]; cbn; lia. }
  assert (zlength (out_queue (w_out w4)) + zlength (concat v') <= XCB_QUEUE_BUFFER_SIZE) as Hfit.
  { rewrite Ho, Hcat, zlength_app. cbn [out_queue set_out_request]. lia. }
  rewrite (bind_run _ _ _ _ _ (write_block_fits s v' w4 Hfit)).
  eexists. split; [done|]. rewrite Ho, Hcat. split; [|split_and!; [done..|by eexists _, w4]].
  eapply expects_trans; [exact Hx|]. by repeat split.
Qed.
End SendLocked.
