(* ===== verification/RequestProps.v ===== *)
(** * Requests are well formed and numbered

    The theorems about [xcb_send_request]. *)
From S2P Require Import Prelude Effects Seq XcbMap State In InFrame InFacts Conn Out OutFacts.
From S2P Require Import OutProps Ext Xid Request RequestFacts Sample.
#[local] Open Scope Z_scope.

Section Core.
Context `{Host} `{XProto}.

(** [bytes] is the request [op] with the body [body] as a server reads it: its
    length is that of its length field or, when that is zero, of the word
    behind it. *)
Definition is_request (op : Z) (body bytes : list byte) : Prop :=
  take 1 bytes = [byte_of op] ∧ 4 * request_words bytes = zlength bytes ∧
  ∃ hdr, bytes = hdr ++ body ∧
    (length hdr = 4%nat ∨ length hdr = 8%nat ∧ field 2 2 bytes = 0).

Lemma get_mrl_forced w :
  has_error w = false → mrl_tag (w_out w) = LAZY_FORCED → ReqLenLock ∉ held w →
  xcb_get_maximum_request_length w = Ret (mrl (w_out w)) w.
Proof.
  intros He Ht Hl. unfold xcb_get_maximum_request_length. rewrite bind_gets, He.
  assert (xcb_prefetch_maximum_request_length w = Ret () w) as E.
  { unfold xcb_prefetch_maximum_request_length.
    rewrite bind_gets, He, (bind_lock ReqLenLock (held w)) by done.
    rewrite bind_gets. cbn [w_out set_held]. rewrite Ht, bool_decide_eq_false_2 by done.
    rewrite bind_when_false, (unlock_run ReqLenLock (held w)) by done. by destruct w. }
  rewrite (bind_run _ _ _ _ _ E), (bind_lock ReqLenLock (held w)), bind_gets by done.
  cbn [w_out set_held]. rewrite Ht, bool_decide_eq_false_2, bind_when_false by done.
  rewrite (bind_unlock ReqLenLock (held w)) by done. rewrite bind_gets. by destruct w.
Qed.

(** The header of a core request does not touch the connection. *)
Lemma fill_header_core vector req w h w' :
  has_error w = false → mrl_tag (w_out w) = LAZY_FORCED → ReqLenLock ∉ held w →
  req_ext req = None →
  fill_header vector req w = Ret h w' →
  w' = match h with Some _ => w | None => set_has_error true w end.
Proof.
  intros He Ht Hl Hc E. destruct vector as [|v0 rest]; [done|]. cbn [fill_header] in E.
  apply bind_inv in E as ([] & w1 & E1 & E).
  destruct (4 <=? iov_len v0); [injection E1 as <-|done].
  unfold request_opcodes in E. rewrite Hc, bind_ret in E.
  apply bind_inv in E as (d & w3 & E3 & E). destruct v0; [|done]. injection E3 as <- <-.
  cbv zeta in E. apply bind_inv in E as (p & w4 & [-> ->]%pad_vector_inv & E).
  apply bind_inv in E as ([] & w5 & E5 & E).
  destruct (_ =? 0); [injection E5 as <-|done].
  apply bind_inv in E as (s & w6 & E6 & E).
  assert (w6 = w) as ->.
  { unfold get_setup in E6. rewrite bind_gets in E6. destruct (setup w); by inversion E6. }
  apply bind_inv in E as (lens & w7 & E7 & E).
  assert (w7 = w) as ->.
  { destruct (_ <=? setup_maximum_request_length s); [by inversion E7|].
    rewrite (bind_run _ _ _ _ _ (get_mrl_forced w He Ht Hl)) in E7.
    destruct (_ >? _); by inversion E7. }
  destruct lens as [[shortlen longlen]|]; by inversion E.
Qed.

Lemma request_is_request n vec op d rest big :
  (4 <= length d)%nat → 0 < n < 2 ^ 32 - 1 →
  zlength (payload (IovBuf d :: rest)) = 4 * n →
  lengths_for n vec [byte_of op] d rest big →
  is_request op (drop 4 (payload (IovBuf d :: rest))) (request_bytes big vec).
Proof.
  intros Hd Hn Hp Hf.
  destruct (fill_header_bytes n vec [byte_of op] d rest big) as (Hl & Hop & Hb & Hw);
    [done|cbn; lia|done..|].
  assert (4 <= length (concat vec))%nat as Hlen by (unfold zlength in *; lia).
  split; [|split; [lia|]].
  - unfold request_bytes. destruct (big =? 0); [done|].
    rewrite take_app_le by (rewrite length_take; lia). rewrite take_take. done.
  - rewrite <- Hb. destruct Hf as (shortlen & Hv & Hs). unfold request_bytes in *.
    destruct (Z.eqb_spec big 0) as [->|Hb0].
    + exists (take 4 (concat vec)). rewrite take_drop, length_take. split; [done|left; lia].
    + exists (take 4 (concat vec) ++ host_bytes 4 big). rewrite <- app_assoc. split; [done|].
      right. rewrite length_app, length_take, length_host_bytes. split; [lia|].
      destruct Hs as [(? & ? & ?)|[-> _]]; [done|].
      rewrite field_app_l by (rewrite length_take; lia).
      rewrite <- (field_app_l 2 2 (take 4 (concat vec)) (drop 4 (concat vec)))
        by (rewrite length_take; lia).
      rewrite take_drop, Hv. cbn [concat].
      assert (length (overwrite 0 [byte_of op] d) = length d) as Hld
        by (apply length_overwrite; cbn; lia).
      rewrite field_app_l.
      2: { rewrite length_overwrite; rewrite ?length_host_bytes; lia. }
      by rewrite field_overwrite by lia.
Qed.

Lemma vec_small n vec ops d rest big :
  (4 <= length d)%nat → (length ops <= 2)%nat → n < 2 ^ 29 →
  zlength (payload (IovBuf d :: rest)) = 4 * n → lengths_for n vec ops d rest big →
  small_iov vec ∧ 4 <= zlength (default [] (vec !! 0%nat)).
Proof.
  intros Hd Ho Hn Hp (sl & -> & _). unfold payload in Hp. cbn in Hp. rewrite zlength_app in Hp.
  assert (zlength (overwrite 2 (host_bytes 2 sl) (overwrite 0 ops d)) = zlength d) as Hl.
  { unfold zlength. rewrite !length_overwrite; rewrite ?length_overwrite, ?length_host_bytes; lia. }
  cbn [lookup list_lookup default from_option]. unfold small_iov. rewrite Forall_cons, Hl.
  pose proof (zlength_nonneg (concat (iov_bytes <$> rest))). unfold id.
  split; [split; [lia|]|rewrite Hl; unfold zlength; lia].
  apply Forall_forall. intros b Hb.
  assert (zlength b <= zlength (concat (iov_bytes <$> rest))); [|pose proof (zlength_nonneg d); lia].
  revert Hb. generalize (iov_bytes <$> rest). intros l. clear.
  induction l as [|x l IH]; [set_solver|]. cbn [concat]. rewrite zlength_app.
  pose proof (zlength_nonneg x). pose proof (zlength_nonneg (concat l)).
  intros [->|Hb]%elem_of_cons; [lia|]. specialize (IH Hb). lia.
Qed.

(** A vector as the request stubs build it: the header and the body, padding of
    at most three bytes, a multiple of four bytes in all. *)
Record stub_vector (vector : list iovec) (d : list byte) (rest : list iovec) (n : Z) : Prop := {
  sv_eq : vector = IovBuf d :: rest;
  sv_header : (4 <= length d)%nat;
  sv_pads : Forall (λ v, match v with IovNull len => len <= 3 | IovBuf _ => True end) rest;
  sv_words : zlength (payload vector) = 4 * n
}.

Lemma pad_vector_ok vector w :
  Forall (λ v, match v with IovNull len => len <= 3 | IovBuf _ => True end) vector →
  pad_vector vector w = Ret (zlength (payload vector), iov_bytes <$> vector) w.
Proof.
  induction vector as [|v t IH]; intros Hp; [done|]. apply Forall_cons in Hp as [Hv Hp].
  cbn [pad_vector]. assert (∀ B (k : list byte → xM B),
    bind (match v with
          | IovBuf bs => ret bs
          | IovNull len => assertM (len <=? 3);; ret (replicate (Z.to_nat len) Byte.x00)
          end) k w = k (iov_bytes v) w) as E.
  { intros. destruct v as [bs|len]; [done|]. destruct (Z.leb_spec len 3); [done|lia]. }
  rewrite E, (bind_run _ _ _ _ _ (IH Hp)). unfold payload. cbn. by rewrite zlength_app.
Qed.

Lemma land_4 n : Z.land (4 * n) 3 = 0 ∧ Z.shiftr (4 * n) 2 = n.
Proof.
  change 3 with (Z.ones 2). rewrite Z.land_ones, Z.shiftr_div_pow2 by lia.
  change (2 ^ 2) with 4. split; [|rewrite Z.mul_comm; apply Z.div_mul; lia].
  rewrite Z.mul_comm. apply Z.mod_mul. lia.
Qed.

(** The header of a core request that needs no BIG-REQUESTS. *)
Lemma fill_header_short vector d rest n bs req w :
  stub_vector vector d rest n → setup w = Some bs → req_ext req = None →
  0 < n <= setup_maximum_request_length (setup_view bs) → n < 2 ^ 16 →
  fill_header vector req w =
    Ret (Some (overwrite 2 (host_bytes 2 n) (overwrite 0 [byte_of (req_opcode req)] d)
               :: (iov_bytes <$> rest), 0)) w.
Proof.
  intros [-> Hd Hp Hn] Hs Hc Hm H16. unfold payload in Hn. cbn in Hn. rewrite zlength_app in Hn.
  cbn [fill_header iov_len]. destruct (Z.leb_spec 4 (zlength d)); [|unfold zlength in *; lia].
  cbn [assertM]. rewrite bind_ret. unfold request_opcodes. rewrite Hc, !bind_ret. cbv zeta.
  rewrite (bind_run _ _ _ _ _ (pad_vector_ok rest w Hp)). cbn [fst snd].
  assert (zlength (overwrite 0 [byte_of (req_opcode req)] d) = zlength d) as ->.
  { unfold zlength. rewrite length_overwrite; cbn; lia. }
  fold (payload rest) in Hn. rewrite Hn. destruct (land_4 n) as [-> ->].
  cbn [Z.eqb assertM]. rewrite bind_ret. unfold get_setup. rewrite bind_assoc, bind_gets, Hs, bind_ret.
  destruct (Z.leb_spec n (setup_maximum_request_length (setup_view bs))); [|lia].
  rewrite bind_ret, u16_small by lia. destruct (Z.eqb_spec n 0); [lia|]. done.
Qed.

(** [xcb_send_request] of a core request that fits the queue. *)
Definition send_ready (n : Z) (req : protocol_request) (w : world) : Prop :=
  has_error w = false ∧ (IoLock ∉ held w) ∧ out_writing (w_out w) = 0 ∧
  out_return_socket (w_out w) = None ∧ req_ext req = None ∧
  0 <= out_request (w_out w) < 2 ^ 64 - 2 ∧ 0 < n < 2 ^ 16 ∧
  zlength (out_queue (w_out w)) + 4 + 4 * n <= XCB_QUEUE_BUFFER_SIZE ∧
  (∃ bs, setup w = Some bs ∧ n <= setup_maximum_request_length (setup_view bs)).

(** What it has done then: the request is queued, behind a [GetInputFocus] if
    the window of sequence numbers is used up, and nothing is sent. *)
Definition queued (isvoid : bool) (bytes : list byte) (w w' : world) : Prop :=
  let q := out_request (w_out w) + 1 in
  let b := needs_sync isvoid q (request_expected (w_in w)) in
  let q' := if b then q + 1 else q in
  w_out w' = set_out_queue (out_queue (w_out w) ++ (if b then sync_req else []) ++ bytes)
    (set_out_request q' (w_out w)) ∧
  os_sent (w_os w') = os_sent (w_os w) ∧ held w' = held w ∧
  request_expected (w_in w') =
    (if isvoid then if b then q else request_expected (w_in w) else q') ∧
  (no_oom w → has_error w' = false).

Lemma send_core fl slots vector d rest n req w :
  stub_vector vector d rest n → send_ready n req w → (0 < slots)%nat →
  has_flag fl XCB_REQUEST_RAW = false →
  ∃ w' bytes,
    xcb_send_request fl slots vector req w = Ret (u32 (out_request (w_out w'))) w' ∧
    is_request (req_opcode req) (drop 4 (payload vector)) bytes ∧
    queued (req_isvoid req) bytes w w' ∧ zlength bytes = 4 * n ∧
    ∃ vec p wn, number_request (Z.land fl (Z.lnot XCB_REQUEST_RAW)) slots vec 0 WORKAROUND_NONE
        (req_isvoid req) (set_held (IoLock :: held w) w) = Ret p wn ∧
      w' = set_held (held w) (set_w_out (w_out w') wn).
Proof.
  intros Hv (He & Hl & Hwr & Hn & Hc & Hr & H16 & Hq & bs & Hset & Hlim) Hs Hraw.
  pose proof Hv as [Hveq Hd Hp Hw].
  unfold xcb_send_request. rewrite bind_gets, He. rewrite bool_decide_eq_false_2.
  2: { rewrite Hveq, zlength_cons. pose proof (zlength_nonneg rest). lia. }
  cbn [negb assertM]. rewrite bind_ret, Hraw.
  rewrite (bind_run _ _ _ _ _ (fill_header_short _ _ _ _ bs req w Hv Hset Hc ltac:(lia) ltac:(lia))).
  set (vec := _ :: (iov_bytes <$> rest)). unfold glx_workaround. rewrite Hc, bind_ret.
  rewrite (bind_lock IoLock (held w)) by done. set (w1 := set_held (IoLock :: held w) w).
  assert (lengths_for n vec [byte_of (req_opcode req)] d rest 0) as Hf.
  { exists n. split; [done|]. left. lia. }
  rewrite Hveq in Hw.
  destruct (fill_header_bytes n vec [byte_of (req_opcode req)] d rest 0)
    as (Hlen & _); [done|cbn; lia|lia|done..|].
  destruct (vec_small n vec [byte_of (req_opcode req)] d rest 0) as [Hsmall Hhd];
    [done|cbn; lia|lia|done..|].
  destruct (send_locked_fits (Z.land fl (Z.lnot XCB_REQUEST_RAW)) slots vec 0 WORKAROUND_NONE
    (req_isvoid req) w1) as (w2 & E2 & Hx & Ho & Hre & p & wn & En & Hw2); try done.
  { change (request_bytes 0 vec) with (concat vec). rewrite Hlen. exact Hq. }
  rewrite (bind_run _ _ _ _ _ E2).
  assert (held w2 = IoLock :: held w) as Hh2 by exact (conn_held _ _ (exp_side _ _ Hx)).
  rewrite (bind_unlock IoLock (held w)) by done.
  exists (set_held (held w) w2), (request_bytes 0 vec).
  split; [cbn [w_out set_held]; by rewrite Ho|]. split.
  - rewrite Hveq. by apply (request_is_request n); [|lia|..].
  - split; [|split; [exact Hlen|exists vec, p, wn; split; [exact En|by rewrite Hw2 at 1]]].
    unfold queued. cbn. rewrite Ho, Hre. split_and!; try done.
    + apply Hx.
    + intros Hoom. destruct (exp_oom _ _ Hx Hoom) as [-> _]. done.
Qed.
End Core.

Section Claims.
Context `{Host} `{XProto}.

(** C19. Every request whose header [xcb_send_request] accepts, core or extension,
    short or with BIG-REQUESTS, delimits itself: the length a server decodes
    from it is its number of words, its first bytes are the opcodes, and behind
    the header it holds the caller's bytes with zeros for the padding. *)
Theorem fill_header_self_delimiting vector req w vec big w' :
  setup_limit_16 → zlength (payload vector) < 4 * (2 ^ 32 - 1) →
  fill_header vector req w = Ret (Some (vec, big)) w' →
  4 * request_words (request_bytes big vec) = zlength (request_bytes big vec) ∧
  (∃ hdr, request_bytes big vec = hdr ++ drop 4 (payload vector) ∧
     length hdr = if big =? 0 then 4%nat else 8%nat) ∧
  (req_ext req = None → take 1 (request_bytes big vec) = [byte_of (req_opcode req)]).
Proof.
  intros H16 Hlen E.
  apply fill_header_inv in E as (d & rest & ops & -> & Hd & Hops & Hcore & Hn & Hf); [|done].
  set (n := Z.shiftr (zlength (payload (IovBuf d :: rest))) 2) in *.
  assert (0 < n) as Hpos.
  { unfold payload in Hn at 1. cbn in Hn. rewrite zlength_app in Hn.
    pose proof (zlength_nonneg (concat (iov_bytes <$> rest))). unfold zlength at 1 in Hn. lia. }
  destruct (fill_header_bytes n vec ops d rest big) as (Hl & Hop & Hb & Hw); [done..|lia|done|done|].
  assert (4 <= length (concat vec))%nat as Hlc by (unfold zlength in Hl; lia).
  split; [lia|]. split.
  - rewrite <- Hb. unfold request_bytes. destruct (big =? 0).
    + exists (take 4 (concat vec)). by rewrite take_drop, length_take, Nat.min_l by lia.
    + exists (take 4 (concat vec) ++ host_bytes 4 big).
      rewrite <- app_assoc, length_app, length_take, length_host_bytes, Nat.min_l by lia. done.
  - intros Hc. rewrite (Hcore Hc) in *. unfold request_bytes. destruct (big =? 0); [done|].
    rewrite take_app_le by (rewrite length_take; lia). by rewrite take_take.
Qed.

(** C18. A core request that fits the queue is queued without input or output: the
    well-formed request is appended to the queue, and if [2^16 - 2] requests
    without a reply precede it a [GetInputFocus] goes in front of it.  Fewer
    than [2^16 - 1] requests are ever outstanding without an expected reply.  The
    result is the low 32 bits of the request's sequence number; that is 0, the
    value for failure, exactly when the number is a multiple of [2^32], though the
    request has been queued then like any other (the source's comment means to
    exclude this). *)
Theorem xcb_send_request_queues fl slots vector d rest n req w :
  stub_vector vector d rest n → send_ready n req w → (0 < slots)%nat →
  has_flag fl XCB_REQUEST_RAW = false →
  ∃ r w' bytes,
    xcb_send_request fl slots vector req w = Ret r w' ∧
    r = u32 (out_request (w_out w')) ∧ (r = 0 ↔ (2 ^ 32 | out_request (w_out w'))) ∧
    is_request (req_opcode req) (drop 4 (payload vector)) bytes ∧
    queued (req_isvoid req) bytes w w' ∧
    (sync_window w → sync_window w').
Proof.
  intros Hv Hr Hs Hraw.
  destruct (send_core fl slots vector d rest n req w Hv Hr Hs Hraw) as (w' & bytes & E & Hb & Hq & _).
  exists (u32 (out_request (w_out w'))), w', bytes. split_and!; try done.
  { by apply Z.mod_divide. }
  intros [Hw1 Hw2].
  destruct Hr as (_ & _ & _ & _ & _ & Hr & _). destruct Hq as (Ho & _ & _ & He & _).
  unfold sync_window. rewrite Ho, He. unfold needs_sync. cbn [out_request set_out_request set_out_queue].
  destruct (req_isvoid req); cbn [andb]; [|lia].
  destruct (Z.eqb_spec (out_request (w_out w) + 1) (u64 (request_expected (w_in w) + 2 ^ 16 - 1)))
    as [Eq|Hne]; [lia|].
  words.
Qed.

(** The sequence number is a 64-bit counter but the result has 32 bits, with 0
    for failure: the request whose number is a multiple of [2^32] is queued like
    any other, the connection stays usable, and the call reports failure. *)
Theorem xcb_send_request_wraps fl slots vector d rest n req w :
  stub_vector vector d rest n → send_ready n req w → (0 < slots)%nat →
  has_flag fl XCB_REQUEST_RAW = false → no_oom w → req_isvoid req = false →
  out_request (w_out w) = 2 ^ 32 - 1 →
  ∃ w' bytes,
    xcb_send_request fl slots vector req w = Ret 0 w' ∧ has_error w' = false ∧
    out_request (w_out w') = 2 ^ 32 ∧
    is_request (req_opcode req) (drop 4 (payload vector)) bytes ∧
    out_queue (w_out w') = out_queue (w_out w) ++ bytes.
Proof.
  intros Hv Hr Hs Hraw Hoom Hvoid Hreq.
  destruct (send_core fl slots vector d rest n req w Hv Hr Hs Hraw) as (w' & bytes & E & Hb & Hq & _).
  destruct Hq as (Ho & _ & _ & _ & He). unfold needs_sync in Ho. rewrite Hvoid in Ho. cbn [andb] in Ho.
  exists w', bytes. rewrite Ho in E |- *. cbn in E |- *. rewrite Hreq in E |- *.
  split; [exact E|]. split_and!; [by apply He|done|done|done].
Qed.

(** C17. Whatever the sizes and whatever the system calls answer, a core request
    reaches the server's stream whole, in order and at most once: when
    [xcb_send_request] returns, either the request was refused because it is
    too long and nothing was written, or the stream and the queue hold what
    they held before, the [GetInputFocus] if one is due, and the request, of
    which only a failed connection may have lost the end. *)
Theorem xcb_send_request_wire fl slots vector req w r w' :
  has_error w = false → IoLock ∉ held w → ReqLenLock ∉ held w →
  mrl_tag (w_out w) = LAZY_FORCED → setup_limit_16 →
  out_writing (w_out w) = 0 → out_return_socket (w_out w) = None →
  0 <= out_request (w_out w) < 2 ^ 64 - 2 →
  zlength (out_queue (w_out w)) <= XCB_QUEUE_BUFFER_SIZE → (0 < slots)%nat →
  req_ext req = None → has_flag fl XCB_REQUEST_RAW = false →
  zlength (payload vector) < 2 ^ 31 →
  xcb_send_request fl slots vector req w = Ret r w' →
  r = 0 ∧ w' = set_has_error true w ∨
  ∃ bytes rest,
    let q := out_request (w_out w) + 1 in
    let b := needs_sync (req_isvoid req) q (request_expected (w_in w)) in
    let q' := if b then q + 1 else q in
    is_request (req_opcode req) (drop 4 (payload vector)) bytes ∧
    wire w' ++ rest = wire w ++ (if b then sync_req else []) ++ bytes ∧
    (r = u32 q' ∧ rest = [] ∨ r = 0 ∧ has_error w' = true) ∧
    out_request (w_out w') = q' ∧ held w' = held w ∧
    zlength (out_queue (w_out w')) <= XCB_QUEUE_BUFFER_SIZE.
Proof.
  intros He Hl Hl2 Ht H16 Hwr Hn Hr Hq Hs Hc Hraw Hp E.
  unfold xcb_send_request in E. rewrite bind_gets, He in E.
  apply bind_inv in E as ([] & w1 & E1 & E).
  destruct (negb (bool_decide (zlength vector = 0))); [injection E1 as <-|done].
  rewrite Hraw in E. apply bind_inv in E as (h & w2 & E2 & E).
  pose proof (fill_header_core _ _ _ _ _ He Ht Hl2 Hc E2) as Hw2.
  destruct h as [[vec big]|]; [subst w2|left; by injection E as <- <-].
  apply fill_header_inv in E2 as (d & rest & ops & -> & Hd & Hops & Hcore & Hlen & Hf); [|done].
  set (n := Z.shiftr (zlength (payload (IovBuf d :: rest))) 2) in *.
  rewrite (Hcore Hc) in Hf.
  assert (0 < n) as Hpos.
  { unfold payload in Hlen at 1. cbn in Hlen. rewrite zlength_app in Hlen.
    pose proof (zlength_nonneg (concat (iov_bytes <$> rest))). unfold zlength at 1 in Hlen. lia. }
  destruct (vec_small n vec [byte_of (req_opcode req)] d rest big) as [Hsmall Hhd];
    [done|cbn; lia|lia|done..|].
  unfold glx_workaround in E. rewrite Hc, bind_ret, (bind_lock IoLock (held w)) in E by done.
  apply bind_inv in E as (q & w3 & E3 & E).
  apply send_locked_inv in E3 as (Ho3 & Hh3 & Hq3 & rest3 & Hwire & Hres); [|by exists (held w)|done..].
  rewrite (bind_unlock IoLock (held w)) in E by by rewrite Hh3.
  injection E as <- <-. right. exists (request_bytes big vec), rest3. cbv zeta.
  split; [by apply (request_is_request n); [|lia|..]|]. split; [exact Hwire|].
  split; [|by split_and!].
  destruct Hres as [[-> ->]|[-> Hres]]; [left|right]; done.
Qed.
End Claims.

(** ** The hypotheses can hold *)

Section Witnesses.
#[local] Existing Instances sample_host sample_proto.

(** A void request of opcode 16 with five bytes of body and their padding. *)
Definition sample_header : list byte := replicate 4 (byte_of 0).
Definition sample_rest : list iovec := [IovBuf (byte_of <$> [1; 2; 3; 4; 5]); IovNull 3].
Definition sample_vector : list iovec := IovBuf sample_header :: sample_rest.
Definition void_request : protocol_request := ProtocolRequest None 16 true.
Definition reply_request : protocol_request := ProtocolRequest None 16 false.

Definition send_world (request : Z) : world :=
  sample_world (sample_in []) (sample_out [] request request) (sample_os [] [] []).

Lemma sample_vector_stub : stub_vector sample_vector sample_header sample_rest 3.
Proof. split; [reflexivity|cbn; lia|repeat constructor; lia|reflexivity]. Qed.

Lemma send_world_ready request req :
  0 <= request < 2 ^ 64 - 2 → req_ext req = None → send_ready 3 req (send_world request).
Proof.
  intros Hr Hc. unfold send_ready. cbn. split_and!; try done; try set_solver; try lia.
  exists []. split; [done|lia].
Qed.

Lemma sample_limit_16 : setup_limit_16.
Proof. intros bs. cbn. lia. Qed.

Definition value_header (r : result world (option (list (list byte) * Z))) : list (list byte) * Z :=
  default ([], 0) (value None r).

Lemma fill_header_self_delimiting_witness :
  let w := send_world 0 in
  let vec := (value_header (fill_header sample_vector void_request w)).1 in
  4 * request_words (request_bytes 0 vec) = zlength (request_bytes 0 vec) ∧
  (∃ hdr, request_bytes 0 vec = hdr ++ drop 4 (payload sample_vector) ∧
     length hdr = if 0 =? 0 then 4%nat else 8%nat) ∧
  (req_ext void_request = None →
   take 1 (request_bytes 0 vec) = [byte_of (req_opcode void_request)]).
Proof.
  cbv zeta. apply (fill_header_self_delimiting sample_vector void_request (send_world 0) _ 0
    (send_world 0) sample_limit_16); vm_compute; reflexivity.
Defined.

(** The window is used up: a [GetInputFocus] goes first. *)
Lemma xcb_send_request_queues_witness :
  let w := send_world (2 ^ 16 - 2) in
  ∃ r w' bytes,
    xcb_send_request 0 2 sample_vector void_request w = Ret r w' ∧
    r = u32 (out_request (w_out w')) ∧ (r = 0 ↔ (2 ^ 32 | out_request (w_out w'))) ∧
    is_request 16 (drop 4 (payload sample_vector)) bytes ∧ queued true bytes w w' ∧
    (sync_window w → sync_window w').
Proof.
  apply (xcb_send_request_queues 0 2 sample_vector sample_header sample_rest 3 void_request
    (send_world (2 ^ 16 - 2)) sample_vector_stub).
  - apply send_world_ready; [lia|reflexivity].
  - lia.
  - reflexivity.
Defined.

Lemma xcb_send_request_wraps_witness :
  let w := send_world (2 ^ 32 - 1) in
  ∃ w' bytes,
    xcb_send_request 0 2 sample_vector reply_request w = Ret 0 w' ∧ has_error w' = false ∧
    out_request (w_out w') = 2 ^ 32 ∧
    is_request 16 (drop 4 (payload sample_vector)) bytes ∧
    out_queue (w_out w') = out_queue (w_out w) ++ bytes.
Proof.
  apply (xcb_send_request_wraps 0 2 sample_vector sample_header sample_rest 3 reply_request
    (send_world (2 ^ 32 - 1)) sample_vector_stub); try reflexivity.
  - apply send_world_ready; [lia|reflexivity].
  - lia.
Defined.

Lemma xcb_send_request_wire_witness :
  let w := send_world 0 in
  let w' := final w (xcb_send_request 0 2 sample_vector void_request w) in
  1 = 0 ∧ w' = set_has_error true w ∨
  ∃ bytes rest,
    let q := out_request (w_out w) + 1 in
    let b := needs_sync true q (request_expected (w_in w)) in
    let q' := if b then q + 1 else q in
    is_request 16 (drop 4 (payload sample_vector)) bytes ∧
    wire w' ++ rest = wire w ++ (if b then sync_req else []) ++ bytes ∧
    (1 = u32 q' ∧ rest = [] ∨ 1 = 0 ∧ has_error w' = true) ∧
    out_request (w_out w') = q' ∧ held w' = held w ∧
    zlength (out_queue (w_out w')) <= XCB_QUEUE_BUFFER_SIZE.
Proof.
  apply (xcb_send_request_wire 0 2 sample_vector void_request (send_world 0) 1); try reflexivity;
    try (cbn; set_solver); try (cbn; lia).
  - exact sample_limit_16.
  - by vm_compute.
Defined.
End Witnesses.
