(* ===== verification/Pending.v ===== *)
(** * Pending replies as a finite map

    [c->in.pending_replies] is a list sorted by sequence number with the flags of
    the requests whose answers need special treatment.  Without the entry of a
    socket owner it represents a finite map from requests to flags; dropping
    finished entries, looking one up, registering and discarding are the
    operations of that map. *)
From S2P Require Import Prelude Effects Seq XcbMap State In.
From Stdlib Require Import Sorting.Sorted.
#[local] Open Scope Z_scope.

(** The flags registered for request [t]. *)
Fixpoint flags_at (l : list pending_reply) (t : Z) : option Z :=
  match l with
  | [] => None
  | p :: l' => if first_request p =? t then Some (flags p) else flags_at l' t
  end.

Definition before (p q : pending_reply) : Prop := first_request p < first_request q.

(** An entry for the single request [first_request p], between [lo] and [hi]. *)
Definition single (lo hi : Z) (p : pending_reply) : Prop :=
  lo <= first_request p <= hi ∧ last_request p = first_request p ∧
  workaround p ≠ WORKAROUND_EXTERNAL_SOCKET_OWNER.

Record pending_wf (lo hi : Z) (l : list pending_reply) : Prop := {
  pw_sorted : StronglySorted before l;
  pw_single : Forall (single lo hi) l
}.

(** What a lookup finds out about a flag. *)
Definition flag_set (o : option Z) (f : Z) : bool :=
  match o with None => false | Some fl => has_flag fl f end.

Lemma pending_wf_nil lo hi : pending_wf lo hi [].
Proof. split; constructor. Qed.

Lemma pending_wf_cons lo hi p l :
  pending_wf lo hi (p :: l) ↔
  single lo hi p ∧ Forall (before p) l ∧ pending_wf lo hi l.
Proof.
  split.
  - intros [Hs Hf]. apply StronglySorted_inv in Hs as [Hs Hb].
    apply Forall_cons in Hf as [Hp Hf]. split_and!; [done|done|by split].
  - intros (Hp & Hb & [Hs Hf]). split; [by constructor|by constructor].
Qed.

Lemma pending_wf_above lo hi p l :
  pending_wf lo hi (p :: l) → pending_wf (first_request p + 1) hi l.
Proof.
  intros (Hp & Hb & [Hs Hf])%pending_wf_cons. split; [done|].
  rewrite Forall_forall in *. intros x Hx. specialize (Hb x Hx). specialize (Hf x Hx).
  unfold before, single in *. destruct Hf as (? & ? & ?). split_and!; [lia|lia|done..].
Qed.

Lemma pending_wf_weaken lo hi lo' hi' l :
  pending_wf lo hi l → lo' <= lo → hi <= hi' → pending_wf lo' hi' l.
Proof.
  intros [Hs Hf] ??. split; [done|]. eapply Forall_impl; [exact Hf|].
  intros p (? & ? & ?). split_and!; [lia|lia|done..].
Qed.

Lemma flags_at_below lo hi l t : pending_wf lo hi l → t < lo → flags_at l t = None.
Proof.
  intros [_ Hf] Ht. induction Hf as [|p l (? & ?) _ IH]; [done|]. cbn.
  destruct (Z.eqb_spec (first_request p) t); [lia|done].
Qed.

Lemma flags_at_above lo hi l t : pending_wf lo hi l → hi < t → flags_at l t = None.
Proof.
  intros [_ Hf] Ht. induction Hf as [|p l (? & ?) _ IH]; [done|]. cbn.
  destruct (Z.eqb_spec (first_request p) t); [lia|done].
Qed.

(** ** Dropping finished requests *)

Lemma drop_completed_cons c lo hi p l :
  0 <= c < 2 ^ 63 → 0 <= lo → hi < 2 ^ 63 → single lo hi p →
  drop_completed c (p :: l) = if first_request p <=? c then drop_completed c l else p :: l.
Proof.
  intros Hc Hlo Hhi (Hp & Hl & Hw). cbn [drop_completed].
  rewrite bool_decide_eq_false_2 by done. cbn [negb andb].
  rewrite Hl, compare_64 by lia.
  destruct (Z.leb_spec (first_request p - c) 0), (Z.leb_spec (first_request p) c); first [done|lia].
Qed.

Lemma drop_completed_spec c lo hi l :
  0 <= c < 2 ^ 63 → 0 <= lo → hi < 2 ^ 63 → pending_wf lo hi l →
  pending_wf (Z.max lo (c + 1)) hi (drop_completed c l) ∧
  (∀ t, c < t → flags_at (drop_completed c l) t = flags_at l t).
Proof.
  intros Hc Hlo Hhi. induction l as [|p l IH]; intros Hw; [by split; [apply pending_wf_nil|]|].
  pose proof Hw as (Hp & Hb & Hw')%pending_wf_cons.
  rewrite (drop_completed_cons c lo hi) by done.
  destruct (Z.leb_spec (first_request p) c).
  - destruct (IH Hw') as [H1 H2]. split; [done|]. intros t Ht. rewrite H2 by done. cbn.
    destruct (Z.eqb_spec (first_request p) t); [lia|done].
  - split; [|done]. apply pending_wf_cons. split_and!; [|done|].
    + destruct Hp as (? & ? & ?). split_and!; [lia|lia|done..].
    + destruct Hp as (? & _). apply (pending_wf_weaken (first_request p + 1) hi); [|lia|lia].
      by apply (pending_wf_above lo).
Qed.

(** ** Looking up the request being read *)

Lemma matching_pend_flag i hi f :
  0 <= request_read i → hi < 2 ^ 63 → pending_wf (request_read i) hi (pending_replies i) →
  pend_flag (matching_pend i) f = flag_set (flags_at (pending_replies i) (request_read i)) f.
Proof.
  intros Hr Hhi Hw. unfold matching_pend.
  destruct (pending_replies i) as [|p l] eqn:E; [done|].
  pose proof Hw as ((Hp & Hl & Hx) & _)%pending_wf_cons.
  rewrite bool_decide_eq_false_2 by done. cbn [orb]. rewrite Hl, !compare_64 by lia. cbn [flags_at].
  destruct (Z.eqb_spec (first_request p) (request_read i)) as [->|Hn].
  - rewrite Z.sub_diag. done.
  - destruct (Z.leb_spec (first_request p - request_read i) 0); [lia|]. cbn [andb].
    apply pending_wf_above in Hw. by rewrite (flags_at_below _ _ _ _ Hw) by lia.
Qed.

(** ** Registering a request *)

Lemma pending_wf_snoc lo hi l q wk fl :
  pending_wf lo hi l → hi < q → lo <= q → wk ≠ WORKAROUND_EXTERNAL_SOCKET_OWNER →
  pending_wf lo q (l ++ [PendingReply q q wk fl]) ∧
  (∀ t, flags_at (l ++ [PendingReply q q wk fl]) t = if q =? t then Some fl else flags_at l t).
Proof.
  intros Hw Hq Hlo Hwk. induction l as [|p l IH].
  { split; [|done]. apply pending_wf_cons. split_and!; [|done|apply pending_wf_nil].
    split_and!; cbn; [lia|lia|done..]. }
  pose proof Hw as ((Hp & Hl & Hx) & Hb & Hw')%pending_wf_cons.
  destruct (IH Hw') as [H1 H2]. split.
  - cbn [app]. apply pending_wf_cons. split_and!; [split_and!; [lia|lia|done..]| |done].
    apply Forall_app. split; [done|]. apply Forall_singleton. unfold before. cbn. lia.
  - intros t. cbn [app flags_at]. rewrite H2.
    destruct (Z.eqb_spec (first_request p) t), (Z.eqb_spec q t); first [done|lia].
Qed.

(** ** Discarding a request *)

(** [discard_walk] with the insertion that follows it when it fails. *)
Definition discard_pending (s : Z) (l : list pending_reply) : list pending_reply :=
  match discard_walk (u32 s) l with
  | inl l' => l'
  | inr n => take n l ++ PendingReply s s WORKAROUND_NONE XCB_REQUEST_DISCARD_REPLY :: drop n l
  end.

Lemma compare_32_both a op b :
  - 2 ^ 31 <= a - b < 2 ^ 31 → XCB_SEQUENCE_COMPARE_32 a op (u32 b) = op (a - b) 0.
Proof. intros. unfold XCB_SEQUENCE_COMPARE_32. f_equal. words. Qed.

Lemma discard_pending_cons lo hi s p l :
  hi - lo < 2 ^ 31 → lo <= s <= hi → single lo hi p →
  discard_pending s (p :: l) =
    if first_request p >? s
    then PendingReply s s WORKAROUND_NONE XCB_REQUEST_DISCARD_REPLY :: p :: l
    else if first_request p =? s then mark_discard p :: l
    else p :: discard_pending s l.
Proof.
  intros Hw Hs (Hp & _). unfold discard_pending. cbn [discard_walk].
  rewrite !compare_32_both by lia.
  rewrite !Z.gtb_ltb. 
  destruct (Z.ltb_spec 0 (first_request p - s)), (Z.ltb_spec s (first_request p)); try lia; [done|].
  destruct (Z.eqb_spec (first_request p - s) 0), (Z.eqb_spec (first_request p) s); try lia; [done|].
  by destruct (discard_walk (u32 s) l).
Qed.

Lemma mark_discard_single lo hi p : single lo hi p → single lo hi (mark_discard p).
Proof. done. Qed.

Lemma discard_pending_spec lo hi s l :
  hi - lo < 2 ^ 31 → lo <= s <= hi → pending_wf lo hi l →
  pending_wf lo hi (discard_pending s l) ∧
  ∀ t, flags_at (discard_pending s l) t =
    if s =? t then Some (Z.lor (default 0 (flags_at l s)) XCB_REQUEST_DISCARD_REPLY)
    else flags_at l t.
Proof.
  intros Hw Hs. set (d := PendingReply s s WORKAROUND_NONE XCB_REQUEST_DISCARD_REPLY).
  assert (single lo hi d) as Hd by (split_and!; cbn; [lia|lia|done..]).
  induction l as [|p l IH]; intros Hl.
  { split; [|done]. apply pending_wf_cons. split_and!; [done|done|apply pending_wf_nil]. }
  pose proof Hl as (Hp & Hb & Hl')%pending_wf_cons.
  rewrite (discard_pending_cons lo hi) by done. fold d. rewrite Z.gtb_ltb.
  destruct (Z.ltb_spec s (first_request p)) as [Hlt|Hge].
  { assert (Forall (before d) (p :: l)) as Hbd.
    { constructor; [done|]. eapply Forall_impl; [exact Hb|]. unfold before. cbn. lia. }
    split; [by apply pending_wf_cons|].
    assert (flags_at (p :: l) s = None) as ->; [|done]. cbn.
    destruct (Z.eqb_spec (first_request p) s); [lia|].
    apply (flags_at_below (first_request p + 1) hi); [by apply (pending_wf_above lo)|lia]. }
  destruct (Z.eqb_spec (first_request p) s) as [Heq|Hne].
  { split; [by apply pending_wf_cons|]. intros t. cbn. rewrite Heq, Z.eqb_refl.
    by destruct (s =? t). }
  destruct (IH Hl') as [H1 H2]. split.
  - apply pending_wf_cons. split_and!; [done| |done].
    apply Forall_forall. intros x Hx. rewrite Forall_forall in Hb.
    assert (x ∈ discard_pending s l → first_request x = s ∨ ∃ y, y ∈ l ∧ first_request x = first_request y)
      as Hfrom.
    { clear -Hw Hs Hl'. induction l as [|y l IH]; intros Hin.
      - left. by apply list_elem_of_singleton in Hin as ->.
      - apply pending_wf_cons in Hl' as (Hy & _ & Hl).
        rewrite (discard_pending_cons lo hi) in Hin by done.
        destruct (_ >? _); [|destruct (Z.eqb_spec (first_request y) s) as [E|]].
        + apply elem_of_cons in Hin as [->|Hin]; [by left|]. right. by exists x.
        + apply elem_of_cons in Hin as [->|Hin]; [by left|]. right. exists x. set_solver.
        + apply elem_of_cons in Hin as [->|Hin]; [right; exists y; set_solver|].
          destruct (IH Hl Hin) as [?|(z & ? & ?)]; [by left|]. right. exists z. set_solver. }
    unfold before. destruct (Hfrom Hx) as [->|(y & Hy & ->)]; [lia|]. by apply Hb.
  - intros t. cbn. rewrite H2. destruct (Z.eqb_spec (first_request p) s); [done|].
    destruct (Z.eqb_spec (first_request p) t), (Z.eqb_spec s t); first [done|lia].
Qed.
