(* ===== verification/Mailbox.v ===== *)
(** * The input side over whole runs

    The contract of the input side, as an abstract machine: a mailbox with a queue
    of replies for every request, a queue of events and the flags of the
    requests whose answers are treated specially.  Every run of the functions of
    [src/xcb_in.c] that register requests, read packets, hand out replies and
    events and discard replies is a run of the mailbox. *)
From S2P Require Import Prelude Effects Seq XcbMap State In InFrame InFacts InSafety Demux Conn.
From S2P Require Import Out OutFacts OutProps Request RequestFacts Pending Sample.
From stdpp Require Import functions list.
#[local] Open Scope Z_scope.

(** ** The abstract machine *)

Record mailbox := Mailbox {
  mb_last : Z;                             (** the last request sent *)
  mb_read : Z;                             (** the request being answered *)
  mb_completed : Z;                        (** the last request no more answers are expected for *)
  mb_replies : Z → list (list byte);       (** undelivered replies per request *)
  mb_events : list (list byte);
  mb_flags : gmap Z Z                      (** flags per request *)
}.

(** What happens on a connection. *)
Inductive label :=
  | Arrived                                         (** bytes were received *)
  | Sent (sync : bool) (fl : option Z)              (** a request was numbered *)
  | Got (s type : Z) (buf : list byte)              (** a packet for request [s] was read *)
  | Polled (s : Z) (e : bool) (r : option (option (list byte) * option (list byte)))
  | Event (ev : option (list byte))
  | Discarded (s : Z).

(** Where a packet goes, given its type and the flags of its request. *)
Definition route (type : Z) (fl : option Z) : destination :=
  if (type =? XCB_ERROR) || (type =? XCB_REPLY) then
    if flag_set fl XCB_REQUEST_DISCARD_REPLY then ToNobody
    else if (type =? XCB_REPLY) || flag_set fl XCB_REQUEST_CHECKED then ToReplies else ToEvents
  else ToEvents.

(** The next one or two numbers are given out: [sync] says that a
    [GetInputFocus] goes first, whose reply nobody wants. *)
Definition mb_send (sync : bool) (fl : option Z) (m : mailbox) : mailbox :=
  let q := mb_last m + 1 in
  let q' := if sync then q + 1 else q in
  let fs := if sync then <[q := XCB_REQUEST_DISCARD_REPLY]> (mb_flags m) else mb_flags m in
  Mailbox q' (mb_read m) (mb_completed m) (mb_replies m) (mb_events m)
    (match fl with Some f => <[q' := f]> fs | None => fs end).

Definition mb_got (s type completed : Z) (buf : list byte) (m : mailbox) : mailbox :=
  let d := demux_packet s (route type (mb_flags m !! s)) buf
             (Demux (mb_read m) (mb_replies m) (mb_events m)) in
  Mailbox (mb_last m) (d_read d) completed (d_replies d) (d_events d) (mb_flags m).

Section Runs.
Context `{Host} `{XProto}.

(** The answer to a poll for request [s]. *)
Definition mb_answer (s : Z) (e : bool) (m : mailbox)
    : option (option (list byte) * option (list byte)) :=
  match mb_replies m s with
  | buf :: _ => Some (reply_result buf e)
  | [] => if (s <? mb_read m) || (s =? mb_completed m) then Some (None, None) else None
  end.

Definition mb_set (s : Z) (q : list (list byte)) (m : mailbox) : mailbox :=
  Mailbox (mb_last m) (mb_read m) (mb_completed m) (<[s := q]> (mb_replies m)) (mb_events m)
    (mb_flags m).

Definition mb_event (m : mailbox) : mailbox :=
  Mailbox (mb_last m) (mb_read m) (mb_completed m) (mb_replies m) (tail (mb_events m))
    (mb_flags m).

Definition mb_discard (s : Z) (m : mailbox) : mailbox :=
  Mailbox (mb_last m) (mb_read m) (mb_completed m) (<[s := []]> (mb_replies m)) (mb_events m)
    (if s <? mb_read m then mb_flags m
     else <[s := Z.lor (default 0 (mb_flags m !! s)) XCB_REQUEST_DISCARD_REPLY]> (mb_flags m)).

Inductive mstep : mailbox → label → mailbox → Prop :=
  | MArrived m : mstep m Arrived m
  | MSent m sync fl : mstep m (Sent sync fl) (mb_send sync fl m)
  (** a packet completes the requests before its own, an error its own too *)
  | MGot m s type completed buf :
      mb_read m <= s <= mb_last m →
      s - 1 <= completed <= s → mb_completed m <= completed →
      (type = XCB_ERROR ∨ type = XCB_REPLY → mb_completed m < s) →
      mstep m (Got s type buf) (mb_got s type completed buf m)
  | MPolled m s e : mstep m (Polled s e (mb_answer s e m)) (mb_set s (tail (mb_replies m s)) m)
  | MEvent m : mstep m (Event (head (mb_events m))) (mb_event m)
  | MDiscarded m s : s <= mb_last m → mstep m (Discarded s) (mb_discard s m).

Inductive mrun : mailbox → list label → mailbox → Prop :=
  | MNil m : mrun m [] m
  | MCons m l m' ls m'' : mstep m l m' → mrun m' ls m'' → mrun m (l :: ls) m''.

(** ** The functions that make a run *)

(** The flags [number_request] registers. *)
Definition registered (fl : Z) (wk : workarounds) : option Z :=
  if negb (bool_decide (wk = WORKAROUND_NONE)) || negb (fl =? 0) then Some fl else None.

(** One call on a connection whose server answers requests that were sent, in
    order, and sends nothing more for a request after its error.  The requests
    from [lo] on are fewer than [2^31]. *)
Inductive cstep (lo : Z) : world → label → world → Prop :=
  | CArrived w bs :
      zlength (in_queue (w_in w) ++ bs) <= IN_QUEUE_SIZE →
      cstep lo w Arrived (set_w_in (set_in_queue (in_queue (w_in w) ++ bs) (w_in w)) w)
  | CSent w fl slots vec big wk isvoid n w' :
      out_return_socket (w_out w) = None →
      wk ≠ WORKAROUND_EXTERNAL_SOCKET_OWNER →
      out_request (w_out w) + 2 - lo < 2 ^ 31 - 1 → out_request (w_out w) + 2 < 2 ^ 63 →
      number_request fl slots vec big wk isvoid w = Ret n w' →
      cstep lo w
        (Sent (needs_sync isvoid (out_request (w_out w) + 1) (request_expected (w_in w)))
           (registered fl wk)) w'
  | CGot w s w' :
      front_complete w → answers (front_header w) (w_in w) s → s <= out_request (w_out w) →
      (response_type (front_header w) = XCB_ERROR ∨ response_type (front_header w) = XCB_REPLY →
       request_completed (w_in w) < s) →
      read_packet w = Ret true w' →
      cstep lo w (Got s (response_type (front_header w)) (front_buffer w)) w'
  | CPolled w s e r w' :
      u32 s ≠ 0 → lo <= s <= out_request (w_out w) →
      poll_for_reply (u32 s) e w = Ret r w' →
      cstep lo w (Polled s e r) w'
  | CEvent w r w' : get_event w = Ret r w' → cstep lo w (Event r) w'
  | CDiscarded w s w' :
      lo <= s <= out_request (w_out w) →
      discard_reply (u32 s) w = Ret () w' →
      cstep lo w (Discarded s) w'.

Inductive crun (lo : Z) : world → list label → world → Prop :=
  | CNil w : crun lo w [] w
  | CCons w l w' ls w'' : cstep lo w l w' → crun lo w' ls w'' → crun lo w (l :: ls) w''.

(** ** The refinement relation *)

Definition mb_demux (m : mailbox) : demux := Demux (mb_read m) (mb_replies m) (mb_events m).

Record Rel (lo : Z) (w : world) (m : mailbox) : Prop := {
  rel_sim : Sim lo (w_in w) (mb_demux m);
  rel_last : mb_last m = out_request (w_out w);
  rel_completed : mb_completed m = request_completed (w_in w);
  rel_window : request_read (w_in w) <= out_request (w_out w) ∧
    out_request (w_out w) - lo < 2 ^ 31 - 1 ∧ out_request (w_out w) < 2 ^ 63;
  rel_pending : pending_wf (request_read (w_in w)) (out_request (w_out w))
    (pending_replies (w_in w));
  rel_flags : ∀ t, request_completed (w_in w) < t →
    flags_at (pending_replies (w_in w)) t = mb_flags m !! t;
  rel_fresh : ∀ t, mb_last m < t → mb_flags m !! t = None;
  rel_bufs : ∀ s b, b ∈ mb_replies m s → 1 <= zlength b;
  rel_oom : no_oom w
}.

(** ** One operation at a time *)

(** What reading replies and events leaves alone. *)
Definition keeps (w w' : world) : Prop :=
  w_out w' = w_out w ∧ pending_replies (w_in w') = pending_replies (w_in w) ∧
  request_completed (w_in w') = request_completed (w_in w) ∧
  request_read (w_in w') = request_read (w_in w) ∧ has_error w' = has_error w ∧
  (no_oom w → no_oom w').

#[export] Instance keeps_preorder : PreOrder keeps.
Proof.
  split.
  - by intros w.
  - intros w1 w2 w3 (?&?&?&?&?&?) (?&?&?&?&?&?). split_and!; try congruence; auto.
Qed.

Ltac keeps_tac := apply obeys_modify; intros w; by split_and!.
#[local] Hint Extern 1 (obeys keeps (modify_in _)) => keeps_tac : obeys.

Lemma malloc_keeps n : obeys keeps (malloc n).
Proof.
  intros w a w' E. unfold malloc in E. destruct (_ <=? _); [by injection E as _ <-|].
  rewrite bind_gets in E. unfold compose in E.
  destruct (os_mallocs (w_os w)) as [|b t] eqn:Em; injection E as _ <-; [done|].
  split_and!; try done. unfold no_oom. by rewrite Em.
Qed.
#[local] Hint Resolve malloc_keeps : obeys.

Lemma keeps_poll_for_reply request e : obeys keeps (poll_for_reply request e).
Proof. unfold poll_for_reply, return_reply, replies_put. obeys_auto. Qed.

Lemma keeps_get_event : obeys keeps get_event.
Proof. unfold get_event. obeys_auto. Qed.

(** A new view of the mailbox that only moves replies and events around. *)
Lemma rel_keeps lo w w' m d :
  Rel lo w m → keeps w w' → Sim lo (w_in w') d → d_read d = mb_read m →
  (∀ s b, b ∈ d_replies d s → 1 <= zlength b) →
  Rel lo w' (Mailbox (mb_last m) (mb_read m) (mb_completed m) (d_replies d) (d_events d)
    (mb_flags m)).
Proof.
  intros [] (E1 & E2 & E3 & E4 & _ & E5) Hs Hr Hb.
  split; cbn; rewrite ?E1, ?E2, ?E3, ?E4; auto.
  unfold mb_demux. cbn. rewrite <- Hr. by destruct d.
Qed.

Lemma step_polled lo w m s e r w' :
  Rel lo w m → u32 s ≠ 0 → lo <= s <= out_request (w_out w) →
  poll_for_reply (u32 s) e w = Ret r w' →
  r = mb_answer s e m ∧ Rel lo w' (mb_set s (tail (mb_replies m s)) m).
Proof.
  intros Hr Hz Hs E. pose proof Hr as []. destruct rel_window0 as (Hw1 & Hw2 & Hw3).
  pose proof (sim_window _ _ _ rel_sim0). pose proof (sim_read _ _ _ rel_sim0) as Er.
  change (d_read (mb_demux m)) with (mb_read m) in Er.
  destruct (poll_for_reply_demux lo w (mb_demux m) s e rel_sim0 rel_oom0 Hz)
    as (w1 & E1 & Hs1); [lia|apply rel_bufs0|].
  pose proof (keeps_poll_for_reply (u32 s) e w _ _ E1) as Hk.
  unfold mb_answer, mb_set, demux_take in *. cbn [mb_demux d_replies d_read d_events] in *.
  rewrite <- Er, <- rel_completed0 in E1. rewrite E1 in E. injection E as <- <-.
  destruct (mb_replies m s) as [|buf rest] eqn:Eq; cbn [fst snd] in *.
  - split; [done|]. cbn [tail].
    apply (rel_keeps lo w w1 m (demux_set s [] (mb_demux m))); try done.
    + eapply sim_ext_replies; [exact Hs1|done|done|]. intros t. cbn.
      destruct (decide (t = s)) as [->|]; [by rewrite fn_lookup_insert|by rewrite fn_lookup_insert_ne].
    + cbn. intros t b. destruct (decide (t = s)) as [->|].
      * rewrite fn_lookup_insert. set_solver.
      * rewrite fn_lookup_insert_ne by done. apply rel_bufs0.
  - split; [done|]. cbn [tail].
    apply (rel_keeps lo w w1 m (demux_set s rest (mb_demux m))); try done.
    cbn. intros t b. destruct (decide (t = s)) as [->|].
    + rewrite fn_lookup_insert. intros Hb. apply (rel_bufs0 s). rewrite Eq. by right.
    + rewrite fn_lookup_insert_ne by done. apply rel_bufs0.
Qed.

Lemma step_event lo w m r w' :
  Rel lo w m → get_event w = Ret r w' → r = head (mb_events m) ∧ Rel lo w' (mb_event m).
Proof.
  intros Hr E. pose proof Hr as [].
  destruct (get_event_demux lo w (mb_demux m) rel_sim0) as (w1 & E1 & Hs1).
  rewrite E1 in E. injection E as <- <-. pose proof (keeps_get_event w _ _ E1) as Hk.
  unfold demux_event in *. cbn [mb_demux d_events] in *. unfold mb_event.
  destruct (mb_events m) as [|ev t] eqn:Ee; cbn [fst snd head tail] in *; (split; [done|]).
  - pose proof (rel_keeps lo w w1 m (mb_demux m) Hr Hk Hs1 eq_refl rel_bufs0) as Hr1.
    cbn in Hr1. by rewrite Ee in Hr1.
  - by apply (rel_keeps lo w w1 m (Demux (mb_read m) (mb_replies m) t)).
Qed.

Lemma step_arrived lo w m q :
  Rel lo w m → Rel lo (set_w_in (set_in_queue q (w_in w)) w) m.
Proof.
  intros []. split; try done. by apply (sim_view lo _ (w_in w)); [|left|].
Qed.

(** *** Sending *)

Lemma expect_reply_run q wk fl w :
  no_oom w → negb (bool_decide (wk = WORKAROUND_NONE)) || negb (fl =? 0) = true →
  _xcb_in_expect_reply q wk fl w =
    Ret true (set_w_in (set_pending_replies
      (pending_replies (w_in w) ++ [PendingReply q q wk fl]) (w_in w)) w).
Proof.
  intros Ho Hw. unfold _xcb_in_expect_reply.
  rewrite (bind_run _ _ _ _ _ (malloc_small 32 w Ho ltac:(lia))), Hw. done.
Qed.

(** The entries [number_request] adds. *)
Definition added (sync : bool) (q : Z) (wk : workarounds) (fl : option Z) : list pending_reply :=
  let q' := if sync then q + 1 else q in
  (if sync then [PendingReply q q WORKAROUND_NONE XCB_REQUEST_DISCARD_REPLY] else []) ++
  match fl with Some f => [PendingReply q' q' wk f] | None => [] end.

Lemma sync_loop_pending isvoid q w :
  no_oom w → out_request (w_out w) = q → 0 < q < 2 ^ 63 →
  let b := needs_sync isvoid q (request_expected (w_in w)) in
  let q' := if b then q + 1 else q in
  ∃ w', sync_loop 3 isvoid q false w = Ret (q', b) w' ∧ w_os w' = w_os w ∧
    w_out w' = set_out_request q' (w_out w) ∧
    ∃ e, w_in w' = set_request_expected e
      (set_pending_replies (pending_replies (w_in w) ++ added b q WORKAROUND_NONE None) (w_in w)).
Proof.
  intros Ho Hq Hr b q'. assert (sync_needed isvoid q w = b) as Hb.
  { unfold sync_needed. rewrite Hq. destruct (Z.eqb_spec q 0); [lia|]. apply orb_false_r. }
  subst q'. clearbody b. unfold added. destruct b.
  - rewrite (sync_loop_again _ _ _ _ _ _ _ Hb (expect_reply_run q WORKAROUND_NONE
      XCB_REQUEST_DISCARD_REPLY w Ho eq_refl)). cbv zeta. cbn [w_out set_w_in].
    rewrite Hq, (u64_small (q + 1)) by lia. rewrite sync_loop_done.
    + eexists. split_and!; try done. cbn. by eexists.
    + unfold sync_needed. cbn.
      destruct (Z.eqb_spec (q + 1) (u64 (q + 2 ^ 16 - 1))) as [Hw|]; [words|].
      destruct (Z.eqb_spec (q + 1) 0); [lia|]. by rewrite andb_false_r.
  - exists w. rewrite sync_loop_done by done. split_and!; try done.
    + rewrite <- Hq. by destruct (w_out w).
    + exists (request_expected (w_in w)). cbn. rewrite app_nil_r. by destruct (w_in w).
Qed.

Lemma number_request_pending fl slots vec big wk isvoid w n w' :
  no_oom w → out_return_socket (w_out w) = None → 0 <= out_request (w_out w) < 2 ^ 63 - 2 →
  number_request fl slots vec big wk isvoid w = Ret n w' →
  let q := out_request (w_out w) + 1 in
  let b := needs_sync isvoid q (request_expected (w_in w)) in
  w_os w' = w_os w ∧ w_out w' = set_out_request (if b then q + 1 else q) (w_out w) ∧
  ∃ e, w_in w' = set_request_expected e (set_pending_replies
    (pending_replies (w_in w) ++ added b q wk (registered fl wk)) (w_in w)).
Proof.
  intros Ho Hn Hr E q b. unfold number_request in E.
  rewrite (bind_run _ _ _ _ _ (get_socket_back_none w Hn)) in E.
  unfold modify_out in E. rewrite bind_modify, bind_gets in E. unfold compose in E.
  set (w1 := set_w_out _ w) in *.
  assert (out_request (w_out w1) = q) as Hq1 by (subst w1 q; cbn; apply u64_small; lia).
  rewrite Hq1 in E.
  destruct (sync_loop_pending isvoid q w1 Ho Hq1 ltac:(subst q; lia))
    as (w2 & E2 & Hos2 & Hout2 & x & Hin2).
  assert (no_oom w2) as Ho2 by by unfold no_oom; rewrite Hos2.
  change (request_expected (w_in w1)) with (request_expected (w_in w)) in *. fold b in E2, Hout2, Hin2.
  rewrite (bind_run _ _ _ _ _ E2) in E. cbn [fst snd] in E.
  apply bind_inv in E as ([] & w3 & E3 & E).
  assert (w_os w3 = w_os w ∧ w_out w3 = w_out w2 ∧ w_in w3 = set_request_expected x
    (set_pending_replies (pending_replies (w_in w) ++ added b q wk (registered fl wk)) (w_in w)))
    as (Ho3 & Hout3 & Hin3).
  { unfold registered. destruct (negb _ || _) eqn:Ew; cbn [when] in E3.
    - rewrite (bind_run _ _ _ _ _ (expect_reply_run _ _ _ _ Ho2 Ew)) in E3.
      injection E3 as <-. split_and!; try done. cbn [w_in set_w_in]. rewrite Hin2. unfold added. cbn.
      by rewrite app_nil_r, <- !app_assoc.
    - injection E3 as <-. by split_and!. }
  apply bind_inv in E as ([] & w4 & E4 & E).
  assert (w' = w4) as ->.
  { apply bind_inv in E as (p & w5 & E5 & [= _ ->]). clear -E5. revert E5.
    unfold add_prefix. destruct (_ || _); [|by intros [= _ ->]].
    destruct (decide _); [done|]. destruct vec; [done|].
    destruct (_ =? 0); [by intros [= _ ->]|]. destruct (_ <? _); [done|]. by intros [= _ ->]. }
  destruct isvoid; cbn in E4; injection E4 as <-.
  - split_and!; [done| |by exists x]. by rewrite Hout3, Hout2.
  - split_and!; [done| |]; cbn [w_in w_out set_w_in]; [by rewrite Hout3, Hout2|].
    rewrite Hin3. by eexists.
Qed.

Lemma added_spec lo hi l (b : bool) wk (fl : option Z) :
  pending_wf lo hi l → lo <= hi + 1 → wk ≠ WORKAROUND_EXTERNAL_SOCKET_OWNER →
  let q := hi + 1 in
  let q' := if b then q + 1 else q in
  pending_wf lo q' (l ++ added b q wk fl) ∧
  ∀ t, flags_at (l ++ added b q wk fl) t =
    match fl with
    | Some f => if q' =? t then Some f
                else if b && (q =? t) then Some XCB_REQUEST_DISCARD_REPLY else flags_at l t
    | None => if b && (q =? t) then Some XCB_REQUEST_DISCARD_REPLY else flags_at l t
    end.
Proof.
  intros Hw Hlo Hwk q q'. unfold added. fold q'.
  set (d := if b then [PendingReply q q WORKAROUND_NONE XCB_REQUEST_DISCARD_REPLY] else []).
  assert (pending_wf lo (if b then q else hi) (l ++ d) ∧
    ∀ t, flags_at (l ++ d) t = if b && (q =? t) then Some XCB_REQUEST_DISCARD_REPLY else flags_at l t)
    as [Hd1 Hd2].
  { subst d. destruct b; [|by rewrite app_nil_r].
    by apply (pending_wf_snoc lo hi); [|subst q; lia|subst q; lia|]. }
  rewrite app_assoc. destruct fl as [f|].
  - destruct (pending_wf_snoc lo _ (l ++ d) q' wk f Hd1) as [H1 H2]; [| |done|].
    + subst q' q. destruct b; lia.
    + subst q' q. destruct b; lia.
    + split; [done|]. intros t. by rewrite H2, Hd2.
  - rewrite app_nil_r. split; [|done]. eapply pending_wf_weaken; [exact Hd1|lia|].
    subst q' q. destruct b; lia.
Qed.

Lemma mb_send_flags sync fl m t :
  mb_flags (mb_send sync fl m) !! t =
    let q := mb_last m + 1 in
    let q' := if sync then q + 1 else q in
    match fl with
    | Some f => if q' =? t then Some f
                else if sync && (q =? t) then Some XCB_REQUEST_DISCARD_REPLY else mb_flags m !! t
    | None => if sync && (q =? t) then Some XCB_REQUEST_DISCARD_REPLY else mb_flags m !! t
    end.
Proof.
  cbv zeta. unfold mb_send. cbn.
  assert (∀ (k v : Z) (fs : gmap Z Z), <[k := v]> fs !! t = if k =? t then Some v else fs !! t) as Hi.
  { intros k v fs. destruct (Z.eqb_spec k t) as [->|]; [apply lookup_insert_eq|by apply lookup_insert_ne]. }
  destruct fl, sync; by rewrite ?Hi.
Qed.

Lemma step_sent lo w m fl slots vec big wk isvoid n w' :
  Rel lo w m → out_return_socket (w_out w) = None → wk ≠ WORKAROUND_EXTERNAL_SOCKET_OWNER →
  out_request (w_out w) + 2 - lo < 2 ^ 31 - 1 → out_request (w_out w) + 2 < 2 ^ 63 →
  number_request fl slots vec big wk isvoid w = Ret n w' →
  Rel lo w' (mb_send (needs_sync isvoid (out_request (w_out w) + 1) (request_expected (w_in w)))
    (registered fl wk) m).
Proof.
  intros Hr Hn Hwk Hlo Hb E. pose proof Hr as []. destruct rel_window0 as (Hw1 & Hw2 & Hw3).
  pose proof (sim_window _ _ _ rel_sim0).
  destruct (number_request_pending _ _ _ _ _ _ _ _ _ rel_oom0 Hn ltac:(lia) E)
    as (Hos & Hout & x & Hin).
  assert (no_oom w') as Ho by by unfold no_oom; rewrite Hos.
  set (b := needs_sync _ _ _) in *. set (q' := if b then out_request (w_out w) + 1 + 1 else _) in *.
  assert (out_request (w_out w) < q' <= out_request (w_out w) + 2) as Hq by (subst q'; destruct b; lia).
  destruct (added_spec _ _ _ b wk (registered fl wk) rel_pending0 ltac:(lia) Hwk) as [Hp Hf].
  fold q' in Hp, Hf.
  split; rewrite ?Hout, ?Hin.
  - apply (sim_view lo _ (w_in w)); [done|by left|exact rel_sim0].
  - cbn. by rewrite rel_last0.
  - done.
  - cbn. lia.
  - exact Hp.
  - intros t Ht. rewrite mb_send_flags, rel_last0. cbv zeta. fold q'.
    transitivity (flags_at (pending_replies (w_in w) ++ added b (out_request (w_out w) + 1) wk (registered fl wk)) t);
      [done|]. by rewrite Hf, rel_flags0.
  - intros t Ht. rewrite mb_send_flags. cbv zeta. rewrite rel_last0. fold q'.
    assert (q' < t) as Ht'.
    { revert Ht. unfold mb_send. cbn. rewrite rel_last0. done. }
    rewrite rel_fresh0 by (rewrite rel_last0; lia).
    destruct (Z.eqb_spec q' t), (Z.eqb_spec (out_request (w_out w) + 1) t); try lia.
    rewrite andb_false_r. by destruct (registered fl wk).
  - done.
  - done.
Qed.

(** *** Discarding *)

Lemma insert_pending_discard_run n s w :
  no_oom w →
  insert_pending_discard n s w =
    Ret () (set_w_in (set_pending_replies (take n (pending_replies (w_in w)) ++
      PendingReply s s WORKAROUND_NONE XCB_REQUEST_DISCARD_REPLY ::
      drop n (pending_replies (w_in w))) (w_in w)) w).
Proof.
  intros Ho. unfold insert_pending_discard.
  by rewrite (bind_run _ _ _ _ _ (malloc_small 32 w Ho ltac:(lia))).
Qed.

(** [discard_reply] as a function. *)
Definition discarded (s : Z) (i : xcb_in) : xcb_in :=
  if s <? request_read i then set_replies (map_remove (replies i) (u32 s)).2 i
  else set_pending_replies (discard_pending s (pending_replies i))
    (if s =? request_read i then set_current_reply [] i else i).

Lemma discard_reply_run lo w m s :
  Rel lo w m → lo <= s <= out_request (w_out w) →
  discard_reply (u32 s) w = Ret () (set_w_in (discarded s (w_in w)) w).
Proof.
  intros [] Hs. destruct rel_window0 as (Hw1 & Hw2 & Hw3).
  pose proof (sim_window _ _ _ rel_sim0). set (i := w_in w) in *.
  unfold discard_reply. rewrite bind_gets. cbv zeta. change (id w) with w. fold i.
  rewrite !compare_32_counter by lia. unfold discarded.
  destruct (Z.ltb_spec (s - request_read i) 0), (Z.ltb_spec s (request_read i)); try lia; [done|].
  rewrite widen_exact by lia. unfold discard_pending.
  destruct (Z.eqb_spec (s - request_read i) 0), (Z.eqb_spec s (request_read i)); try lia.
  2: { cbn [andb]. destruct (discard_walk _ _); [done|]. by rewrite insert_pending_discard_run. }
  cbn [andb]. destruct (current_reply i) as [|c cs] eqn:Ec.
  { rewrite bool_decide_eq_true_2 by done. cbn [negb].
    assert (set_current_reply [] i = i) as -> by (rewrite <- Ec; by destruct i).
    destruct (discard_walk _ _); [done|]. by rewrite insert_pending_discard_run. }
  rewrite bool_decide_eq_false_2 by done. cbn [negb].
  unfold modify_in at 1. rewrite bind_modify. fold i. fold (discard_pending s (pending_replies i)).
  unfold matching_pend. subst s. destruct (pending_replies i) as [|p t] eqn:Ep.
  { rewrite insert_pending_discard_run by done. cbn. by rewrite Ep. }
  pose proof rel_pending0 as (Hp & _ & _)%pending_wf_cons.
  rewrite (discard_pending_cons (request_read i) (out_request (w_out w))) by (done || lia).
  destruct Hp as (Hp & Hl & Hx).
  rewrite bool_decide_eq_false_2 by done. cbn [orb]. rewrite Hl, !compare_64 by lia.
  rewrite Z.gtb_ltb.
  destruct (Z.ltb_spec (request_read i) (first_request p)).
  - destruct (Z.leb_spec (first_request p - request_read i) 0); [lia|]. cbn [andb].
    rewrite insert_pending_discard_run by done. cbn. by rewrite Ep.
  - assert (first_request p = request_read i) as Hf by lia.
    by rewrite Hf, Z.sub_diag, Z.eqb_refl.
Qed.

Lemma insert_nil_bufs s (f : Z → list (list byte)) :
  (∀ t b, b ∈ f t → 1 <= zlength b) → ∀ t b, b ∈ (<[s := []]> f) t → 1 <= zlength b.
Proof.
  intros Hf t b. destruct (decide (t = s)) as [->|].
  - rewrite fn_lookup_insert. set_solver.
  - rewrite fn_lookup_insert_ne by done. apply Hf.
Qed.

Lemma step_discarded lo w m s w' :
  Rel lo w m → lo <= s <= out_request (w_out w) → discard_reply (u32 s) w = Ret () w' →
  Rel lo w' (mb_discard s m).
Proof.
  intros Hr Hs E. rewrite (discard_reply_run _ _ _ _ Hr Hs) in E. injection E as <-.
  pose proof Hr as []. destruct rel_window0 as (Hw1 & Hw2 & Hw3).
  pose proof (sim_window _ _ _ rel_sim0). pose proof (sim_read _ _ _ rel_sim0) as Er.
  cbn in Er. unfold discarded, mb_discard.
  replace (s <? mb_read m) with (s <? request_read (w_in w)) by by rewrite Er.
  set (i := w_in w) in *. destruct (Z.ltb_spec s (request_read i)) as [Hlt|Hge].
  { split; cbn; auto; fold i; [|by apply insert_nil_bufs].
    exact (sim_set_map lo i (mb_demux m) s [] rel_sim0 ltac:(lia)). }
  set (i' := if s =? request_read i then set_current_reply [] i else i).
  assert (request_read i' = request_read i ∧ request_completed i' = request_completed i) as [Ei1 Ei2].
  { subst i'. by destruct (s =? request_read i). }
  destruct (discard_pending_spec (request_read i) (out_request (w_out w)) s (pending_replies i)
    ltac:(lia) ltac:(lia) rel_pending0) as [Hp Hf].
  split; cbn; rewrite ?Ei1, ?Ei2; auto.
  - apply (sim_view lo _ i'); [done|by left|]. subst i'.
    destruct (Z.eqb_spec s (request_read i)) as [->|Hne].
    + exact (sim_set_current lo i (mb_demux m) [] rel_sim0).
    + eapply sim_ext_replies; [exact rel_sim0|done|done|]. intros t. cbn.
      destruct (decide (t = s)) as [->|]; [|by rewrite fn_lookup_insert_ne].
      rewrite fn_lookup_insert. symmetry. apply (sim_future _ _ _ rel_sim0). fold i. lia.
  - intros t Ht. rewrite Hf. destruct (Z.eqb_spec s t) as [->|].
    + by rewrite lookup_insert_eq, rel_flags0.
    + by rewrite lookup_insert_ne, rel_flags0.
  - intros t Ht. rewrite lookup_insert_ne by lia. auto.
  - by apply insert_nil_bufs.
Qed.

(** *** Reading a packet *)

Lemma destination_route g pend fl :
  (response_type g = XCB_ERROR ∨ response_type g = XCB_REPLY →
   ∀ f, pend_flag pend f = flag_set fl f) →
  (¬ (response_type g = XCB_ERROR ∨ response_type g = XCB_REPLY) → pend = None) →
  destination_of g pend = route (response_type g) fl.
Proof.
  intros H1 H2. unfold destination_of, route.
  destruct (Z.eqb_spec (response_type g) XCB_ERROR) as [He|He],
    (Z.eqb_spec (response_type g) XCB_REPLY) as [Hr|Hr]; cbn [orb andb];
    rewrite ?H1 by auto; try done.
  by rewrite H2 by naive_solver.
Qed.

(** The pending replies after the sequence number [s] of a packet. *)
Lemma front_pending lo w m s :
  Rel lo w m → answers (front_header w) (w_in w) s → s <= out_request (w_out w) →
  let i := front_state w in
  request_read i = s ∧ request_completed (w_in w) <= request_completed i ∧
  s - 1 <= request_completed i <= s ∧
  pending_wf s (out_request (w_out w)) (pending_replies i) ∧
  (∀ t, s <= t → request_completed (w_in w) < t →
    flags_at (pending_replies i) t = flags_at (pending_replies (w_in w)) t).
Proof.
  intros [] Ha Hs. destruct rel_window0 as (Hw1 & Hw2 & Hw3).
  pose proof (sim_window _ _ _ rel_sim0). pose proof (sim_completed _ _ _ rel_sim0) as Hc.
  unfold front_state, sequence_effect, answers in *. cbv zeta.
  destruct (_ =? XCB_KEYMAP_NOTIFY) eqn:Ek.
  { subst s. split_and!; try done; lia. }
  destruct Ha as [Hrs Hseq]. rewrite Hseq, read_sequence_exact by lia.
  set (e := response_type (front_header w) =? XCB_ERROR).
  set (c := if s =? request_read (w_in w) then request_completed (w_in w) else s - 1).
  set (i3 := if s =? request_read (w_in w) then _ else _).
  assert (request_completed i3 = c ∧ request_read i3 = s) as [Ec Es].
  { subst i3 c. destruct (Z.eqb_spec s (request_read (w_in w))) as [->|Hne].
    - by destruct (XCB_SEQUENCE_COMPARE _ _ _).
    - destruct (XCB_SEQUENCE_COMPARE _ _ _), (current_reply (w_in w)); cbn;
        (split; [apply u64_small; lia|done]). }
  assert (request_completed (w_in w) <= c ∧ s - 1 <= c <= s) as [Hc1 Hc2].
  { subst c. destruct (Z.eqb_spec s (request_read (w_in w))); lia. }
  rewrite Ec.
  destruct (drop_completed_spec c (request_read (w_in w)) (out_request (w_out w))
    (pending_replies (w_in w)) ltac:(lia) ltac:(lia) Hw3 rel_pending0) as [Hp Hf].
  assert (pending_wf s (out_request (w_out w)) (drop_completed c (pending_replies (w_in w)))) as Hp'.
  { eapply pending_wf_weaken; [exact Hp| |done]. lia. }
  assert (∀ t, s <= t → request_completed (w_in w) < t →
    flags_at (drop_completed c (pending_replies (w_in w))) t =
    flags_at (pending_replies (w_in w)) t) as Hf'.
  { intros t Ht Htc. apply Hf. subst c. destruct (Z.eqb_spec s (request_read (w_in w))); lia. }
  destruct e; cbn; rewrite ?Ec, ?Es; split_and!; try done; lia.
Qed.

Lemma front_buffer_nonempty w : front_complete w → 1 <= zlength (front_buffer w).
Proof.
  intros (Hl & He & Hq & _). unfold front_length in Hq. unfold front_buffer, packet_buffer.
  assert (zlength (take (Z.to_nat (front_lengths w).1) (in_queue (w_in w))) >= 1).
  { unfold zlength in *. rewrite length_take. lia. }
  destruct (_ =? XCB_REPLY); rewrite ?zlength_app; [lia|].
  pose proof (zlength_nonneg (host_bytes 4 (request_read (front_state w)))).
  unfold zlength in *. rewrite ?length_app in *. lia.
Qed.

Lemma step_got lo w m s w' :
  Rel lo w m → front_complete w → answers (front_header w) (w_in w) s →
  s <= out_request (w_out w) →
  (response_type (front_header w) = XCB_ERROR ∨ response_type (front_header w) = XCB_REPLY →
   request_completed (w_in w) < s) →
  read_packet w = Ret true w' →
  mb_read m <= s ∧ s - 1 <= request_completed (w_in w') <= s ∧
  request_completed (w_in w) <= request_completed (w_in w') ∧
  Rel lo w' (mb_got s (response_type (front_header w)) (request_completed (w_in w'))
    (front_buffer w) m).
Proof.
  intros Hr Hc Ha Hs Hsane E. pose proof Hr as []. destruct rel_window0 as (Hw1 & Hw2 & Hw3).
  pose proof (sim_window _ _ _ rel_sim0). pose proof (sim_read _ _ _ rel_sim0) as Er. cbn in Er.
  assert (request_read (w_in w) <= s) as Hrs.
  { unfold answers in Ha. destruct (_ =? XCB_KEYMAP_NOTIFY); lia. }
  destruct (read_packet_demux lo w (mb_demux m) s rel_sim0 rel_oom0 Hc Ha) as (w1 & E1 & Hs1 & _);
    [lia|lia|].
  rewrite E1 in E. injection E as ->.
  rewrite read_packet_front in E1 by done. injection E1 as Hw.
  destruct (front_pending lo w m s Hr Ha Hs) as (Hread & Hcm & Hcs & Hp & Hf).
  assert (w_out w' = w_out w ∧ no_oom w' ∧ request_read (w_in w') = s ∧
    request_completed (w_in w') = request_completed (front_state w) ∧
    pending_replies (w_in w') = pending_replies (front_state w)) as (E1 & E2 & E3 & E4 & E5).
  { subst w'. cbn. destruct (front_destination w); cbn; done. }
  assert (front_destination w = route (response_type (front_header w)) (mb_flags m !! s)) as Hd.
  { unfold front_destination, front_pend, find_pend. apply destination_route.
    - intros Ht f. assert ((response_type (front_header w) =? XCB_ERROR) ||
        (response_type (front_header w) =? XCB_REPLY) = true) as ->.
      { destruct Ht as [->| ->]; done. }
      rewrite (matching_pend_flag _ (out_request (w_out w))) by (rewrite ?Hread; first [done|lia]).
      specialize (Hsane Ht). rewrite Hread, Hf, rel_flags0 by lia. done.
    - intros Ht. destruct (Z.eqb_spec (response_type (front_header w)) XCB_ERROR); [naive_solver|].
      destruct (Z.eqb_spec (response_type (front_header w)) XCB_REPLY); [naive_solver|]. done. }
  split; [lia|]. split; [lia|]. split; [lia|]. rewrite Hd in Hs1. unfold mb_got. fold (mb_demux m).
  set (d := demux_packet s (route _ _) (front_buffer w) (mb_demux m)) in *.
  split; rewrite ?E1, ?E2, ?E3, ?E4, ?E5; cbn; auto.
  - by destruct d.
  - intros t Ht. rewrite Hf by lia. apply rel_flags0. lia.
  - intros t b. subst d.
    pose proof (front_buffer_nonempty w Hc) as Hb.
    unfold demux_packet. destruct (route _ _); cbn; [apply rel_bufs0| |apply rel_bufs0].
    destruct (decide (t = s)) as [->|].
    + rewrite fn_lookup_insert. intros [?|Hin]%elem_of_app; [by eapply rel_bufs0|].
      by apply list_elem_of_singleton in Hin as ->.
    + rewrite fn_lookup_insert_ne by done. apply rel_bufs0.
Qed.

(** ** Every run is a run of the mailbox *)

Lemma step_refines lo w m l w' :
  Rel lo w m → cstep lo w l w' → ∃ m', mstep m l m' ∧ Rel lo w' m'.
Proof.
  intros Hr Hstep. destruct Hstep as [w bs Hb|w fl slots vec big wk isvoid n w' Hn Hwk Hlo Hb E
    |w s w' Hc Ha Hs Hsane E|w s e r w' Hz Hs E|w r w' E|w s w' Hs E].
  - exists m. split; [constructor|by apply step_arrived].
  - eexists. split; [constructor|by eapply step_sent].
  - destruct (step_got lo w m s w' Hr Hc Ha Hs Hsane E) as (Hm & Hcm & Hcc & Hr').
    eexists. split; [|exact Hr']. destruct Hr. constructor; [lia|lia|lia|].
    intros Ht. rewrite rel_completed0. by apply Hsane.
  - destruct (step_polled lo w m s e r w' Hr Hz Hs E) as [-> Hr'].
    eexists. split; [constructor|exact Hr'].
  - destruct (step_event lo w m r w' Hr E) as [-> Hr']. eexists. split; [constructor|exact Hr'].
  - eexists. split; [|by eapply step_discarded]. constructor.
    destruct Hr. lia.
Qed.

Lemma crun_refines lo w ls w' :
  crun lo w ls w' → ∀ m, Rel lo w m → ∃ m', mrun m ls m' ∧ Rel lo w' m'.
Proof.
  induction 1 as [w|w l w' ls w'' Hstep _ IH]; intros m Hr; [by exists m; split; [constructor|]|].
  destruct (step_refines lo w m l w' Hr Hstep) as (m' & Hm & Hr').
  destruct (IH m' Hr') as (m'' & Hrun & Hr''). exists m''. split; [by econstructor|done].
Qed.
End Runs.
