(* ===== verification/MailboxProps.v ===== *)
(** * What the mailbox promises

    Runs of the input side are runs of the mailbox; in every run each reply is
    handed out once, in order and to the request it answers, and nothing is
    heard of a request that has been discarded. *)
From S2P Require Import Prelude Effects Seq XcbMap State In InFrame InFacts InSafety Demux Conn.
From S2P Require Import Out OutFacts Request RequestFacts Pending Mailbox Sample.
From stdpp Require Import functions list.
#[local] Open Scope Z_scope.

Section Machine.
Context `{Host}.

(** ** Replies of one request *)

(** The packets among [ls] that go to the replies of request [s], whose flags are
    [fl]. *)
Fixpoint replies_got (s : Z) (fl : option Z) (ls : list label) : list (list byte) :=
  match ls with
  | Got t type buf :: ls' =>
      match route type fl with
      | ToReplies => if t =? s then buf :: replies_got s fl ls' else replies_got s fl ls'
      | _ => replies_got s fl ls'
      end
  | _ :: ls' => replies_got s fl ls'
  | [] => []
  end.

(** The replies and errors that polling for [s] has returned in [ls]. *)
Fixpoint replies_taken (s : Z) (ls : list label) : list (list byte) :=
  match ls with
  | Polled t _ (Some (Some buf, _)) :: ls' | Polled t _ (Some (None, Some buf)) :: ls' =>
      if t =? s then buf :: replies_taken s ls' else replies_taken s ls'
  | _ :: ls' => replies_taken s ls'
  | [] => []
  end.

Lemma mb_send_flags_old sync fl m s :
  s <= mb_last m → mb_flags (mb_send sync fl m) !! s = mb_flags m !! s.
Proof.
  intros Hs. rewrite mb_send_flags. cbv zeta.
  set (q' := if sync then mb_last m + 1 + 1 else _).
  assert (mb_last m < q') by (subst q'; destruct sync; lia).
  destruct (Z.eqb_spec q' s), (Z.eqb_spec (mb_last m + 1) s); try lia.
  rewrite andb_false_r. by destruct fl.
Qed.

Lemma mb_send_last sync fl m : mb_last m <= mb_last (mb_send sync fl m).
Proof. unfold mb_send. cbn. destruct sync; lia. Qed.

(** What one step means for request [s]. *)
Lemma mstep_replies m l m' s :
  mstep m l m' → s <= mb_last m → l ≠ Discarded s → (∀ e r, l = Polled s e r → e = true) →
  s <= mb_last m' ∧ mb_flags m' !! s = mb_flags m !! s ∧
  replies_taken s [l] ++ mb_replies m' s =
    mb_replies m s ++ replies_got s (mb_flags m !! s) [l].
Proof.
  intros Hstep Hs Hd He.
  destruct Hstep as [m|m sync fl|m t type completed buf Ht Hc Hcc Hty|m t e|m|m t Ht]; cbn.
  - by rewrite app_nil_r.
  - rewrite app_nil_r. split; [exact (Z.le_trans _ _ _ Hs (mb_send_last sync fl m))|].
    split; [by apply mb_send_flags_old|done].
  - split; [done|]. split; [done|]. destruct (Z.eqb_spec t s) as [->|Hne].
    + destruct (route type _); cbn; rewrite ?app_nil_r; [done| |done].
      by rewrite fn_lookup_insert.
    + destruct (route type (mb_flags m !! t)), (route type (mb_flags m !! s)); cbn;
        by rewrite ?fn_lookup_insert_ne, ?app_nil_r by done.
  - split; [done|]. split; [done|]. rewrite app_nil_r.
    destruct (decide (t = s)) as [->|Hne].
    + rewrite fn_lookup_insert. rewrite (He e (mb_answer s e m) eq_refl).
      unfold mb_answer, reply_result. destruct (mb_replies m s) as [|b q]; cbn.
      * by destruct (_ || _).
      * destruct (_ =? XCB_ERROR); cbn; by rewrite Z.eqb_refl.
    + rewrite fn_lookup_insert_ne by done. unfold mb_answer, reply_result.
      destruct (Z.eqb_spec t s); [done|].
      destruct (mb_replies m t); [by destruct (_ || _)|].
      destruct (_ =? XCB_ERROR); [by destruct e|done].
  - by rewrite app_nil_r.
  - assert (t ≠ s) as Hne by congruence. rewrite app_nil_r, fn_lookup_insert_ne by done.
    split; [done|]. split; [|done]. destruct (t <? mb_read m); [done|].
    by rewrite lookup_insert_ne.
Qed.

Lemma replies_taken_cons s l ls : replies_taken s (l :: ls) = replies_taken s [l] ++ replies_taken s ls.
Proof.
  destruct l as [| | |t e [[[b|] [b'|]]|]| |]; cbn; try done; by destruct (t =? s).
Qed.

Lemma replies_got_cons s fl l ls : replies_got s fl (l :: ls) = replies_got s fl [l] ++ replies_got s fl ls.
Proof.
  destruct l as [| |t type buf| | |]; cbn; try done. by destruct (route type fl), (t =? s).
Qed.

Lemma replies_got_app s fl ls1 ls2 :
  replies_got s fl (ls1 ++ ls2) = replies_got s fl ls1 ++ replies_got s fl ls2.
Proof.
  induction ls1 as [|l ls1 IH]; [done|]. cbn [app].
  by rewrite replies_got_cons, IH, app_assoc, <- replies_got_cons.
Qed.

Lemma mrun_app m1 ls1 m2 ls2 m3 :
  mrun m1 ls1 m2 → mrun m2 ls2 m3 → mrun m1 (ls1 ++ ls2) m3.
Proof. induction 1; [done|]. intros ?. cbn. econstructor; eauto. Qed.

Lemma mrun_replies m ls m' s :
  mrun m ls m' → s <= mb_last m → Discarded s ∉ ls → (∀ e r, Polled s e r ∈ ls → e = true) →
  replies_taken s ls ++ mb_replies m' s = mb_replies m s ++ replies_got s (mb_flags m !! s) ls.
Proof.
  induction 1 as [m|m l m' ls m'' Hstep _ IH]; intros Hs Hd He; [by rewrite app_nil_r|].
  destruct (mstep_replies m l m' s Hstep Hs) as (Hs' & Hf & Hl).
  { intros ->. apply Hd. by left. }
  { intros e r ->. eapply He. by left. }
  rewrite replies_taken_cons, replies_got_cons, <- app_assoc, IH.
  - by rewrite app_assoc, Hl, <- app_assoc, Hf.
  - done.
  - intros Hin. apply Hd. by right.
  - intros e r Hin. eapply He. by right.
Qed.

(** ** Discarded requests *)

(** Nothing is left of request [s] and nothing will come. *)
Definition gone (s : Z) (m : mailbox) : Prop :=
  s <= mb_last m ∧ mb_replies m s = [] ∧
  (s < mb_read m ∨ flag_set (mb_flags m !! s) XCB_REQUEST_DISCARD_REPLY = true).

Lemma discard_flag_set (z : Z) :
  flag_set (Some (Z.lor z XCB_REQUEST_DISCARD_REPLY)) XCB_REQUEST_DISCARD_REPLY = true.
Proof.
  unfold flag_set, has_flag, XCB_REQUEST_DISCARD_REPLY. apply negb_true_iff, Z.eqb_neq. intros E.
  assert (Z.testbit (Z.land (Z.lor z 4) 4) 2 = false) as Hb by by rewrite E, Z.bits_0.
  rewrite Z.land_spec, Z.lor_spec in Hb. change (Z.testbit 4 2) with true in Hb.
  by rewrite orb_true_r in Hb.
Qed.

Lemma mb_discard_gone s m : s <= mb_last m → gone s (mb_discard s m).
Proof.
  intros Hs. split; [done|]. cbn. split; [by rewrite fn_lookup_insert|].
  destruct (Z.ltb_spec s (mb_read m)); [by left|right].
  by rewrite lookup_insert_eq, discard_flag_set.
Qed.

Definition answer_type (type : Z) : Prop := type = XCB_ERROR ∨ type = XCB_REPLY.

Lemma mstep_gone m l m' s :
  mstep m l m' → gone s m →
  gone s m' ∧ (∀ e r, l = Polled s e r → r = Some (None, None) ∨ r = None) ∧
  ∀ ev, ev ∈ mb_events m' → ev ∈ mb_events m ∨
    ∃ t type, l = Got t type ev ∧ ¬ (t = s ∧ answer_type type).
Proof.
  intros Hstep (Hs & Hq & Hf).
  destruct Hstep as [m|m sync fl|m t type completed buf Ht Hc Hcc Hty|m t e|m|m t Ht].
  - split_and!; [done|by intros|by left].
  - split_and!; [|by intros|by left]. split; [exact (Z.le_trans _ _ _ Hs (mb_send_last sync fl m))|].
    split; [done|]. by rewrite mb_send_flags_old.
  - destruct (decide (t = s ∧ answer_type type)) as [[-> Ha]|Hne].
    + destruct Hf as [Hf|Hf]; [lia|].
      assert (route type (mb_flags m !! s) = ToNobody) as Hr.
      { unfold route. rewrite Hf. by destruct Ha as [->| ->]. }
      unfold mb_got, gone. rewrite Hr. cbn. split_and!; [done..|by right|by intros|by left].
    + assert (t ≠ s ∨ route type (mb_flags m !! t) = ToEvents) as Hr.
      { destruct (decide (t = s)) as [->|]; [right|by left]. unfold route.
        destruct (Z.eqb_spec type XCB_ERROR), (Z.eqb_spec type XCB_REPLY); try done;
          exfalso; apply Hne; unfold answer_type; auto. }
      split_and!; [|by intros|].
      * unfold gone, mb_got. cbn. split; [done|]. split.
        { destruct (route type _) eqn:Er; cbn; try done.
          destruct Hr as [Hr|Hr]; [|congruence]. by rewrite fn_lookup_insert_ne. }
        assert (d_read (demux_packet t (route type (mb_flags m !! t)) buf
          (Demux (mb_read m) (mb_replies m) (mb_events m))) = t) as ->.
        { by destruct (route type _). }
        destruct Hf as [Hf|Hf]; [left; lia|by right].
      * intros ev. unfold mb_got. cbn. destruct (route type _); cbn; [by left|by left|].
        intros [?|Hev]%elem_of_app; [by left|]. right.
        apply list_elem_of_singleton in Hev as ->. by exists t, type.
  - split_and!; [| |by left].
    + split; [done|]. split; [|done]. cbn. destruct (decide (t = s)) as [->|].
      * by rewrite fn_lookup_insert, Hq.
      * by rewrite fn_lookup_insert_ne.
    + intros e' r [= -> _ <-]. unfold mb_answer. rewrite Hq. destruct (_ || _); auto.
  - split_and!; [done|by intros|]. intros ev Hev. left. cbn in Hev.
    destruct (mb_events m); [done|]. by right.
  - split_and!; [|by intros|by left]. split; [done|]. cbn. split.
    + destruct (decide (t = s)) as [->|]; [by rewrite fn_lookup_insert|by rewrite fn_lookup_insert_ne].
    + destruct Hf as [Hf|Hf]; [by left|right]. destruct (t <? mb_read m); [done|].
      destruct (decide (t = s)) as [->|]; [by rewrite lookup_insert_eq, discard_flag_set|].
      by rewrite lookup_insert_ne.
Qed.

Lemma mrun_gone m ls m' s :
  mrun m ls m' → gone s m →
  (∀ e r, Polled s e r ∈ ls → r = Some (None, None) ∨ r = None) ∧
  (∀ ev, Event (Some ev) ∈ ls → ev ∈ mb_events m ∨
    ∃ t type, Got t type ev ∈ ls ∧ ¬ (t = s ∧ answer_type type)).
Proof.
  induction 1 as [m|m l m' ls m'' Hstep _ IH]; intros Hg; [split; set_solver|].
  destruct (mstep_gone m l m' s Hstep Hg) as (Hg' & Hp & He).
  destruct (IH Hg') as [IHp IHe]. split.
  - intros e r [<-|?]%elem_of_cons; eauto.
  - intros ev [<-|Hin]%elem_of_cons.
    + left. inversion Hstep; subst. destruct (mb_events m); simplify_eq/=. by left.
    + destruct (IHe ev Hin) as [Hev|(t & type & Ht & Hne)].
      * destruct (He ev Hev) as [?|(t & type & -> & Hne)]; [by left|right].
        exists t, type. split; [by left|done].
      * right. exists t, type. split; [by right|done].
Qed.
End Machine.

(** ** The theorems *)

Section Theorems.
Context `{Host} `{XProto}.

(** Every operation of a run returns when it is called. *)
Record responsive (lo : Z) (w : world) : Prop := {
  resp_poll : ∀ s e, u32 s ≠ 0 → lo <= s <= out_request (w_out w) →
    returns (poll_for_reply (u32 s) e) w;
  resp_event : returns get_event w;
  resp_discard : ∀ s, lo <= s <= out_request (w_out w) → returns (discard_reply (u32 s)) w;
  resp_send : ∀ fl slots vec big wk isvoid,
    out_return_socket (w_out w) = None → out_request (w_out w) + 2 < 2 ^ 63 →
    (0 < slots)%nat → small_iov vec → 4 <= zlength (default [] (vec !! 0%nat)) →
    returns (number_request fl slots vec big wk isvoid) w;
  resp_read : ∀ s, front_complete w → answers (front_header w) (w_in w) s →
    s <= out_request (w_out w) → ∃ w', read_packet w = Ret true w'
}.

Lemma rel_responsive lo w m : Rel lo w m → responsive lo w.
Proof.
  intros Hr. destruct (rel_window _ _ _ Hr) as (Hw1 & Hw2 & Hw3).
  pose proof (rel_sim _ _ _ Hr) as Hs0. pose proof (sim_window _ _ _ Hs0).
  pose proof (rel_oom _ _ _ Hr) as Ho.
  split.
  - intros s e Hz Hs.
    destruct (poll_for_reply_demux lo w (mb_demux m) s e Hs0 Ho Hz) as (w1 & E & _);
      [lia|apply (rel_bufs _ _ _ Hr)|by eexists _, _].
  - destruct (get_event_demux lo w (mb_demux m) Hs0) as (w1 & E & _). by eexists _, _.
  - intros s Hs. unfold returns. rewrite (discard_reply_run lo w m) by done. by eexists _, _.
  - intros fl slots vec big wk isvoid Hn Hq Hsl Hv Hd.
    destruct (number_request_step fl slots vec big wk isvoid w Hn) as (w1 & k & v & E & _);
      [lia|done..|by eexists _, _].
  - intros s Hc Ha Hs. destruct (read_packet_demux lo w (mb_demux m) s Hs0 Ho Hc Ha)
      as (w1 & E & _); [lia|lia|by exists w1].
Qed.

(** Over the whole window the queues of the mailbox are what the connection
    holds. *)
Lemma sim_pending_for lo i m t :
  Sim lo i m → lo <= t < lo + 2 ^ 31 → d_replies m t = pending_for i t.
Proof.
  intros Hs Ht. destruct (decide (t <= request_read i)); [apply (sim_replies _ _ _ Hs); lia|].
  rewrite (sim_future _ _ _ Hs) by lia. unfold pending_for.
  destruct (Z.eqb_spec t (request_read i)); [lia|].
  rewrite map_get_none; [done|]. eapply sim_fresh; [done|lia].
Qed.

(** C9. The input side refines the mailbox: every run of registering requests,
    reading packets, polling, collecting events and discarding, in any order,
    is a run of the abstract machine with the same answers; and after every
    run each of these operations still returns: a request can be registered, a
    complete packet read, a reply polled for or discarded and an event collected. *)
Theorem input_side_refines lo w ls w' m :
  Rel lo w m → crun lo w ls w' →
  (∃ m', mrun m ls m' ∧ Rel lo w' m') ∧ responsive lo w'.
Proof.
  intros Hr Hrun. destruct (crun_refines lo w ls w' Hrun m Hr) as (m' & Hm & Hr').
  split; [by exists m'|by eapply rel_responsive].
Qed.

(** C10. Each reply is handed out once and in order: over any run, the replies
    and errors that polling for request [s] has returned, followed by those
    still there, are those that were there followed by the replies and checked
    errors that were read for [s] and for no other request. *)
Theorem replies_exactly_once lo w ls w' m s :
  Rel lo w m → crun lo w ls w' →
  lo <= s <= out_request (w_out w) → request_completed (w_in w) < s →
  Discarded s ∉ ls → (∀ e r, Polled s e r ∈ ls → e = true) →
  replies_taken s ls ++ pending_for (w_in w') s =
    pending_for (w_in w) s ++ replies_got s (flags_at (pending_replies (w_in w)) s) ls.
Proof.
  intros Hr Hrun Hs Hc Hd He. destruct (crun_refines lo w ls w' Hrun m Hr) as (m' & Hm & Hr').
  destruct (rel_window _ _ _ Hr) as (Hw1 & Hw2 & Hw3).
  rewrite <- (sim_pending_for lo (w_in w) (mb_demux m) s (rel_sim _ _ _ Hr)) by lia.
  rewrite <- (sim_pending_for lo (w_in w') (mb_demux m') s (rel_sim _ _ _ Hr')) by lia.
  rewrite (rel_flags _ _ _ Hr) by done. apply mrun_replies; try done.
  rewrite (rel_last _ _ _ Hr). lia.
Qed.

(** C11. Nothing more is heard of a discarded request: in any run after
    [discard_reply], polling for it finds no reply or error, and whatever packet is
    read for it is given to nobody.  An event handed out later was in the queue of
    events already when the request was discarded, or it is a packet read since that
    is no reply or error of the request.  The first case includes the exception
    xcb.h makes: an error of the request itself, sent unchecked, that has already
    arrived. *)
Theorem discarded_reply_is_gone lo w m s w1 ls w2 :
  Rel lo w m → lo <= s <= out_request (w_out w) →
  discard_reply (u32 s) w = Ret () w1 → crun lo w1 ls w2 →
  (∀ e r, Polled s e r ∈ ls → r = Some (None, None) ∨ r = None) ∧
  (∀ ev, Event (Some ev) ∈ ls → ev ∈ events (w_in w) ∨
    ∃ t type, Got t type ev ∈ ls ∧ ¬ (t = s ∧ answer_type type)).
Proof.
  intros Hr Hs E Hrun. pose proof (step_discarded lo w m s w1 Hr Hs E) as Hr1.
  destruct (crun_refines lo w1 ls w2 Hrun _ Hr1) as (m2 & Hm & _).
  pose proof (sim_events _ _ _ (rel_sim _ _ _ Hr)) as Ev. cbn in Ev. rewrite <- Ev.
  apply (mrun_gone _ _ _ _ Hm). apply mb_discard_gone. rewrite (rel_last _ _ _ Hr). lia.
Qed.
End Theorems.

(** ** The hypotheses can hold *)

Section Witnesses.
#[local] Existing Instances sample_host sample_proto.

(** Request 1 has been sent, checked, and nothing has been read. *)
Definition one_sent (queue : list byte) : world :=
  sample_world (set_pending_replies [PendingReply 1 1 WORKAROUND_NONE XCB_REQUEST_CHECKED]
    (sample_in queue)) (sample_out [] 1 1) (sample_os [] [] []).

Definition one_sent_mailbox : mailbox :=
  Mailbox 1 0 0 (λ _, []) [] {[1 := XCB_REQUEST_CHECKED]}.

Lemma one_sent_rel q : Rel 0 (one_sent q) one_sent_mailbox.
Proof.
  split; try done.
  - by apply (sample_sim (w_in (one_sent q))).
  - apply pending_wf_cons. split_and!; [split_and!; cbn; [lia|lia|done..]|done|apply pending_wf_nil].
  - intros t Ht. change (flags_at [PendingReply 1 1 WORKAROUND_NONE XCB_REQUEST_CHECKED] t =
      ({[1 := XCB_REQUEST_CHECKED]} : gmap Z Z) !! t).
    cbn [flags_at first_request flags].
    destruct (Z.eqb_spec 1 t) as [<-|]; [by rewrite lookup_singleton_eq|by rewrite lookup_singleton_ne].
  - intros t Ht. change (({[1 := XCB_REQUEST_CHECKED]} : gmap Z Z) !! t = None).
    change (1 < t) in Ht. rewrite lookup_singleton_ne; [done|lia].
  - intros s b Hb. by apply not_elem_of_nil in Hb.
Qed.

Definition one_reply : list byte := sample_packet XCB_REPLY 1 0.

(** The bytes of the reply arrive, the packet is read and polled for. *)
Definition answered_run (r : option (option (list byte) * option (list byte))) : list label :=
  [Arrived; Got 1 XCB_REPLY one_reply; Polled 1 true r].

Definition with_queue (q : list byte) (w : world) : world :=
  set_w_in (set_in_queue (in_queue (w_in w) ++ q) (w_in w)) w.

Definition poll_one (w : world) := poll_for_reply (u32 1) true w.

Definition reply_read (w : world) : world := final w (read_packet (with_queue one_reply w)).
Definition reply_polled (w : world) : world := final w (poll_one (reply_read w)).

(** From the world before or after the request has been discarded. *)
Definition one_discarded : world := final (one_sent []) (discard_reply (u32 1) (one_sent [])).

(** Evaluates the run from the world [w]. *)
Ltac answered_tac w :=
  unfold answered_run; eapply CCons;
    [eapply (CArrived 0 w one_reply); vm_compute; discriminate|];
  change (set_w_in _ w) with (with_queue one_reply w);
  replace (Got 1 XCB_REPLY one_reply) with
    (Got 1 (response_type (front_header (with_queue one_reply w)))
       (front_buffer (with_queue one_reply w))) by (vm_compute; reflexivity);
  eapply CCons;
    [eapply (CGot 0 (with_queue one_reply w) 1);
       [split_and!; vm_compute; first [discriminate|reflexivity]
       |vm_compute; split; [split; [discriminate|reflexivity]|reflexivity]
       |vm_compute; discriminate
       |intros _; reflexivity
       |vm_compute; reflexivity]|];
  eapply CCons; [|apply CNil];
  eapply CPolled; [vm_compute; discriminate|vm_compute; split; discriminate|];
  vm_compute; reflexivity.

Lemma answered_run_from :
  crun 0 (one_sent []) (answered_run (Some (Some one_reply, None))) (reply_polled (one_sent [])).
Proof. answered_tac (one_sent []). Qed.

Lemma discarded_run_from :
  crun 0 one_discarded (answered_run None) (reply_polled one_discarded).
Proof. answered_tac one_discarded. Qed.

Lemma input_side_refines_witness :
  (∃ m', mrun one_sent_mailbox (answered_run (Some (Some one_reply, None))) m' ∧
    Rel 0 (reply_polled (one_sent [])) m') ∧ responsive 0 (reply_polled (one_sent [])).
Proof.
  apply (input_side_refines 0 (one_sent [])); [apply one_sent_rel|apply answered_run_from].
Defined.

Lemma replies_exactly_once_witness :
  replies_taken 1 (answered_run (Some (Some one_reply, None))) ++
    pending_for (w_in (reply_polled (one_sent []))) 1 = [one_reply].
Proof.
  apply (replies_exactly_once 0 (one_sent []) (answered_run (Some (Some one_reply, None)))
    (reply_polled (one_sent [])) one_sent_mailbox 1).
  - apply one_sent_rel.
  - apply answered_run_from.
  - vm_compute. split; discriminate.
  - reflexivity.
  - intros [?|[?|[?|?%not_elem_of_nil]%elem_of_cons]%elem_of_cons]%elem_of_cons; done.
  - intros e r [?|[?|[?|?%not_elem_of_nil]%elem_of_cons]%elem_of_cons]%elem_of_cons; by simplify_eq.
Defined.

Lemma discarded_reply_is_gone_witness :
  (∀ e r, Polled 1 e r ∈ answered_run None → r = Some (None, None) ∨ r = None) ∧
  (∀ ev, Event (Some ev) ∈ answered_run None → ev ∈ events (w_in (one_sent [])) ∨
    ∃ t type, Got t type ev ∈ answered_run None ∧ ¬ (t = 1 ∧ answer_type type)).
Proof.
  apply (discarded_reply_is_gone 0 (one_sent []) one_sent_mailbox 1 one_discarded _
    (reply_polled one_discarded)).
  - apply one_sent_rel.
  - vm_compute. split; discriminate.
  - reflexivity.
  - apply discarded_run_from.
Defined.
End Witnesses.
