(* ===== verification/Wakeups.v ===== *)
(** * Whom a packet wakes up

    [read_packet] signals a reader only for a reply or error of the reader's own
    request.  A packet also ends the requests before its own; the threads that wait
    for those are not told. *)
From S2P Require Import Prelude Effects Seq XcbMap State In InFrame InFacts InSafety Demux Conn.
From S2P Require Import Out OutFacts Request RequestFacts Pending Mailbox MailboxProps Sample.
From stdpp Require Import functions list.
#[local] Open Scope Z_scope.

Lemma find_reader_some l read r :
  find_reader l read = Some r →
  r ∈ l ∧ XCB_SEQUENCE_COMPARE_32 (reader_request r) Z.eqb read = true.
Proof.
  induction l as [|r' l IH]; [done|]. cbn [find_reader].
  destruct (XCB_SEQUENCE_COMPARE_32 (reader_request r') Z.leb read); [|done].
  destruct (XCB_SEQUENCE_COMPARE_32 (reader_request r') Z.eqb read) eqn:E.
  - intros [= <-]. by split; [left|].
  - intros [Hr ?]%IH. by split; [right|].
Qed.

Section Wakeups.
Context `{Host} `{XProto}.

(** The wakeups of a packet for [s] leave a reader of another request alone. *)
Lemma wakes_other lo (i : xcb_in) d r s x :
  request_read i = s → reader_request r = u32 x → lo <= x <= s → x ≠ s → 0 <= lo → s < 2 ^ 63 →
  s - lo < 2 ^ 31 → NoDup (reader_id <$> readers i) → r ∈ readers i →
  (Signal (ReaderCond (reader_id r)) ∉ wakes d i) ∧ (Broadcast (ReaderCond (reader_id r)) ∉ wakes d i).
Proof.
  intros Hs Hr Hx Hne Hlo H63 Hw Hnd Hin. destruct d; cbn [wakes]; [set_solver| |set_solver].
  destruct (find_reader (readers i) (request_read i)) as [r'|] eqn:E; [|set_solver].
  apply find_reader_some in E as [Hin' Hc]. split; [|set_solver].
  intros [= Hid]%list_elem_of_singleton. assert (r' = r) as ->.
  { apply list_elem_of_lookup in Hin as [n Hn], Hin' as [n' Hn'].
    assert (n = n') as <-; [|congruence].
    eapply (NoDup_lookup _ n n' (reader_id r) Hnd); rewrite list_lookup_fmap; [by rewrite Hn|].
    by rewrite Hn', Hid. }
  rewrite Hr, Hs, compare_32_counter in Hc by lia. lia.
Qed.

(** C34. A thread that waits for the end of a request is not told of it.  A reader
    waits for request [x], of which nothing has arrived, and a complete packet of a
    later request [s] is read.  Then no more can come for [x]: asked again,
    [poll_for_reply] would answer "none" at once.  But the reader is still in the
    list, and [read_packet] has neither signalled nor broadcast its condition. *)
Theorem finished_reader_sleeps lo w m s r x e w' :
  Rel lo w m → front_complete w → answers (front_header w) (w_in w) s → s <= out_request (w_out w) →
  (response_type (front_header w) = XCB_ERROR ∨ response_type (front_header w) = XCB_REPLY →
   request_completed (w_in w) < s) →
  NoDup (reader_id <$> readers (w_in w)) → r ∈ readers (w_in w) →
  reader_request r = u32 x → u32 x ≠ 0 → lo <= x < s →
  poll_for_reply (u32 x) e w = Ret None w →
  read_packet w = Ret true w' →
  (∃ w'', poll_for_reply (u32 x) e w' = Ret (Some (None, None)) w'') ∧ r ∈ readers (w_in w') ∧
  ∃ ss, os_signals (w_os w') = os_signals (w_os w) ++ ss ∧
    (Signal (ReaderCond (reader_id r)) ∉ ss) ∧ (Broadcast (ReaderCond (reader_id r)) ∉ ss).
Proof.
  intros Hr Hc Ha Hs Hsane Hnd Hin Hrx Hz Hx Hp E.
  pose proof (rel_sim _ _ _ Hr) as Hsim. pose proof (sim_window _ _ _ Hsim).
  destruct (rel_window _ _ _ Hr) as (Hw1 & Hw2 & Hw3).
  destruct (front_pending lo w m s Hr Ha Hs) as (Hread & _).
  destruct (step_got lo w m s w' Hr Hc Ha Hs Hsane E) as (Hms & _ & _ & Hr').
  pose proof (sequence_effect_keeps true (front_header w) (w_in w)) as (_ & _ & Hrd & _).
  fold (front_state w) in Hrd. pose proof (rel_oom _ _ _ Hr) as Hoom.
  destruct (step_polled lo w m x e None w Hr Hz ltac:(lia) Hp) as [Hm _].
  split; [|split].
  - assert (out_request (w_out w') = out_request (w_out w)) as Ho.
    { rewrite read_packet_front in E by done. by injection E as <-. }
    destruct (resp_poll _ _ (rel_responsive lo w' _ Hr') x e Hz ltac:(lia)) as (a & w'' & Ep).
    exists w''. destruct (step_polled lo w' _ x e a w'' Hr' Hz ltac:(lia) Ep) as [-> _].
    rewrite Ep. f_equal. unfold mb_answer in *. unfold mb_got. cbn [mb_replies mb_read mb_completed].
    destruct (mb_replies m x) eqn:Eq; [|done]. unfold demux_packet.
    destruct (route _ _); cbn [d_replies d_read]; rewrite ?fn_lookup_insert_ne by lia; rewrite Eq;
      by destruct (Z.ltb_spec x s); [|lia].
  - rewrite read_packet_front in E by done. injection E as <-. cbn [w_in set_w_in with_signals set_w_os].
    by destruct (front_destination w); cbn [store readers set_current_reply set_events set_in_queue]; rewrite Hrd.
  - rewrite read_packet_front in E by done. injection E as <-.
    exists (wakes (front_destination w) (front_state w)). split; [done|].
    apply (wakes_other lo _ _ _ s x); rewrite ?Hrd; try done; lia.
Qed.
End Wakeups.

(** ** The hypotheses can hold *)

Section Witnesses.
#[local] Existing Instances sample_host sample_proto.

(** Requests 1 and 2 have been sent; a thread waits for the error of request 1, of
    which there is none, and the reply to request 2 is in the queue. *)
Definition waiting_reader : reader := Reader 1 0.

Definition waiting_world : world :=
  sample_world (set_readers [waiting_reader]
      (set_request_expected 2 (sample_in (sample_packet XCB_REPLY 2 0))))
    (sample_out [] 2 2) (sample_os [] [] []).

Definition waiting_after : world := final waiting_world (read_packet waiting_world).

Lemma waiting_rel : Rel 0 waiting_world (Mailbox 2 0 0 (λ _, []) [] ∅).
Proof.
  split; try done.
  - by apply (sample_sim (w_in waiting_world)).
  - apply pending_wf_nil.
  - intros s b Hb. by apply not_elem_of_nil in Hb.
Qed.

Lemma finished_reader_sleeps_witness :
  (∃ w'', poll_for_reply (u32 1) true waiting_after = Ret (Some (None, None)) w'') ∧
  waiting_reader ∈ readers (w_in waiting_after) ∧
  ∃ ss, os_signals (w_os waiting_after) = os_signals (w_os waiting_world) ++ ss ∧
    (Signal (ReaderCond 0) ∉ ss) ∧ (Broadcast (ReaderCond 0) ∉ ss).
Proof.
  apply (finished_reader_sleeps 0 waiting_world (Mailbox 2 0 0 (λ _, []) [] ∅) 2 waiting_reader 1 true
    waiting_after waiting_rel).
  - split_and!; vm_compute; first [discriminate|reflexivity].
  - vm_compute. split; [split; [discriminate|reflexivity]|reflexivity].
  - vm_compute. discriminate.
  - intros _. reflexivity.
  - apply NoDup_singleton.
  - by left.
  - reflexivity.
  - discriminate.
  - lia.
  - vm_compute. reflexivity.
  - vm_compute. reflexivity.
Defined.
End Witnesses.
