(* ===== verification/Typed.v ===== *)
(** * Well-formed connections

    The types behind the bytes: what the fields of a connection contain, as an
    invariant, and rules to check a computation against it.  [typed T m] says
    that [m] keeps a connection well formed and that its results are in [T]. *)
From S2P Require Import Prelude Effects Seq XcbMap State In InFrame InFacts Conn Out Wait.
From S2P Require Import Ext Xid Request Connect.
#[local] Open Scope Z_scope.

(** ** The types *)

(** [word n z]: an unsigned integer of [n] bits. *)
Definition word (n z : Z) : Prop := 0 <= z < 2 ^ n.

Section Types.
Context `{Host} `{XProto}.

(** An event or an error that has been read has the size of its structure and its
    [full_sequence] continues its [sequence]; a generic event is followed by as
    many words as its [length] says.  A keymap event has no sequence number. *)
Definition numbered_packet (buf : list byte) : Prop :=
  let ev := parse_generic_event buf in
  let ge := parse_ge_event buf in
  36 <= zlength buf ∧
  (Z.land (ev_response_type ev) 0x7f ≠ XCB_KEYMAP_NOTIFY →
   u16 (ev_full_sequence ev) = ev_sequence ev) ∧
  (ge_response_type ge = XCB_XGE_EVENT → zlength buf = 36 + u32 (4 * ge_length ge)).

Definition error_packet (buf : list byte) : Prop :=
  err_response_type (parse_generic_error buf) = XCB_ERROR ∧ numbered_packet buf.

(** A reply is a whole number of words.  It is not always as long as its header:
    the length computed from the packet wraps around. *)
Definition reply_packet (buf : list byte) : Prop :=
  field 0 1 buf = XCB_REPLY ∧ 4 <= zlength buf ∧ zlength buf mod 4 = 0.

(** An event or an error nobody asked for. *)
Definition event_packet (buf : list byte) : Prop :=
  ev_response_type (parse_generic_event buf) ≠ XCB_REPLY ∧ numbered_packet buf.

Definition answer_packet (buf : list byte) : Prop := reply_packet buf ∨ error_packet buf.

Definition typed_pending (p : pending_reply) : Prop :=
  word 64 (first_request p) ∧ word 64 (last_request p).

Record typed_in (i : xcb_in) : Prop := {
  ti_queue : zlength (in_queue i) <= IN_QUEUE_SIZE;
  ti_expected : word 64 (request_expected i);
  ti_read : word 64 (request_read i);
  ti_completed : word 64 (request_completed i);
  ti_current : Forall answer_packet (current_reply i);
  ti_replies : Forall (λ e, word 32 e.1 ∧ e.2 ≠ [] ∧ Forall answer_packet e.2) (replies i);
  ti_events : Forall event_packet (events i);
  ti_pending : Forall typed_pending (pending_replies i)
}.

Record typed_out (o : xcb_out) : Prop := {
  to_queue : zlength (out_queue o) <= XCB_QUEUE_BUFFER_SIZE;
  to_request : word 64 (out_request o);
  to_written : word 64 (out_request_written o);
  to_mrl : word 32 (mrl o)
}.

Record typed_xid (x : xcb_xid) : Prop := {
  tx_last : word 32 (xid_last x);
  tx_base : word 32 (xid_base x);
  tx_max : word 32 (xid_max x);
  tx_inc : word 32 (xid_inc x)
}.

Definition typed_extension (r : option query_extension_reply) : Prop :=
  match r with Some r => word 8 (major_opcode r) | None => True end.

Definition typed_lazy (l : lazyreply) : Prop :=
  match l with
  | LazyNone => True
  | LazyCookie cookie => word 32 cookie
  | LazyForced r => typed_extension r
  end.

Record connection_ok (w : world) : Prop := {
  ok_in : typed_in (w_in w);
  ok_out : typed_out (w_out w);
  ok_ext : Forall typed_lazy (w_ext w);
  ok_xid : typed_xid (w_xid w)
}.
End Types.

(** ** The rules *)

Section Rules.
Context `{Host} `{XProto}.

Definition typed {A} (T : A → Prop) (m : xM A) : Prop :=
  ∀ w a w', connection_ok w → m w = Ret a w' → connection_ok w' ∧ T a.

Definition anything {A} (_ : A) : Prop := True.

Lemma typed_ret {A} (T : A → Prop) a : T a → typed T (ret a).
Proof. by intros Ha w b w' Hw [= <- <-]. Qed.

Lemma typed_bind {A B} (T1 : A → Prop) (T2 : B → Prop) (m : xM A) (k : A → xM B) :
  typed T1 m → (∀ a, T1 a → typed T2 (k a)) → typed T2 (bind m k).
Proof.
  intros Hm Hk w b w'' Hw (a & w' & E1 & E2)%bind_inv.
  destruct (Hm w a w' Hw E1) as [Hw' Ha]. by eapply Hk.
Qed.

Lemma typed_weaken {A} (T1 T2 : A → Prop) (m : xM A) :
  typed T1 m → (∀ a, T1 a → T2 a) → typed T2 m.
Proof. intros Hm Ht w a w' Hw E. destruct (Hm w a w' Hw E). auto. Qed.

Lemma typed_any {A} (T : A → Prop) (m : xM A) : typed T m → typed anything m.
Proof. intros Hm. by eapply typed_weaken. Qed.

Lemma typed_fail {A} (T : A → Prop) f : typed T (fail f).
Proof. by intros w a w' _ ?. Qed.

Lemma typed_sleep {A} (T : A → Prop) : typed T sleep.
Proof. by intros w a w' _ ?. Qed.

(** What has been read comes from a well-formed connection. *)
Definition read_as {A} (f : world → A) (a : A) : Prop := ∃ w, connection_ok w ∧ a = f w.

Lemma typed_gets {A} (f : world → A) : typed (read_as f) (gets f).
Proof. intros w a w' Hw [= <- <-]. split; [done|by exists w]. Qed.

Lemma typed_modify f : (∀ w, connection_ok w → connection_ok (f w)) → typed anything (modify f).
Proof. intros Hf w a w' Hw [= _ <-]. split; [auto|done]. Qed.

Lemma typed_when b m : (b = true → typed anything m) → typed anything (when b m).
Proof. destruct b; intros Hm; [by apply Hm|]. by apply typed_ret. Qed.

Lemma typed_assert b : typed (λ _, b = true) (assertM b).
Proof. destruct b; [by apply typed_ret|apply typed_fail]. Qed.

Lemma typed_modify_in f : (∀ i, typed_in i → typed_in (f i)) → typed anything (modify_in f).
Proof. intros Hf. apply typed_modify. intros w []. split; cbn; auto. Qed.

Lemma typed_modify_out f : (∀ o, typed_out o → typed_out (f o)) → typed anything (modify_out f).
Proof. intros Hf. apply typed_modify. intros w []. split; cbn; auto. Qed.

Lemma typed_modify_xid f : (∀ x, typed_xid x → typed_xid (f x)) → typed anything (modify_xid f).
Proof. intros Hf. apply typed_modify. intros w []. split; cbn; auto. Qed.

Lemma typed_modify_os f : typed anything (modify_os f).
Proof. apply typed_modify. by intros w []. Qed.

Lemma typed_modify_net f : typed anything (modify_net f).
Proof. apply typed_modify. by intros w []. Qed.
End Rules.

Create HintDb typed.
#[export] Hint Resolve typed_fail typed_sleep typed_gets typed_assert typed_modify_os
  typed_modify_net : typed.
#[export] Hint Extern 1 (typed _ (modify_in _)) =>
  apply typed_modify_in; intros ? []; split; cbn; auto : typed.
#[export] Hint Extern 1 (typed _ (modify_out _)) =>
  apply typed_modify_out; intros ? []; split; cbn; auto : typed.

(** A leaf: a lemma about the function, with a stronger type if need be. *)
Ltac typed_leaf :=
  first [ solve [eauto with typed]
        | eapply typed_any; solve [eauto with typed]
        | eapply typed_weaken; [solve [eauto with typed]|] ].

(** [typed_step] follows the structure of a computation.  Intermediate results
    have the type a lemma gives them, or none. *)
Ltac typed_step :=
  lazymatch goal with
  | |- typed _ (bind _ _) =>
      first [ eapply typed_bind; [solve [eauto with typed]|]
            | apply (typed_bind anything) ]; [..|intros; cbn beta in *]
  | |- typed _ (when _ _) => apply typed_when; intros
  | |- typed anything (ret _) => by apply typed_ret
  | |- typed _ (ret _) => apply typed_ret
  | |- typed _ (fail _) => apply typed_fail
  | |- typed _ sleep => apply typed_sleep
  | |- typed _ (if ?b then _ else _) => destruct b eqn:?
  | |- typed _ (match ?x with _ => _ end) => destruct x eqn:?
  | |- typed _ _ => typed_leaf
  end.
Ltac typed_auto := repeat typed_step.

(** Opens what is known of values that have been read. *)
Ltac open_reads :=
  repeat match goal with
  | Hx : read_as _ ?a |- _ => destruct Hx as (? & [[] [] ? []] & ->); unfold compose in *; cbn in * |-; cbn beta
  end.
