(* ===== verification/TypedCalls.v ===== *)
(** * Every function keeps a connection well formed

    The rules of Typed.v applied to the functions of the library, bottom up.
    What is assumed of the generated code is the class [TypedStubs]. *)
From S2P Require Import Prelude Effects Seq XcbMap State In InFrame InFacts InSafety Demux Conn Out.
From S2P Require Import Wait Ext Xid Request Connect Typed.
#[local] Open Scope Z_scope.

(** ** System calls *)

Section System.
Context `{Host} `{XProto}.

Lemma typed_malloc n : typed anything (malloc n).
Proof. unfold malloc. typed_auto. Qed.

Lemma typed_sysret : typed anything sysret.
Proof. unfold sysret. typed_auto. Qed.

Lemma typed_recv n :
  typed (λ r, match r with Received bs => zlength bs <= Z.max 0 n | _ => True end) (recv n).
Proof.
  unfold recv. destruct (Z.leb_spec n 0) as [Hn|Hn].
  { apply typed_ret. rewrite zlength_nil. lia. }
  typed_step. destruct a as [|[bs| | |] t]; [by apply typed_ret| | | |].
  - destruct (Z.leb_spec (zlength bs) n); typed_auto; [lia|].
    unfold zlength in *. rewrite length_take. lia.
  - typed_auto. done.
  - typed_auto. rewrite zlength_nil. lia.
  - typed_auto. done.
Qed.

Lemma typed_poll : typed anything poll.
Proof. unfold poll. typed_auto. Qed.

Lemma typed_writev v : typed anything (writev v).
Proof. unfold writev. cbv zeta. typed_auto. Qed.

Lemma typed_signal c : typed anything (pthread_cond_signal c).
Proof. unfold pthread_cond_signal. typed_auto. Qed.

Lemma typed_broadcast c : typed anything (pthread_cond_broadcast c).
Proof. unfold pthread_cond_broadcast. typed_auto. Qed.

Lemma typed_held h : typed anything (modify (set_held h)).
Proof. apply typed_modify. by intros w []. Qed.
#[local] Hint Resolve typed_held : typed.

Lemma typed_lock l : typed anything (pthread_mutex_lock l).
Proof.
  unfold pthread_mutex_lock. typed_step. destruct (decide _); [apply typed_fail|].
  apply (typed_held (l :: a)).
Qed.

Lemma typed_unlock l : typed anything (pthread_mutex_unlock l).
Proof.
  unfold pthread_mutex_unlock. typed_step. destruct (decide _); [|apply typed_fail].
  apply (typed_held (remove_mutex l a)).
Qed.
#[local] Hint Resolve typed_unlock : typed.

Lemma typed_cond_wait c l : typed anything (pthread_cond_wait c l).
Proof. unfold pthread_cond_wait. typed_auto. Qed.

Lemma typed_shutdown : typed anything _xcb_conn_shutdown.
Proof. apply typed_modify. by intros w []. Qed.

Lemma typed_set_setup s : typed anything (modify (set_setup s)).
Proof. apply typed_modify. by intros w []. Qed.
End System.
#[export] Hint Resolve typed_malloc typed_sysret typed_recv typed_poll typed_writev typed_signal
  typed_broadcast typed_lock typed_unlock typed_cond_wait typed_shutdown typed_set_setup : typed.

(** ** The input side *)

Section Input.
Context `{Host} `{XProto}.

(** A result that the connection's invariant does not decide. *)
Lemma typed_result {A} (T : A → Prop) (m : xM A) :
  typed anything m → (∀ w a w', m w = Ret a w' → T a) → typed T m.
Proof. intros Hm Ht w a w' Hw E. destruct (Hm w a w' Hw E). eauto. Qed.

Lemma typed_read_block_loop fuel len buf : typed anything (read_block_loop fuel len buf).
Proof. revert buf. induction fuel; intros buf; cbn [read_block_loop]; typed_auto. Qed.
#[local] Hint Resolve typed_read_block_loop : typed.

Lemma typed_in_read_block room len :
  typed (λ r, 0 < r.1 → 0 < len ∧ zlength r.2 = len) (_xcb_in_read_block room len).
Proof.
  apply typed_result.
  - unfold _xcb_in_read_block, read_block. cbv zeta.
    destruct (room <? len); [apply typed_fail|]. typed_step. open_reads.
    set (n := if _ <? _ then len else _). destruct (n <? 0); [apply typed_fail|].
    eapply typed_bind; [|intros; typed_auto].
    apply typed_modify_in. intros i []. split; cbn; auto.
    unfold zlength in *. rewrite length_drop. lia.
  - intros w r w' E Hr. pose proof (in_read_block_ret _ _ _ _ _ E) as Hl.
    pose proof (wp_ret_inv _ _ _ _ _ (wp_in_read_block room len w Hl) E) as (_ & _ & Hp & _).
    destruct (Hp Hr) as (E1 & E2 & _). split; [lia|done].
Qed.
#[local] Hint Resolve typed_in_read_block : typed.

Lemma typed_replies_put k d :
  d ≠ [] → Forall answer_packet d → typed anything (replies_put k d).
Proof.
  intros Hd Ha. unfold replies_put. typed_auto. apply typed_modify_in.
  intros i []. split; cbn; auto. unfold map_put. apply Forall_app. split; [done|].
  apply Forall_singleton. split_and!; [apply u32_range|done..].
Qed.

Lemma read_sequence_word l s : word 64 l → word 16 s → word 64 (read_sequence l s).
Proof.
  unfold word. intros Hl Hs. rewrite read_sequence_arith by done. cbv zeta.
  destruct (Z.ltb_spec (l - l mod 2 ^ 16 + s) l); words.
Qed.

Lemma drop_completed_typed c l : Forall typed_pending l → Forall typed_pending (drop_completed c l).
Proof.
  induction 1 as [|p l Hp Hl IH]; [constructor|]. cbn [drop_completed].
  destruct (_ && _); [done|by constructor].
Qed.

Lemma typed_update_sequence g : word 16 (sequence g) → typed anything (update_sequence g).
Proof.
  intros Hg. unfold update_sequence. destruct (_ =? XCB_KEYMAP_NOTIFY); [by apply typed_ret|].
  typed_step. open_reads. cbv zeta.
  set (rr := read_sequence _ _).
  assert (word 64 rr) as Hrr by by apply read_sequence_word.
  typed_auto; open_reads; try (apply typed_modify_in; intros i []; split; cbn; auto).
  - apply typed_replies_put; [|done].
    match goal with Hb : negb (bool_decide _) = true |- _ =>
      by apply negb_true_iff, bool_decide_eq_false in Hb end.
  - apply u64_range.
  - by apply drop_completed_typed.
Qed.

Lemma typed_deliver_reply buf : answer_packet buf → typed anything (deliver_reply buf).
Proof.
  intros Hb. unfold deliver_reply. typed_auto.
  apply typed_modify_in. intros i []. split; cbn; auto.
  apply Forall_app. split; [done|by apply Forall_singleton].
Qed.

Lemma typed_deliver_event buf : event_packet buf → typed anything (deliver_event buf).
Proof.
  intros Hb. unfold deliver_event. typed_auto.
  apply typed_modify_in. intros i []. split; cbn; auto.
  apply Forall_app. split; [done|by apply Forall_singleton].
Qed.

Lemma field_0_app (bs cs : list byte) : 1 <= zlength bs → field 0 1 (bs ++ cs) = field 0 1 bs.
Proof. intros Hb. apply field_app_l. unfold zlength in Hb. lia. Qed.

(** The number the packet reader has arrived at continues the packet's. *)
Definition number_read (g : generic_reply) (w : world) : Prop :=
  Z.land (response_type g) 0x7f ≠ XCB_KEYMAP_NOTIFY → u16 (request_read (w_in w)) = sequence g.

Lemma read_sequence_low l s : word 64 l → word 16 s → u16 (read_sequence l s) = s.
Proof.
  unfold word. intros Hl Hs. rewrite read_sequence_arith by done. cbv zeta.
  destruct (Z.ltb_spec (l - l mod 2 ^ 16 + s) l); words.
Qed.

Lemma sequence_effect_number ok g i :
  word 64 (request_read i) → word 16 (sequence g) →
  Z.land (response_type g) 0x7f ≠ XCB_KEYMAP_NOTIFY →
  u16 (request_read (sequence_effect ok g i)) = sequence g.
Proof.
  intros Hi Hg Hk. transitivity (u16 (read_sequence (request_read i) (sequence g)));
    [f_equal|by apply read_sequence_low].
  unfold sequence_effect. apply Z.eqb_neq in Hk as ->. cbv zeta.
  destruct (XCB_SEQUENCE_COMPARE _ Z.gtb _), (_ =? request_read i), (current_reply i), ok,
    (response_type g =? XCB_ERROR); done.
Qed.

(** The buffer made of an event or an error. *)
Lemma packet_numbered g w bs ev :
  number_read g w → parse_generic_reply bs = g → zlength bs = 32 →
  (response_type g = XCB_XGE_EVENT → zlength ev = u32 (4 * reply_length g)) →
  (response_type g ≠ XCB_XGE_EVENT → ev = []) →
  numbered_packet (bs ++ host_bytes 4 (request_read (w_in w)) ++ ev) ∧
  field 0 1 (bs ++ host_bytes 4 (request_read (w_in w)) ++ ev) = response_type g.
Proof.
  intros Hn <- Hl Hev _. unfold numbered_packet, parse_generic_event, parse_ge_event. cbv zeta.
  cbn [ev_response_type ev_sequence ev_full_sequence ge_response_type ge_length].
  set (rr := request_read (w_in w)) in *.
  assert (length bs = 32%nat) as Hb by (unfold zlength in Hl; lia).
  rewrite (field_app_l 0 1), (field_app_l 2 2), (field_app_l 4 4) by lia.
  assert (field 32 4 (bs ++ host_bytes 4 rr ++ ev) = u32 rr) as ->.
  { unfold field. rewrite drop_app_length' by done.
    rewrite take_app_length' by (symmetry; apply length_host_bytes). by rewrite host_val_bytes. }
  assert (zlength (bs ++ host_bytes 4 rr ++ ev) = 36 + zlength ev) as ->.
  { unfold zlength. rewrite !length_app, length_host_bytes. lia. }
  pose proof (zlength_nonneg ev). split_and!; [lia| |intros Ht; by rewrite (Hev Ht)|done].
  intros Hk. change (field 2 2 bs) with (sequence (parse_generic_reply bs)).
  rewrite <- (Hn Hk). fold rr. words.
Qed.

Lemma typed_dispatch_packet g pend size bs ev w b w' :
  connection_ok w → number_read g w → field 0 1 bs = response_type g →
  4 <= zlength bs → zlength bs mod 4 = 0 →
  (response_type g ≠ XCB_REPLY → parse_generic_reply bs = g ∧ zlength bs = 32) →
  (response_type g = XCB_XGE_EVENT → zlength ev = u32 (4 * reply_length g)) →
  (response_type g ≠ XCB_XGE_EVENT → ev = []) →
  dispatch_packet g pend size bs ev w = Ret b w' → connection_ok w'.
Proof.
  intros Hw Hn Hf Hl Hm Hp Hge Hev E. unfold dispatch_packet in E.
  destruct (pend_flag _ _); [by injection E as _ <-|].
  destruct (Z.eqb_spec (response_type g) XCB_REPLY) as [Hr|Hr].
  { eapply typed_deliver_reply; [|exact Hw|exact E]. left. split_and!; congruence. }
  destruct (size <? 36); [done|]. rewrite bind_gets in E. unfold compose in E. cbv zeta in E.
  destruct (Hp Hr) as [Hg Hl32].
  destruct (packet_numbered g w bs ev Hn Hg Hl32 Hge Hev) as [Hnum Hfield].
  destruct (Z.eqb_spec (response_type g) XCB_ERROR) as [He|He]; cbn [andb] in E.
  - destruct (pend_flag _ _).
    + eapply typed_deliver_reply; [|exact Hw|exact E]. right. split; [cbn; congruence|done].
    + eapply typed_deliver_event; [|exact Hw|exact E]. split; [cbn; congruence|done].
  - eapply typed_deliver_event; [|exact Hw|exact E]. split; [cbn; congruence|done].
Qed.

(** A positive length of a packet is a whole number of words. *)
Lemma packet_lengths_words g pend q :
  0 < (packet_lengths g pend q).1 →
  4 <= (packet_lengths g pend q).1 ∧ (packet_lengths g pend q).1 mod 4 = 0 ∧
  (response_type g ≠ XCB_REPLY → (packet_lengths g pend q).1 = 32).
Proof.
  unfold packet_lengths. destruct (Z.eqb_spec (response_type g) XCB_REPLY) as [Hr|Hr].
  - cbv zeta. set (n := match pend with Some _ => _ | None => _ end). cbn [fst].
    intros Hp. split_and!; [words|words|done].
  - destruct (_ =? XCB_XGE_EVENT); cbn [fst]; done.
Qed.

(** The second block of a packet. *)
Lemma packet_lengths_event g pend q :
  let elen := (packet_lengths g pend q).2 in
  (response_type g = XCB_XGE_EVENT → 0 <= elen → elen = u32 (4 * reply_length g)) ∧
  (response_type g ≠ XCB_XGE_EVENT → elen = 0).
Proof.
  unfold packet_lengths. destruct (Z.eqb_spec (response_type g) XCB_REPLY) as [->|Hr]; cbn [snd].
  - done.
  - destruct (Z.eqb_spec (response_type g) XCB_XGE_EVENT); cbn [snd]; [|done].
    split; [|done]. intros _ Hp. rewrite (Z.mul_comm 4). revert Hp. words.
Qed.

Lemma malloc_w_in n w b w' : malloc n w = Ret b w' → w_in w' = w_in w.
Proof.
  unfold malloc. destruct (_ <=? _); [by intros [= _ <-]|]. rewrite bind_gets. unfold compose.
  destruct (os_mallocs (w_os w)); by intros [= _ <-].
Qed.

(** A block that has been read: the beginning of the input. *)
Lemma in_read_block_typed room len w r w' :
  connection_ok w → _xcb_in_read_block room len w = Ret r w' → 0 < r.1 →
  connection_ok w' ∧ 0 < len ∧ zlength r.2 = len ∧ input w = r.2 ++ input w' ∧
  request_read (w_in w') = request_read (w_in w).
Proof.
  intros Hw E Hr. destruct (typed_in_read_block _ _ _ _ _ Hw E) as [Hw' Ht].
  destruct (Ht Hr) as [Hl Hz]. pose proof (in_read_block_ret _ _ _ _ _ E) as Hroom.
  pose proof (wp_ret_inv _ _ _ _ _ (wp_in_read_block room len w Hroom) E) as ((_ & (q & Hq) & _) & Hi & _).
  split_and!; [done..|]. by rewrite Hq.
Qed.

(** The header is at the front of what is read. *)
Lemma header_in_front q s bs t :
  q ++ s = bs ++ t → 32 <= zlength q → 4 <= zlength bs →
  field 0 1 bs = field 0 1 q ∧ (32 <= zlength bs → parse_generic_reply bs = parse_generic_reply q).
Proof.
  intros E Hq Hb. unfold zlength in *. split.
  - apply (f_equal (field 0 1)) in E. by rewrite !field_app_l in E by lia.
  - intros Hb32. apply (f_equal parse_generic_reply) in E. unfold parse_generic_reply in *.
    by rewrite !field_app_l in E by lia.
Qed.

(** [read_packet] from [malloc] on. *)
Lemma typed_receive_packet g pend q w b w' :
  connection_ok w → number_read g w → parse_generic_reply q = g → in_queue (w_in w) = q →
  32 <= zlength q →
  receive_packet g pend (packet_lengths g pend q).1 (packet_lengths g pend q).2 w = Ret b w' →
  connection_ok w'.
Proof.
  intros Hw Hn Hg Hq Hq32 E. pose proof (packet_lengths_words g pend q) as Hlen.
  pose proof (packet_lengths_event g pend q) as [Hge Hev].
  set (lens := packet_lengths g pend q) in *. clearbody lens.
  unfold receive_packet in E. cbv zeta in E. set (size := packet_size _ _ _) in *.
  apply bind_inv in E as (okm & w1 & E1 & E). destruct (typed_malloc _ _ _ _ Hw E1) as [Hw1 _].
  apply malloc_w_in in E1 as Hi1. destruct okm; cbn [negb] in E.
  2: { revert E. apply (typed_bind anything anything _ _ typed_shutdown); [|done].
       intros. by apply typed_ret. }
  apply bind_inv in E as (r & w2 & E2 & E).
  destruct (Z.leb_spec r.1 0) as [|Hpos].
  { destruct (typed_in_read_block _ _ _ _ _ Hw1 E2) as [Hw2 _]. by injection E as _ <-. }
  destruct (in_read_block_typed _ _ _ _ _ Hw1 E2 Hpos) as (Hw2 & Hl1 & Hz & Hin & Hr2).
  destruct (Hlen Hl1) as (Hl4 & Hlm & Hl32). unfold input in Hin. rewrite Hi1, Hq in Hin.
  rewrite <- Hz in *. destruct (header_in_front _ _ _ _ Hin Hq32 Hl4) as [Hf Hp].
  assert (number_read g w2) as Hn2 by (unfold number_read; by rewrite Hr2, Hi1).
  assert (∀ ev v, connection_ok v → number_read g v →
    (response_type g = XCB_XGE_EVENT → zlength ev = u32 (4 * reply_length g)) →
    (response_type g ≠ XCB_XGE_EVENT → ev = []) →
    dispatch_packet g pend size r.2 ev v = Ret b w' → connection_ok w') as Hd.
  { intros ev v Hv Hnv Hg1 Hg2. apply typed_dispatch_packet; try done.
    - rewrite Hf. by subst g.
    - intros Hr. rewrite (Hl32 Hr) in *. split; [|done]. rewrite <- Hg. by apply Hp. }
  destruct (Z.eqb_spec lens.2 0) as [He0|He0].
  { apply (Hd [] w2); try done. intros Ht. rewrite zlength_nil. apply Hge in Ht; lia. }
  apply bind_inv in E as (e & w3 & E3 & E). destruct (Z.leb_spec e.1 0) as [|Hpos3].
  { destruct (typed_in_read_block _ _ _ _ _ Hw2 E3) as [Hw3 _]. by injection E as _ <-. }
  destruct (in_read_block_typed _ _ _ _ _ Hw2 E3 Hpos3) as (Hw3 & Hl3 & Hz3 & _ & Hr3).
  apply (Hd e.2 w3); try done.
  - unfold number_read. by rewrite Hr3.
  - intros Ht. rewrite Hz3. apply Hge; [done|lia].
  - intros Ht. by apply Hev in Ht.
Qed.

Lemma typed_read_packet : typed anything read_packet.
Proof.
  intros w b w' Hw E. split; [|done]. unfold read_packet in E.
  rewrite bind_gets in E. unfold compose in E.
  destruct (Z.ltb_spec (zlength (in_queue (w_in w))) 32) as [|Hq]; [by injection E as _ <-|].
  cbv zeta in E. set (q := in_queue (w_in w)) in *. set (g := parse_generic_reply q) in *.
  assert (word 16 (sequence g)) as Hg by apply (field_range 2 2 q).
  destruct (update_sequence_effect g w) as (ok & ms & E1 & _).
  destruct (typed_update_sequence g Hg w _ _ Hw E1) as [Hw1 _].
  rewrite (bind_run _ _ _ _ _ E1), bind_gets in E.
  eapply typed_receive_packet; [exact Hw1| |done| |exact Hq|exact E].
  - intros Hk. apply sequence_effect_number; [apply Hw|done|done].
  - cbn. by destruct (sequence_effect_keeps ok g (w_in w)) as (-> & _).
Qed.
End Input.
#[export] Hint Resolve typed_read_block_loop typed_in_read_block typed_read_packet : typed.

(** ** Replies, events and pending replies *)

Section Replies.
Context `{Host} `{XProto}.

Lemma typed_read_packets fuel : typed anything (read_packets fuel).
Proof. induction fuel; cbn [read_packets]; typed_auto. Qed.
#[local] Hint Resolve typed_read_packets : typed.

Lemma typed_in_read : typed anything _xcb_in_read.
Proof.
  unfold _xcb_in_read. typed_step. open_reads. typed_step. cbv zeta.
  set (bs := match a with Received bs => bs | _ => [] end).
  assert (zlength bs <= Z.max 0 (IN_QUEUE_SIZE - zlength (in_queue (w_in x)))) as Hb.
  { subst bs. destruct a; [done|rewrite zlength_nil; lia..]. }
  eapply (typed_bind anything); [|intros; typed_auto].
  apply typed_modify_in. intros i []. split; cbn; auto. rewrite zlength_app. lia.
Qed.

(** What is stored in [*reply] and [*error]. *)
Definition typed_reply (r : option (list byte) * option (list byte)) : Prop :=
  (∀ buf, r.1 = Some buf → reply_packet buf) ∧ (∀ buf, r.2 = Some buf → error_packet buf).

Definition typed_polled (r : option (option (list byte) * option (list byte))) : Prop :=
  match r with Some r => typed_reply r | None => True end.

Lemma typed_reply_none : typed_reply (None, None).
Proof. by split. Qed.

Lemma typed_return_reply head e :
  (∀ buf, head = Some buf → answer_packet buf) → typed typed_polled (return_reply head e).
Proof.
  intros Hh. unfold return_reply. destruct head as [buf|]; [|by apply typed_ret, typed_reply_none].
  destruct (_ <? 1); [apply typed_fail|].
  assert (∀ e, error_packet e → field 0 1 e = XCB_ERROR) as Herr by by intros ? [? _].
  destruct (Hh buf eq_refl) as [[Hf Hr]|Hr]; rewrite ?Hf, ?(Herr _ Hr); cbn; apply typed_ret; split; cbn;
    try done.
  - by intros ? [= <-].
  - by destruct e; [intros ? [= <-]|].
Qed.

Lemma typed_get_event : typed (λ r, ∀ ev, r = Some ev → event_packet ev) get_event.
Proof.
  unfold get_event. typed_step. open_reads. destruct (events (w_in x)) as [|ev t] eqn:Ee.
  { by apply typed_ret. }
  apply Forall_cons in ti_events as [Hev Ht].
  eapply (typed_bind anything).
  - apply typed_modify_in. intros i []. split; cbn; auto.
  - intros _ _. apply typed_ret. by intros ? [= <-].
Qed.

Lemma typed_poll_for_reply request e : typed typed_polled (poll_for_reply request e).
Proof.
  unfold poll_for_reply. typed_step. open_reads. set (i := w_in x) in *.
  assert (typed typed_polled (return_reply None e)) as Hnone by by apply typed_return_reply.
  destruct (request =? 0); [done|].
  destruct (XCB_SEQUENCE_COMPARE_32 request Z.ltb (request_read i)).
  - assert (Forall (λ e, word 32 e.1 ∧ e.2 ≠ [] ∧ Forall answer_packet e.2)
      (map_remove (replies i) request).2) as Hrem.
    { apply Forall_forall. intros p Hp%map_remove_elem. rewrite Forall_forall in ti_replies. auto. }
    eapply (typed_bind anything); [apply typed_modify_in; intros ? []; split; cbn; auto|].
    intros _ _. destruct (map_remove (replies i) request).1 as [[|buf rest]|] eqn:Eg; [done| |done].
    change (map_get (replies i) request = Some (buf :: rest)) in Eg.
    apply map_get_elem in Eg. rewrite Forall_forall in ti_replies.
    destruct (ti_replies _ Eg) as (_ & _ & [Hbuf Hrest]%Forall_cons).
    eapply (typed_bind anything).
    + apply typed_when. intros Hb%negb_true_iff%bool_decide_eq_false.
      eapply typed_bind; [by apply typed_replies_put|]. intros. by apply typed_ret.
    + intros _ _. apply typed_return_reply. by intros ? [= <-].
  - destruct (current_reply i) as [|buf rest] eqn:Ec.
    { destruct (_ request Z.eqb _); [done|by apply typed_ret]. }
    destruct (_ request Z.eqb (request_read i)).
    + apply Forall_cons in ti_current as [Hbuf Hrest].
      eapply (typed_bind anything); [apply typed_modify_in; intros ? []; split; cbn; auto|].
      intros _ _. apply typed_return_reply. by intros ? [= <-].
    + destruct (_ request Z.eqb _); [done|by apply typed_ret].
Qed.

Lemma typed_insert_pending_discard n s :
  word 64 s → typed anything (insert_pending_discard n s).
Proof.
  intros Hs. unfold insert_pending_discard. typed_auto. apply typed_modify_in.
  intros i []. split; cbn; auto. rewrite <- (take_drop n (pending_replies i)) in ti_pending.
  apply Forall_app in ti_pending as [Ht Hd]. apply Forall_app. split; [done|].
  constructor; [by split|done].
Qed.

Lemma discard_walk_typed request l l' :
  Forall typed_pending l → discard_walk request l = inl l' → Forall typed_pending l'.
Proof.
  intros Hl. revert l'. induction Hl as [|p l Hp Hl IH]; intros l'; [done|]. cbn [discard_walk].
  destruct (XCB_SEQUENCE_COMPARE_32 (first_request p) Z.gtb request); [done|].
  destruct (XCB_SEQUENCE_COMPARE_32 (first_request p) Z.eqb request).
  - intros [= <-]. by constructor.
  - destruct (discard_walk request l); [|done]. intros [= <-]. constructor; auto.
Qed.

Lemma widen_word sent request : word 64 sent → word 32 request → word 64 (widen sent request).
Proof.
  unfold word. intros Hs Hr. rewrite widen_arith by done. cbv zeta. rewrite Z.gtb_ltb.
  destruct (Z.ltb_spec sent (sent - sent mod 2 ^ 32 + request)); words.
Qed.

Lemma typed_discard_reply request : word 32 request → typed anything (discard_reply request).
Proof.
  intros Hr. unfold discard_reply. typed_step. open_reads. unfold id. set (i := w_in x) in *.
  destruct (XCB_SEQUENCE_COMPARE_32 request Z.ltb (request_read i)).
  - apply typed_modify_in. intros ? []. split; cbn; auto.
    apply Forall_forall. intros p Hp%map_remove_elem. rewrite Forall_forall in ti_replies. auto.
  - destruct (_ && _).
    + eapply (typed_bind anything); [apply typed_modify_in; intros ? []; split; cbn; auto|].
      intros _ _. assert (typed anything (insert_pending_discard 0 (request_read i)))
        by by apply typed_insert_pending_discard.
      destruct (matching_pend i) as [p|] eqn:Ep; [|done].
      unfold matching_pend in Ep. destruct (pending_replies i) as [|p' t] eqn:El; [done|].
      destruct (_ && _); [|done]. injection Ep as ->.
      apply Forall_cons in ti_pending as [Hp Ht].
      apply typed_modify_in. intros ? []. split; cbn; auto.
    + destruct (discard_walk request (pending_replies i)) as [l|n] eqn:Ew.
      * apply discard_walk_typed in Ew; [|done].
        apply typed_modify_in. intros ? []. split; cbn; auto.
      * apply typed_insert_pending_discard. by apply widen_word.
Qed.

Lemma typed_wake_up : typed anything _xcb_in_wake_up_next_reader.
Proof. unfold _xcb_in_wake_up_next_reader. typed_auto. Qed.

Lemma typed_expect_reply request wk fl :
  word 64 request → typed anything (_xcb_in_expect_reply request wk fl).
Proof.
  intros Hr. unfold _xcb_in_expect_reply. typed_auto. apply typed_modify_in.
  intros i []. split; cbn; auto. apply Forall_app. split; [done|].
  apply Forall_singleton. by split.
Qed.

Lemma typed_replies_done : typed anything _xcb_in_replies_done.
Proof.
  unfold _xcb_in_replies_done. typed_step. open_reads. unfold id.
  destruct (last (pending_replies (w_in x))) as [p|] eqn:El; [|by apply typed_ret].
  apply typed_when. intros _. apply typed_modify_in. intros i []. split; cbn; auto.
  apply Forall_app. split; [by apply Forall_take|]. apply Forall_singleton.
  apply last_Some_elem_of in El. rewrite Forall_forall in ti_pending.
  destruct (ti_pending p El). by split.
Qed.
End Replies.
#[export] Hint Resolve typed_in_read typed_get_event typed_poll_for_reply typed_discard_reply
  typed_wake_up typed_expect_reply typed_replies_done : typed.

(** ** The generated code *)

(** What the library relies on: the fields of messages have the widths of the
    protocol, and the stubs are made of calls of the library. *)
Class TypedStubs `{Host} (P : XProto) : Prop := {
  setup_typed bs :
    word 32 (setup_maximum_request_length (setup_view bs)) ∧
    word 32 (setup_resource_id_base (setup_view bs)) ∧
    word 32 (setup_resource_id_mask (setup_view bs));
  query_extension_typed name : typed (word 32) (xcb_query_extension name);
  query_extension_reply_typed cookie : typed typed_extension (xcb_query_extension_reply cookie);
  big_requests_enable_typed : typed (word 32) xcb_big_requests_enable;
  big_requests_enable_reply_typed cookie :
    typed (λ r, ∀ v, r = Some v → word 32 v) (xcb_big_requests_enable_reply cookie);
  get_xid_range_typed : typed (word 32) xcb_xc_misc_get_xid_range;
  get_xid_range_reply_typed cookie :
    typed (λ r, ∀ start count, r = Some (start, count) → word 32 start ∧ word 32 count)
      (xcb_xc_misc_get_xid_range_reply cookie);
  get_input_focus_typed : typed (word 32) xcb_get_input_focus;
  get_input_focus_reply_typed cookie : typed anything (xcb_get_input_focus_reply cookie);
  return_socket_typed f closure : typed anything (return_socket_callback f closure)
}.
#[export] Hint Resolve query_extension_typed query_extension_reply_typed
  big_requests_enable_typed big_requests_enable_reply_typed get_xid_range_typed
  get_xid_range_reply_typed get_input_focus_typed get_input_focus_reply_typed
  return_socket_typed : typed.

(** ** Waiting and writing *)

Section Output.
Context `{Host} `{XProto}.

Lemma typed_advance_iov n v : typed anything (advance_iov n v).
Proof. revert n. induction v; intros n; cbn [advance_iov]; cbv zeta; typed_auto. Qed.
#[local] Hint Resolve typed_advance_iov : typed.

Lemma typed_write_vec v : typed anything (write_vec v).
Proof. unfold write_vec. typed_auto. Qed.
#[local] Hint Resolve typed_write_vec : typed.

Lemma typed_conn_wait c v : typed anything (_xcb_conn_wait c v).
Proof. unfold _xcb_conn_wait, enter_poll, poll_socket, leave_poll, conn_io. cbv zeta. typed_auto. Qed.
#[local] Hint Resolve typed_conn_wait : typed.

Lemma typed_send_loop fuel v : typed anything (send_loop fuel v).
Proof. revert v. induction fuel; intros v; cbn [send_loop]; typed_auto. Qed.
#[local] Hint Resolve typed_send_loop : typed.

Lemma typed_out_send v : typed anything (_xcb_out_send v).
Proof. unfold _xcb_out_send. typed_auto. Qed.
#[local] Hint Resolve typed_out_send : typed.

Lemma typed_clear_queue : typed anything (modify_out (set_out_queue [])).
Proof. apply typed_modify_out. intros o []. split; cbn; auto. rewrite zlength_nil. done. Qed.
#[local] Hint Resolve typed_clear_queue : typed.

Lemma typed_flush_to request : typed anything (_xcb_out_flush_to request).
Proof. unfold _xcb_out_flush_to. typed_auto. Qed.

Lemma typed_fill_queue slots v : typed anything (fill_queue slots v).
Proof.
  revert slots. induction v as [|b v IH]; intros slots; cbn [fill_queue]; [by apply typed_ret|].
  typed_step. destruct (Z.leb_spec (zlength a + zlength b) XCB_QUEUE_BUFFER_SIZE); [|by apply typed_ret].
  eapply (typed_bind anything); [|intros; apply IH].
  apply typed_modify_out. intros o []. split; cbn; auto. by rewrite zlength_app.
Qed.
#[local] Hint Resolve typed_fill_queue : typed.

Lemma typed_write_block slots v : typed anything (write_block slots v).
Proof. unfold write_block. typed_auto. Qed.

Lemma typed_wait_reply_loop fuel request e c : typed typed_reply (wait_reply_loop fuel request e c).
Proof.
  induction fuel as [|fuel IH]; cbn [wait_reply_loop]; [apply typed_fail|].
  typed_step. destruct a as [res|]; [by apply typed_ret|]. typed_step.
  destruct a.1; [done|]. apply typed_ret, typed_reply_none.
Qed.

Lemma typed_wait_event_loop fuel :
  typed (λ r, ∀ ev, r = Some ev → event_packet ev) (wait_event_loop fuel).
Proof.
  induction fuel as [|fuel IH]; cbn [wait_event_loop]; [apply typed_fail|].
  typed_step. destruct a as [ev|]; [by apply typed_ret|]. typed_step.
  destruct a.1; [done|]. by apply typed_ret.
Qed.
End Output.
#[export] Hint Resolve typed_conn_wait typed_out_send typed_flush_to typed_write_block
  typed_wait_reply_loop typed_wait_event_loop typed_clear_queue : typed.

(** ** Caches, requests and setup *)

Section Calls.
Context `{Host} `{HP : XProto} `{!TypedStubs HP}.

Lemma typed_get_socket_back : typed anything get_socket_back.
Proof. unfold get_socket_back. typed_auto. Qed.

Lemma typed_set_lazy k v : typed_lazy v → typed anything (set_lazy k v).
Proof.
  intros Hv. apply typed_modify. intros w []. split; cbn; auto.
  by apply Forall_insert.
Qed.

Lemma typed_get_index idx : typed anything (get_index idx).
Proof.
  unfold get_index. typed_step. open_reads. destruct (_ >? _); [|by apply typed_ret]. cbv zeta.
  typed_step. destruct (negb a); [by apply typed_ret|].
  eapply (typed_bind anything); [|intros; by apply typed_ret].
  apply typed_modify. intros w []. split; cbn; auto. apply Forall_app. split; [done|].
  apply Forall_replicate. exact I.
Qed.

Lemma typed_ensure_global_id ext : typed anything (ensure_global_id ext).
Proof. unfold ensure_global_id. cbv zeta. typed_auto. Qed.
#[local] Hint Resolve typed_get_index typed_ensure_global_id : typed.

Lemma typed_get_lazyreply ext : typed anything (get_lazyreply ext).
Proof.
  unfold get_lazyreply. typed_auto; apply typed_set_lazy; [by split|done].
Qed.
#[local] Hint Resolve typed_get_lazyreply : typed.

Lemma typed_get_extension_data ext : typed typed_extension (xcb_get_extension_data ext).
Proof.
  unfold xcb_get_extension_data. typed_step. destruct a; [by apply typed_ret|].
  typed_step. typed_step. destruct a0 as [k|]; [|typed_auto; exact I].
  typed_step. typed_step.
  { destruct (a0 !! k) as [[| |]|]; typed_auto; by apply typed_set_lazy. }
  typed_step. typed_step. open_reads.
  destruct (w_ext x !! k) as [[|cookie|reply]|] eqn:El;
    [by apply typed_ret|apply typed_fail| |apply typed_fail].
  apply typed_ret. apply Forall_lookup_1 with (1 := ok_ext) in El. exact El.
Qed.
#[local] Hint Resolve typed_get_extension_data : typed.

Lemma typed_get_setup :
  typed (λ s, word 32 (setup_maximum_request_length s) ∧ word 32 (setup_resource_id_base s) ∧
    word 32 (setup_resource_id_mask s)) get_setup.
Proof.
  unfold get_setup. typed_step. destruct a as [bs|]; [|apply typed_fail].
  apply typed_ret, setup_typed.
Qed.
#[local] Hint Resolve typed_get_setup : typed.

Lemma lor_word n a b : 0 <= n → word n a → word n b → word n (Z.lor a b).
Proof.
  unfold word. intros Hn Ha Hb. split; [apply Z.lor_nonneg; lia|].
  rewrite <- (Z.mod_small a (2 ^ n)), <- (Z.mod_small b (2 ^ n)) by done.
  rewrite <- !Z.land_ones, <- Z.land_lor_distr_l, Z.land_ones by done.
  apply Z.mod_pos_bound. lia.
Qed.

Lemma land_word n a b : 0 <= n → word n a → word n (Z.land a b).
Proof.
  unfold word. intros Hn Ha. rewrite <- (Z.mod_small a (2 ^ n)) by done.
  rewrite <- Z.land_ones by done.
  rewrite <- Z.land_assoc, (Z.land_comm (Z.ones n)), Z.land_assoc, Z.land_ones by done.
  apply Z.mod_pos_bound. lia.
Qed.

Lemma typed_next_range : typed anything next_range.
Proof.
  unfold next_range. typed_auto; apply typed_modify_xid; intros x []; split; cbn; auto;
    first [apply u32_range|by destruct_and?|idtac].
  match goal with Hr : ∀ start count, _ |- _ => by destruct (Hr _ _ eq_refl) end.
Qed.
#[local] Hint Resolve typed_next_range : typed.

Lemma typed_generate_id : typed (word 32) xcb_generate_id.
Proof.
  unfold xcb_generate_id. typed_step. destruct a; [apply typed_ret, u32_range|].
  typed_step. typed_step. typed_step.
  { destruct (_ >=? _); typed_auto. apply typed_modify_xid.
    intros x []. split; cbn; auto. apply u32_range. }
  destruct a1; cbn [negb]; [|typed_auto; apply u32_range].
  typed_auto. open_reads. by apply lor_word.
Qed.

Lemma typed_prefetch_mrl : typed anything xcb_prefetch_maximum_request_length.
Proof.
  unfold xcb_prefetch_maximum_request_length. typed_auto;
    apply typed_modify_out; intros o []; split; cbn; auto; by destruct_and?.
Qed.
#[local] Hint Resolve typed_prefetch_mrl : typed.

Lemma typed_get_mrl : typed (word 32) xcb_get_maximum_request_length.
Proof.
  unfold xcb_get_maximum_request_length. typed_step. destruct a; [by apply typed_ret|].
  typed_step. typed_step. typed_step. typed_step.
  { typed_auto; apply typed_modify_out; intros o []; split; cbn; auto; by destruct_and?. }
  typed_auto. open_reads. done.
Qed.
#[local] Hint Resolve typed_get_mrl : typed.

Lemma typed_pad_vector v : typed anything (pad_vector v).
Proof. induction v; cbn [pad_vector]; typed_auto. Qed.

Lemma typed_raw_vector v : typed anything (raw_vector v).
Proof. induction v; cbn [raw_vector]; typed_auto. Qed.
#[local] Hint Resolve typed_pad_vector typed_raw_vector : typed.

Lemma typed_fill_header v req : typed anything (fill_header v req).
Proof. unfold fill_header, request_opcodes. cbv zeta. typed_auto. Qed.

Lemma typed_glx_workaround req data : typed anything (glx_workaround req data).
Proof. unfold glx_workaround. typed_auto. Qed.

Lemma typed_add_prefix slots synced big v : typed anything (add_prefix slots synced big v).
Proof. unfold add_prefix. destruct (_ || _); typed_auto. Qed.
#[local] Hint Resolve typed_fill_header typed_glx_workaround typed_add_prefix typed_get_socket_back : typed.

Lemma typed_bump_request n :
  typed anything (modify_out (λ o, set_out_request (u64 (out_request o + n)) o)).
Proof. apply typed_modify_out. intros o []. split; cbn; auto. apply u64_range. Qed.

Lemma typed_expected (o : xcb_out) :
  typed_out o → typed anything (modify_in (set_request_expected (out_request o))).
Proof. intros []. apply typed_modify_in. intros i []. split; cbn; auto. Qed.
#[local] Hint Resolve typed_bump_request : typed.

Lemma typed_sync_loop fuel isvoid request synced :
  word 64 request → typed (λ r, word 64 r.1) (sync_loop fuel isvoid request synced).
Proof.
  revert request synced. induction fuel as [|fuel IH]; intros request synced Hr;
    cbn [sync_loop]; [apply typed_fail|].
  typed_step. destruct a; [|by apply typed_ret].
  typed_step. typed_step. open_reads. unfold id.
  eapply (typed_bind anything); [by apply typed_expected|]. intros _ _.
  typed_step. typed_step. open_reads. by apply IH.
Qed.

Lemma typed_number_request fl slots v big wk isvoid :
  typed (λ n, word 64 n.1) (number_request fl slots v big wk isvoid).
Proof.
  unfold number_request. typed_step. typed_step. typed_step. open_reads.
  eapply typed_bind; [by apply typed_sync_loop|]. intros s Hs.
  typed_step; [typed_auto|]. typed_step.
  { typed_step. typed_step. open_reads. by apply typed_expected. }
  typed_step. by apply typed_ret.
Qed.
#[local] Hint Resolve typed_number_request : typed.

Lemma typed_send_request fl slots v req : typed (word 32) (xcb_send_request fl slots v req).
Proof.
  unfold xcb_send_request, send_locked. typed_step. destruct a; [by apply typed_ret|].
  typed_step. typed_step; [typed_auto|]. destruct a0 as [[vec big]|]; [|by apply typed_ret].
  typed_step. typed_step. typed_step; [typed_auto|].
  typed_step. apply typed_ret, u32_range.
Qed.
#[local] Hint Resolve typed_send_request typed_generate_id : typed.

(** ** The public functions of the two sides *)

Lemma typed_flush : typed anything xcb_flush.
Proof. unfold xcb_flush. typed_auto. Qed.

Lemma typed_expect_owner fl (o : xcb_out) :
  typed_out o →
  typed anything (_xcb_in_expect_reply (out_request o) WORKAROUND_EXTERNAL_SOCKET_OWNER fl).
Proof. intros []. by apply typed_expect_reply. Qed.

Lemma typed_take_socket cb closure fl :
  typed (λ r, ∀ sent, r.2 = Some sent → word 64 sent) (xcb_take_socket cb closure fl).
Proof.
  unfold xcb_take_socket, lend_socket. typed_step. destruct a; [by apply typed_ret|].
  do 4 typed_step. eapply (typed_bind (λ r, ∀ sent, r = Some sent → word 64 sent)).
  - match goal with |- typed _ (if ?b then _ else _) => destruct b end; [|by apply typed_ret].
    typed_step. typed_step. open_reads. eapply (typed_bind anything).
    { apply typed_when. intros _. eapply typed_bind; [by apply typed_expect_reply|].
      intros. by apply typed_ret. }
    intros _ _. typed_step. open_reads. typed_step. apply typed_ret. by intros ? [= <-].
  - intros sent Hs. typed_step. by apply typed_ret.
Qed.

Lemma typed_writev_call v n : typed anything (xcb_writev v n).
Proof. unfold xcb_writev. typed_auto. Qed.

Lemma typed_wait_for_reply request e : typed typed_reply (xcb_wait_for_reply request e).
Proof.
  unfold xcb_wait_for_reply. typed_step. destruct a; [apply typed_ret, typed_reply_none|].
  typed_step. typed_step. cbv zeta. typed_step; [typed_auto|].
  eapply (typed_bind typed_reply).
  - match goal with |- typed _ (if ?b then _ else _) => destruct b end;
      [|apply typed_ret, typed_reply_none].
    do 4 typed_step. eapply typed_bind; [apply typed_wait_reply_loop|]. intros res Hres.
    typed_step. by apply typed_ret.
  - intros res Hres. typed_auto. done.
Qed.
#[local] Hint Resolve typed_wait_for_reply : typed.

Lemma typed_wait_for_event : typed (λ r, ∀ ev, r = Some ev → event_packet ev) xcb_wait_for_event.
Proof.
  unfold xcb_wait_for_event. typed_step. destruct a; [by apply typed_ret|].
  typed_auto. done.
Qed.

Lemma typed_poll_for_event : typed (λ r, ∀ ev, r = Some ev → event_packet ev) xcb_poll_for_event.
Proof.
  unfold xcb_poll_for_event, poll_for_event. typed_step. destruct a; [by apply typed_ret|].
  typed_step. eapply (typed_bind (λ r, ∀ ev, r = Some ev → event_packet ev)).
  - typed_step. destruct a0 as [ev|]; [by apply typed_ret|]. typed_step.
    destruct a0; [apply typed_get_event|by apply typed_ret].
  - intros r Hr. typed_step. by apply typed_ret.
Qed.

Lemma typed_poll_for_reply_call request e : typed typed_polled (xcb_poll_for_reply request e).
Proof.
  unfold xcb_poll_for_reply. typed_step.
  destruct a; [apply typed_ret, typed_reply_none|]. typed_auto. done.
Qed.

Lemma typed_discard_call sequence : word 32 sequence → typed anything (xcb_discard_reply sequence).
Proof.
  intros Hs. unfold xcb_discard_reply. typed_auto.
Qed.

Lemma typed_request_check seq :
  typed (λ r, ∀ e, r = Some e → error_packet e) (xcb_request_check seq).
Proof.
  unfold xcb_request_check. typed_step. destruct a; [by apply typed_ret|].
  typed_step. typed_step; [typed_auto|]. eapply typed_bind; [apply typed_wait_for_reply|].
  intros r [_ Hr]. typed_step. by apply typed_ret.
Qed.

Lemma typed_prefetch_extension ext : typed anything (xcb_prefetch_extension_data ext).
Proof. unfold xcb_prefetch_extension_data. typed_auto. Qed.

(** ** Connection setup *)

Lemma typed_set_fd_flags : typed anything set_fd_flags.
Proof. unfold set_fd_flags. typed_auto. Qed.

Lemma typed_in_init : typed anything _xcb_in_init.
Proof.
  unfold _xcb_in_init. typed_auto; apply typed_modify_in; intros i []; split; cbn; auto.
  all: done.
Qed.

Lemma typed_out_init : typed anything _xcb_out_init.
Proof.
  unfold _xcb_out_init. typed_auto; apply typed_modify_out; intros o []; split; cbn; auto.
  all: done.
Qed.

Lemma typed_xid_init : typed anything _xcb_xid_init.
Proof.
  unfold _xcb_xid_init. typed_auto. apply typed_modify_xid. intros x _. destruct_and?.
  split; cbn; try done. by apply land_word.
Qed.

Lemma typed_write_setup auth : typed anything (write_setup auth).
Proof. unfold write_setup. typed_auto. Qed.

Lemma typed_read_setup : typed anything read_setup.
Proof. unfold read_setup, write_reason. cbv zeta. typed_auto. Qed.

Lemma typed_and_then a b : typed anything a → typed anything b → typed anything (and_then a b).
Proof.
  intros Ha Hb. unfold and_then. eapply typed_bind; [exact Ha|].
  intros [] _; [done|by apply typed_ret].
Qed.

Lemma calloc_ok w d : connection_ok (set_fd d (calloc_connection w)).
Proof. split; cbn; [split; cbn; done..|done|split; done]. Qed.

(** A connection that has been set up is well formed. *)
Lemma connect_to_fd_ok d auth w w' :
  xcb_connect_to_fd d auth w = Ret Connection w' → connection_ok w'.
Proof.
  unfold xcb_connect_to_fd. intros E. apply bind_inv in E as (ok & w1 & _ & E).
  destruct ok; cbn [negb] in E; [|by apply bind_inv in E as (? & ? & _ & ?)].
  rewrite bind_modify in E. apply bind_inv in E as (ok & w2 & E2 & E).
  destruct ok; [|by apply bind_inv in E as (? & ? & _ & ?)]. injection E as <-.
  apply (typed_and_then _ (and_then sysret (and_then _xcb_in_init
         (and_then _xcb_out_init (and_then (write_setup auth) (and_then read_setup
           (and_then _xcb_ext_init _xcb_xid_init)))))) typed_set_fd_flags) in E2
    as [Hw _]; [done| |apply calloc_ok].
  repeat apply typed_and_then; auto using typed_sysret, typed_in_init, typed_out_init,
    typed_write_setup, typed_read_setup, typed_xid_init.
Qed.
End Calls.
