(* ===== verification/Public.v ===== *)
(** * The interface of the library

    The calls of [src/xcb.h] and [src/xcbext.h] that an application or a generated
    stub makes on a connection, as a data type, and sequences of them.
    [xcb_disconnect], after which the connection must not be used, is in
    Connect.v. *)
From S2P Require Import Prelude Effects State In Out Wait Ext Xid Request Connect.
#[local] Open Scope Z_scope.

Inductive public_call :=
  | XcbFlush
  | XcbTakeSocket (return_socket closure fl : Z)
  | XcbWritev (vector : list (list byte)) (requests : Z)
  | XcbSendRequest (fl : Z) (slots : nat) (vector : list iovec) (req : protocol_request)
  | XcbGetMaximumRequestLength
  | XcbPrefetchMaximumRequestLength
  | XcbWaitForReply (request : Z) (want_error : bool)
  | XcbPollForReply (request : Z) (want_error : bool)
  | XcbDiscardReply (sequence : Z)
  | XcbWaitForEvent
  | XcbPollForEvent
  | XcbRequestCheck (sequence : Z)
  | XcbGetExtensionData (ext : xcb_extension)
  | XcbPrefetchExtensionData (ext : xcb_extension)
  | XcbGenerateId
  | XcbGetSetup
  | XcbGetFileDescriptor
  | XcbConnectionHasError.

(** What the calls return and store through their arguments. *)
Inductive answer :=
  | AnsUnit
  | AnsBool (b : bool)
  | AnsNumber (z : Z)
  | AnsTaken (b : bool) (sent : option Z)
  | AnsReply (r : option (list byte) * option (list byte))
  | AnsPolled (r : option (option (list byte) * option (list byte)))
  | AnsPacket (p : option (list byte))
  | AnsExtension (r : option query_extension_reply)
  | AnsSetup (s : option (list byte)).

Section Public.
Context `{Host} `{XProto}.

Definition perform (c : public_call) : xM answer :=
  match c with
  | XcbFlush => r ← xcb_flush; ret (AnsBool r)
  | XcbTakeSocket cb closure fl => r ← xcb_take_socket cb closure fl; ret (AnsTaken r.1 r.2)
  | XcbWritev v n => r ← xcb_writev v n; ret (AnsBool r)
  | XcbSendRequest fl slots v req => r ← xcb_send_request fl slots v req; ret (AnsNumber r)
  | XcbGetMaximumRequestLength => r ← xcb_get_maximum_request_length; ret (AnsNumber r)
  | XcbPrefetchMaximumRequestLength => xcb_prefetch_maximum_request_length;; ret AnsUnit
  | XcbWaitForReply request e => r ← xcb_wait_for_reply request e; ret (AnsReply r)
  | XcbPollForReply request e => r ← xcb_poll_for_reply request e; ret (AnsPolled r)
  | XcbDiscardReply sequence => xcb_discard_reply sequence;; ret AnsUnit
  | XcbWaitForEvent => r ← xcb_wait_for_event; ret (AnsPacket r)
  | XcbPollForEvent => r ← xcb_poll_for_event; ret (AnsPacket r)
  | XcbRequestCheck sequence => r ← xcb_request_check sequence; ret (AnsPacket r)
  | XcbGetExtensionData ext => r ← xcb_get_extension_data ext; ret (AnsExtension r)
  | XcbPrefetchExtensionData ext => xcb_prefetch_extension_data ext;; ret AnsUnit
  | XcbGenerateId => r ← xcb_generate_id; ret (AnsNumber r)
  | XcbGetSetup => r ← xcb_get_setup; ret (AnsSetup r)
  | XcbGetFileDescriptor => r ← xcb_get_file_descriptor; ret (AnsNumber r)
  | XcbConnectionHasError => r ← xcb_connection_has_error Connection; ret (AnsBool r)
  end.

Fixpoint perform_all (cs : list public_call) : xM (list answer) :=
  match cs with
  | [] => ret []
  | c :: cs' => a ← perform c; l ← perform_all cs'; ret (a :: l)
  end.
End Public.

(** What a call on a connection in error returns. *)
Definition error_answer (c : public_call) : answer :=
  match c with
  | XcbFlush | XcbWritev _ _ => AnsBool false
  | XcbTakeSocket _ _ _ => AnsTaken false None
  | XcbSendRequest _ _ _ _ | XcbGetMaximumRequestLength => AnsNumber 0
  | XcbWaitForReply _ _ => AnsReply (None, None)
  | XcbPollForReply _ _ => AnsPolled (Some (None, None))
  | XcbWaitForEvent | XcbPollForEvent | XcbRequestCheck _ => AnsPacket None
  | XcbGetExtensionData _ => AnsExtension None
  | XcbGenerateId => AnsNumber (2 ^ 32 - 1)
  | XcbGetSetup => AnsSetup None
  | XcbGetFileDescriptor => AnsNumber (-1)
  | XcbConnectionHasError => AnsBool true
  | XcbPrefetchMaximumRequestLength | XcbDiscardReply _ | XcbPrefetchExtensionData _ => AnsUnit
  end.
