(* ===== verification/PublicProps.v ===== *)
(** * The whole interface: types and errors

    Whatever an application calls, in whatever order, the data of a connection
    keep their types and so do the results; and a connection on which a call
    has failed stays failed. *)
From S2P Require Import Prelude Effects Seq XcbMap State In InFrame InFacts Conn Out Wait Ext Xid.
From S2P Require Import Request Connect Typed TypedCalls Public Sample.
#[local] Open Scope Z_scope.

(** ** Types *)

(** Arguments of the width C gives them. *)
Definition call_typed (c : public_call) : Prop :=
  match c with XcbDiscardReply sequence => word 32 sequence | _ => True end.

Section Types.
Context `{Host} `{XProto}.

(** What an application may assume of an answer. *)
Definition answer_typed (c : public_call) (a : answer) : Prop :=
  match c, a with
  | XcbTakeSocket _ _ _, AnsTaken _ sent => ∀ z, sent = Some z → word 64 z
  | (XcbSendRequest _ _ _ _ | XcbGetMaximumRequestLength | XcbGenerateId), AnsNumber z => word 32 z
  | XcbWaitForReply _ _, AnsReply r => typed_reply r
  | XcbPollForReply _ _, AnsPolled r => typed_polled r
  | (XcbWaitForEvent | XcbPollForEvent), AnsPacket p => ∀ buf, p = Some buf → event_packet buf
  | XcbRequestCheck _, AnsPacket p => ∀ buf, p = Some buf → error_packet buf
  | XcbGetExtensionData _, AnsExtension r => typed_extension r
  | (XcbFlush | XcbWritev _ _ | XcbConnectionHasError), AnsBool _ => True
  | XcbGetFileDescriptor, AnsNumber _ => True
  | XcbGetSetup, AnsSetup _ => True
  | (XcbPrefetchMaximumRequestLength | XcbDiscardReply _ | XcbPrefetchExtensionData _), AnsUnit => True
  | _, _ => False
  end.
End Types.

Section TypeSafety.
Context `{Host} `{HP : XProto} `{!TypedStubs HP}.

Lemma typed_answer {A} (T1 : A → Prop) (T2 : answer → Prop) (m : xM A) (f : A → answer) :
  typed T1 m → (∀ a, T1 a → T2 (f a)) → typed T2 (a ← m; ret (f a)).
Proof. intros Hm Ht. eapply typed_bind; [exact Hm|]. intros a Ha. by apply typed_ret, Ht. Qed.

Lemma typed_xcb_get_setup : typed anything xcb_get_setup.
Proof. unfold xcb_get_setup. typed_auto. Qed.

Lemma typed_get_fd : typed anything xcb_get_file_descriptor.
Proof. unfold xcb_get_file_descriptor. typed_auto. Qed.

Lemma perform_typed c : call_typed c → typed (answer_typed c) (perform c).
Proof.
  intros Hc. destruct c; cbn [perform call_typed] in *; eapply typed_answer;
    try first
      [ apply typed_flush | apply typed_take_socket | apply typed_writev_call
      | apply typed_send_request | apply typed_get_mrl | apply typed_prefetch_mrl
      | apply typed_wait_for_reply | apply typed_poll_for_reply_call | by apply typed_discard_call
      | apply typed_wait_for_event | apply typed_poll_for_event | apply typed_request_check
      | apply typed_get_extension_data | apply typed_prefetch_extension | apply typed_generate_id
      | apply typed_xcb_get_setup | apply typed_get_fd ];
    try (intros; done).
  apply typed_gets.
Qed.

Lemma perform_all_typed cs :
  Forall call_typed cs → typed (λ l, Forall2 answer_typed cs l) (perform_all cs).
Proof.
  induction 1 as [|c cs Hc Hcs IH]; cbn [perform_all]; [by apply typed_ret|].
  eapply typed_bind; [by apply perform_typed|]. intros a Ha.
  eapply typed_bind; [exact IH|]. intros l Hl. apply typed_ret. by constructor.
Qed.

(** C14. Type safety of the interface: on a connection that has been set up, after
    any sequence of calls the fields of the connection have their types, and
    every answer has the type its caller relies on: replies are replies; errors
    and events have at least the size of their structures, a full sequence number
    that continues the 16 bits of the packet and, in a generic event, as many
    words behind it as the length says; numbers fit their width. *)
Theorem interface_typed d auth w0 w cs l w' :
  xcb_connect_to_fd d auth w0 = Ret Connection w → Forall call_typed cs →
  perform_all cs w = Ret l w' →
  connection_ok w' ∧ Forall2 answer_typed cs l.
Proof.
  intros Hw Hcs E. exact (perform_all_typed cs Hcs w l w' (connect_to_fd_ok d auth w0 w Hw) E).
Qed.
End TypeSafety.

(** ** Errors *)

Section Errors.
Context `{Host} `{XProto}.

(** A connection in error stays so. *)
Definition stays_failed (w w' : world) : Prop := has_error w = true → has_error w' = true.

#[export] Instance stays_failed_preorder : PreOrder stays_failed.
Proof. split; unfold stays_failed; [by intros ?|intros ???; auto]. Qed.

(** [out_request] is not touched. *)
Definition same_request (w w' : world) : Prop := out_request (w_out w') = out_request (w_out w).

#[local] Instance same_request_preorder : PreOrder same_request.
Proof. split; unfold same_request; [by intros ?|intros ???; congruence]. Qed.

Ltac public_tac := apply obeys_modify; first [by intros ? ?|by intros ?].
#[local] Hint Extern 1 (obeys _ (modify _)) => public_tac : obeys.
#[local] Hint Extern 1 (obeys _ (modify_in _)) => public_tac : obeys.
#[local] Hint Extern 1 (obeys _ (modify_out _)) => public_tac : obeys.
#[local] Hint Extern 1 (obeys _ (modify_os _)) => public_tac : obeys.
#[local] Hint Extern 1 (obeys _ _xcb_conn_shutdown) => public_tac : obeys.

Lemma failed_unlock l : obeys stays_failed (pthread_mutex_unlock l).
Proof.
  unfold pthread_mutex_unlock. apply obeys_bind; [apply _|auto with obeys|]. intros h.
  destruct (decide _); auto with obeys.
Qed.
#[local] Hint Resolve failed_unlock : obeys.

Lemma failed_wake_up : obeys stays_failed _xcb_in_wake_up_next_reader.
Proof. unfold _xcb_in_wake_up_next_reader, pthread_cond_signal. obeys_auto. Qed.
#[local] Hint Resolve failed_wake_up : obeys.

(** A computation whose result [a] with [P a] leaves the connection in error. *)
Definition fails {A} (P : A → Prop) (m : xM A) : Prop :=
  ∀ w a w', m w = Ret a w' → P a → has_error w' = true.

Lemma fails_ret {A} (P : A → Prop) a : ¬ P a → fails P (ret a).
Proof. by intros Ha w b w' [= <- <-] ?. Qed.

Lemma fails_fail {A} (P : A → Prop) f : fails P (fail f).
Proof. by intros w a w' ?. Qed.

(** Failure decided by the rest of the computation. *)
Lemma fails_bind {A B} (P : B → Prop) (m : xM A) (k : A → xM B) :
  (∀ a, fails P (k a)) → fails P (bind m k).
Proof. intros Hk w b w'' (a & w' & _ & E)%bind_inv. by eapply Hk. Qed.

(** Failure decided by the first part. *)
Lemma fails_first {A B} (P : A → Prop) (Q : B → Prop) (m : xM A) (k : A → xM B) :
  fails P m → (∀ a, obeys stays_failed (k a)) → (∀ a w b w', k a w = Ret b w' → Q b → P a) →
  fails Q (bind m k).
Proof.
  intros Hm Hk Hd w b w'' (a & w' & E1 & E2)%bind_inv Hq.
  eapply Hk; [exact E2|]. eapply Hm; [exact E1|]. by eapply Hd.
Qed.

(** Failure of the first part, or of the rest if that succeeds. *)
Lemma fails_first2 {A B} (P : A → Prop) (Q : B → Prop) (m : xM A) (k : A → xM B) :
  fails P m → (∀ a, fails Q (k a) ∨ P a ∧ obeys stays_failed (k a)) → fails Q (bind m k).
Proof.
  intros Hm Hk w b w'' (a & w' & E1 & E2)%bind_inv Hq. destruct (Hk a) as [Hf|[Hp Ho]].
  - by eapply Hf.
  - eapply Ho; [exact E2|]. by eapply Hm.
Qed.

Lemma fails_shutdown {A} (P : A → Prop) (k : () → xM A) :
  (∀ a, obeys stays_failed (k a)) → fails P (bind _xcb_conn_shutdown k).
Proof. intros Hk w a w' E _. exact (Hk () _ _ _ E eq_refl). Qed.

Lemma fails_in_read : fails (λ r, r = false) _xcb_in_read.
Proof. intros w r w' E ->. by apply in_read_false in E. Qed.

Lemma fails_write_vec v : fails (λ r, r.1 = false) (write_vec v).
Proof.
  unfold write_vec. do 3 (apply fails_bind; intros ?). destruct a1 as [n| |].
  - destruct (n <=? 0); [apply fails_shutdown; intros; auto with obeys|].
    do 2 (apply fails_bind; intros ?). by apply fails_ret.
  - by apply fails_ret.
  - apply fails_shutdown. intros; auto with obeys.
Qed.

Lemma fails_conn_io revents v : fails (λ r, r.1 = false) (conn_io revents v).
Proof.
  unfold conn_io. eapply (fails_first2 (λ r, r = false)).
  - destruct (_ =? POLLIN); [apply fails_in_read|by apply fails_ret].
  - intros []; cbn [negb]; [left|right; split; [done|auto with obeys]].
    destruct (_ =? POLLOUT); [|by apply fails_ret].
    destruct v as [v|]; [|apply fails_fail].
    eapply fails_first; [apply fails_write_vec|auto with obeys|].
    by intros a w b w' [= <- <-].
Qed.

Lemma fails_poll_socket v : fails (λ r, r = None) (poll_socket v).
Proof.
  unfold poll_socket. apply fails_bind. intros p. cbv zeta.
  match goal with |- fails _ (bind (when (bool_decide (?r = None)) _) _) => generalize r end.
  intros ready w r w' E ->. apply bind_inv in E as ([] & w1 & E1 & [= -> <-]).
  rewrite bool_decide_eq_true_2 in E1 by done. by injection E1 as <-.
Qed.

Lemma failed_in_read : obeys stays_failed _xcb_in_read.
Proof. intros w a w' E. exact (side_error _ _ (obeys_in_read _ _ _ E)). Qed.

Lemma failed_advance_iov n v : obeys stays_failed (advance_iov n v).
Proof. revert n. induction v; intros n; cbn [advance_iov]; cbv zeta; obeys_auto. Qed.
#[local] Hint Resolve failed_in_read failed_advance_iov : obeys.

Lemma failed_leave_poll ready v : obeys stays_failed (leave_poll ready v).
Proof. unfold leave_poll, conn_io, write_vec, writev. cbv zeta. obeys_auto. Qed.

Lemma failed_lock l : obeys stays_failed (pthread_mutex_lock l).
Proof.
  unfold pthread_mutex_lock. apply obeys_bind; [apply _|auto with obeys|]. intros h.
  destruct (decide _); auto with obeys.
Qed.
#[local] Hint Resolve failed_leave_poll failed_lock : obeys.

Lemma fails_conn_wait c v : fails (λ r, r.1 = false) (_xcb_conn_wait c v).
Proof.
  unfold _xcb_conn_wait. apply fails_bind. intros busy. destruct busy.
  { apply fails_bind. intros ?. by apply fails_ret. }
  apply fails_bind. intros _. eapply (fails_first2 (λ r, r = None)); [apply fails_poll_socket|].
  intros [revents|]; [left|right; split; [done|obeys_auto]].
  apply fails_bind. intros _. unfold leave_poll.
  eapply fails_first; [apply fails_conn_io|intros; obeys_auto|].
  intros r w b w' E Hb. apply bind_inv in E as (? & ? & _ & E).
  apply bind_inv in E as (? & ? & _ & [= <- _]). done.
Qed.

Lemma fails_send_loop fuel v : fails (λ r, r = false) (send_loop fuel v).
Proof.
  revert v. induction fuel as [|fuel IH]; intros v; cbn [send_loop]; [apply fails_fail|].
  destruct v; [by apply fails_ret|].
  eapply fails_first2; [apply fails_conn_wait|]. intros r.
  destruct r.1 eqn:Er; [left; apply IH|right; split; [done|auto with obeys]].
Qed.

Lemma fails_out_send v : fails (λ r, r = false) (_xcb_out_send v).
Proof.
  unfold _xcb_out_send. apply fails_bind. intros fuel.
  eapply fails_first; [apply fails_send_loop| |].
  - intros r. unfold pthread_cond_broadcast. obeys_auto.
  - intros r w b w' E Hb. do 3 apply bind_inv in E as (? & ? & _ & E). by injection E as <- _.
Qed.

Lemma fails_flush_to request : fails (λ r, r = false) (_xcb_out_flush_to request).
Proof.
  unfold _xcb_out_flush_to. do 2 (apply fails_bind; intros ?).
  destruct (XCB_SEQUENCE_COMPARE _ _ _); [by apply fails_ret|].
  destruct (negb _); apply fails_bind; intros ?; [apply fails_out_send|].
  do 2 (apply fails_bind; intros ?). by apply fails_ret.
Qed.

Lemma fails_write_block slots v : fails (λ r, r = false) (write_block slots v).
Proof.
  unfold write_block. apply fails_bind. intros f. destruct f.2; [by apply fails_ret|].
  destruct (decide _); [apply fails_fail|]. do 2 (apply fails_bind; intros ?).
  apply fails_out_send.
Qed.

Lemma fails_wait_event_loop fuel : fails (λ r, r = None) (wait_event_loop fuel).
Proof.
  induction fuel as [|fuel IH]; cbn [wait_event_loop]; [apply fails_fail|].
  apply fails_bind. intros [ev|]; [by apply fails_ret|].
  eapply fails_first2; [apply fails_conn_wait|]. intros r.
  destruct r.1 eqn:Er; [left; apply IH|right; split; [done|auto with obeys]].
Qed.

Lemma fails_guarded {A} (P : A → Prop) a (m : xM A) :
  fails P m → fails P (e ← gets has_error; if e then ret a else m).
Proof.
  intros Hm w b w' E Hp. rewrite bind_gets in E. destruct (has_error w) eqn:Ew.
  - by injection E as _ <-.
  - by eapply Hm.
Qed.

Lemma fails_flush : fails (λ r, r = false) xcb_flush.
Proof.
  apply fails_guarded. do 2 (apply fails_bind; intros ?).
  eapply fails_first; [apply fails_flush_to|intros; obeys_auto|].
  intros r w b w' E Hb. apply bind_inv in E as (? & ? & _ & [= <- _]). done.
Qed.

Lemma fails_writev v n : fails (λ r, r = false) (xcb_writev v n).
Proof.
  apply fails_guarded. do 2 (apply fails_bind; intros ?).
  eapply fails_first; [apply fails_out_send|intros; obeys_auto|].
  intros r w b w' E Hb. apply bind_inv in E as (? & ? & _ & [= <- _]). done.
Qed.

Lemma fails_take_socket cb closure fl : fails (λ r, r.1 = false) (xcb_take_socket cb closure fl).
Proof.
  apply fails_guarded. do 3 (apply fails_bind; intros ?).
  eapply fails_first2; [apply fails_flush_to|]. intros [].
  - left. do 2 (apply fails_bind; intros ?). by apply fails_ret.
  - right. split; [done|]. obeys_auto.
Qed.

Lemma fails_wait_for_event : fails (λ r, r = None) xcb_wait_for_event.
Proof.
  apply fails_guarded. do 2 (apply fails_bind; intros ?).
  eapply fails_first; [apply fails_wait_event_loop|intros; obeys_auto|].
  intros r w b w' E Hb. do 2 apply bind_inv in E as (? & ? & _ & E). by injection E as <- _.
Qed.

(** *** A request that is not sent *)

Lemma fails_fill_header v req : fails (λ h, h = None) (fill_header v req).
Proof.
  unfold fill_header. destruct v as [|v0 rest]; [apply fails_fail|].
  do 2 (apply fails_bind; intros ?). destruct a0 as [ops|].
  - do 2 (apply fails_bind; intros ?). cbv zeta. do 3 (apply fails_bind; intros ?).
    destruct a4 as [[short long]|]; [by apply fails_ret|].
    apply fails_shutdown. auto with obeys.
  - apply fails_shutdown. auto with obeys.
Qed.

Lemma same_request_in_side {A} (m : xM A) : obeys in_side m → obeys same_request m.
Proof. intros Hm w a w' E. unfold same_request. by rewrite (side_out _ _ (Hm _ _ _ E)). Qed.

Lemma same_request_lock l : obeys same_request (pthread_mutex_lock l).
Proof.
  unfold pthread_mutex_lock. apply obeys_bind; [apply _|auto with obeys|]. intros h.
  destruct (decide _); auto with obeys.
Qed.

Lemma same_request_unlock l : obeys same_request (pthread_mutex_unlock l).
Proof.
  unfold pthread_mutex_unlock. apply obeys_bind; [apply _|auto with obeys|]. intros h.
  destruct (decide _); auto with obeys.
Qed.

Lemma same_request_wake_up : obeys same_request _xcb_in_wake_up_next_reader.
Proof. apply same_request_in_side, obeys_wake_up. Qed.

Lemma same_request_expect request wk fl : obeys same_request (_xcb_in_expect_reply request wk fl).
Proof. apply same_request_in_side, obeys_expect_reply. Qed.

Lemma same_request_in_read : obeys same_request _xcb_in_read.
Proof. apply same_request_in_side, obeys_in_read. Qed.

Lemma same_request_poll : obeys same_request poll.
Proof. apply same_request_in_side, obeys_poll. Qed.

Lemma same_request_advance_iov n v : obeys same_request (advance_iov n v).
Proof. revert n. induction v; intros n; cbn [advance_iov]; cbv zeta; obeys_auto. Qed.
#[local] Hint Resolve same_request_lock same_request_unlock same_request_wake_up
  same_request_expect same_request_in_read same_request_poll same_request_advance_iov : obeys.

Lemma same_request_conn_wait c v : obeys same_request (_xcb_conn_wait c v).
Proof.
  unfold _xcb_conn_wait, pthread_cond_wait, enter_poll, poll_socket, leave_poll, conn_io, write_vec,
    writev. cbv zeta. obeys_auto.
Qed.
#[local] Hint Resolve same_request_conn_wait : obeys.

Lemma same_request_send_loop fuel v : obeys same_request (send_loop fuel v).
Proof. revert v. induction fuel; intros v; cbn [send_loop]; obeys_auto. Qed.
#[local] Hint Resolve same_request_send_loop : obeys.

Lemma same_request_write_block slots v : obeys same_request (write_block slots v).
Proof.
  unfold write_block, _xcb_out_send, pthread_cond_broadcast.
  assert (∀ s v, obeys same_request (fill_queue s v)) as Hf.
  { intros s v'. revert s. induction v'; intros s; cbn [fill_queue]; obeys_auto. }
  apply obeys_bind; [apply _|apply Hf|]. intros f. destruct f.2; [auto with obeys|].
  destruct (decide _); [auto with obeys|]. obeys_auto.
Qed.

(** The number of a request is the last one given out. *)
Lemma sync_loop_last fuel isvoid request synced w r w' :
  request = out_request (w_out w) → sync_loop fuel isvoid request synced w = Ret r w' →
  r.1 = out_request (w_out w').
Proof.
  revert request synced w. induction fuel as [|fuel IH]; intros request synced w Hr; [done|].
  cbn [sync_loop]. rewrite bind_gets. destruct (sync_needed _ _ _); [|by intros [= <- <-]].
  intros (? & w1 & _ & E)%bind_inv. unfold modify_in, modify_out in E.
  rewrite bind_gets in E. do 2 rewrite bind_modify in E. rewrite bind_gets in E.
  eapply IH; [|exact E]. done.
Qed.

Lemma number_request_last fl slots v big wk isvoid w n w' :
  number_request fl slots v big wk isvoid w = Ret n w' → n.1 = out_request (w_out w').
Proof.
  unfold number_request. intros (? & w1 & _ & E)%bind_inv. unfold modify_out in E.
  rewrite bind_modify, bind_gets in E. apply bind_inv in E as (s & w2 & E2 & E).
  apply sync_loop_last in E2; [|done].
  assert (n.1 = s.1) as ->.
  { do 3 apply bind_inv in E as (? & ? & _ & E). by injection E as <- _. }
  match type of E with ?m w2 = _ => assert (obeys same_request m) as Ho end.
  { unfold add_prefix. repeat first [obeys_step|destruct (decide _)]. }
  rewrite E2. symmetry. exact (Ho _ _ _ E).
Qed.

Lemma send_request_zero fl slots v req w w' :
  xcb_send_request fl slots v req w = Ret 0 w' →
  has_error w' = true ∨ u32 (out_request (w_out w')) = 0.
Proof.
  unfold xcb_send_request. rewrite bind_gets. destruct (has_error w) eqn:Ew.
  { intros [= <-]. by left. }
  intros (? & w1 & _ & E)%bind_inv. apply bind_inv in E as (h & w2 & E2 & E).
  destruct h as [[vec big]|].
  2: { injection E as <-. left. revert E2. destruct (has_flag fl XCB_REQUEST_RAW).
       - by intros (? & ? & _ & [=])%bind_inv.
       - intros E2. by eapply fails_fill_header. }
  do 2 apply bind_inv in E as (? & ? & _ & E). apply bind_inv in E as (request & w5 & E5 & E).
  apply bind_inv in E as ([] & w6 & E6 & [= Hz <-]).
  pose proof (failed_unlock _ _ _ _ E6) as Hf6. pose proof (same_request_unlock _ _ _ _ E6) as Hs6.
  unfold send_locked in E5. do 2 apply bind_inv in E5 as (? & ? & _ & E5).
  apply bind_inv in E5 as (n & w8 & E8 & E5). apply number_request_last in E8.
  apply bind_inv in E5 as (ok & w9 & E9 & E5). apply same_request_write_block in E9.
  destruct ok.
  - injection E5 as <- <-. right. unfold same_request in *. by rewrite Hs6, E9, <- E8.
  - left. apply Hf6. apply bind_inv in E5 as ([] & w10 & E10 & [= _ <-]). by injection E10 as <-.
Qed.

(** ** A failure is final *)

(** The call [c] has reported, in the world [w'], that input or output failed or
    that its request was not sent.  (0 is also the truncated number of every
    [2^32]nd request.) *)
Definition reports_failure (c : public_call) (a : answer) (w' : world) : Prop :=
  match c with
  | XcbFlush | XcbWritev _ _ | XcbTakeSocket _ _ _ | XcbWaitForEvent | XcbConnectionHasError =>
      a = error_answer c
  | XcbSendRequest _ _ _ _ => a = error_answer c ∧ u32 (out_request (w_out w')) ≠ 0
  | _ => False
  end.

Lemma perform_failure c w a w' :
  perform c w = Ret a w' → reports_failure c a w' → has_error w' = true.
Proof.
  intros E Hf. destruct c; cbn in Hf; try done;
    cbn [perform] in E; apply bind_inv in E as (r & w1 & E1 & [= <- <-]).
  - injection Hf as ->. exact (fails_flush _ _ _ E1 eq_refl).
  - injection Hf as Hr _. exact (fails_take_socket _ _ _ _ _ _ E1 Hr).
  - injection Hf as ->. exact (fails_writev _ _ _ _ _ E1 eq_refl).
  - destruct Hf as [[= ->] Hz]. by apply send_request_zero in E1 as [?|?].
  - injection Hf as ->. exact (fails_wait_for_event _ _ _ E1 eq_refl).
  - injection Hf as ->. by injection E1 as <- <-.
Qed.

Lemma perform_error c w : has_error w = true → perform c w = Ret (error_answer c) w.
Proof. intros Hw. destruct c; cbn; by unfold bind, gets; cbn; rewrite Hw. Qed.

Lemma perform_all_error cs w :
  has_error w = true → perform_all cs w = Ret (error_answer <$> cs) w.
Proof.
  intros Hw. induction cs as [|c cs IH]; [done|]. cbn [perform_all fmap list_fmap].
  by rewrite (bind_run _ _ _ _ _ (perform_error c w Hw)), (bind_run _ _ _ _ _ IH).
Qed.

(** C15. A failure is final: once a call has reported that input or output failed
    or that a request was not sent, every later call, in any sequence, returns
    its error value at once and changes nothing: it takes no lock, makes no
    system call and sends no byte. *)
Theorem failure_is_final c w a w' cs :
  perform c w = Ret a w' → reports_failure c a w' →
  perform_all cs w' = Ret (error_answer <$> cs) w'.
Proof. intros E Hf. by eapply perform_all_error, perform_failure. Qed.
End Errors.

(** ** The hypotheses can hold *)

Section Witnesses.
#[local] Existing Instances sample_host sample_proto.

Lemma sample_stubs : TypedStubs sample_proto.
Proof.
  split; try (intros; by apply typed_ret).
  - by intros bs.
  - intros cookie. apply typed_ret. by intros v [= <-].
  - intros cookie. apply typed_ret. by intros start count [= <- <-].
Qed.

(** A setup reply, then the reply to the first request. *)
Definition setup_reply_bytes : list byte := byte_of <$> [1; 0; 11; 0; 0; 0; 1; 0; 0; 0; 0; 0].

Definition first_reply : list byte :=
  [byte_of XCB_REPLY; byte_of 0] ++ host_bytes 2 1 ++ host_bytes 4 0 ++ replicate 24 (byte_of 0).

Definition session_start : world :=
  sample_world (sample_in []) (sample_out [] 0 0)
    (sample_os [RecvData setup_reply_bytes; RecvData first_reply]
       [PollReady POLLOUT; PollReady POLLOUT; PollReady POLLIN] []).

Definition connected : world := final session_start (run (xcb_connect_to_fd 3 None) session_start).

Definition session : list public_call :=
  [XcbGenerateId;
   XcbSendRequest XCB_REQUEST_CHECKED 1 [IovBuf (replicate 8 (byte_of 0))]
     (ProtocolRequest None 16 false);
   XcbWaitForReply 1 true; XcbPollForEvent; XcbDiscardReply 1; XcbFlush].

Definition session_end : world := final connected (run (perform_all session) connected).

Lemma interface_typed_witness :
  connection_ok session_end ∧
  Forall2 answer_typed session
    [AnsNumber 0x400000; AnsNumber 1; AnsReply (Some first_reply, None); AnsPacket None; AnsUnit;
     AnsBool true].
Proof.
  apply (interface_typed (TypedStubs0 := sample_stubs) 3 None session_start connected session).
  - vm_compute. reflexivity.
  - repeat constructor; discriminate.
  - vm_compute. reflexivity.
Defined.

(** The socket breaks: [poll] fails. *)
Definition broken_world : world :=
  sample_world (sample_in []) (sample_out [] 1 1) (sample_os [] [PollError] []).

Definition broken : world := final broken_world (run xcb_wait_for_event broken_world).

Lemma failure_is_final_witness :
  perform_all session broken = Ret (error_answer <$> session) broken.
Proof.
  apply (failure_is_final XcbWaitForEvent broken_world (AnsPacket None) broken session).
  - vm_compute. reflexivity.
  - reflexivity.
Defined.
End Witnesses.
