(* ===== verification/WaitProps.v ===== *)
(** * Waiting for replies and events

    The waiting functions leave the list of readers and the locks as they found
    them and never loop for ever without an event. *)
From S2P Require Import Prelude Effects Seq XcbMap State In InFrame InFacts Demux Conn Out.
From S2P Require Import Wait OutFacts OutProps Sample.
#[local] Open Scope Z_scope.

(** ** The list of readers *)

Lemma compare_32_refl a : XCB_SEQUENCE_COMPARE_32 a Z.leb a = true.
Proof. unfold XCB_SEQUENCE_COMPARE_32. by rewrite Z.sub_diag. Qed.

(** Unlinking the reader that has just been linked in restores the list. *)
Lemma remove_insert_reader r l :
  (∀ r', r' ∈ l → reader_id r' ≠ reader_id r) → remove_reader r (insert_reader r l) = l.
Proof.
  induction l as [|r' t IH]; intros Hn; cbn [insert_reader].
  - cbn. by rewrite compare_32_refl, decide_True.
  - destruct (XCB_SEQUENCE_COMPARE_32 (reader_request r') Z.leb (reader_request r)) eqn:E.
    + cbn [remove_reader]. rewrite E, decide_False by (apply Hn; left).
      rewrite IH; [done|]. intros r2 Hr2. apply Hn. by right.
    + cbn [remove_reader]. by rewrite compare_32_refl, decide_True.
Qed.

Section Wait.
Context `{Host} `{XProto}.

Lemma polls_poll_for_reply request e : obeys polls_le (poll_for_reply request e).
Proof. unfold poll_for_reply, return_reply, replies_put. obeys_auto. Qed.

Lemma polls_get_event : obeys polls_le get_event.
Proof. unfold get_event. obeys_auto. Qed.

Lemma in_side_conn w w' : in_side w w' → polls_le w w' → conn_side w w'.
Proof. intros [? ? ? ? ? ? ? ? ? Ho] Hp. split; try done; apply Ho. Qed.

Lemma in_side_sent w w' : in_side w w' → os_sent (w_os w') = os_sent (w_os w).
Proof. intros Hs. apply (side_os _ _ Hs). Qed.

Lemma poll_for_reply_faults request e w f :
  poll_for_reply request e w = Fault f → f = FOutOfBounds.
Proof.
  intros E. destruct (decide (f = FOutOfBounds)) as [|Hf]; [done|].
  assert (∀ A, never (W:=world) f (fail (A:=A) FOutOfBounds)) as Ho by (intros; by apply never_fail).
  pose proof (never_malloc f) as Hm.
  assert (never f (poll_for_reply request e)) as Hn.
  { unfold poll_for_reply, return_reply, replies_put, modify_in. never_auto. }
  by apply Hn in E.
Qed.

(** A reader's wait neither touches the output nor the other readers. *)
Lemma reader_wait_inv c w r w' :
  holds_iolock w → _xcb_conn_wait c None w = Ret r w' →
  conn_side w w' ∧ os_sent (w_os w') = os_sent (w_os w) ∧
  (length (os_polls (w_os w')) < length (os_polls (w_os w)))%nat ∧
  (r.1 = false → has_error w' = true).
Proof.
  intros (h & Hh & Hn) E.
  apply (conn_wait_inv _ _ _ _ _ h) in E as (Hc & Hp & Hs & He); [|done|done|by intros [? ?]|by constructor].
  destruct r as [b [v|]]; cbn in *; [done|]. done.
Qed.

(** [wait_reply_loop]: its result is what [poll_for_reply] returned at the end,
    or nothing and the connection is in error. *)
Lemma wait_reply_loop_inv fuel request e c w res w' :
  holds_iolock w → wait_reply_loop fuel request e c w = Ret res w' →
  conn_side w w' ∧ os_sent (w_os w') = os_sent (w_os w) ∧
  ((∃ w1, poll_for_reply request e w1 = Ret (Some res) w') ∨
   res = (None, None) ∧ has_error w' = true).
Proof.
  revert w. induction fuel as [|fuel IH]; intros w Hl E; [done|]. cbn [wait_reply_loop] in E.
  apply bind_inv in E as (r & w1 & E1 & E).
  pose proof (obeys_poll_for_reply _ _ _ _ _ E1) as Hside.
  pose proof (in_side_conn _ _ Hside (polls_poll_for_reply _ _ _ _ _ E1)) as Hc1.
  pose proof (in_side_sent _ _ Hside) as Hs1.
  destruct r as [res'|]; [injection E as <- <-; by eauto|].
  apply bind_inv in E as (b & w2 & E2 & E).
  assert (holds_iolock w1) as Hl1 by by eapply holds_iolock_side; [apply conn_send_side|].
  apply reader_wait_inv in E2 as (Hc2 & Hs2 & _ & He2); [|done].
  destruct b as [[] v]; cbn in E, He2.
  - apply IH in E as (Hc3 & Hs3 & Hres).
    + split_and!; [|congruence|done]. etransitivity; [exact Hc1|]. by transitivity w2.
    + eapply holds_iolock_side; [apply conn_send_side|exact Hl1]. done.
  - injection E as <- <-. split_and!; [by transitivity w1|congruence|]. right. auto.
Qed.

Lemma wait_reply_loop_faults fuel request e c w f :
  holds_iolock w → (length (os_polls (w_os w)) < fuel)%nat →
  wait_reply_loop fuel request e c w = Fault f → f = FOutOfBounds.
Proof.
  revert w. induction fuel as [|fuel IH]; intros w Hl Hf; [lia|]. cbn [wait_reply_loop].
  unfold bind. destruct (poll_for_reply request e w) as [r w1| |f'] eqn:E1; [|done|].
  2: { intros [= ->]. by eapply poll_for_reply_faults. }
  pose proof (polls_poll_for_reply _ _ _ _ _ E1) as Hp1. unfold polls_le in Hp1.
  apply obeys_poll_for_reply in E1 as Hside. destruct r; [done|].
  assert (holds_iolock w1) as Hl1.
  { eapply holds_iolock_side; [apply conn_send_side|exact Hl]. by apply in_side_conn. }
  destruct (_xcb_conn_wait c None w1) as [[[] v] w2| |f'] eqn:E2; [|done|done|].
  - apply reader_wait_inv in E2 as (Hc2 & _ & Hp2 & _); [|done]. cbn. apply IH; [|lia].
    eapply holds_iolock_side; [apply conn_send_side|exact Hl1]. done.
  - intros [= ->]. eapply conn_wait_faults in E2; [done|done|by intros [? ?]|by constructor].
Qed.

(** What [xcb_wait_for_reply] needs of the connection. *)
Record wait_ready (w : world) : Prop := {
  wr_error : has_error w = false;
  wr_lock : IoLock ∉ held w;
  wr_out : out_ok (w_out w);
  wr_fresh : ∀ r, r ∈ readers (w_in w) → (reader_id r < os_fresh (w_os w))%nat
}.

(** The first half of [xcb_wait_for_reply]: the request is written. *)
Definition write_request (request : Z) : xM bool :=
  o ← gets w_out;
  if bool_decide (is_Some (out_return_socket o)) then ret true
  else _xcb_out_flush_to (widen (out_request o) request).

Lemma write_request_inv request w r w' :
  holds_iolock w → out_ok (w_out w) → 0 <= request < 2 ^ 32 →
  write_request request w = Ret r w' →
  send_side w w' ∧ (∃ rest, os_sent (w_os w') ++ rest = wire w) ∧
  (r = false → has_error w' = true).
Proof.
  intros Hl Hk Hr E. unfold write_request in E. rewrite bind_gets in E.
  pose proof (ok_queue _ Hk) as Hq. unfold XCB_QUEUE_BUFFER_SIZE in Hq.
  destruct (bool_decide _).
  { injection E as <- <-. split; [by apply conn_send_side|]. split; [|done]. by eexists. }
  pose proof (widen_window (out_request (w_out w)) request (ok_request _ Hk) Hr) as Hw.
  apply flush_to_inv in E as (Hs & _ & Hc); [|done|lia|lia].
  split; [done|]. destruct Hc as [(_ & -> & ->)|(_ & rest & Hd & _ & He)].
  - split; [|done]. by eexists.
  - split; [by exists rest|done].
Qed.

Lemma write_request_faults request w f :
  holds_iolock w → out_ok (w_out w) → 0 <= request < 2 ^ 32 →
  write_request request w = Fault f → f = FOutOfBounds.
Proof.
  intros Hl Hk Hr. unfold write_request. rewrite bind_gets. destruct (bool_decide _); [done|].
  pose proof (widen_window (out_request (w_out w)) request (ok_request _ Hk) Hr) as Hw.
  set (q := widen _ _) in *. unfold _xcb_out_flush_to. rewrite bind_gets.
  assert (XCB_SEQUENCE_COMPARE q Z.leb (out_request (w_out w)) = true) as ->.
  { unfold XCB_SEQUENCE_COMPARE. apply Z.leb_le. words. }
  cbn [assertM]. rewrite bind_ret.
  destruct (XCB_SEQUENCE_COMPARE (out_request_written (w_out w)) Z.geb q) eqn:Ew; [done|].
  destruct (decide (out_queue (w_out w) = [])) as [Hn|Hn].
  - exfalso. rewrite (ok_empty _ Hk Hn) in Ew. unfold XCB_SEQUENCE_COMPARE in Ew.
    rewrite Z.geb_leb in Ew. apply Z.leb_gt in Ew. words.
  - rewrite bool_decide_eq_false_2 by done. cbn [negb]. unfold modify_out. rewrite bind_modify.
    apply out_send_faults; [|done|].
    { destruct Hl as (h & ?). by exists h. }
    apply Forall_singleton. pose proof (ok_queue _ Hk). unfold XCB_QUEUE_BUFFER_SIZE in *.
    cbn. lia.
Qed.

(** The second half: link in the reader, wait, unlink it. *)
Definition await_reply (request : Z) (e : bool) : xM (option (list byte) * option (list byte)) :=
  id ← gets (os_fresh ∘ w_os);
  modify_os (set_os_fresh (S id));;
  let r := Reader request id in
  modify_in (λ i, set_readers (insert_reader r (readers i)) i);;
  fuel ← gets (λ w, S (length (os_polls (w_os w))));
  res ← wait_reply_loop fuel request e (ReaderCond id);
  modify_in (λ i, set_readers (remove_reader r (readers i)) i);;
  ret res.

Lemma wait_for_reply_eq request e w :
  has_error w = false → IoLock ∉ held w →
  xcb_wait_for_reply request e w =
    (sent ← write_request request;
     res ← (if sent then await_reply request e else ret (None, None));
     _xcb_in_wake_up_next_reader;;
     pthread_mutex_unlock IoLock;;
     ret res) (set_held (IoLock :: held w) w).
Proof.
  intros He Hl. unfold xcb_wait_for_reply.
  rewrite bind_gets, He, (bind_lock IoLock (held w)), bind_gets by done.
  unfold write_request. by rewrite bind_assoc, bind_gets.
Qed.

(** The world in which [await_reply] starts its loop. *)
Definition with_reader (request : Z) (w : world) : world :=
  let id := os_fresh (w_os w) in
  set_w_in (set_readers (insert_reader (Reader request id) (readers (w_in w))) (w_in w))
    (set_w_os (set_os_fresh (S id) (w_os w)) w).

Lemma await_reply_eq request e w :
  await_reply request e w =
    match wait_reply_loop (S (length (os_polls (w_os w)))) request e
            (ReaderCond (os_fresh (w_os w))) (with_reader request w) with
    | Ret res w' => Ret res
        (set_w_in (set_readers (remove_reader (Reader request (os_fresh (w_os w)))
           (readers (w_in w'))) (w_in w')) w')
    | Blocked w' => Blocked w'
    | Fault f => Fault f
    end.
Proof.
  unfold await_reply. rewrite bind_gets. unfold compose, modify_os, modify_in.
  rewrite !bind_modify, bind_gets. unfold bind. cbn [w_os set_w_in set_w_os os_polls set_os_fresh].
  by destruct (wait_reply_loop _ _ _ _ _).
Qed.

Lemma await_reply_inv request e w res w' :
  holds_iolock w → (∀ r, r ∈ readers (w_in w) → (reader_id r < os_fresh (w_os w))%nat) →
  await_reply request e w = Ret res w' →
  readers (w_in w') = readers (w_in w) ∧ held w' = held w ∧ w_out w' = w_out w ∧
  in_reading (w_in w') = in_reading (w_in w) ∧ os_sent (w_os w') = os_sent (w_os w) ∧
  (res = (None, None) → has_error w' = true ∨ ∃ w1 w2,
     poll_for_reply request e w1 = Ret (Some (None, None)) w2 ∧ has_error w2 = has_error w').
Proof.
  intros Hl Hf E. rewrite await_reply_eq in E.
  destruct (wait_reply_loop _ _ _ _ _) as [res1 w1| |] eqn:E1; [|done..]. injection E as <- <-.
  apply wait_reply_loop_inv in E1 as (Hc & Hs & Hres); [|by destruct Hl as (h & ?); exists h].
  pose proof (conn_readers _ _ Hc) as Hr. cbn in Hr |- *. rewrite Hr, remove_insert_reader.
  2: { intros r Hin. apply Hf in Hin. cbn. lia. }
  split_and!; [done|exact (conn_held _ _ Hc)|exact (conn_out _ _ Hc)
    |exact (conn_reading _ _ Hc)|exact Hs|].
  intros ->. destruct Hres as [(w0 & Hp)|[_ He]]; [right|by left]. by exists w0, w1.
Qed.

Lemma await_reply_fresh request e w res w' :
  holds_iolock w → await_reply request e w = Ret res w' →
  os_fresh (w_os w') = S (os_fresh (w_os w)).
Proof.
  intros Hl E. rewrite await_reply_eq in E.
  destruct (wait_reply_loop _ _ _ _ _) as [res1 w1| |] eqn:E1; [|done..]. injection E as _ <-.
  apply wait_reply_loop_inv in E1 as (Hc & _); [|by destruct Hl as (h & ?); exists h].
  exact (conn_fresh _ _ Hc).
Qed.

Lemma await_reply_faults request e w f :
  holds_iolock w → await_reply request e w = Fault f → f = FOutOfBounds.
Proof.
  intros Hl E. rewrite await_reply_eq in E.
  destruct (wait_reply_loop _ _ _ _ _) as [| |f'] eqn:E1; [done..|]. injection E as ->.
  eapply wait_reply_loop_faults; [..|exact E1]; [|cbn; lia].
  by destruct Hl as (h & ?); exists h.
Qed.

Lemma wake_up_run w :
  ∃ ss, _xcb_in_wake_up_next_reader w = Ret () (with_signals ss w).
Proof.
  unfold _xcb_in_wake_up_next_reader. rewrite bind_gets. unfold compose, with_signals.
  destruct (readers (w_in w)); by eexists [_].
Qed.

(** [xcb_wait_for_reply] cleans up: whenever and whyever it returns, its reader
    is unlinked again and the other readers are as before, in order, the lock is
    free and the reading counter restored; and until then nothing but a prefix
    of what was queued has been sent. *)
Lemma xcb_wait_for_reply_cleans_up request e w res w' :
  wait_ready w → 0 <= request < 2 ^ 32 →
  xcb_wait_for_reply request e w = Ret res w' →
  readers (w_in w') = readers (w_in w) ∧ held w' = held w ∧
  in_reading (w_in w') = in_reading (w_in w) ∧
  ∃ rest, os_sent (w_os w') ++ rest = wire w.
Proof.
  intros [He Hl Hk Hf] Hr E. rewrite wait_for_reply_eq in E by done.
  set (w1 := set_held (IoLock :: held w) w) in E.
  apply bind_inv in E as (sent & w2 & E2 & E).
  assert (holds_iolock w1) as Hl1 by by exists (held w).
  apply write_request_inv in E2 as (Hs2 & (rest & Hw) & _); [|done..].
  apply bind_inv in E as (res2 & w3 & E3 & E).
  assert (readers (w_in w3) = readers (w_in w) ∧ held w3 = IoLock :: held w ∧
    in_reading (w_in w3) = in_reading (w_in w) ∧ os_sent (w_os w3) = os_sent (w_os w2))
    as (Hr3 & Hh3 & Hi3 & Hs3).
  { pose proof (conn_held _ _ Hs2) as Hh2. pose proof (conn_reading _ _ Hs2) as Hi2.
    pose proof (conn_readers _ _ Hs2) as Hr2. pose proof (conn_fresh _ _ Hs2) as Hf2.
    cbn in *. destruct sent.
    - apply await_reply_inv in E3 as (-> & -> & _ & -> & -> & _); [done|by exists (held w)|].
      intros r. rewrite Hr2, Hf2. apply Hf.
    - injection E3 as _ <-. done. }
  destruct (wake_up_run w3) as (ss & E4). rewrite (bind_run _ _ _ _ _ E4) in E.
  rewrite (bind_unlock IoLock (held w)) in E by done. injection E as <- <-.
  cbn. split_and!; [done..|]. exists rest. by rewrite Hs3.
Qed.

(** [xcb_wait_for_reply] never loops without using up an event of the socket,
    and no assertion, lock or pointer use in it or below it goes wrong; it can
    only sleep, return, or leave a buffer in [read_packet]. *)
Lemma xcb_wait_for_reply_safe request e w :
  wait_ready w → 0 <= request < 2 ^ 32 →
  match xcb_wait_for_reply request e w with Fault f => f = FOutOfBounds | _ => True end.
Proof.
  intros [He Hl Hk Hf] Hr. rewrite wait_for_reply_eq by done.
  set (w1 := set_held (IoLock :: held w) w).
  assert (holds_iolock w1) as Hl1 by by exists (held w).
  unfold bind at 1. destruct (write_request request w1) as [sent w2| |f] eqn:E2; [|done|].
  2: { by eapply write_request_faults in E2. }
  apply write_request_inv in E2 as (Hs2 & _); [|done..].
  assert (holds_iolock w2) as Hl2 by by eapply holds_iolock_side.
  assert (held w2 = IoLock :: held w) as Hh2 by exact (conn_held _ _ Hs2).
  unfold bind at 1. destruct ((if sent then await_reply request e else ret (None, None)) w2) as [res w3| |f] eqn:E3; [|done|].
  2: { destruct sent; [|done]. by eapply await_reply_faults in E3. }
  assert (held w3 = IoLock :: held w) as Hh3.
  { destruct sent; [|by injection E3 as _ <-].
    apply await_reply_inv in E3 as (_ & -> & _); [done|done|]. intros r Hin.
    pose proof (conn_readers _ _ Hs2) as Hrd. pose proof (conn_fresh _ _ Hs2) as Hfr.
    cbn in Hrd, Hfr. rewrite Hrd in Hin. rewrite Hfr. by apply Hf. }
  destruct (wake_up_run w3) as (ss & E4). rewrite (bind_run _ _ _ _ _ E4).
  by rewrite (bind_unlock IoLock (held w)).
Qed.

(** *** Events *)

Lemma get_event_faults w f : get_event w ≠ Fault f.
Proof. unfold get_event. rewrite bind_gets. unfold compose. by destruct (events (w_in w)). Qed.

Lemma wait_event_loop_inv fuel w r w' :
  holds_iolock w → wait_event_loop fuel w = Ret r w' →
  conn_side w w' ∧ (r = None → has_error w' = true).
Proof.
  revert w. induction fuel as [|fuel IH]; intros w Hl E; [done|]. cbn [wait_event_loop] in E.
  apply bind_inv in E as (ev & w1 & E1 & E).
  assert (conn_side w w1) as Hc1.
  { apply in_side_conn; [exact (obeys_get_event _ _ _ E1)|exact (polls_get_event _ _ _ E1)]. }
  destruct ev as [ev|]; [injection E as <- <-; done|].
  apply bind_inv in E as (b & w2 & E2 & E).
  assert (holds_iolock w1) as Hl1 by by eapply holds_iolock_side; [apply conn_send_side|].
  apply reader_wait_inv in E2 as (Hc2 & _ & _ & He2); [|done].
  destruct b as [[] v]; cbn in E, He2.
  - apply IH in E as (Hc3 & Hres).
    + split; [|done]. etransitivity; [exact Hc1|]. by transitivity w2.
    + eapply holds_iolock_side; [apply conn_send_side|exact Hl1]. done.
  - injection E as <- <-. split; [by transitivity w1|]. auto.
Qed.

Lemma wait_event_loop_faults fuel w f :
  holds_iolock w → (length (os_polls (w_os w)) < fuel)%nat →
  wait_event_loop fuel w = Fault f → f = FOutOfBounds.
Proof.
  revert w. induction fuel as [|fuel IH]; intros w Hl Hf; [lia|]. cbn [wait_event_loop].
  unfold bind. destruct (get_event w) as [r w1| |f'] eqn:E1; [|done|by apply get_event_faults in E1].
  pose proof (polls_get_event _ _ _ E1) as Hp1. unfold polls_le in Hp1.
  apply obeys_get_event in E1 as Hside. destruct r; [done|].
  assert (holds_iolock w1) as Hl1.
  { eapply holds_iolock_side; [apply conn_send_side|exact Hl]. by apply in_side_conn. }
  destruct (_xcb_conn_wait EventCond None w1) as [[[] v] w2| |f'] eqn:E2; [|done|done|].
  - apply reader_wait_inv in E2 as (Hc2 & _ & Hp2 & _); [|done]. cbn. apply IH; [|lia].
    eapply holds_iolock_side; [apply conn_send_side|exact Hl1]. done.
  - intros [= ->]. eapply conn_wait_faults in E2; [done|done|by intros [? ?]|by constructor].
Qed.

(** [xcb_wait_for_event] returns no event only when the connection is in error;
    it releases the lock, leaves the output side and the readers alone, and like
    [xcb_wait_for_reply] neither loops for ever nor fails in another way than
    by a packet that overruns its buffer. *)
Lemma xcb_wait_for_event_result w :
  IoLock ∉ held w →
  match xcb_wait_for_event w with
  | Ret r w' => (r = None → has_error w' = true) ∧ held w' = held w ∧
      w_out w' = w_out w ∧ readers (w_in w') = readers (w_in w)
  | Blocked _ => True
  | Fault f => f = FOutOfBounds
  end.
Proof.
  intros Hl. unfold xcb_wait_for_event. rewrite bind_gets. destruct (has_error w) eqn:He; [done|].
  rewrite (bind_lock IoLock (held w)), bind_gets by done.
  set (w1 := set_held (IoLock :: held w) w). assert (holds_iolock w1) as Hl1 by by exists (held w).
  unfold bind at 1. destruct (wait_event_loop _ w1) as [r w2| |f] eqn:E; [|done|].
  - apply wait_event_loop_inv in E as ([] & Hr); [|done].
    destruct (wake_up_run w2) as (ss & E4). rewrite (bind_run _ _ _ _ _ E4).
    rewrite (bind_unlock IoLock (held w)) by done. done.
  - eapply wait_event_loop_faults; [..|exact E]; [done|]. cbn. lia.
Qed.
(** The result of a run that has not gone wrong, except that a packet may have
    overrun its buffer. *)
Definition safe {A} (r : result world A) : Prop :=
  match r with Fault f => f = FOutOfBounds | _ => True end.

(** C20. The blocking calls terminate, each of their rounds using up an event of the
    socket, and neither they nor what they call fail an assertion, use a null
    pointer, lock a mutex twice or release one that is not held, whatever the
    server sends and the system calls answer; the only fault they can end in is
    the overrun of [read_packet] on a malformed generic event. *)
Theorem blocking_calls_safe request e w :
  wait_ready w → 0 <= request < 2 ^ 32 →
  safe (xcb_flush w) ∧ safe (xcb_wait_for_reply request e w) ∧ safe (xcb_wait_for_event w).
Proof.
  intros Hr Hq. pose proof Hr as [_ Hl Hk _]. split; [by apply xcb_flush_safe|].
  split; [by apply xcb_wait_for_reply_safe|].
  pose proof (xcb_wait_for_event_result w Hl) as He. unfold safe.
  by destruct (xcb_wait_for_event w).
Qed.
End Wait.

(** ** The hypotheses can hold *)

Section Witnesses.
#[local] Existing Instances sample_host sample_proto.

(** Request 1 is written and its reply has been read; another reader waits. *)
Definition sample_reply : list byte := byte_of <$> [1; 0; 1; 0].
Definition wait_world : world :=
  set_w_os (set_os_fresh 1 (sample_os [] [] []))
    (sample_world
       (set_readers [Reader 9 0] (set_current_reply [sample_reply]
         (set_request_read 1 (set_request_completed 0 (sample_in [])))))
       (sample_out [] 1 1) (sample_os [] [] [])).

Lemma wait_world_ready : wait_ready wait_world.
Proof.
  split; [done|set_solver|split; by vm_compute|].
  intros r ->%list_elem_of_singleton. cbn. lia.
Qed.

Lemma blocking_calls_safe_witness :
  safe (xcb_flush wait_world) ∧ safe (xcb_wait_for_reply 1 true wait_world) ∧
  safe (xcb_wait_for_event wait_world).
Proof. apply (blocking_calls_safe 1 true wait_world); [exact wait_world_ready|lia]. Defined.
End Witnesses.
