(* ===== verification/Delivery.v ===== *)
(** * A reply reaches the caller that waits for it

    The blocking call, the socket wait, the packet reader and the reply queues
    composed: when the server sends the reply, [xcb_wait_for_reply] returns it,
    in whatever pieces the stream arrives and whatever else is in it. *)
From S2P Require Import Prelude Effects Seq XcbMap State In InFrame InFacts InSafety Demux Conn Chunks.
From S2P Require Import Out OutFacts OutProps Request RequestFacts Pending Mailbox MailboxProps.
From S2P Require Import Wait WaitProps Sample.
From stdpp Require Import functions list.
#[local] Open Scope Z_scope.

(** ** Packets and the mailbox *)

Definition packet_label (l : label) : Prop :=
  match l with Got _ _ _ => True | _ => False end.

Lemma packets_not_taken s ls : Forall packet_label ls → replies_taken s ls = [].
Proof. by induction 1 as [|[] ls]. Qed.

Section Delivery.
Context `{Host} `{XProto}.

Lemma packets_replies m ls m' s :
  mrun m ls m' → Forall packet_label ls → s <= mb_last m →
  mb_replies m' s = mb_replies m s ++ replies_got s (mb_flags m !! s) ls.
Proof.
  intros Hrun Hls Hs. rewrite <- (mrun_replies m ls m' s), (packets_not_taken s ls); [done..| |].
  - intros Hd. by apply (Forall_forall _ _) with (x := Discarded s) in Hls.
  - intros e r Hd. by apply (Forall_forall _ _) with (x := Polled s e r) in Hls.
Qed.

Lemma packets_keep m ls m' :
  mrun m ls m' → Forall packet_label ls → mb_last m' = mb_last m ∧ mb_flags m' = mb_flags m.
Proof.
  induction 1 as [|m l m' ls m'' Hstep _ IH]; [done|]. intros [Hl Hls]%Forall_cons.
  destruct (IH Hls) as [-> ->]. by destruct Hstep.
Qed.

(** No more replies for a request that is complete. *)
Lemma packets_complete m ls m' s fl :
  mrun m ls m' → Forall packet_label ls → mb_completed m <= mb_read m →
  s < mb_read m ∨ s = mb_completed m → replies_got s fl ls = [].
Proof.
  induction 1 as [|m l m' ls m'' Hstep _ IH]; [done|]. intros [Hl Hls]%Forall_cons Hc Hs.
  destruct Hstep as [| |m t type completed buf Ht Htc Hcc Hty| | |]; try done.
  rewrite replies_got_cons. cbn [replies_got].
  assert (mb_read (mb_got t type completed buf m) = t) as Hr.
  { unfold mb_got. by destruct (route type _). }
  change (mb_completed (mb_got t type completed buf m)) with completed in *. rewrite Hr in *.
  assert (t = s → route type fl ≠ ToReplies) as Hroute.
  { intros -> Hto. unfold route in Hto.
    assert (type = XCB_ERROR ∨ type = XCB_REPLY) as Ht'%Hty.
    { destruct (Z.eqb_spec type XCB_ERROR), (Z.eqb_spec type XCB_REPLY); auto; done. }
    lia. }
  rewrite IH, app_nil_r; [|done|lia|].
  - destruct (route type fl) eqn:E; [done| |done]. destruct (Z.eqb_spec t s); [|done]. naive_solver.
  - lia.
Qed.

Lemma packets_read m ls m' :
  mrun m ls m' → Forall packet_label ls →
  mb_read m <= mb_read m' ∧ ∀ t type buf, Got t type buf ∈ ls → t <= mb_read m'.
Proof.
  induction 1 as [|m l m' ls m'' Hstep _ IH]; intros Hls; [split; [done|set_solver]|].
  apply Forall_cons in Hls as [Hl Hls]. destruct (IH Hls) as [Hr Hgot].
  destruct Hstep as [| |m t type completed buf Ht| | |]; try done.
  assert (mb_read (mb_got t type completed buf m) = t) as Ht'.
  { unfold mb_got. by destruct (route type _). }
  rewrite Ht' in Hr. split; [lia|]. intros t' type' buf' [Heq|Hin]%elem_of_cons; [|eauto].
  by injection Heq as -> _ _.
Qed.

(** The replies for [s] there and still among the packets [ls]. *)
Definition mb_coming (s : Z) (ls : list label) (m : mailbox) : list (list byte) :=
  mb_replies m s ++ replies_got s (mb_flags m !! s) ls.

(** Waiting for [s] comes to an end: there is a reply, or the server has gone on to
    a later request, or will. *)
Definition mb_answered (s : Z) (ls : list label) (m : mailbox) : Prop :=
  mb_coming s ls m ≠ [] ∨ s < mb_read m ∨ s = mb_completed m ∨
  ∃ t type buf, Got t type buf ∈ ls ∧ s < t.

(** What the caller gets of the replies [l]. *)
Definition first_answer (l : list (list byte)) (e : bool) : option (list byte) * option (list byte) :=
  match l with buf :: _ => reply_result buf e | [] => (None, None) end.

Lemma coming_after m ls1 m1 ls2 s :
  mrun m ls1 m1 → Forall packet_label ls1 → s <= mb_last m →
  mb_coming s ls2 m1 = mb_coming s (ls1 ++ ls2) m.
Proof.
  intros Hrun Hls Hs. unfold mb_coming. destruct (packets_keep _ _ _ Hrun Hls) as [_ ->].
  by rewrite (packets_replies m ls1 m1 s), replies_got_app, app_assoc by done.
Qed.

Lemma answered_after m ls1 m1 ls2 s :
  mrun m ls1 m1 → Forall packet_label ls1 → s <= mb_last m →
  mb_answered s (ls1 ++ ls2) m → ¬ (s < mb_read m ∨ s = mb_completed m) → mb_answered s ls2 m1.
Proof.
  intros Hrun Hls Hs Ha Hn. destruct (packets_read _ _ _ Hrun Hls) as [_ Hgot].
  unfold mb_answered. rewrite (coming_after m ls1) by done.
  destruct Ha as [?|[?|[?|(t & type & buf & Hin & Ht)]]]; [by left|tauto..|right].
  apply elem_of_app in Hin as [Hin|Hin].
  - left. specialize (Hgot _ _ _ Hin). lia.
  - do 2 right. eauto.
Qed.

(** ** Worlds the packet reader does not tell apart *)

Definition alike (w1 w2 : world) : Prop :=
  (∃ rd n, w_in w2 = set_readers rd (set_in_reading n (w_in w1))) ∧
  out_request (w_out w2) = out_request (w_out w1) ∧ no_oom w1 ∧ no_oom w2.

Lemma rel_alike lo w1 w2 m : alike w1 w2 → Rel lo w1 m → Rel lo w2 m.
Proof.
  intros ((rd & n & Hi) & Ho & _ & Hm) []. split; rewrite ?Hi, ?Ho; try done.
  by apply (sim_view lo _ (w_in w1)); [|left|].
Qed.

Lemma rel_whole lo w m : Rel lo w m → Rel lo (whole w) m.
Proof. intros []. split; try done. by apply (sim_view lo _ (w_in w)); [|left|]. Qed.

Lemma whole_rel lo w m : Rel lo (whole w) m → Rel lo w m.
Proof. intros []. split; try done. by apply (sim_view lo _ (w_in (whole w))); [|left|]. Qed.

Lemma got_alike lo w1 l w1' w2 :
  alike w1 w2 → packet_label l → cstep lo w1 l w1' → ∃ w2', cstep lo w2 l w2' ∧ alike w1' w2'.
Proof.
  intros ((rd & n & Hi) & Ho & Hm1 & Hm2) Hl Hstep.
  destruct Hstep as [| |w s w' Hc Ha Hs Hsane E| | |]; try done.
  assert (front_header w2 = front_header w) as Eh by by unfold front_header; rewrite Hi.
  assert (front_state w2 = set_readers rd (set_in_reading n (front_state w))) as Es.
  { unfold front_state. rewrite Eh, Hi. apply sequence_effect_readers. }
  assert (front_pend w2 = front_pend w) as Ep by by unfold front_pend; rewrite Eh, Es.
  assert (front_lengths w2 = front_lengths w) as El by by unfold front_lengths; rewrite Eh, Ep, Hi.
  assert (front_buffer w2 = front_buffer w) as Eb.
  { unfold front_buffer. by rewrite Eh, Es, El, Hi. }
  assert (front_destination w2 = front_destination w) as Ed.
  { unfold front_destination. by rewrite Eh, Ep. }
  assert (front_complete w2) as Hc2.
  { unfold front_complete, front_length in *. by rewrite El, Hi. }
  rewrite read_packet_front in E by done. rewrite <- Eh, <- Eb. eexists. split.
  - apply (CGot lo w2 s); [done| | | |by apply read_packet_front].
    + rewrite Eh. unfold answers in *. by rewrite Hi.
    + by rewrite Ho.
    + rewrite Eh, Hi. exact Hsane.
  - assert (w' = with_signals (wakes (front_destination w) (front_state w))
      (set_w_in (store (front_destination w) (front_buffer w)
        (set_in_queue (drop (Z.to_nat (front_length w)) (in_queue (w_in w))) (front_state w))) w))
      as -> by congruence.
    unfold front_length. rewrite Ed, El, Es, Eb, Hi.
    split_and!; [|done..]. exists rd, n. cbn. by destruct (front_destination w).
Qed.

Lemma packets_alike lo w1 ls w1' w2 :
  crun lo w1 ls w1' → Forall packet_label ls → alike w1 w2 →
  ∃ w2', crun lo w2 ls w2' ∧ alike w1' w2'.
Proof.
  intros Hrun. revert w2. induction Hrun as [w|w l w' ls w'' Hstep _ IH]; intros w2 Hls Ha.
  { exists w2. by split; [constructor|]. }
  apply Forall_cons in Hls as [Hl Hls].
  destruct (got_alike lo w l w' w2 Ha Hl Hstep) as (w2' & Hstep2 & Ha').
  destruct (IH w2' Hls Ha') as (w2'' & Hrun2 & Ha''). exists w2''. by split; [econstructor|].
Qed.

(** ** A connection that is being fed *)

(** What is left of the stream is the packets [ls]; every one of them was sent for
    a request, and the kernel hands the bytes over bit by bit. *)
Definition packets_left (lo : Z) (w : world) (ls : list label) : Prop :=
  Forall packet_label ls ∧
  ∃ w', crun lo (whole w) ls w' ∧ zlength (in_queue (w_in w')) < 32.

Lemma packets_left_alike lo w1 w2 ls :
  alike (whole w1) (whole w2) → packets_left lo w1 ls → packets_left lo w2 ls.
Proof.
  intros Ha (Hls & w' & Hrun & Hq). split; [done|].
  destruct (packets_alike lo _ ls w' _ Hrun Hls Ha) as (w2' & Hrun2 & (rd & n & Hi) & _).
  exists w2'. split; [done|]. by rewrite Hi.
Qed.

(** The first of the packets that are left. *)
Lemma packets_left_cons lo w l ls :
  packets_left lo w (l :: ls) →
  front_complete (whole w) ∧
  ∃ w1, read_packet (whole w) = Ret true w1 ∧ cstep lo (whole w) l w1 ∧
    ∀ w', whole w' = w1 → packets_left lo w' ls.
Proof.
  intros (Hls & wf & Hrun & Hq). apply Forall_cons in Hls as [Hl Hls].
  inversion Hrun as [|w0 l0 w1 ls0 w2 Hstep Hrun1]; subst.
  assert (front_complete (whole w) ∧ read_packet (whole w) = Ret true w1) as [Hc E].
  { by inversion Hstep; subst. }
  split; [done|]. exists w1. split_and!; [done..|]. intros w' <-. split; [done|]. by exists wf.
Qed.

(** Nothing is left when less than a header is to come. *)
Lemma packets_left_nil lo w ls :
  packets_left lo w ls → zlength (input w) < 32 → ls = [].
Proof.
  intros Hp Hq. destruct ls as [|l ls]; [done|].
  apply packets_left_cons in Hp as ((Hl1 & Hl2 & Hl3 & _) & _). unfold front_length in Hl3.
  change (in_queue (w_in (whole w))) with (input w) in Hl3. lia.
Qed.

Lemma packets_left_input lo w : packets_left lo w [] → zlength (input w) < 32.
Proof. intros (_ & w' & Hrun & Hq). by inversion Hrun; subst. Qed.

Lemma queue_input w : zlength (in_queue (w_in w)) <= zlength (input w).
Proof.
  unfold input. rewrite zlength_app. pose proof (zlength_nonneg (stream (os_recvs (w_os w)))). lia.
Qed.

Lemma read_packet_no_error w w' :
  no_oom w → front_complete w → read_packet w = Ret true w' → has_error w' = has_error w.
Proof.
  intros Ho Hc E. pose proof (read_packet_front w Ho Hc) as Ef. rewrite E in Ef.
  match type of Ef with _ = Ret true ?w1 => assert (w' = w1) as -> by congruence end. done.
Qed.

(** [while(read_packet(c));] reads the packets whose headers have arrived. *)
Lemma read_packets_fed lo fuel : ∀ w m ls,
  Rel lo w m → served w → packets_left lo w ls →
  (length (in_queue (w_in w)) < fuel)%nat →
  ∃ ls1 ls2 m1 w', ls = ls1 ++ ls2 ∧ read_packets fuel w = Ret () w' ∧ mrun m ls1 m1 ∧
    Rel lo w' m1 ∧ served w' ∧ packets_left lo w' ls2 ∧ zlength (in_queue (w_in w')) < 32 ∧
    has_error w' = has_error w.
Proof.
  induction fuel as [|fuel IH]; intros w m ls Hr Hs Hp Hf; [lia|]. cbn [read_packets].
  destruct (decide (zlength (in_queue (w_in w)) < 32)) as [Hq|Hq].
  { exists [], ls, m, w. split_and!; try done; [|constructor].
    unfold read_packet. rewrite bind_assoc, bind_gets. unfold compose.
    by destruct (Z.ltb_spec (zlength (in_queue (w_in w))) 32); [|lia]. }
  destruct ls as [|l ls].
  { apply packets_left_input in Hp. pose proof (queue_input w). lia. }
  apply packets_left_cons in Hp as (Hc & w1 & E1 & Hstep & Hp).
  destruct (read_packet_piecewise w Hs (rel_oom _ _ _ Hr) ltac:(lia) Hc) as (w2 & E2 & Hs2 & E2').
  assert (w1 = whole w2) as -> by congruence.
  destruct (step_refines lo _ m l _ (rel_whole _ _ _ Hr) Hstep) as (m1 & Hm1 & Hr1%whole_rel).
  pose proof (read_packet_shrinks w w2 E2) as Hsh.
  pose proof (read_packet_no_error (whole w) (whole w2) (rel_oom _ _ _ Hr) Hc E1) as Her.
  change (has_error w2 = has_error w) in Her.
  destruct (IH w2 m1 ls Hr1 Hs2 (Hp w2 eq_refl)) as (ls1 & ls2 & m2 & w3 & -> & E3 & Hm2 & Hrest);
    [unfold zlength in Hsh; lia|].
  exists (l :: ls1), ls2, m2, w3. rewrite Her in Hrest. split_and!; try done; [|by econstructor|apply Hrest..].
  by rewrite (bind_run _ _ _ _ _ E2).
Qed.

(** [_xcb_in_read] while the server is sending. *)
Lemma in_read_fed lo w m ls :
  Rel lo w m → sending (os_recvs (w_os w)) → readable (os_polls (w_os w)) →
  (effort (os_recvs (w_os w)) <= S (length (os_polls (w_os w))))%nat →
  os_recvs (w_os w) ≠ [] → packets_left lo w ls → zlength (in_queue (w_in w)) < 32 →
  ∃ ls1 ls2 m1 w', ls = ls1 ++ ls2 ∧ _xcb_in_read w = Ret true w' ∧ mrun m ls1 m1 ∧
    Rel lo w' m1 ∧ served w' ∧ packets_left lo w' ls2 ∧ zlength (in_queue (w_in w')) < 32 ∧
    has_error w' = has_error w.
Proof.
  intros Hr Hs Hrd He Hne Hp Hq. unfold _xcb_in_read. rewrite bind_gets. unfold compose.
  destruct (recv_sending (IN_QUEUE_SIZE - zlength (in_queue (w_in w))) w) as
    (r & bs & rs & E & Hc & _ & Hst & Hs' & He'); [unfold IN_QUEUE_SIZE; lia|done..|].
  rewrite (bind_run _ _ _ _ _ E). set (w1 := with_tapes _ _ w) in *. cbv zeta.
  assert ((match r with Received bs => bs | _ => [] end) = bs ∧
    match r with Received (_ :: _) | RecvWouldBlock => true | _ => false end = true) as [-> Hres].
  { destruct Hc as [[-> Hb]|[-> ->]]; [|done]. by destruct bs. }
  unfold modify_in. rewrite bind_modify. set (w2 := set_w_in _ w1).
  assert (whole w2 = whole w) as Hwh.
  { unfold whole. assert (input w2 = input w) as ->; [|done].
    unfold input. cbn. by rewrite Hst, app_assoc. }
  destruct (read_packets_fed lo (S (length (in_queue (w_in w) ++ bs))) w2 m ls) as
    (ls1 & ls2 & m1 & w3 & -> & E3 & Hrest).
  - apply whole_rel. rewrite Hwh. by apply rel_whole.
  - split_and!; [done|done|]. cbn. lia.
  - destruct Hp as (? & ? & ? & ?). split; [done|]. rewrite Hwh. eauto.
  - cbn. lia.
  - exists ls1, ls2, m1, w3. rewrite (bind_run _ _ _ _ _ E3).
    destruct r as [[|]| |]; try done; by split_and!.
Qed.

(** A thread holds [iolock], the connection is in order, nobody reads, and the server sends the packets [ls]. *)
Record fed (lo : Z) (w : world) (m : mailbox) (ls : list label) : Prop := {
  fed_lock : holds_iolock w;
  fed_error : has_error w = false;
  fed_idle : in_reading (w_in w) = 0;
  fed_rel : Rel lo w m;
  fed_served : served w;
  fed_packets : packets_left lo w ls;
  fed_queue : zlength (in_queue (w_in w)) < 32
}.

(** [_xcb_conn_wait] of a reader: some of the packets are read. *)
Lemma conn_wait_fed lo c w m ls :
  fed lo w m ls → ls ≠ [] →
  ∃ ls1 ls2 m1 w', ls = ls1 ++ ls2 ∧ _xcb_conn_wait c None w = Ret (true, None) w' ∧
    mrun m ls1 m1 ∧ fed lo w' m1 ls2.
Proof.
  intros [Hl Her Hi Hr (Hs & Hrd & He) Hp Hq] Hls. pose proof Hl as (h & Hh & Hn).
  assert (os_recvs (w_os w) ≠ []) as Hne.
  { intros E. apply Hls. eapply packets_left_nil; [done|]. unfold input. rewrite E.
    cbn [stream]. by rewrite app_nil_r. }
  assert (∃ ps, os_polls (w_os w) = PollReady POLLIN :: ps ∧ readable ps) as (ps & Eps & Hps).
  { destruct (os_polls (w_os w)) as [|p ps]; [|by apply Forall_cons in Hrd as [<- ?]; exists ps].
    destruct (os_recvs (w_os w)) as [|[[|] | | |] ?]; cbn in He; try done; try lia.
    by apply Forall_cons in Hs as [? _]. }
  assert (wait_busy None w = false) as Hb by (unfold wait_busy; by rewrite Hi).
  pose proof (conn_wait_eq c None w h Hh Hn Hb) as Eq.
  rewrite Eps in Eq. cbn [poll_answer skip_intr wait_events] in Eq.
  change (Z.land POLLIN (Z.lnot POLLIN) =? 0) with true in Eq. cbv iota in Eq.
  set (w1 := enter_wait None ps false w) in *.
  destruct (in_read_fed lo w1 m ls) as (ls1 & ls2 & m1 & w2 & -> & E2 & Hm1 & Hr1 & Hs1 & Hp1 & Hq1 & Her1).
  - eapply rel_alike; [|exact Hr]. pose proof (rel_oom _ _ _ Hr). split_and!; try done.
    exists (readers (w_in w)), (in_reading (w_in w) + 1). by destruct w as [? ? ? []].
  - done.
  - done.
  - cbn. rewrite Eps in He. cbn in He. lia.
  - done.
  - eapply packets_left_alike; [|exact Hp]. pose proof (rel_oom _ _ _ Hr). split_and!; try done.
    exists (readers (w_in w)), (in_reading (w_in w) + 1). by destruct w as [? ? ? []].
  - done.
  - assert (_xcb_conn_wait c None w = Ret (true, None) (leave_wait None w2)) as E.
    { rewrite Eq. unfold conn_io. change (Z.land POLLIN POLLIN =? POLLIN) with true. cbv iota.
      by rewrite (bind_run _ _ _ _ _ E2). }
    exists ls1, ls2, m1, (leave_wait None w2). split_and!; [done..|].
    apply reader_wait_inv in E as (Hc & _); [|done]. pose proof (rel_oom _ _ _ Hr1) as Hm.
    assert (alike w2 (leave_wait None w2)) as Ha.
    { split_and!; try done. exists (readers (w_in w2)), (in_reading (w_in w2) - 1).
      by destruct w2 as [? ? ? []]. }
    split; [by eapply holds_iolock_side; [apply conn_send_side|]| | | |done| |done].
    + cbn. by rewrite Her1.
    + by rewrite (conn_reading _ _ Hc).
    + by eapply rel_alike.
    + eapply packets_left_alike; [|exact Hp1]. split_and!; try done.
      exists (readers (w_in w2)), (in_reading (w_in w2) - 1). by destruct w2 as [? ? ? []].
Qed.

Lemma poll_none request e w w' : poll_for_reply request e w = Ret None w' → w' = w.
Proof.
  unfold poll_for_reply. rewrite bind_gets. cbv zeta.
  assert (∀ h v v', return_reply h e v ≠ Ret None v') as Hn.
  { intros [b|] v v'; [|done]. unfold return_reply. destruct (_ <? _); [done|]. by destruct (_ =? _). }
  destruct (request =? 0); [by intros ?%Hn|].
  destruct (XCB_SEQUENCE_COMPARE_32 _ Z.ltb _).
  { unfold modify_in. rewrite bind_modify. destruct (map_remove _ _).1 as [[|b t]|];
      [by intros ?%Hn| |by intros ?%Hn]. intros (? & ? & _ & ?%Hn)%bind_inv. done. }
  destruct (current_reply (w_in w)).
  { destruct (XCB_SEQUENCE_COMPARE_32 _ Z.eqb _); [by intros ?%Hn|by intros [= ->]]. }
  destruct (XCB_SEQUENCE_COMPARE_32 _ Z.eqb _).
  { unfold modify_in. rewrite bind_modify. by intros ?%Hn. }
  destruct (XCB_SEQUENCE_COMPARE_32 _ Z.eqb _); [by intros ?%Hn|by intros [= ->]].
Qed.

(** An answer is the first of the replies that are there or will come. *)
Lemma answer_coming lo w m ls s e r :
  fed lo w m ls → mb_answer s e m = Some r → r = first_answer (mb_coming s ls m) e.
Proof.
  intros Hf Er. unfold mb_answer, mb_coming in *.
  destruct (mb_replies m s) as [|b q]; [|by injection Er].
  destruct (fed_packets _ _ _ _ Hf) as (Hls & wf & Hrun & _). pose proof (fed_rel _ _ _ _ Hf) as Hr.
  destruct (crun_refines lo _ _ _ Hrun m (rel_whole _ _ _ Hr)) as (mf & Hmf & _).
  pose proof (rel_sim _ _ _ Hr) as Hsim. pose proof (sim_completed _ _ _ Hsim) as [_ Hcr].
  pose proof (sim_read _ _ _ Hsim) as Hrd. cbn [mb_demux d_read] in Hrd.
  pose proof (rel_completed _ _ _ Hr) as Hcp.
  rewrite (packets_complete m ls mf s); [|done|done|lia|].
  - revert Er. by destruct (_ || _); intros [= <-].
  - destruct (Z.ltb_spec s (mb_read m)), (Z.eqb_spec s (mb_completed m)); auto; done.
Qed.

(** The loop of [xcb_wait_for_reply] ends with the first reply for [s], or with none
    when the server has gone on. *)
Lemma wait_reply_loop_fed lo c s e fuel : ∀ w m ls,
  fed lo w m ls → u32 s ≠ 0 → lo <= s <= mb_last m →
  (length (os_polls (w_os w)) < fuel)%nat → mb_answered s ls m →
  let r := first_answer (mb_coming s ls m) e in
  ∃ ls1 ls2 m1 w', ls = ls1 ++ ls2 ∧ wait_reply_loop fuel (u32 s) e c w = Ret r w' ∧
    mrun m (ls1 ++ [Polled s e (Some r)]) m1 ∧ Rel lo w' m1 ∧ has_error w' = false.
Proof.
  induction fuel as [|fuel IH]; intros w m ls Hf Hz Hs Hfuel Ha; [lia|]. cbn [wait_reply_loop].
  cbv zeta. pose proof (fed_rel _ _ _ _ Hf) as Hr. pose proof (rel_last _ _ _ Hr) as Hlast.
  destruct (resp_poll _ _ (rel_responsive lo w m Hr) s e Hz ltac:(lia)) as (r & w1 & E1).
  rewrite (bind_run _ _ _ _ _ E1).
  destruct (step_polled lo w m s e r w1 Hr Hz ltac:(lia) E1) as [-> Hr1].
  pose proof (keeps_poll_for_reply _ _ _ _ _ E1) as (_ & _ & _ & _ & Her & _).
  rewrite (fed_error _ _ _ _ Hf) in Her.
  destruct (mb_answer s e m) as [r|] eqn:Er.
  - rewrite <- (answer_coming lo w m ls s e r Hf Er).
    exists [], ls, (mb_set s (tail (mb_replies m s)) m), w1. split_and!; try done. cbn [app].
    econstructor; [|constructor]. rewrite <- Er. constructor.
  - apply poll_none in E1 as ->. unfold mb_answer in Er.
    destruct (mb_replies m s) eqn:Eq; [|done].
    assert (¬ (s < mb_read m ∨ s = mb_completed m)) as Hn.
    { destruct (Z.ltb_spec s (mb_read m)), (Z.eqb_spec s (mb_completed m)); done || lia. }
    destruct (conn_wait_fed lo c w m ls Hf) as (ls1 & ls2 & m2 & w2 & -> & E2 & Hm2 & Hf2).
    { intros ->. destruct Ha as [Ha|[?|[?|(? & ? & ? & Hin & _)]]]; [|tauto..|set_solver].
      unfold mb_coming in Ha. by rewrite Eq in Ha. }
    rewrite (bind_run _ _ _ _ _ E2). cbn [fst].
    destruct (fed_packets _ _ _ _ Hf) as ([Hls1 Hls2]%Forall_app & _).
    destruct (packets_keep _ _ _ Hm2 Hls1) as [Hlast2 _].
    apply reader_wait_inv in E2 as (_ & _ & Hpl & _); [|apply Hf].
    destruct (IH w2 m2 ls2 Hf2 Hz) as (ls3 & ls4 & m3 & w3 & -> & E3 & Hm3 & Hr3);
      [lia|lia|by apply (answered_after m ls1); try done; lia|].
    rewrite (coming_after m ls1) in E3, Hm3 by (done || lia).
    exists (ls1 ++ ls3), ls4, m3, w3. rewrite <- !app_assoc in *. split_and!; try done.
    + by eapply mrun_app.
    + apply Hr3.
    + apply Hr3.
Qed.

(** Linking the reader in leaves a connection fed. *)
Lemma with_reader_fed lo request w m ls : fed lo w m ls → fed lo (with_reader request w) m ls.
Proof.
  intros [(h & Hl) Her Hi Hr Hs Hp Hq]. pose proof (rel_oom _ _ _ Hr) as Ho.
  set (rd := readers (w_in (with_reader request w))).
  split; [by exists h|done|done| |done| |done].
  - apply (rel_alike lo w); [|done]. split_and!; [|done..]. exists rd, (in_reading (w_in w)).
    cbn. by destruct (w_in w).
  - eapply packets_left_alike; [|exact Hp]. split_and!; [|done..]. exists rd, (in_reading (w_in w)).
    unfold rd. by destruct w as [? ? ? []].
Qed.

(** The same of the connection's data alone. *)
Definition coming (s : Z) (ls : list label) (w : world) : list (list byte) :=
  pending_for (w_in w) s ++ replies_got s (flags_at (pending_replies (w_in w)) s) ls.

Definition answered (s : Z) (ls : list label) (w : world) : Prop :=
  coming s ls w ≠ [] ∨ s < request_read (w_in w) ∨ s = request_completed (w_in w) ∨
  ∃ t type buf, Got t type buf ∈ ls ∧ s < t.

Lemma fed_coming lo w m ls s :
  fed lo w m ls → lo <= s <= out_request (w_out w) → mb_coming s ls m = coming s ls w.
Proof.
  intros Hf Hs. pose proof (fed_rel _ _ _ _ Hf) as Hr. pose proof (rel_sim _ _ _ Hr) as Hsim.
  destruct (rel_window _ _ _ Hr) as (Hw1 & Hw2 & Hw3). unfold mb_coming, coming.
  f_equal; [by apply (sim_pending_for lo _ (mb_demux m)); [|lia]|].
  destruct (decide (request_completed (w_in w) < s)) as [Hc|Hc]; [by rewrite (rel_flags _ _ _ Hr)|].
  destruct (fed_packets _ _ _ _ Hf) as (Hls & wf & Hrun & _).
  destruct (crun_refines lo _ _ _ Hrun m (rel_whole _ _ _ Hr)) as (mf & Hmf & _).
  pose proof (sim_completed _ _ _ Hsim) as [_ Hcr]. pose proof (sim_read _ _ _ Hsim) as Hrd.
  cbn [mb_demux d_read] in Hrd. pose proof (rel_completed _ _ _ Hr) as Hcp.
  assert (∀ fl, replies_got s fl ls = []) as Hnil; [|by rewrite !Hnil].
  intros fl. apply (packets_complete m ls mf); [done..|lia|lia].
Qed.

Lemma fed_answered lo w m ls s :
  fed lo w m ls → lo <= s <= out_request (w_out w) → answered s ls w → mb_answered s ls m.
Proof.
  intros Hf Hs Ha. unfold mb_answered. rewrite (fed_coming lo w m ls s Hf Hs).
  pose proof (fed_rel _ _ _ _ Hf) as Hr. rewrite (rel_completed _ _ _ Hr).
  pose proof (sim_read _ _ _ (rel_sim _ _ _ Hr)) as Hrd. cbn in Hrd. by rewrite Hrd.
Qed.

(** What [xcb_wait_for_reply] does once the request is written. *)
Lemma await_reply_fed lo w m ls s e :
  fed lo w m ls → (∀ r, r ∈ readers (w_in w) → (reader_id r < os_fresh (w_os w))%nat) →
  u32 s ≠ 0 → lo <= s <= out_request (w_out w) → answered s ls w →
  let r := first_answer (coming s ls w) e in
  ∃ ls1 ls2 m' w', ls = ls1 ++ ls2 ∧ await_reply (u32 s) e w = Ret r w' ∧
    mrun m (ls1 ++ [Polled s e (Some r)]) m' ∧ Rel lo w' m' ∧ has_error w' = false ∧
    held w' = held w ∧ w_out w' = w_out w ∧ os_sent (w_os w') = os_sent (w_os w).
Proof.
  intros Hf Hfr Hz Hs Ha. pose proof (rel_last _ _ _ (fed_rel _ _ _ _ Hf)) as Hlast.
  apply (fed_answered lo w m ls s Hf Hs) in Ha. rewrite <- (fed_coming lo w m ls s Hf Hs).
  rewrite <- Hlast in Hs. cbv zeta.
  destruct (wait_reply_loop_fed lo (ReaderCond (os_fresh (w_os w))) s e
    (S (length (os_polls (w_os w)))) (with_reader (u32 s) w) m ls
    (with_reader_fed lo (u32 s) w m ls Hf) Hz Hs) as (ls1 & ls2 & m' & w1 & -> & E & Hm & Hr & Her);
    [cbn; lia|done|].
  pose proof (await_reply_eq (u32 s) e w) as Ea. rewrite E in Ea.
  destruct (await_reply_inv (u32 s) e w _ _ (fed_lock _ _ _ _ Hf) Hfr Ea)
    as (_ & Hh & Hout & _ & Hsent & _).
  eexists ls1, ls2, m', _. split_and!; [done|exact Ea|done| |done..].
  apply (rel_alike lo w1); [|done]. pose proof (rel_oom _ _ _ Hr). split_and!; [|done..].
  exists (remove_reader (Reader (u32 s) (os_fresh (w_os w))) (readers (w_in w1))),
    (in_reading (w_in w1)).
  cbn. by destruct (w_in w1).
Qed.

(** [xcb_wait_for_reply], given what it does between the lock and the unlock. *)
Lemma wait_for_reply_run lo request e w w1 r w2 m :
  wait_ready w → 0 <= request < 2 ^ 32 →
  write_request request (set_held (IoLock :: held w) w) = Ret true w1 →
  await_reply request e w1 = Ret r w2 → held w2 = held w1 → Rel lo w2 m →
  ∃ w', xcb_wait_for_reply request e w = Ret r w' ∧ Rel lo w' m ∧
    has_error w' = has_error w2 ∧ w_out w' = w_out w2 ∧ os_sent (w_os w') = os_sent (w_os w2) ∧
    readers (w_in w') = readers (w_in w) ∧ held w' = held w ∧
    in_reading (w_in w') = in_reading (w_in w) ∧ os_fresh (w_os w') = os_fresh (w_os w2) ∧
    w_in w' = w_in w2.
Proof.
  intros Hw Hu Ew E Hh2 Hr. pose proof Hw as [He Hl Hk Hfr]. set (w0 := set_held _ w) in *.
  destruct (write_request_inv request w0 true w1) as (Hside & _); [by exists (held w)|done..|].
  pose proof (conn_held _ _ Hside) as Hh. cbn in Hh.
  assert (∃ ss, xcb_wait_for_reply request e w = Ret r (set_held (held w) (with_signals ss w2)))
    as (ss & E').
  { rewrite wait_for_reply_eq by done. fold w0.
    rewrite (bind_run _ _ _ _ _ Ew), (bind_run _ _ _ _ _ E).
    destruct (wake_up_run w2) as (ss & E4). rewrite (bind_run _ _ _ _ _ E4).
    rewrite (bind_unlock IoLock (held w)) by (exact (eq_trans Hh2 Hh)). by exists ss. }
  destruct (xcb_wait_for_reply_cleans_up _ _ _ _ _ Hw Hu E') as (? & ? & ? & _).
  eexists. split; [exact E'|]. split_and!; try done.
  apply (rel_alike lo w2); [|done]. pose proof (rel_oom _ _ _ Hr). split_and!; [|done..].
  exists (readers (w_in w2)), (in_reading (w_in w2)). cbn. by destruct (w_in w2).
Qed.

(** C12. Waiting for a request: once it is written, and nobody else reads, let the
    rest of the stream be whole packets for requests that were sent, cut into
    pieces of any size that [recv] delivers with or without [EAGAIN] in between.
    If a reply or checked error for request [s] is there or among the packets, or
    the server has gone on or goes on to a later request, [xcb_wait_for_reply]
    returns: the first reply, or nothing if there is none.  The packets it has
    read on the way are in the mailbox; the list of readers, the lock and the
    reading counter are as before, and nothing more has been sent. *)
Theorem reply_reaches_caller lo w w1 m ls s e :
  wait_ready w → write_request (u32 s) (set_held (IoLock :: held w) w) = Ret true w1 →
  fed lo w1 m ls → u32 s ≠ 0 → lo <= s <= out_request (w_out w1) → answered s ls w1 →
  let r := first_answer (coming s ls w1) e in
  ∃ ls1 ls2 m' w', ls = ls1 ++ ls2 ∧ xcb_wait_for_reply (u32 s) e w = Ret r w' ∧
    mrun m (ls1 ++ [Polled s e (Some r)]) m' ∧ Rel lo w' m' ∧ has_error w' = false ∧
    readers (w_in w') = readers (w_in w) ∧ held w' = held w ∧
    in_reading (w_in w') = in_reading (w_in w) ∧
    w_out w' = w_out w1 ∧ os_sent (w_os w') = os_sent (w_os w1).
Proof.
  intros Hw Ew Hf Hz Hs Ha. pose proof Hw as [He Hl Hk Hfr].
  assert (0 <= u32 s < 2 ^ 32) as Hu by apply u32_range.
  destruct (write_request_inv (u32 s) (set_held (IoLock :: held w) w) true w1) as (Hside & _);
    [by exists (held w)|done..|].
  pose proof (conn_readers _ _ Hside) as Hrd. pose proof (conn_fresh _ _ Hside) as Hfs. cbn in Hrd, Hfs.
  destruct (await_reply_fed lo w1 m ls s e Hf) as
    (ls1 & ls2 & m' & w2 & -> & E & Hm & Hr & Her & Hh2 & Hout & Hsent);
    [rewrite Hrd, Hfs; exact Hfr|done..|].
  destruct (wait_for_reply_run lo _ e w w1 _ w2 m' Hw Hu Ew E Hh2 Hr) as
    (w' & E' & Hr' & He' & Ho' & Hs' & ? & ? & ? & _).
  exists ls1, ls2, m', w'. split_and!; congruence || done.
Qed.
End Delivery.

(** Evaluates the reading of a packet for request [s] in the concrete world [w]. *)
Ltac got_tac w s :=
  match goal with |- cstep _ _ (Got _ ?t ?b) _ =>
    replace (Got s t b) with (Got s (response_type (front_header w)) (front_buffer w))
      by (vm_compute; reflexivity) end;
  apply CGot;
  [split_and!; vm_compute; first [discriminate|reflexivity]
  |vm_compute; split; [split; [discriminate|reflexivity]|reflexivity]
  |vm_compute; discriminate
  |vm_compute; try reflexivity; intros [|]; discriminate
  |vm_compute; reflexivity].

(** ** The hypotheses can hold *)

Section Witnesses.
#[local] Existing Instances sample_host sample_proto.

(** Request 1 is still in the queue.  The kernel takes it; then an event and the
    reply arrive in three pieces, the first two cutting through a header. *)
Definition one_event : list byte := sample_packet 2 0 0.
Definition one_stream : list byte := one_event ++ one_reply.
Definition one_recvs : list recv_event :=
  [RecvData (take 10 one_stream); RecvAgain; RecvData (take 30 (drop 10 one_stream));
   RecvData (drop 40 one_stream)].

Definition one_queued : world :=
  set_w_os (sample_os one_recvs (PollReady POLLOUT :: replicate 80 (PollReady POLLIN)) [])
    (set_w_out (sample_out (byte_of <$> [7; 0; 1; 0]) 1 0) (one_sent [])).

Definition one_written : world :=
  let w := set_held (IoLock :: held one_queued) one_queued in
  final w (write_request (u32 1) w).

Lemma one_queued_ready : wait_ready one_queued.
Proof.
  split; [done|set_solver|split; by vm_compute|].
  intros r Hr. by apply not_elem_of_nil in Hr.
Qed.

Definition one_packets : list label := [Got 0 2 (one_event ++ host_bytes 4 0); Got 1 XCB_REPLY one_reply].

Lemma one_written_fed : fed 0 one_written one_sent_mailbox one_packets.
Proof.
  assert (alike (one_sent []) one_written) as Ha.
  { split_and!; [|by vm_compute..]. exists [], 0. by vm_compute. }
  split; [exists []; split; [by vm_compute|set_solver]|done|done| | | |done].
  - eapply rel_alike; [exact Ha|apply one_sent_rel].
  - split_and!; [by repeat constructor|by apply Forall_replicate|]. by apply Nat.leb_le.
  - split; [by repeat constructor|].
    set (w1 := whole one_written). set (w2 := final w1 (read_packet w1)).
    exists (final w2 (read_packet w2)). split; [|by vm_compute].
    eapply CCons; [|eapply CCons; [|apply CNil]].
    + got_tac w1 0.
    + got_tac w2 1.
Qed.

Lemma reply_reaches_caller_witness :
  let r := first_answer (coming 1 one_packets one_written) true in
  r = (Some one_reply, None) ∧
  ∃ ls1 ls2 m' w', one_packets = ls1 ++ ls2 ∧ xcb_wait_for_reply (u32 1) true one_queued = Ret r w' ∧
    mrun one_sent_mailbox (ls1 ++ [Polled 1 true (Some r)]) m' ∧ Rel 0 w' m' ∧
    has_error w' = false ∧
    readers (w_in w') = readers (w_in one_queued) ∧ held w' = held one_queued ∧
    in_reading (w_in w') = in_reading (w_in one_queued) ∧
    w_out w' = w_out one_written ∧ os_sent (w_os w') = os_sent (w_os one_written).
Proof.
  split; [by vm_compute|].
  apply (reply_reaches_caller 0 one_queued one_written one_sent_mailbox one_packets 1 true).
  - apply one_queued_ready.
  - by vm_compute.
  - apply one_written_fed.
  - by vm_compute.
  - vm_compute. split; discriminate.
  - left. by vm_compute.
Defined.
End Witnesses.
