(* ===== verification/RoundTrip.v ===== *)
(** * A request and its reply

    The output and the input side composed: the number [xcb_send_request] returns
    is the one to wait for, and waiting for it puts the request on the wire and
    returns the server's answer to it. *)
From S2P Require Import Prelude Effects Seq XcbMap State In InFrame InFacts InSafety Demux Conn Chunks.
From S2P Require Import Out OutFacts OutProps Request RequestFacts RequestProps Pending Mailbox.
From S2P Require Import MailboxProps Wait WaitProps Delivery Sample.
From stdpp Require Import functions list.
#[local] Open Scope Z_scope.

Section RoundTrip.
Context `{Host} `{XProto}.

(** ** Sending *)

(** The flags [xcb_send_request] registers for a core request. *)
Definition wanted (fl : Z) : option Z :=
  registered (Z.land fl (Z.lnot XCB_REQUEST_RAW)) WORKAROUND_NONE.

(** The mailbox is in the input side and the number of the last request. *)
Lemma rel_outside lo w w' m :
  Rel lo w m → w_in w' = w_in w → out_request (w_out w') = out_request (w_out w) →
  os_mallocs (w_os w') = os_mallocs (w_os w) → Rel lo w' m.
Proof. intros [] Hi Ho Hm. split; unfold no_oom in *; rewrite ?Hi, ?Ho, ?Hm; done. Qed.

(** [xcb_send_request] of a request that fits the queue, seen from the mailbox. *)
Lemma send_request_mailbox lo w m fl slots vector d rest n req :
  stub_vector vector d rest n → send_ready n req w → (0 < slots)%nat →
  has_flag fl XCB_REQUEST_RAW = false → Rel lo w m →
  out_request (w_out w) + 2 - lo < 2 ^ 31 - 1 → out_request (w_out w) + 2 < 2 ^ 63 →
  let q := out_request (w_out w) + 1 in
  let sync := needs_sync (req_isvoid req) q (request_expected (w_in w)) in
  ∃ w1 bytes,
    xcb_send_request fl slots vector req w = Ret (u32 (out_request (w_out w1))) w1 ∧
    is_request (req_opcode req) (drop 4 (payload vector)) bytes ∧
    queued (req_isvoid req) bytes w w1 ∧ Rel lo w1 (mb_send sync (wanted fl) m) ∧
    w_os w1 = w_os w ∧
    (∃ x l, w_in w1 = set_request_expected x (set_pending_replies l (w_in w))) ∧
    zlength bytes = 4 * n.
Proof.
  intros Hv Hr Hs Hraw Hrel Hlo Hb q sync. pose proof Hr as (He & Hl & Hwr & Hn & Hc & Hrq & _).
  destruct (send_core fl slots vector d rest n req w Hv Hr Hs Hraw)
    as (w1 & bytes & E & Hreq & Hq & Hz & vec & p & wn & En & Hw1).
  set (w0 := set_held (IoLock :: held w) w) in *.
  assert (Rel lo w0 m) as Hrel0 by by apply (rel_outside lo w).
  assert (WORKAROUND_NONE ≠ WORKAROUND_EXTERNAL_SOCKET_OWNER) as Hwk by done.
  assert (0 <= out_request (w_out w0) < 2 ^ 63 - 2) as Hrq' by (cbn; lia).
  pose proof (step_sent lo w0 m _ _ _ _ _ _ _ _ Hrel0 Hn Hwk Hlo Hb En) as Hreln.
  destruct (number_request_pending _ _ _ _ _ _ _ _ _ (rel_oom _ _ _ Hrel0) Hn Hrq' En)
    as (Hos & Hout & x & Hin).
  exists w1, bytes. split_and!; [done..| | | |exact Hz].
  - eapply rel_outside; [exact Hreln|by rewrite Hw1| |by rewrite Hw1].
    destruct Hq as (-> & _). rewrite Hout. done.
  - by rewrite Hw1.
  - rewrite Hw1. by eexists x, _.
Qed.

(** The request just sent has no answers yet and the flags it was sent with. *)
Lemma sent_is_new lo w m sync fl w1 :
  Rel lo w m → Rel lo w1 (mb_send sync fl m) →
  let s := out_request (w_out w1) in
  request_read (w_in w1) < s → request_completed (w_in w1) < s →
  pending_for (w_in w1) s = [] ∧ flags_at (pending_replies (w_in w1)) s = fl.
Proof.
  intros Hr Hr1 s Hread Hcomp. pose proof (rel_sim _ _ _ Hr1) as Hsim.
  destruct (rel_window _ _ _ Hr1) as (Hw1 & Hw2 & Hw3). fold s in Hw1, Hw2, Hw3.
  pose proof (sim_window _ _ _ Hsim). pose proof (rel_last _ _ _ Hr1) as Hlast. fold s in Hlast.
  split.
  - rewrite <- (sim_pending_for lo (w_in w1) (mb_demux (mb_send sync fl m))) by (done || lia).
    apply (sim_future _ _ _ Hsim). done.
  - rewrite (rel_flags _ _ _ Hr1), mb_send_flags by done. cbv zeta.
    unfold mb_send in Hlast. cbn [mb_last] in Hlast. rewrite Hlast, Z.eqb_refl.
    destruct fl as [f|]; [done|]. destruct sync; cbn [andb].
    + destruct (Z.eqb_spec (mb_last m + 1) s); [lia|]. apply (rel_fresh _ _ _ Hr). lia.
    + apply (rel_fresh _ _ _ Hr). lia.
Qed.

(** ** Writing *)

(** [xcb_wait_for_reply] for the last request, which is in the queue, against a
    kernel that takes the queue at once. *)
Lemma write_last_request w ps :
  holds_iolock w → out_ok (w_out w) → out_return_socket (w_out w) = None →
  out_writing (w_out w) = 0 → out_queue (w_out w) ≠ [] → out_request (w_out w) < 2 ^ 63 →
  os_writevs (w_os w) = [] → os_polls (w_os w) = PollReady POLLOUT :: ps →
  ∃ w', write_request (u32 (out_request (w_out w))) w = Ret true w' ∧ quiet w w' ∧
    os_polls (w_os w') = ps ∧
    w_out w' = set_out_request_written (out_request (w_out w)) (set_out_queue [] (w_out w)) ∧
    os_sent (w_os w') = wire w ∧ held w' = held w.
Proof.
  intros Hl Hk Hn Hz Hq Hr Hw Hp. pose proof (ok_request _ Hk).
  destruct (flush_now w ps) as (w' & E & Hqt & Hs & Hps & _ & Ho & Hsent); try done.
  { unfold flush_polls. by rewrite decide_False. }
  exists w'. unfold write_request. rewrite bind_gets, Hn, bool_decide_eq_false_2 by by intros [? ?].
  rewrite widen_exact by lia. split_and!; [done..|exact (conn_held _ _ Hs)].
Qed.

(** ** The round trip *)

(** A connection nobody is using. *)
Record idle (lo : Z) (w : world) (m : mailbox) : Prop := {
  idle_ready : wait_ready w;
  idle_rel : Rel lo w m;
  idle_reading : in_reading (w_in w) = 0;
  idle_queue : zlength (in_queue (w_in w)) < 32;
  idle_written : out_request_written (w_out w) <= out_request (w_out w);
  idle_window : out_request (w_out w) + 2 - lo < 2 ^ 31 - 1 ∧ out_request (w_out w) + 2 < 2 ^ 63
}.

(** A connection that has just been set up. *)
Definition empty_mailbox : mailbox := Mailbox 0 0 0 (λ _, []) [] ∅.

Lemma idle_fresh w e :
  w_in w = XcbIn 0 [] e 0 0 [] [] [] [] [] → out_request (w_out w) = 0 →
  out_request_written (w_out w) = 0 → out_ok (w_out w) → has_error w = false →
  (IoLock ∉ held w) → no_oom w → idle 0 w empty_mailbox.
Proof.
  intros Hi Hq Hw Ho He Hl Hoom.
  split; [split; [done|done|done|]| | | | |]; rewrite ?Hi, ?Hq, ?Hw; cbn; try done; [set_solver|].
  split; rewrite ?Hi, ?Hq; cbn; try done; [by apply sample_sim|apply pending_wf_nil|].
  intros s b Hb. by apply not_elem_of_nil in Hb.
Qed.

(** The output side after a request has been queued. *)
Lemma queued_ok isvoid bytes w w1 op body :
  out_ok (w_out w) → is_request op body bytes → queued isvoid bytes w w1 →
  out_request_written (w_out w) <= out_request (w_out w) → out_request (w_out w) + 2 < 2 ^ 63 →
  zlength (out_queue (w_out w)) + 4 + zlength bytes <= XCB_QUEUE_BUFFER_SIZE →
  out_ok (w_out w1) ∧ out_queue (w_out w1) ≠ [].
Proof.
  intros Hk (Ht & _) (Ho & _) Hw Hb Hz. pose proof (ok_written _ Hk). pose proof (ok_request _ Hk).
  assert (bytes ≠ []) as Hne by by intros ->.
  set (b := needs_sync _ _ _) in *. set (q' := if b then out_request (w_out w) + 1 + 1 else _) in *.
  assert (out_request (w_out w) < q' <= out_request (w_out w) + 2) as Hq' by (subst q'; destruct b; lia).
  assert (zlength (if b then sync_req else []) <= 4) as Hsl.
  { unfold zlength, sync_req. destruct b; [rewrite length_app, length_host_bytes|]; cbn; lia. }
  set (sync := if b then sync_req else []) in *.
  assert (out_queue (w_out w) ++ sync ++ bytes ≠ []) as Hq.
  { by intros [_ [_ ?]%app_nil]%app_nil. }
  rewrite Ho. split; [|done]. split; cbn; try done; try lia.
  - rewrite !zlength_app. lia.
  - intros _. rewrite u64_small by lia. lia.
Qed.

(** The world in which the caller waits, up to the list of readers: the request is
    written and its reply is on the way. *)
Lemma waiting_fed lo w m sync fl w1 w2 ls ps :
  idle lo w m → Rel lo w1 (mb_send sync fl m) → w_os w1 = w_os w →
  (∃ x l, w_in w1 = set_request_expected x (set_pending_replies l (w_in w))) →
  sending (os_recvs (w_os w)) → readable ps → (effort (os_recvs (w_os w)) <= length ps)%nat →
  has_error w1 = false → quiet w1 w2 → os_polls (w_os w2) = ps → out_request (w_out w2) = out_request (w_out w1) →
  holds_iolock w2 → packets_left lo w1 ls →
  fed lo w2 (mb_send sync fl m) ls.
Proof.
  intros Hidle Hr Hos (x & l & Hin) Hs Hps He Her (Hi & Hrs & Hm & Her2) Hp Ho Hl Hls.
  rewrite Hos in Hrs, Hm. pose proof (rel_oom _ _ _ Hr) as Hoom. unfold no_oom in Hoom. rewrite Hos in Hoom.
  assert (no_oom w2) as Hoom2 by (unfold no_oom; congruence).
  split; [done|congruence|rewrite Hi, Hin; by apply Hidle| | | |rewrite Hi, Hin; by apply Hidle].
  - apply (rel_outside lo w1); [done..|]. by rewrite Hm, Hos.
  - split_and!; rewrite ?Hrs, ?Hp; done.
  - eapply packets_left_alike; [|exact Hls]. split_and!; [|exact Ho| |exact Hoom2].
    + exists (readers (w_in w1)), (in_reading (w_in w1)). unfold whole, input. cbn.
      rewrite Hi, Hrs, Hos. by destruct (w_in w1).
    + unfold no_oom. cbn. by rewrite Hos.
Qed.

(** What is to come for a request just sent is what is still in the stream. *)
Lemma sent_coming lo w m sync fl w1 ls :
  idle lo w m → Rel lo w1 (mb_send sync fl m) →
  (∃ x l, w_in w1 = set_request_expected x (set_pending_replies l (w_in w))) →
  let s := out_request (w_out w1) in
  out_request (w_out w) < s →
  coming s ls w1 = replies_got s fl ls ∧ lo <= s.
Proof.
  intros Hidle Hrel (x & l & Hin) s Hlt.
  pose proof (rel_sim _ _ _ (idle_rel _ _ _ Hidle)) as Hsim.
  destruct (rel_window _ _ _ (idle_rel _ _ _ Hidle)) as (Hwin & _).
  pose proof (sim_completed _ _ _ Hsim) as [_ Hcomp]. pose proof (sim_window _ _ _ Hsim).
  destruct (sent_is_new lo w m sync fl w1 (idle_rel _ _ _ Hidle) Hrel)
    as [Hnone Hflags]; [rewrite Hin; cbn; lia..|]. fold s in Hnone, Hflags.
  unfold coming. rewrite Hnone, Hflags. split; [done|lia].
Qed.

(** The kernel takes the queue at the next [poll]; after that the server sends, and
    the kernel hands the bytes over bit by bit. *)
Record flowing (ps : list poll_event) (w : world) : Prop := {
  flow_writevs : os_writevs (w_os w) = [];
  flow_polls : os_polls (w_os w) = PollReady POLLOUT :: ps;
  flow_sending : sending (os_recvs (w_os w));
  flow_readable : readable ps;
  flow_effort : (effort (os_recvs (w_os w)) <= length ps)%nat
}.

(** The output side after the queue has been written. *)
Lemma out_ok_written o :
  out_ok o → out_ok (set_out_request_written (out_request o) (set_out_queue [] o)).
Proof. intros []. by split. Qed.

(** The first half of the round trip: the request is queued, then written. *)
Lemma send_and_write lo w m fl slots vector d rest n req c w1 ps :
  idle lo w m → stub_vector vector d rest n → send_ready n req w → (0 < slots)%nat →
  has_flag fl XCB_REQUEST_RAW = false →
  flowing ps w →
  xcb_send_request fl slots vector req w = Ret c w1 →
  let s := out_request (w_out w1) in
  let sync := needs_sync (req_isvoid req) (out_request (w_out w) + 1) (request_expected (w_in w)) in
  out_request (w_out w) < s ∧ c = u32 s ∧ wait_ready w1 ∧ held w1 = held w ∧
  Rel lo w1 (mb_send sync (wanted fl) m) ∧ w_os w1 = w_os w ∧
  (∃ x l, w_in w1 = set_request_expected x (set_pending_replies l (w_in w))) ∧
  ∃ w2 bytes, write_request c (set_held (IoLock :: held w1) w1) = Ret true w2 ∧
    quiet w1 w2 ∧ os_polls (w_os w2) = ps ∧ out_return_socket (w_out w2) = None ∧
    w_out w2 = set_out_request_written s (set_out_queue [] (w_out w1)) ∧
    held w2 = IoLock :: held w ∧
    is_request (req_opcode req) (drop 4 (payload vector)) bytes ∧
    os_sent (w_os w2) = wire w ++ (if sync then sync_req else []) ++ bytes.
Proof.
  intros Hidle Hv Hr Hs Hraw [Hw Hp _ _ _] E s sync.
  destruct (idle_window _ _ _ Hidle) as [Hlo Hmax].
  destruct (send_request_mailbox lo w m fl slots vector d rest n req Hv Hr Hs Hraw
    (idle_rel _ _ _ Hidle) Hlo Hmax) as (w1' & bytes & E' & Hreq & Hq & Hrel & Hos & Hin & Hz).
  assert (w1' = w1 ∧ c = u32 (out_request (w_out w1))) as [-> ->] by (split; congruence).
  fold s sync in Hrel |- *.
  destruct (idle_ready _ _ _ Hidle) as [Her Hl Hk Hfr].
  destruct Hr as (_ & _ & Hwr & Hn & _ & _ & _ & Hfit & _).
  destruct (queued_ok (req_isvoid req) bytes w w1 _ _ Hk Hreq Hq (idle_written _ _ _ Hidle) Hmax)
    as [Hk1 Hne]; [by rewrite Hz|].
  destruct Hq as (Ho1 & Hsent & Hh1 & _ & Her1). fold sync in Ho1.
  assert (out_request (w_out w) < s <= out_request (w_out w) + 2) as Hs2.
  { subst s. rewrite Ho1. cbn. destruct sync; lia. }
  destruct (write_last_request (set_held (IoLock :: held w1) w1) ps)
    as (w2 & E2 & Hqt & Hps2 & Ho2 & Hsent2 & Hh2);
    [exists (held w1); split; [done|by rewrite Hh1]|done|cbn; by rewrite Ho1|cbn; by rewrite Ho1
    |done|cbn; fold s; lia|cbn; by rewrite Hos|cbn; by rewrite Hos|].
  split_and!; try done; try lia.
  - split; [by apply Her1, Hidle|by rewrite Hh1|done|].
    destruct Hin as (x & l & ->). by rewrite Hos.
  - exists w2, bytes. split_and!; try done; [by rewrite Ho2; cbn; rewrite Ho1|by rewrite Hh2; cbn; rewrite Hh1|].
    rewrite Hsent2. unfold wire. cbn. by rewrite Hsent, Ho1, <- app_assoc.
Qed.

(** The server answers request [s], or goes on to a later one. *)
Definition settled (s : Z) (fl : option Z) (ls : list label) : Prop :=
  replies_got s fl ls ≠ [] ∨ ∃ t type buf, Got t type buf ∈ ls ∧ s < t.

(** Both halves: the request is sent and its answer awaited.  Of the packets [ls]
    the first ones, [ls1], have been read when the call returns. *)
Lemma send_and_wait lo w m fl slots vector d rest n req c w1 ps ls e :
  idle lo w m → stub_vector vector d rest n → send_ready n req w → (0 < slots)%nat →
  has_flag fl XCB_REQUEST_RAW = false → flowing ps w →
  xcb_send_request fl slots vector req w = Ret c w1 → c ≠ 0 → packets_left lo w1 ls →
  let s := out_request (w_out w1) in
  let sync := needs_sync (req_isvoid req) (out_request (w_out w) + 1) (request_expected (w_in w)) in
  let m1 := mb_send sync (wanted fl) m in
  settled s (wanted fl) ls →
  let r := first_answer (replies_got s (wanted fl) ls) e in
  ∃ w2 bytes ls1 ls2 m2,
    c = u32 s ∧ out_request (w_out w) < s ∧ has_error w1 = false ∧ Rel lo w1 m1 ∧
    xcb_wait_for_reply c e w1 = Ret r w2 ∧
    is_request (req_opcode req) (drop 4 (payload vector)) bytes ∧
    os_sent (w_os w2) = wire w ++ (if sync then sync_req else []) ++ bytes ∧
    wait_ready w2 ∧ held w2 = held w ∧ readers (w_in w2) = readers (w_in w) ∧ out_return_socket (w_out w2) = None ∧
    w_out w2 = set_out_request_written s (set_out_queue [] (w_out w1)) ∧
    ls = ls1 ++ ls2 ∧ mrun m1 (ls1 ++ [Polled s e (Some r)]) m2 ∧ Rel lo w2 m2 ∧
    ∃ mf, mrun m1 ls mf.
Proof.
  intros Hidle Hv Hr Hs Hraw Hflow E Hc Hls s sync m1 Hb r.
  destruct (send_and_write lo w m fl slots vector d rest n req c w1 ps Hidle Hv Hr Hs Hraw Hflow E)
    as (Hlt & -> & Hready & Hh1 & Hrel & Hos & Hin & w2 & bytes & E2 & Hqt & Hps2 & Hn2 & Ho2 & Hh2 & Hreq & Hs2).
  fold s sync m1 in Hlt, Hc, Hrel, E2, Ho2, Hs2 |- *.
  destruct Hflow as [_ _ Hsend Hps He].
  assert (fed lo w2 m1 ls) as Hf.
  { apply (waiting_fed lo w m sync (wanted fl) w1 w2 ls ps); try done; [apply Hready|by rewrite Ho2|].
    exists (held w). split; [done|]. apply (idle_ready _ _ _ Hidle). }
  destruct (sent_coming lo w m sync (wanted fl) w1 ls Hidle Hrel Hin Hlt) as [Hco Hlo].
  destruct Hqt as (Hi2 & _). fold s in Hco, Hlo.
  assert (coming s ls w2 = replies_got s (wanted fl) ls) as Hcw by by rewrite <- Hco; unfold coming; rewrite Hi2.
  destruct (write_request_inv (u32 s) (set_held (IoLock :: held w1) w1) true w2) as (Hside & _);
    [exists (held w1); split; [done|apply Hready]|apply Hready|apply u32_range|done|].
  pose proof (conn_fresh _ _ Hside) as Hfr. cbn in Hfr.
  destruct (await_reply_fed lo w2 m1 ls s e Hf) as
    (ls1 & ls2 & m2 & w3 & -> & E3 & Hm2 & Hr3 & Her3 & Hh3 & Ho3 & Hs3);
    [rewrite Hi2, Hfr; apply Hready|done|rewrite Ho2; cbn; lia|unfold answered; rewrite Hcw; unfold settled in Hb; tauto|].
  rewrite Hcw in E3, Hm2. fold r in E3, Hm2.
  destruct (wait_for_reply_run lo (u32 s) e w1 w2 r w3 m2 Hready) as
    (w4 & E4 & Hr4 & Her4 & Ho4 & Hs4 & Hrd4 & Hh4 & _ & Hf4 & _); [apply u32_range|done..|].
  exists w4, bytes, ls1, ls2, m2. assert (readers (w_in w1) = readers (w_in w)) as Hrd1 by by destruct Hin as (? & ? & ->).
  split_and!; try done; try congruence; [apply Hready| |].
  - pose proof (await_reply_fresh _ _ _ _ _ (fed_lock _ _ _ _ Hf) E3) as Hf3.
    assert (held w4 = held w1) as Hh by done. destruct Hready as [Her1 Hl1 Hk1 Hfr1].
    split; [congruence|by rewrite Hh|by rewrite Ho4, Ho3, Ho2; apply out_ok_written|].
    rewrite Hrd4, Hf4, Hf3, Hfr. intros r' Hin'%Hfr1. lia.
  - destruct (fed_packets _ _ _ _ Hf) as (_ & wf & Hrun & _).
    destruct (crun_refines lo _ _ _ Hrun m1 (rel_whole _ _ _ (fed_rel _ _ _ _ Hf))) as (mf & ? & _).
    by exists mf.
Qed.

(** C1. A request and its reply.  On a connection that is idle, a core request that
    fits the queue is numbered and queued.  The caller who waits for the number
    that [xcb_send_request] returned gets the first reply or checked error the
    server sends for this very request, in whatever pieces and among whatever
    packets it comes, or nothing when the server goes on without one.  What the
    server has received by then is all that was queued before and then this
    request, well formed, behind the [GetInputFocus] if one was due. *)
Theorem request_reply_roundtrip lo w m fl slots vector d rest n req c w1 ps ls e :
  idle lo w m → stub_vector vector d rest n → send_ready n req w → (0 < slots)%nat →
  has_flag fl XCB_REQUEST_RAW = false → flowing ps w →
  xcb_send_request fl slots vector req w = Ret c w1 → c ≠ 0 → packets_left lo w1 ls →
  settled (out_request (w_out w1)) (wanted fl) ls →
  ∃ w2 bytes, xcb_wait_for_reply c e w1 =
      Ret (first_answer (replies_got (out_request (w_out w1)) (wanted fl) ls) e) w2 ∧
    is_request (req_opcode req) (drop 4 (payload vector)) bytes ∧
    os_sent (w_os w2) = wire w ++
      (if needs_sync (req_isvoid req) (out_request (w_out w) + 1) (request_expected (w_in w))
       then sync_req else []) ++ bytes ∧
    has_error w2 = false ∧ held w2 = held w ∧ readers (w_in w2) = readers (w_in w).
Proof.
  intros Hidle Hv Hr Hs Hraw Hflow E Hc Hls Hb.
  destruct (send_and_wait lo w m fl slots vector d rest n req c w1 ps ls e Hidle Hv Hr Hs Hraw Hflow
    E Hc Hls Hb) as (w2 & bytes & ls1 & ls2 & m2 & _ & _ & _ & _ & E2 & Hreq & Hsent & [Her _ _ _] & Hh & Hrd & _).
  by exists w2, bytes.
Qed.
End RoundTrip.

(** ** The hypotheses can hold *)

Section Witnesses.
#[local] Existing Instances sample_host sample_proto.

(** A fresh connection; the kernel takes the request, then an event and the reply
    arrive in three pieces. *)
Definition trip_start : world :=
  set_w_os (sample_os one_recvs (PollReady POLLOUT :: replicate 80 (PollReady POLLIN)) [])
    (send_world 0).

Definition trip_sent : world :=
  final trip_start (xcb_send_request 0 2 sample_vector reply_request trip_start).

Lemma trip_idle : idle 0 trip_start empty_mailbox.
Proof. by apply (idle_fresh _ 0); [..|split; vm_compute| |set_solver|]. Qed.

Lemma trip_flowing : flowing (replicate 80 (PollReady POLLIN)) trip_start.
Proof.
  split; [done|done|by repeat constructor|by apply Forall_replicate|by apply Nat.leb_le].
Qed.

Lemma trip_packets : packets_left 0 trip_sent one_packets.
Proof.
  split; [by repeat constructor|].
  set (w1 := whole trip_sent). set (w2 := final w1 (read_packet w1)).
  exists (final w2 (read_packet w2)). split; [|by vm_compute].
  eapply CCons; [|eapply CCons; [|apply CNil]].
  - got_tac w1 0.
  - got_tac w2 1.
Qed.

Lemma request_reply_roundtrip_witness :
  first_answer (replies_got 1 (wanted 0) one_packets) true = (Some one_reply, None) ∧
  ∃ w2 bytes, xcb_wait_for_reply 1 true trip_sent =
      Ret (first_answer (replies_got (out_request (w_out trip_sent)) (wanted 0) one_packets) true) w2 ∧
    is_request 16 (drop 4 (payload sample_vector)) bytes ∧
    os_sent (w_os w2) = wire trip_start ++
      (if needs_sync false (out_request (w_out trip_start) + 1) (request_expected (w_in trip_start))
       then sync_req else []) ++ bytes ∧
    has_error w2 = false ∧ held w2 = held trip_start ∧
    readers (w_in w2) = readers (w_in trip_start).
Proof.
  split; [by vm_compute|].
  apply (request_reply_roundtrip 0 trip_start empty_mailbox 0 2 sample_vector sample_header
    sample_rest 3 reply_request 1 trip_sent (replicate 80 (PollReady POLLIN)) one_packets true).
  - apply trip_idle.
  - apply sample_vector_stub.
  - unfold send_ready. apply (send_world_ready 0); [lia|reflexivity].
  - lia.
  - reflexivity.
  - apply trip_flowing.
  - by vm_compute.
  - done.
  - apply trip_packets.
  - left. by vm_compute.
Defined.
End Witnesses.
