(* ===== verification/Events.v ===== *)
(** * Events reach the application

    [xcb_wait_for_event] composed with the socket wait and the packet reader: as
    long as the server sends, call after call returns the next of its events and
    unchecked errors. *)
From S2P Require Import Prelude Effects Seq XcbMap State In InFrame InFacts InSafety Demux Conn Chunks.
From S2P Require Import Out OutFacts OutProps Request RequestFacts Pending Mailbox MailboxProps.
From S2P Require Import Wait WaitProps Delivery RoundTrip Sample.
From stdpp Require Import functions list.
#[local] Open Scope Z_scope.

(** ** Events among packets *)

(** The packets that are events, given the flags of the requests. *)
Definition event_of (fs : Z → option Z) (l : label) : list (list byte) :=
  match l with
  | Got s type buf => match route type (fs s) with ToEvents => [buf] | _ => [] end
  | _ => []
  end.
Definition events_got (fs : Z → option Z) (ls : list label) : list (list byte) :=
  concat (event_of fs <$> ls).

(** The events that are there and those still among the packets [ls]. *)
Definition mb_incoming (ls : list label) (m : mailbox) : list (list byte) :=
  mb_events m ++ events_got (λ s, mb_flags m !! s) ls.
Definition incoming (ls : list label) (w : world) : list (list byte) :=
  events (w_in w) ++ events_got (flags_at (pending_replies (w_in w))) ls.

Section Events.
Context `{Host} `{XProto}.

(** Reading packets moves events from the stream to the mailbox. *)
Lemma incoming_after m ls1 m1 ls2 :
  mrun m ls1 m1 → Forall packet_label ls1 → mb_incoming ls2 m1 = mb_incoming (ls1 ++ ls2) m.
Proof.
  induction 1 as [|m l m' ls m'' Hstep _ IH]; [done|]. intros [Hl Hls]%Forall_cons.
  rewrite IH by done. destruct Hstep as [| |m s type completed buf| | |]; try done.
  unfold mb_incoming, events_got, mb_got. cbn. destruct (route type (mb_flags m !! s)); cbn; [done..|].
  by rewrite <- app_assoc.
Qed.

(** Errors and replies come for requests that are not complete. *)
Lemma events_got_flags m ls m' fs :
  mrun m ls m' → Forall packet_label ls →
  (∀ t, mb_completed m < t → fs t = mb_flags m !! t) →
  events_got fs ls = events_got (λ s, mb_flags m !! s) ls.
Proof.
  induction 1 as [|m l m' ls m'' Hstep _ IH]; [done|]. intros [Hl Hls]%Forall_cons Hfs.
  destruct Hstep as [| |m s type completed buf Hs Hc Hcm Hty| | |]; try done.
  unfold events_got in *. cbn. rewrite IH; [|done|intros t Ht; apply Hfs; cbn in Ht; lia].
  f_equal. unfold route. destruct (_ || _) eqn:E; [|done]. rewrite Hfs; [done|].
  apply Hty. apply orb_true_iff in E as [E%Z.eqb_eq|E%Z.eqb_eq]; auto.
Qed.

Lemma fed_incoming lo w m ls : fed lo w m ls → incoming ls w = mb_incoming ls m.
Proof.
  intros Hf. pose proof (fed_rel _ _ _ _ Hf) as Hr. unfold incoming, mb_incoming.
  pose proof (sim_events _ _ _ (rel_sim _ _ _ Hr)) as <-. f_equal.
  destruct (fed_packets _ _ _ _ Hf) as (Hls & wf & Hrun & _).
  destruct (crun_refines lo _ _ _ Hrun m (rel_whole _ _ _ Hr)) as (mf & Hmf & _).
  apply (events_got_flags m ls mf); [done..|]. rewrite (rel_completed _ _ _ Hr). apply Hr.
Qed.

(** ** The packet reader does not look at the events *)

Definition but_events (w1 w2 : world) : Prop :=
  (∃ es, w_in w2 = set_events es (w_in w1)) ∧
  out_request (w_out w2) = out_request (w_out w1) ∧ no_oom w1 ∧ no_oom w2.

Lemma sequence_effect_events ok g es i :
  sequence_effect ok g (set_events es i) = set_events es (sequence_effect ok g i).
Proof.
  unfold sequence_effect. destruct (_ =? XCB_KEYMAP_NOTIFY); [done|]. cbv zeta.
  cbn [request_read request_expected current_reply set_events].
  destruct (XCB_SEQUENCE_COMPARE _ Z.gtb _), (_ =? request_read i), (current_reply i), ok,
    (response_type g =? XCB_ERROR); in_fields.
Qed.

Lemma got_but_events lo w1 l w1' w2 :
  but_events w1 w2 → packet_label l → cstep lo w1 l w1' → ∃ w2', cstep lo w2 l w2' ∧ but_events w1' w2'.
Proof.
  intros ((es & Hi) & Ho & Hm1 & Hm2) Hl Hstep.
  destruct Hstep as [| |w s w' Hc Ha Hs Hsane E| | |]; try done.
  assert (front_header w2 = front_header w) as Eh by by unfold front_header; rewrite Hi.
  assert (front_state w2 = set_events es (front_state w)) as Es.
  { unfold front_state. rewrite Eh, Hi. apply sequence_effect_events. }
  assert (front_pend w2 = front_pend w) as Ep by by unfold front_pend; rewrite Eh, Es.
  assert (front_lengths w2 = front_lengths w) as El by by unfold front_lengths; rewrite Eh, Ep, Hi.
  assert (front_buffer w2 = front_buffer w) as Eb by by unfold front_buffer; rewrite Eh, Es, El, Hi.
  assert (front_destination w2 = front_destination w) as Ed by by unfold front_destination; rewrite Eh, Ep.
  assert (front_complete w2) as Hc2 by (unfold front_complete, front_length in *; by rewrite El, Hi).
  rewrite read_packet_front in E by done. rewrite <- Eh, <- Eb. eexists. split.
  - apply (CGot lo w2 s); [done| | | |by apply read_packet_front].
    + rewrite Eh. unfold answers in *. by rewrite Hi.
    + by rewrite Ho.
    + rewrite Eh, Hi. exact Hsane.
  - assert (w' = with_signals (wakes (front_destination w) (front_state w))
      (set_w_in (store (front_destination w) (front_buffer w)
        (set_in_queue (drop (Z.to_nat (front_length w)) (in_queue (w_in w))) (front_state w))) w))
      as -> by congruence.
    unfold front_length. rewrite Ed, El, Es, Eb, Hi.
    split_and!; [|done..]. destruct (front_destination w); by eexists.
Qed.

Lemma packets_but_events lo w1 ls w1' w2 :
  crun lo w1 ls w1' → Forall packet_label ls → but_events w1 w2 →
  ∃ w2', crun lo w2 ls w2' ∧ but_events w1' w2'.
Proof.
  intros Hrun. revert w2. induction Hrun as [w|w l w' ls w'' Hstep _ IH]; intros w2 Hls Ha.
  { exists w2. by split; [constructor|]. }
  apply Forall_cons in Hls as [Hl Hls].
  destruct (got_but_events lo w l w' w2 Ha Hl Hstep) as (w2' & Hstep2 & Ha').
  destruct (IH w2' Hls Ha') as (w2'' & Hrun2 & Ha''). exists w2''. by split; [econstructor|].
Qed.

Lemma packets_left_events lo w1 w2 ls :
  but_events (whole w1) (whole w2) → packets_left lo w1 ls → packets_left lo w2 ls.
Proof.
  intros Ha (Hls & w' & Hrun & Hq). split; [done|].
  destruct (packets_but_events lo _ ls w' _ Hrun Hls Ha) as (w2' & Hrun2 & (es & Hi) & _).
  exists w2'. split; [done|]. by rewrite Hi.
Qed.
(** ** Waiting for an event *)

(** Taking the first event, if there is one. *)
Lemma get_event_fed lo w m ls :
  fed lo w m ls →
  ∃ w', get_event w = Ret (head (mb_events m)) w' ∧ fed lo w' (mb_event m) ls ∧
    (mb_events m = [] → w' = w) ∧ os_polls (w_os w') = os_polls (w_os w).
Proof.
  intros [Hl He Hi Hr Hs Hp Hq]. pose proof (sim_events _ _ _ (rel_sim _ _ _ Hr)) as Hev. cbn in Hev.
  assert (∃ w', get_event w = Ret (head (mb_events m)) w' ∧
    w' = set_w_in (set_events (tail (mb_events m)) (w_in w)) w) as (w' & E & Hw').
  { unfold get_event. rewrite bind_gets. unfold compose. rewrite <- Hev.
    destruct (mb_events m) as [|ev es]; eexists; (split; [done|]); [|done].
    cbn. rewrite Hev. by destruct w as [? ? ? []]. }
  destruct (step_refines lo w m _ w' Hr (CEvent lo w _ w' E)) as (m' & Hm & Hr').
  assert (m' = mb_event m) as -> by by inversion Hm.
  exists w'. subst w'. split; [done|]. split; [|split; [|done]].
  - split; try done. eapply packets_left_events; [|exact Hp].
    pose proof (rel_oom _ _ _ Hr). split_and!; try done. by eexists.
  - intros Hnil. rewrite Hnil in Hev |- *. cbn. rewrite Hev. by destruct w as [? ? ? []].
Qed.

(** What is to come stays to come. *)
Definition same_coming (m : mailbox) (ls : list label) (m' : mailbox) (ls' : list label) : Prop :=
  mb_last m' = mb_last m ∧ ∀ s, s <= mb_last m → mb_coming s ls' m' = mb_coming s ls m.

(** The loop of [xcb_wait_for_event] ends with the first event that comes. *)
Lemma wait_event_loop_fed lo fuel : ∀ w m ls ev rest,
  fed lo w m ls → (length (os_polls (w_os w)) < fuel)%nat → mb_incoming ls m = ev :: rest →
  ∃ m' ls' w', wait_event_loop fuel w = Ret (Some ev) w' ∧ fed lo w' m' ls' ∧
    mb_incoming ls' m' = rest ∧ same_coming m ls m' ls'.
Proof.
  induction fuel as [|fuel IH]; intros w m ls ev rest Hf Hfuel Hev; [lia|]. cbn [wait_event_loop].
  destruct (get_event_fed lo w m ls Hf) as (w1 & E1 & Hf1 & Hw1 & _).
  rewrite (bind_run _ _ _ _ _ E1). destruct (mb_events m) as [|ev' es] eqn:Em; cbn [head].
  - rewrite Hw1 by done. clear w1 E1 Hf1 Hw1.
    destruct (conn_wait_fed lo EventCond w m ls Hf) as (ls1 & ls2 & m2 & w2 & -> & E2 & Hm2 & Hf2).
    { intros ->. unfold mb_incoming in Hev. by rewrite Em in Hev. }
    rewrite (bind_run _ _ _ _ _ E2). cbn [fst].
    destruct (fed_packets _ _ _ _ Hf) as ([Hls1 _]%Forall_app & _).
    destruct (packets_keep _ _ _ Hm2 Hls1) as [Hlast2 _].
    apply reader_wait_inv in E2 as (_ & _ & Hpl & _); [|apply Hf].
    destruct (IH w2 m2 ls2 ev rest Hf2) as (m' & ls' & w' & E & Hf' & Hrest & Hlast & Hco);
      [lia|by rewrite (incoming_after m ls1)|].
    exists m', ls', w'. split_and!; [done..|]. split; [congruence|]. intros s Hs.
    rewrite Hco by lia. by apply coming_after.
  - unfold mb_incoming in Hev. rewrite Em in Hev. injection Hev as -> Hrest.
    exists (mb_event m), ls, w1. split_and!; [done..| |by split]. unfold mb_incoming. cbn. by rewrite Em.
Qed.

Lemma fed_signals lo ss w m ls : fed lo w m ls → fed lo (with_signals ss w) m ls.
Proof.
  intros [(h & Hl) Her Hi Hr Hs Hp Hq]. pose proof (rel_oom _ _ _ Hr).
  split; [by exists h|done|done|by apply (rel_outside lo w)|done| |done].
  eapply packets_left_alike; [|exact Hp]. split_and!; [|done..].
  exists (readers (w_in w)), (in_reading (w_in w)). by destruct w as [? ? ? []].
Qed.

(** One call of [xcb_wait_for_event]. *)
Lemma wait_for_event_fed lo w m ls ev rest :
  (IoLock ∉ held w) → fed lo (set_held (IoLock :: held w) w) m ls → mb_incoming ls m = ev :: rest →
  ∃ m' ls' w', xcb_wait_for_event w = Ret (Some ev) w' ∧
    fed lo (set_held (IoLock :: held w) w') m' ls' ∧ mb_incoming ls' m' = rest ∧
    same_coming m ls m' ls' ∧ held w' = held w ∧ w_out w' = w_out w.
Proof.
  intros Hl Hf Hev. set (w0 := set_held (IoLock :: held w) w) in *.
  destruct (wait_event_loop_fed lo (S (length (os_polls (w_os w0)))) w0 m ls ev rest Hf)
    as (m' & ls' & w1 & E & Hf' & Hrest & Hco); [lia|done|].
  apply wait_event_loop_inv in E as Hi; [|apply Hf]. destruct Hi as [Hside _].
  pose proof (conn_held _ _ Hside) as Hh. destruct (wake_up_run w1) as (ss & E4).
  exists m', ls', (set_held (held w) (with_signals ss w1)). split_and!; try done.
  - unfold xcb_wait_for_event. pose proof (fed_error _ _ _ _ Hf) as He. cbn in He.
    rewrite bind_gets, He, (bind_lock IoLock (held w)), bind_gets by done. fold w0.
    rewrite (bind_run _ _ _ _ _ E), (bind_run _ _ _ _ _ E4). by rewrite (bind_unlock IoLock (held w)).
  - assert (set_held (IoLock :: held w) (set_held (held w) (with_signals ss w1)) = with_signals ss w1) as ->.
    { cbn in Hh. rewrite <- Hh. by destruct w1. }
    by apply fed_signals.
  - exact (conn_out _ _ Hside).
Qed.

(** An application that asks for [k] events. *)
Fixpoint wait_for_events (k : nat) : xM (list (list byte)) :=
  match k with
  | O => ret []
  | S k' =>
      bind xcb_wait_for_event (λ r,
        match r with
        | Some ev => bind (wait_for_events k') (λ evs, ret (ev :: evs))
        | None => ret []
        end)
  end.

Lemma wait_for_events_fed lo k : ∀ w m ls,
  (IoLock ∉ held w) → fed lo (set_held (IoLock :: held w) w) m ls →
  (k <= length (mb_incoming ls m))%nat →
  ∃ m' ls' w', wait_for_events k w = Ret (take k (mb_incoming ls m)) w' ∧
    fed lo (set_held (IoLock :: held w) w') m' ls' ∧ mb_incoming ls' m' = drop k (mb_incoming ls m) ∧
    same_coming m ls m' ls' ∧ held w' = held w ∧ w_out w' = w_out w.
Proof.
  induction k as [|k IH]; intros w m ls Hl Hf Hk; [by exists m, ls, w|].
  destruct (mb_incoming ls m) as [|ev rest] eqn:Hev; [cbn in Hk; lia|]. cbn [wait_for_events].
  destruct (wait_for_event_fed lo w m ls ev rest Hl Hf Hev)
    as (m1 & ls1 & w1 & E1 & Hf1 & Hin1 & [Hlast1 Hco1] & Hh1 & Ho1).
  rewrite (bind_run _ _ _ _ _ E1). rewrite <- Hh1 in Hl, Hf1.
  destruct (IH w1 m1 ls1 Hl Hf1) as (m2 & ls2 & w2 & E2 & Hf2 & Hin2 & [Hlast2 Hco2] & Hh2 & Ho2);
    [rewrite Hin1; cbn in Hk; lia|].
  rewrite (bind_run _ _ _ _ _ E2). exists m2, ls2, w2. rewrite Hin1 in *. rewrite Hh1 in *.
  split_and!; try done; [|congruence]. split; [congruence|]. intros s Hs. by rewrite Hco2, Hco1 by lia.
Qed.

(** C13. Events.  Nobody else reads, and what is left of the stream is whole packets
    for requests that were sent, in pieces of any size.  If at least [k] events and
    unchecked errors are there or among the packets, [k] calls of
    [xcb_wait_for_event] return the first [k] of them in the order in which the
    server has sent them.  The replies and checked errors that were read on the
    way are neither lost nor reordered: for every request what is to come is
    what was to come. *)
Theorem events_reach_caller lo w m ls k :
  (IoLock ∉ held w) → fed lo (set_held (IoLock :: held w) w) m ls →
  (k <= length (incoming ls w))%nat →
  ∃ m' ls' w', wait_for_events k w = Ret (take k (incoming ls w)) w' ∧
    fed lo (set_held (IoLock :: held w) w') m' ls' ∧ incoming ls' w' = drop k (incoming ls w) ∧
    (∀ s, lo <= s <= out_request (w_out w) → coming s ls' w' = coming s ls w) ∧
    held w' = held w ∧ w_out w' = w_out w.
Proof.
  intros Hl Hf Hk. change (incoming ls w) with (incoming ls (set_held (IoLock :: held w) w)) in *.
  rewrite (fed_incoming _ _ _ _ Hf) in *.
  destruct (wait_for_events_fed lo k w m ls Hl Hf Hk)
    as (m' & ls' & w' & E & Hf' & Hin & [Hlast Hco] & Hh & Ho).
  exists m', ls', w'. split_and!; try done.
  - by rewrite <- Hin, <- (fed_incoming _ _ _ _ Hf').
  - intros s Hs. pose proof (rel_last _ _ _ (fed_rel _ _ _ _ Hf)) as Hm. cbn in Hm.
    pose proof (fed_coming lo _ m ls s Hf Hs) as H1.
    pose proof (fed_coming lo (set_held (IoLock :: held w) w') m' ls' s Hf') as H2. cbn in H1, H2.
    rewrite Ho in H2. specialize (H2 Hs). rewrite Hco in H2 by lia.
    change (coming s ls (set_held _ _)) with (coming s ls w) in H1.
    change (coming s ls' (set_held _ _)) with (coming s ls' w') in H2. congruence.
Qed.
End Events.

(** ** The hypotheses can hold *)

Section Witnesses.
#[local] Existing Instances sample_host sample_proto.

(** An event, the reply of request 1 and another event, in three pieces. *)
Definition two_stream : list byte := one_event ++ one_reply ++ sample_packet 2 1 0.

Definition two_coming : world :=
  set_w_os (sample_os
      [RecvData (take 10 two_stream); RecvAgain; RecvData (take 60 (drop 10 two_stream));
       RecvData (drop 70 two_stream)] (replicate 120 (PollReady POLLIN)) [])
    (one_sent []).

Definition two_packets : list label :=
  [Got 0 2 (one_event ++ host_bytes 4 0); Got 1 XCB_REPLY one_reply;
   Got 1 2 (sample_packet 2 1 0 ++ host_bytes 4 1)].

Lemma two_coming_fed :
  fed 0 (set_held (IoLock :: held two_coming) two_coming) one_sent_mailbox two_packets.
Proof.
  split; [by exists []; split; [|set_solver]|done|done| | | |done].
  - apply (rel_outside 0 (one_sent [])); [apply one_sent_rel|done..].
  - split_and!; [by repeat constructor|by apply Forall_replicate|]. by apply Nat.leb_le.
  - split; [by repeat constructor|].
    set (w1 := whole (set_held (IoLock :: held two_coming) two_coming)).
    set (w2 := final w1 (read_packet w1)). set (w3 := final w2 (read_packet w2)).
    exists (final w3 (read_packet w3)). split; [|by vm_compute].
    eapply CCons; [|eapply CCons; [|eapply CCons; [|apply CNil]]].
    + got_tac w1 0.
    + got_tac w2 1.
    + got_tac w3 1.
Qed.

Lemma events_reach_caller_witness :
  take 2 (incoming two_packets two_coming) =
    [one_event ++ host_bytes 4 0; sample_packet 2 1 0 ++ host_bytes 4 1] ∧
  ∃ m' ls' w', wait_for_events 2 two_coming = Ret (take 2 (incoming two_packets two_coming)) w' ∧
    fed 0 (set_held (IoLock :: held two_coming) w') m' ls' ∧
    incoming ls' w' = drop 2 (incoming two_packets two_coming) ∧
    (∀ s, 0 <= s <= out_request (w_out two_coming) → coming s ls' w' = coming s two_packets two_coming) ∧
    held w' = held two_coming ∧ w_out w' = w_out two_coming.
Proof.
  split; [by vm_compute|].
  apply (events_reach_caller 0 two_coming one_sent_mailbox two_packets 2).
  - set_solver.
  - apply two_coming_fed.
  - by apply Nat.leb_le.
Defined.
End Witnesses.
