(* ===== verification/RequestCheck.v ===== *)
(** * The error of a request without reply

    [xcb_request_check] composed with all it uses: to learn that no error is
    coming for a request it asks the server for something harmless and waits for
    that answer, which the server sends after any error of the request. *)
From S2P Require Import Prelude Effects Seq XcbMap State In InFrame InFacts InSafety Demux Conn Chunks.
From S2P Require Import Out OutFacts OutProps Request RequestFacts RequestProps Pending Mailbox.
From S2P Require Import MailboxProps Wait WaitProps Delivery RoundTrip Sample.
From stdpp Require Import functions list.
#[local] Open Scope Z_scope.

(** ** The generated stubs *)

(** [GetInputFocus]: opcode 43, with a reply. *)
Definition focus_request : protocol_request := ProtocolRequest None 43 false.

(** What [c_client.py] generates for [GetInputFocus]: the request has the four bytes
    of its header and no padding, and is sent as a checked request; the reply
    function waits for the cookie's number. *)
Class FocusStubs `{Host} `{XProto} := {
  focus_header : list byte;
  focus_header_length : length focus_header = 4%nat;
  get_input_focus_sends w :
    xcb_get_input_focus w =
      xcb_send_request XCB_REQUEST_CHECKED 2 [IovBuf focus_header; IovNull 0] focus_request w;
  get_input_focus_reply_waits c w :
    xcb_get_input_focus_reply c w = xcb_wait_for_reply c true w
}.

(** ** Runs of the mailbox *)

Section Mailboxes.
Context `{Host} `{XProto}.

Lemma mrun_app_inv m ls1 ls2 m' :
  mrun m (ls1 ++ ls2) m' → ∃ m1, mrun m ls1 m1 ∧ mrun m1 ls2 m'.
Proof.
  revert m. induction ls1 as [|l ls1 IH]; intros m Hrun; [by exists m; split; [constructor|]|].
  inversion Hrun as [|? ? m0 ? ? Hstep Hrun']; subst.
  destruct (IH m0 Hrun') as (m1 & ? & ?). exists m1. by split; [econstructor|].
Qed.

Lemma replies_got_from s fl ls : replies_got s fl ls ≠ [] → ∃ type buf, Got s type buf ∈ ls.
Proof.
  induction ls as [|l ls IH]; [done|]. rewrite replies_got_cons. intros Hne.
  destruct (decide (replies_got s fl ls = [])) as [Hn|Hn].
  - rewrite Hn, app_nil_r in Hne. destruct l as [| |t type buf| | |]; try done. cbn in Hne.
    destruct (Z.eqb_spec t s) as [->|]; [|by destruct (route _ _)]. exists type, buf. by left.
  - destruct (IH Hn) as (type & buf & ?). exists type, buf. by right.
Qed.

Lemma packets_completed m ls m' :
  mrun m ls m' → Forall packet_label ls → mb_completed m <= mb_read m →
  mb_completed m' <= mb_read m'.
Proof.
  induction 1 as [|m l m' ls m'' Hstep _ IH]; [done|]. intros [Hl Hls]%Forall_cons Hc.
  apply IH; [done|]. destruct Hstep as [| |m t type completed buf| | |]; try done.
  change (mb_completed (mb_got t type completed buf m)) with completed.
  unfold mb_got. destruct (route type _); cbn; lia.
Qed.

Lemma polled_inv m s e r m' :
  mrun m [Polled s e r] m' → r = mb_answer s e m ∧ m' = mb_set s (tail (mb_replies m s)) m.
Proof.
  intros Hrun. inversion Hrun as [|? ? m1 ? ? Hstep Hnil]; subst. inversion Hnil; subst.
  remember (Polled s e r) as l eqn:Hl. destruct Hstep; try done. by injection Hl as -> -> <-.
Qed.

(** The reply of request [q] has been taken: what the server sends for an earlier
    request [s] is in the mailbox, all of it. *)
Lemma polled_past m ls1 ls2 q s b m' mf :
  mrun m (ls1 ++ [Polled q true (Some (Some b, None))]) m' → mrun m (ls1 ++ ls2) mf →
  Forall packet_label (ls1 ++ ls2) → mb_completed m <= mb_read m →
  mb_replies m q = [] → s < q <= mb_last m →
  mb_replies m' s = mb_coming s (ls1 ++ ls2) m ∧ s < mb_read m'.
Proof.
  intros Hrun Hrunf [Hls1 Hls2]%Forall_app Hc Hq Hs.
  apply mrun_app_inv in Hrun as (m1 & Hm1 & [Ha ->]%polled_inv).
  assert (∃ type buf, Got q type buf ∈ ls1) as (type & buf & Hin).
  { apply (replies_got_from q (mb_flags m !! q)).
    intros Hn. pose proof (packets_replies m ls1 m1 q Hm1 Hls1 ltac:(lia)) as Hq1.
    rewrite Hq, Hn in Hq1. unfold mb_answer in Ha. rewrite Hq1 in Ha. by destruct (_ || _). }
  destruct (packets_read _ _ _ Hm1 Hls1) as [_ Hgot]. specialize (Hgot _ _ _ Hin).
  split; [|cbn; lia]. cbn. rewrite fn_lookup_insert_ne by lia.
  rewrite (packets_replies m ls1 m1 s Hm1 Hls1) by lia. unfold mb_coming. f_equal.
  apply mrun_app_inv in Hrunf as (mx & Hmx & Hrunf).
  destruct (packets_read _ _ _ Hmx Hls1) as [_ Hgotx]. specialize (Hgotx _ _ _ Hin).
  rewrite replies_got_app, (packets_complete mx ls2 mf s), app_nil_r; [done|done|done| |lia].
  by eapply packets_completed.
Qed.
End Mailboxes.

(** ** Waiting for what is there *)

Section Check.
Context `{Host} `{XProto}.

(** A request that has been written is not written again. *)
Lemma write_request_written s w :
  out_return_socket (w_out w) = None → out_request_written (w_out w) = out_request (w_out w) →
  0 <= s <= out_request (w_out w) → out_request (w_out w) - s < 2 ^ 31 →
  out_request (w_out w) < 2 ^ 63 → write_request (u32 s) w = Ret true w.
Proof.
  intros Hn Hw Hs Hd Hm. unfold write_request. rewrite bind_gets, Hn, bool_decide_eq_false_2 by by intros [? ?].
  rewrite widen_exact by lia. unfold _xcb_out_flush_to. rewrite bind_gets, Hw.
  assert (XCB_SEQUENCE_COMPARE s Z.leb (out_request (w_out w)) = true) as ->.
  { unfold XCB_SEQUENCE_COMPARE. apply Z.leb_le. words. }
  cbn [assertM]. rewrite bind_ret.
  assert (XCB_SEQUENCE_COMPARE (out_request (w_out w)) Z.geb s = true) as ->; [|done].
  unfold XCB_SEQUENCE_COMPARE. apply Z.geb_le. words.
Qed.

(** A reply that is there, or is known not to come, is returned at once. *)
Lemma await_reply_there lo w m s e r :
  Rel lo w m → holds_iolock w → u32 s ≠ 0 → lo <= s <= out_request (w_out w) →
  mb_answer s e m = Some r →
  ∃ w', await_reply (u32 s) e w = Ret r w' ∧ Rel lo w' (mb_set s (tail (mb_replies m s)) m) ∧
    has_error w' = has_error w.
Proof.
  intros Hr Hl Hz Hs Ha. rewrite await_reply_eq. cbn [wait_reply_loop].
  set (w0 := with_reader (u32 s) w).
  assert (Rel lo w0 m) as Hr0.
  { apply (rel_alike lo w); [|done]. pose proof (rel_oom _ _ _ Hr). split_and!; [|done..].
    exists (readers (w_in w0)), (in_reading (w_in w)). subst w0. cbn. by destruct (w_in w). }
  destruct (resp_poll _ _ (rel_responsive lo w0 m Hr0) s e Hz Hs) as (r1 & w1 & E1).
  rewrite (bind_run _ _ _ _ _ E1).
  destruct (step_polled lo w0 m s e r1 w1 Hr0 Hz Hs E1) as [-> Hr1].
  pose proof (keeps_poll_for_reply _ _ _ _ _ E1) as (_ & _ & _ & _ & Her & _).
  rewrite Ha. cbn. eexists. split; [done|]. split; [|done].
  apply (rel_alike lo w1); [|done]. pose proof (rel_oom _ _ _ Hr1). split_and!; [|done..].
  exists (remove_reader (Reader (u32 s) (os_fresh (w_os w))) (readers (w_in w1))),
    (in_reading (w_in w1)).
  cbn. by destruct (w_in w1).
Qed.

(** [xcb_wait_for_reply] of such a request. *)
Lemma wait_for_reply_there lo w m s e r :
  wait_ready w → Rel lo w m → out_return_socket (w_out w) = None →
  out_request_written (w_out w) = out_request (w_out w) →
  u32 s ≠ 0 → lo <= s <= out_request (w_out w) → mb_answer s e m = Some r →
  ∃ w', xcb_wait_for_reply (u32 s) e w = Ret r w' ∧
    Rel lo w' (mb_set s (tail (mb_replies m s)) m) ∧ has_error w' = false ∧ held w' = held w ∧
    w_out w' = w_out w ∧ os_sent (w_os w') = os_sent (w_os w).
Proof.
  intros Hw Hr Hn Hwr Hz Hs Ha. set (w0 := set_held (IoLock :: held w) w).
  destruct (rel_window _ _ _ Hr) as (Hw1 & Hw2 & Hw3). pose proof (sim_window _ _ _ (rel_sim _ _ _ Hr)).
  assert (holds_iolock w0) as Hl0 by (exists (held w); split; [done|apply Hw]).
  assert (Rel lo w0 m) as Hr0 by by apply (rel_outside lo w).
  destruct (await_reply_there lo w0 m s e r Hr0 Hl0 Hz Hs Ha) as (w1 & E1 & Hr1 & Her1).
  destruct (await_reply_inv (u32 s) e w0 _ _ Hl0 (wr_fresh _ Hw) E1) as (_ & Hh1 & Ho1 & _ & Hs1 & _).
  destruct (wait_for_reply_run lo (u32 s) e w w0 r w1 _ Hw (u32_range s)
    (write_request_written s w0 Hn Hwr ltac:(cbn; lia) ltac:(cbn; lia) Hw3) E1 Hh1 Hr1)
    as (w' & E' & Hr' & Her' & Ho' & Hs' & _ & Hh' & _).
  exists w'. rewrite Her', Her1, Hh', Ho', Hs', Ho1, Hs1. split_and!; try done. apply Hw.
Qed.

(** What is to come for an unanswered request, seen from the mailbox; sending
    another one does not change it. *)
Lemma unanswered_coming lo w m s ls sync fl :
  Rel lo w m → lo <= s <= out_request (w_out w) → request_completed (w_in w) < s →
  mb_coming s ls (mb_send sync fl m) = coming s ls w.
Proof.
  intros Hr Hs Hc. pose proof (rel_sim _ _ _ Hr) as Hsim. pose proof (rel_last _ _ _ Hr) as Hl.
  destruct (rel_window _ _ _ Hr) as (Hw1 & Hw2 & Hw3).
  unfold mb_coming, coming. f_equal.
  - apply (sim_pending_for lo _ (mb_demux m)); [done|lia].
  - rewrite (rel_flags _ _ _ Hr) by done. f_equal. unfold mb_send. cbn [mb_flags].
    destruct fl, sync; rewrite ?lookup_insert_ne by lia; done.
Qed.

(** The answer for a request without replies: the first error, if any. *)
Lemma error_answer_there m s l :
  mb_replies m s = l → s < mb_read m → Forall (λ b, field 0 1 b = XCB_ERROR) l →
  mb_answer s true m = Some (None, head l).
Proof.
  intros Hl Hs Herr. unfold mb_answer. rewrite Hl. destruct Herr as [|b l Hb _].
  - by rewrite (proj2 (Z.ltb_lt _ _) Hs).
  - unfold reply_result. by rewrite Hb.
Qed.

Section Focus.
Context `{!FocusStubs}.

Definition focus_vector : list iovec := [IovBuf focus_header; IovNull 0].

Lemma focus_vector_stub : stub_vector focus_vector focus_header [IovNull 0] 1.
Proof.
  pose proof focus_header_length as Hl. split; [done|lia|by repeat constructor|].
  unfold focus_vector, zlength. cbn. rewrite !length_app, Hl. done.
Qed.

Lemma focus_vector_body : drop 4 (payload focus_vector) = [].
Proof.
  pose proof focus_header_length as Hl. unfold payload, focus_vector. cbn.
  by rewrite drop_app_length' by done.
Qed.

(** The branch of [xcb_request_check] that asks for the input focus. *)
Lemma request_check_eq seq w c w1 r w2 :
  has_error w = false →
  XCB_SEQUENCE_COMPARE_32 seq Z.geb (request_expected (w_in w)) = true →
  XCB_SEQUENCE_COMPARE_32 seq Z.gtb (request_completed (w_in w)) = true →
  xcb_get_input_focus w = Ret c w1 → xcb_get_input_focus_reply c w1 = Ret (r, None) w2 →
  xcb_request_check seq w =
    bind (xcb_wait_for_reply seq true)
      (λ r, bind (assertM (bool_decide (r.1 = None))) (λ _, ret r.2)) w2.
Proof.
  intros He Hx Hc E1 E2. unfold xcb_request_check. rewrite bind_gets, He, bind_gets, Hx, Hc.
  cbn [andb when]. by rewrite bind_assoc, (bind_run _ _ _ _ _ E1), bind_assoc, (bind_run _ _ _ _ _ E2).
Qed.

(** C2. The error of a request.  An application has sent a request without reply on
    a connection that is idle now, and nothing has shown yet that the request is
    complete.  [xcb_request_check] then queues a [GetInputFocus], writes out all
    that is queued, waits for the answer to it, and returns the error the server
    sends for the request, or none if it sends none: whatever other packets come
    in between and in whatever pieces, and without an assertion failing. *)
Theorem request_check_reports lo w m s ps c w1 ls b more :
  idle lo w m → send_ready 1 focus_request w → flowing ps w →
  lo <= s <= out_request (w_out w) → u32 s ≠ 0 →
  lo <= request_expected (w_in w) <= s → request_completed (w_in w) < s →
  xcb_get_input_focus w = Ret c w1 → c ≠ 0 → packets_left lo w1 ls →
  replies_got (out_request (w_out w1)) (Some XCB_REQUEST_CHECKED) ls = b :: more →
  field 0 1 b ≠ XCB_ERROR →
  Forall (λ b, field 0 1 b = XCB_ERROR) (coming s ls w) →
  ∃ w' bytes, xcb_request_check (u32 s) w = Ret (head (coming s ls w)) w' ∧
    is_request 43 [] bytes ∧ os_sent (w_os w') = wire w ++ bytes ∧ out_queue (w_out w') = [] ∧
    has_error w' = false ∧ held w' = held w.
Proof.
  intros Hidle Hr Hflow Hs Hz Hexp Hcomp E Hc Hls Hb Hnb Herr.
  pose proof Hidle as [Hready Hrel _ _ _ [Hlo Hmax]]. pose proof (rel_sim _ _ _ Hrel) as Hsim.
  pose proof (sim_window _ _ _ Hsim) as Hwin. pose proof (sim_completed _ _ _ Hsim) as [Hcz Hcr].
  destruct (rel_window _ _ _ Hrel) as (Hw1 & Hw2 & Hw3). pose proof (rel_last _ _ _ Hrel) as Hlast.
  pose proof E as E0. rewrite get_input_focus_sends in E.
  destruct (send_and_wait lo w m XCB_REQUEST_CHECKED 2 focus_vector focus_header [IovNull 0] 1
    focus_request c w1 ps ls true Hidle focus_vector_stub Hr ltac:(lia) eq_refl Hflow E Hc Hls)
    as (w2 & bytes & ls1 & ls2 & m2 & -> & Hlt & Her1 & Hrel1 & E2 & Hreq & Hsent & Hready2 & Hh2 & _ & Hn2 &
      Ho2 & Els & Hm2 & Hr2 & mf & Hmf).
  { left. change (wanted XCB_REQUEST_CHECKED) with (Some XCB_REQUEST_CHECKED). by rewrite Hb. }
  change (wanted XCB_REQUEST_CHECKED) with (Some XCB_REQUEST_CHECKED) in *.
  change (needs_sync (req_isvoid focus_request) _ _) with false in *.
  set (q := out_request (w_out w1)) in *. set (m1 := mb_send false (Some XCB_REQUEST_CHECKED) m) in *.
  rewrite Hb in E2, Hm2.
  assert (first_answer (b :: more) true = (Some b, None)) as Hfa.
  { cbn. unfold reply_result. by rewrite (proj2 (Z.eqb_neq _ _) Hnb). }
  rewrite Hfa in E2, Hm2. subst ls.
  pose proof (rel_last _ _ _ Hrel1) as Hq1. fold q in Hq1.
  destruct (polled_past m1 ls1 ls2 q s b m2 mf Hm2 Hmf) as [Hco Hread]; [apply Hls| | |lia|].
  { pose proof (rel_completed _ _ _ Hrel). pose proof (sim_read _ _ _ Hsim) as Hrd. cbn in Hrd |- *. lia. }
  { apply (sim_future _ _ _ Hsim). lia. }
  unfold m1 in Hco. rewrite (unanswered_coming lo w m s (ls1 ++ ls2) _ _ Hrel Hs Hcomp) in Hco.
  destruct (wait_for_reply_there lo w2 m2 s true (None, head (coming s (ls1 ++ ls2) w)) Hready2 Hr2 Hn2)
    as (w3 & E3 & _ & Her3 & Hh3 & Ho3 & Hs3);
    [by rewrite Ho2|done|rewrite Ho2; cbn; lia|by apply error_answer_there|].
  exists w3, bytes. rewrite (request_check_eq _ w (u32 q) w1 (Some b) w2); [|apply Hready| | |done|].
  - rewrite (bind_run _ _ _ _ _ E3). split_and!; [done| |by rewrite Hs3|by rewrite Ho3, Ho2|done|congruence].
    by rewrite focus_vector_body in Hreq.
  - rewrite compare_32_counter by lia. apply Z.geb_le. lia.
  - rewrite compare_32_counter by lia. apply Z.gtb_lt. lia.
  - by rewrite get_input_focus_reply_waits.
Qed.
End Focus.
End Check.

(** ** The hypotheses can hold *)

(** A server that knows the protocol, with the stubs as they are generated. *)
Definition focus_proto `{Host} : XProto := {|
  setup_request_bytes := @setup_request_bytes sample_proto;
  setup_failed_reason := @setup_failed_reason sample_proto;
  setup_authenticate_reason := @setup_authenticate_reason sample_proto;
  XCB_KEYMAP_NOTIFY := @XCB_KEYMAP_NOTIFY sample_proto;
  setup_view := @setup_view sample_proto;
  xcb_big_requests_id := @xcb_big_requests_id sample_proto;
  xcb_xc_misc_id := @xcb_xc_misc_id sample_proto;
  xcb_query_extension := @xcb_query_extension sample_proto;
  xcb_query_extension_reply := @xcb_query_extension_reply sample_proto;
  xcb_big_requests_enable := @xcb_big_requests_enable sample_proto;
  xcb_big_requests_enable_reply := @xcb_big_requests_enable_reply sample_proto;
  xcb_xc_misc_get_xid_range := @xcb_xc_misc_get_xid_range sample_proto;
  xcb_xc_misc_get_xid_range_reply := @xcb_xc_misc_get_xid_range_reply sample_proto;
  xcb_get_input_focus :=
    @xcb_send_request _ sample_proto XCB_REQUEST_CHECKED 2
      [IovBuf (byte_of <$> [43; 0; 1; 0]); IovNull 0] focus_request;
  xcb_get_input_focus_reply := λ c, @xcb_wait_for_reply _ sample_proto c true;
  return_socket_callback := @return_socket_callback sample_proto
|}.

Section Witnesses.
#[local] Existing Instances sample_host focus_proto.

#[local] Instance focus_stubs : FocusStubs.
Proof.
  refine {| focus_header := byte_of <$> [43; 0; 1; 0] |}; [done|reflexivity|reflexivity].
Defined.

(** Request 1, which has no reply, is on the wire.  The server sends an event, the
    error of request 1 and the reply of the [GetInputFocus], in two pieces. *)
Definition check_error : list byte := sample_packet XCB_ERROR 1 0.
Definition check_reply : list byte := sample_packet XCB_REPLY 2 0.
Definition check_stream : list byte := one_event ++ check_error ++ check_reply.

Definition check_start : world :=
  set_w_os (sample_os [RecvData (take 40 check_stream); RecvAgain; RecvData (drop 40 check_stream)]
      (PollReady POLLOUT :: replicate 120 (PollReady POLLIN)) [])
    (one_sent []).

Definition check_asked : world := final check_start (xcb_get_input_focus check_start).

Definition check_packets : list label :=
  [Got 0 2 (one_event ++ host_bytes 4 0); Got 1 XCB_ERROR (check_error ++ host_bytes 4 1);
   Got 2 XCB_REPLY check_reply].

Lemma check_idle : idle 0 check_start one_sent_mailbox.
Proof.
  split; [split; [done|set_solver|split; by vm_compute|]| |done|done|by vm_compute|by vm_compute].
  - intros r Hr. by apply not_elem_of_nil in Hr.
  - apply (rel_outside 0 (one_sent [])); [apply one_sent_rel|done..].
Qed.

Lemma check_flowing : flowing (replicate 120 (PollReady POLLIN)) check_start.
Proof.
  split; [done|done|by repeat constructor|by apply Forall_replicate|by apply Nat.leb_le].
Qed.

Lemma check_asked_packets : packets_left 0 check_asked check_packets.
Proof.
  split; [by repeat constructor|].
  set (w1 := whole check_asked). set (w2 := final w1 (read_packet w1)).
  set (w3 := final w2 (read_packet w2)).
  exists (final w3 (read_packet w3)). split; [|by vm_compute].
  eapply CCons; [|eapply CCons; [|eapply CCons; [|apply CNil]]].
  - got_tac w1 0.
  - got_tac w2 1.
  - got_tac w3 2.
Qed.

Lemma request_check_reports_witness :
  head (coming 1 check_packets check_start) = Some (check_error ++ host_bytes 4 1) ∧
  ∃ w' bytes,
    xcb_request_check (u32 1) check_start = Ret (head (coming 1 check_packets check_start)) w' ∧
    is_request 43 [] bytes ∧ os_sent (w_os w') = wire check_start ++ bytes ∧
    out_queue (w_out w') = [] ∧ has_error w' = false ∧ held w' = held check_start.
Proof.
  split; [by vm_compute|].
  apply (request_check_reports 0 check_start one_sent_mailbox 1 (replicate 120 (PollReady POLLIN))
    2 check_asked check_packets check_reply []).
  - apply check_idle.
  - unfold send_ready. cbn. split_and!; try done; try set_solver; try lia. by exists [].
  - apply check_flowing.
  - vm_compute. split; discriminate.
  - by vm_compute.
  - vm_compute. split; discriminate.
  - by vm_compute.
  - by vm_compute.
  - done.
  - apply check_asked_packets.
  - by vm_compute.
  - by vm_compute.
  - repeat constructor.
Defined.
End Witnesses.
