(* ===== verification/Handover.v ===== *)
(** * Lending the socket

    [xcb_take_socket] hands the write side of the socket to an owner outside the
    library, which writes its own requests with [xcb_writev] when the library
    asks for the socket back; the next [xcb_send_request] does that.  This file
    follows the socket from XCB to the owner and back. *)
From S2P Require Import Prelude Effects Seq XcbMap State In InFrame InFacts InSafety Demux Conn Chunks.
From S2P Require Import Out OutFacts OutProps Request RequestFacts RequestProps Pending Mailbox Sample.
From stdpp Require Import list.
#[local] Open Scope Z_scope.

(** An owner that writes [data], which holds [n] requests, when it is asked for the
    socket. *)
Class SocketOwner `{Host} `{XProto} (cb closure : Z) (data : list (list byte)) (n : Z) := {
  owner_writes w :
    return_socket_callback cb closure w = bind (xcb_writev data n) (λ _, ret ()) w;
  owner_small : small_iov data;
  owner_data : concat data ≠ [];
  owner_count : 0 <= n
}.

(** The entry [xcb_take_socket] registers after request [q], and what is left of it
    once the owner has sent the requests up to [last]. *)
Definition owner_pending (fl q : Z) : list pending_reply :=
  if fl =? 0 then [] else [PendingReply q q WORKAROUND_EXTERNAL_SOCKET_OWNER fl].
Definition owner_answers (fl q last : Z) : list pending_reply :=
  if fl =? 0 then [] else [PendingReply q last WORKAROUND_NONE fl].

(** The output side while the socket is lent, and once [n] requests have been
    written with it. *)
Definition lent (cb closure : Z) (o : xcb_out) : xcb_out :=
  set_out_socket_closure closure (set_out_return_socket (Some cb)
    (set_out_request_written (out_request o) (set_out_queue [] o))).
Definition returned_out (n : Z) (o : xcb_out) : xcb_out :=
  set_out_socket_closure 0 (set_out_return_socket None (set_out_socket_moving false
    (set_out_request_written (out_request o + n) (set_out_request (out_request o + n) o)))).

(** What both sides of the hand-over leave alone. *)
Record lending (w w' : world) : Prop := {
  lend_held : held w' = held w;
  lend_setup : setup w' = setup w;
  lend_error : has_error w' = has_error w;
  lend_oom : os_mallocs (w_os w') = os_mallocs (w_os w)
}.

#[export] Instance lending_preorder : PreOrder lending.
Proof. split; [by split|]. intros w1 w2 w3 [] []. split; congruence. Qed.

Section Handover.
Context `{Host} `{XProto}.

Lemma quiet_lending w w' : quiet w w' → send_side w w' → lending w w'.
Proof. intros (_ & _ & Hm & He) Hs. split; [apply Hs|apply Hs|done|done]. Qed.

(** ** From XCB to the owner *)

Lemma expect_owner_run q fl w :
  no_oom w →
  when (negb (fl =? 0))
    (bind (_xcb_in_expect_reply q WORKAROUND_EXTERNAL_SOCKET_OWNER fl) (λ _, ret ())) w =
  Ret () (set_w_in (set_pending_replies (pending_replies (w_in w) ++ owner_pending fl q) (w_in w)) w).
Proof.
  intros Ho. unfold owner_pending. destruct (fl =? 0); cbn [negb when].
  - rewrite app_nil_r. by destruct w as [? ? ? []].
  - by rewrite (bind_run _ _ _ _ _ (expect_reply_run q WORKAROUND_EXTERNAL_SOCKET_OWNER fl w Ho eq_refl)).
Qed.

(** [xcb_take_socket] while nobody has the socket and the kernel takes what is
    queued at once. *)
Lemma take_socket_run cb closure fl w ps :
  has_error w = false → (IoLock ∉ held w) → out_ok (w_out w) → out_writing (w_out w) = 0 →
  out_return_socket (w_out w) = None → no_oom w →
  os_writevs (w_os w) = [] → os_polls (w_os w) = flush_polls (w_out w) ++ ps →
  let q := out_request (w_out w) in
  ∃ w', xcb_take_socket cb closure fl w = Ret (true, Some q) w' ∧ lending w w' ∧
    w_out w' = lent cb closure (w_out w) ∧
    w_in w' = set_pending_replies (pending_replies (w_in w) ++ owner_pending fl q) (w_in w) ∧
    os_sent (w_os w') = wire w ∧ os_polls (w_os w') = ps ∧ os_writevs (w_os w') = [].
Proof.
  intros He Hl Hk Hz Hn Hoom Hw Hp q. unfold xcb_take_socket, lend_socket.
  rewrite bind_gets, He, (bind_lock IoLock (held w)) by done.
  set (w1 := set_held (IoLock :: held w) w).
  rewrite (bind_run _ _ _ _ _ (get_socket_back_none w1 Hn)), bind_gets. unfold compose.
  destruct (flush_now w1 ps) as (w2 & E2 & Hqt & Hs & Hps & Hws & Ho & Hsent); try done.
  { by exists (held w). }
  pose proof (quiet_lending _ _ Hqt Hs) as [Hh2 Hset2 He2 Hm2]. destruct Hqt as (Hin & _).
  rewrite (bind_run _ _ _ _ _ E2). unfold modify_out.
  rewrite bind_assoc, bind_modify, bind_assoc, bind_gets, bind_assoc.
  set (w3 := set_w_out _ w2). assert (no_oom w3) as Hoom3 by (unfold no_oom; cbn; by rewrite Hm2).
  rewrite (bind_run _ _ _ _ _ (expect_owner_run _ fl w3 Hoom3)).
  rewrite bind_assoc, bind_gets, bind_assoc. unfold compose. cbn [w_out set_w_in].
  assert (w_out w3 = lent cb closure (w_out w)) as Ho3 by (subst w3; cbn; by rewrite Ho).
  rewrite Ho3. change (out_request (lent _ _ _)) with q. change (out_request_written (lent _ _ _)) with q.
  rewrite Z.eqb_refl. cbn [assertM]. rewrite bind_ret, bind_ret, (bind_unlock IoLock (held w)) by done.
  eexists. split; [done|]. split; [by split|]. split_and!; try done.
  cbn. by rewrite Hin.
Qed.

(** ** And back *)

(** [xcb_writev] of [n] requests to a kernel that takes them at once. *)
Lemma writev_run data n w ps :
  has_error w = false → (IoLock ∉ held w) → out_queue (w_out w) = [] → out_writing (w_out w) = 0 →
  small_iov data → concat data ≠ [] → os_writevs (w_os w) = [] →
  os_polls (w_os w) = PollReady POLLOUT :: ps →
  let q := u64 (out_request (w_out w) + n) in
  ∃ w', xcb_writev data n w = Ret true w' ∧ lending w w' ∧ w_in w' = w_in w ∧
    w_out w' = set_out_request_written q (set_out_request q (w_out w)) ∧
    os_sent (w_os w') = os_sent (w_os w) ++ concat data ∧ os_polls (w_os w') = ps ∧
    os_writevs (w_os w') = [].
Proof.
  intros He Hl Hq Hz Hs Hd Hw Hp q. unfold xcb_writev.
  rewrite bind_gets, He, (bind_lock IoLock (held w)) by done. unfold modify_out. rewrite bind_modify.
  set (w1 := set_w_out _ _).
  destruct (out_send_once data w1 ps) as (w2 & E2 & Hqt & Hps & Hws); try done.
  { by exists (held w). }
  rewrite (bind_run _ _ _ _ _ E2).
  apply out_send_inv in E2 as (Hside & Ho & rest & Hsent & Hr & _); [|by exists (held w)|done..].
  rewrite Hr, app_nil_r in Hsent by done.
  pose proof (quiet_lending _ _ Hqt Hside) as []. destruct Hqt as (Hin & _).
  rewrite (bind_unlock IoLock (held w)) by done.
  eexists. split; [done|]. split; [by split|]. by split_and!.
Qed.

(** [_xcb_in_replies_done]: the owner's entry now ends with its last request. *)
Lemma replies_done_run l fl q w :
  pending_replies (w_in w) = l ++ owner_pending fl q →
  Forall (λ p, workaround p ≠ WORKAROUND_EXTERNAL_SOCKET_OWNER) l →
  _xcb_in_replies_done w =
    Ret () (set_w_in (set_pending_replies (l ++ owner_answers fl q (out_request (w_out w))) (w_in w)) w).
Proof.
  intros Hp Hl. unfold _xcb_in_replies_done. rewrite bind_gets. unfold id. rewrite Hp.
  unfold owner_pending, owner_answers in *. destruct (fl =? 0).
  - rewrite app_nil_r in *.
    assert (set_w_in (set_pending_replies l (w_in w)) w = w) as ->.
    { rewrite <- Hp. by destruct w as [? ? ? []]. }
    destruct (last l) as [p|] eqn:E; [|done]. apply last_Some in E as [l' ->].
    apply Forall_app in Hl as [_ [Hl _]%Forall_cons]. by rewrite bool_decide_eq_false_2.
  - rewrite last_snoc. cbn [workaround first_request flags]. rewrite bool_decide_eq_true_2 by done.
    cbn [when]. unfold modify_in, modify. by rewrite Hp, length_app, Nat.add_sub, take_app_length.
Qed.

(** [get_socket_back] while the owner has the socket: it writes what it has, and the
    library has the socket again. *)
Lemma get_socket_back_run cb closure data n `{!SocketOwner cb closure data n} w l fl q ps :
  has_error w = false → holds_iolock w → out_queue (w_out w) = [] → out_writing (w_out w) = 0 →
  out_return_socket (w_out w) = Some cb → out_socket_closure (w_out w) = closure →
  out_socket_moving (w_out w) = false → 0 <= out_request (w_out w) < 2 ^ 63 →
  out_request (w_out w) + n < 2 ^ 63 →
  os_writevs (w_os w) = [] → os_polls (w_os w) = PollReady POLLOUT :: ps →
  pending_replies (w_in w) = l ++ owner_pending fl q →
  Forall (λ p, workaround p ≠ WORKAROUND_EXTERNAL_SOCKET_OWNER) l →
  ∃ w', get_socket_back w = Ret () w' ∧ lending w w' ∧
    w_out w' = returned_out n (w_out w) ∧
    w_in w' = set_pending_replies (l ++ owner_answers fl q (out_request (w_out w) + n)) (w_in w) ∧
    os_sent (w_os w') = os_sent (w_os w) ++ concat data ∧ os_polls (w_os w') = ps ∧
    os_writevs (w_os w') = [].
Proof.
  intros He (h & Hh & Hl) Hq Hz Hcb Hcl Hm Hr Hrn Hw Hp Hpend Hpl. unfold get_socket_back.
  rewrite bind_gets, Hm, andb_false_r, bind_when_false, Hcb, Hcl. unfold modify_out.
  rewrite bind_modify, (bind_unlock IoLock h) by done. set (w1 := set_held h _).
  destruct (writev_run data n w1 ps) as (w2 & E2 & [Hh2 Hs2 He2 Hm2] & Hi2 & Ho2 & Hsent & Hps & Hws);
    try done; [apply owner_small|apply owner_data|].
  assert (return_socket_callback cb closure w1 = Ret () w2) as Ecb.
  { by rewrite owner_writes, (bind_run _ _ _ _ _ E2). }
  pose proof (owner_count (n := n)). change (out_request (w_out w1)) with (out_request (w_out w)) in Ho2.
  rewrite (u64_small (_ + n)) in Ho2 by lia.
  rewrite (bind_run _ _ _ _ _ Ecb), (bind_lock IoLock h) by done.
  unfold pthread_cond_broadcast, modify_os. rewrite !bind_modify.
  match goal with |- context [_xcb_in_replies_done ?w'] => set (w3 := w') end.
  assert (w_in w3 = w_in w) as Hi3 by (subst w3; cbn; by rewrite Hi2).
  assert (w_out w3 = returned_out n (w_out w)) as Ho3 by (subst w3; cbn; by rewrite Ho2).
  rewrite (replies_done_run l fl q) by (done || by rewrite Hi3).
  eexists. split; [done|]. rewrite Ho3, Hi3. split; [split; [cbn; congruence|done..]|]. split_and!; try done.
Qed.

(** [xcb_send_request] gets the socket back and goes on as it does without an
    owner. *)
Lemma send_locked_back fl slots vec big wk isvoid w w2 :
  out_writing (w_out w) = 0 → get_socket_back w = Ret () w2 →
  out_writing (w_out w2) = 0 → out_return_socket (w_out w2) = None →
  send_locked fl slots vec big wk isvoid w = send_locked fl slots vec big wk isvoid w2.
Proof.
  intros Hz E Hz2 Hn2. unfold send_locked. rewrite !bind_gets. unfold compose. rewrite Hz, Hz2.
  cbn [Z.eqb negb]. rewrite !bind_when_false. unfold number_request.
  by rewrite !bind_assoc, (bind_run _ _ _ _ _ E), (bind_run _ _ _ _ _ (get_socket_back_none w2 Hn2)).
Qed.

Lemma send_request_back fl slots vector d rest k req w w2 :
  stub_vector vector d rest k → send_ready k req w2 → has_flag fl XCB_REQUEST_RAW = false →
  lending w w2 → out_writing (w_out w) = 0 →
  get_socket_back (set_held (IoLock :: held w) w) = Ret () (set_held (IoLock :: held w) w2) →
  xcb_send_request fl slots vector req w = xcb_send_request fl slots vector req w2.
Proof.
  intros Hv (He2 & Hl2 & Hz2 & Hn2 & Hc & _ & Hk & _ & bs & Hset & Hlim) Hraw [Hh Hs He _] Hz E.
  unfold xcb_send_request. rewrite !bind_gets, <- He, He2. rewrite bool_decide_eq_false_2.
  2: { rewrite (sv_eq _ _ _ _ Hv), zlength_cons. pose proof (zlength_nonneg rest). lia. }
  cbn [negb assertM]. rewrite !bind_ret, Hraw. pose proof Hset as Hset1. rewrite Hs in Hset1.
  assert (0 < k <= setup_maximum_request_length (setup_view bs)) as Hk2 by lia.
  rewrite (bind_run _ _ _ _ _ (fill_header_short _ _ _ _ bs req w Hv Hset1 Hc Hk2 (proj2 Hk))).
  rewrite (bind_run _ _ _ _ _ (fill_header_short _ _ _ _ bs req w2 Hv Hset Hc Hk2 (proj2 Hk))).
  unfold glx_workaround. rewrite Hc, !bind_ret, !(bind_lock IoLock (held w)) by (done || by rewrite <- Hh).
  unfold bind at 1 3. by rewrite (send_locked_back _ _ _ _ _ _ (set_held (IoLock :: held w) w) _ Hz E Hz2 Hn2).
Qed.

(** A connection whose socket can be lent: nobody has it, and the kernel takes what
    is queued at once. *)
Record lendable (ps : list poll_event) (w : world) : Prop := {
  ld_error : has_error w = false;
  ld_lock : IoLock ∉ held w;
  ld_ok : out_ok (w_out w);
  ld_writing : out_writing (w_out w) = 0;
  ld_owner : out_return_socket (w_out w) = None;
  ld_moving : out_socket_moving (w_out w) = false;
  ld_oom : no_oom w;
  ld_pending : Forall (λ p, workaround p ≠ WORKAROUND_EXTERNAL_SOCKET_OWNER) (pending_replies (w_in w));
  ld_writevs : os_writevs (w_os w) = [];
  ld_polls : os_polls (w_os w) = flush_polls (w_out w) ++ ps
}.

(** The socket is lent and comes back. *)
Lemma lend_and_return cb closure data n `{!SocketOwner cb closure data n} fl w ps :
  lendable (PollReady POLLOUT :: ps) w → out_request (w_out w) + n < 2 ^ 63 →
  let q := out_request (w_out w) in
  ∃ w1 w2,
    xcb_take_socket cb closure fl w = Ret (true, Some q) w1 ∧ lending w w1 ∧
    w_out w1 = lent cb closure (w_out w) ∧ os_sent (w_os w1) = wire w ∧
    get_socket_back (set_held (IoLock :: held w) w1) = Ret () (set_held (IoLock :: held w) w2) ∧
    lending w w2 ∧ w_out w2 = returned_out n (w_out w1) ∧
    w_in w2 = set_pending_replies (pending_replies (w_in w) ++ owner_answers fl q (q + n)) (w_in w) ∧
    os_sent (w_os w2) = wire w ++ concat data.
Proof.
  intros [He Hl Hk Hz Hn Hm Hoom Hpend Hw Hp] Hb q. pose proof (ok_request _ Hk).
  pose proof (owner_count (n := n)).
  destruct (take_socket_run cb closure fl w _ He Hl Hk Hz Hn Hoom Hw Hp)
    as (w1 & E1 & L1 & Ho1 & Hi1 & Hs1 & Hp1 & Hw1). fold q in E1, Hi1.
  pose proof L1 as [Hh1 _ He1 _].
  destruct (get_socket_back_run cb closure data n (set_held (IoLock :: held w) w1)
    (pending_replies (w_in w)) fl q ps) as (w2 & E2 & [Hh2 ? ? ?] & Ho2 & Hi2 & Hs2 & _ & _);
    cbn [w_in w_out w_os has_error set_held]; rewrite ?Ho1, ?Hi1, ?He1; try done; [|cbn; lia..|].
  { by exists (held w). }
  cbn in Hh2, Hs2. cbn [w_in w_out set_held] in Hi2, Ho2. rewrite Ho1, Hi1 in Hi2.
  exists w1, (set_held (held w) w2). split_and!; try done.
  - assert (set_held (IoLock :: held w) (set_held (held w) w2) = w2) as ->; [|done].
    rewrite <- Hh2. by destruct w2.
  - transitivity w1; [done|]. by split.
  - cbn. by rewrite Hs2, Hs1.
Qed.

(** C21. The socket is lent and comes back.  [xcb_take_socket] writes out all that is
    queued, and tells the new owner the number of the last request.  The next
    [xcb_send_request] makes the owner write what it has: its bytes follow on the
    wire, then comes the request, numbered after the owner's, and XCB has the
    socket again.  If the owner asked for replies, those from that last number to
    the number of the owner's last request are expected with its flags. *)
Theorem socket_handover cb closure data n `{!SocketOwner cb closure data n}
    fl w ps fl' slots vector d rest k req :
  send_ready k req w → stub_vector vector d rest k → (0 < slots)%nat →
  has_flag fl' XCB_REQUEST_RAW = false →
  lendable (PollReady POLLOUT :: ps) w →
  out_request (w_out w) + n + 2 < 2 ^ 63 →
  let q := out_request (w_out w) in
  let b := needs_sync (req_isvoid req) (q + n + 1) (request_expected (w_in w)) in
  ∃ w1 w2 bytes,
    xcb_take_socket cb closure fl w = Ret (true, Some q) w1 ∧
    os_sent (w_os w1) = wire w ∧ out_return_socket (w_out w1) = Some cb ∧
    xcb_send_request fl' slots vector req w1 = Ret (u32 (out_request (w_out w2))) w2 ∧
    is_request (req_opcode req) (drop 4 (payload vector)) bytes ∧
    out_request (w_out w2) = (if b then q + n + 1 + 1 else q + n + 1) ∧
    wire w2 = wire w ++ concat data ++ (if b then sync_req else []) ++ bytes ∧
    out_return_socket (w_out w2) = None ∧
    pending_replies (w_in w2) = pending_replies (w_in w) ++ owner_answers fl q (q + n) ++
      added b (q + n + 1) WORKAROUND_NONE
        (registered (Z.land fl' (Z.lnot XCB_REQUEST_RAW)) WORKAROUND_NONE) ∧
    has_error w2 = false ∧ held w2 = held w.
Proof.
  intros Hr Hv Hs Hraw Hld Hn q b. pose proof (owner_count (n := n)).
  destruct (lend_and_return cb closure data n fl w ps Hld ltac:(lia))
    as (w1 & w2 & E1 & L1 & Ho1 & Hs1 & E2 & L2 & Ho2 & Hi2 & Hs2). rewrite Ho1 in Ho2. fold q in E1, Hi2.
  pose proof Hld as [_ _ Hk Hz _ _ Hoom _ _ _]. pose proof (ok_request _ Hk).
  assert (no_oom w2) as Hoom2 by (unfold no_oom; by rewrite (lend_oom _ _ L2)).
  assert (send_ready k req w2) as Hr2.
  { destruct Hr as (He & Hl & _ & _ & Hc & Hq & H16 & Hfit & bs & Hset & Hlim). destruct L2 as [Hh Hset2 He2 _].
    pose proof (zlength_nonneg (out_queue (w_out w))).
    unfold send_ready. rewrite Ho2. cbn.
    change (zlength []) with 0. split_and!; try done; try lia.
    - congruence.
    - by rewrite Hh.
    - exists bs. by split; [congruence|]. }
  assert (out_request (w_out w2) = q + n) as Hq2 by by rewrite Ho2.
  assert (request_expected (w_in w2) = request_expected (w_in w)) as Hx by by rewrite Hi2.
  destruct (send_core fl' slots vector d rest k req w2 Hv Hr2 Hs Hraw)
    as (w3 & bytes & E3 & Hreq & (Ho3 & Hs3 & Hh3 & _ & He3) & _ & vec & p & wn & En & Hwn).
  apply number_request_pending in En as (_ & _ & e & Hin); [|done|cbn; by rewrite Ho2|cbn; rewrite Hq2; lia].
  cbn [w_in w_out set_held] in Hin. rewrite Hq2, Hx in Ho3, Hin. fold b in Ho3, Hin.
  exists w1, w3, bytes. split_and!; try done.
  - by rewrite Ho1.
  - rewrite <- E3. destruct L1 as [Hh1 ? ? ?]. destruct L2.
    apply (send_request_back fl' slots vector d rest k req); try done.
    + split; congruence.
    + by rewrite Ho1.
    + by rewrite Hh1.
  - by rewrite Ho3.
  - unfold wire at 1. rewrite Ho3, Hs3, Hs2, Ho2. cbn. by rewrite <- !app_assoc.
  - rewrite Ho3. cbn. by rewrite Ho2.
  - rewrite Hwn. cbn. rewrite Hin, Hi2. cbn. by rewrite <- app_assoc.
  - by apply He3.
  - rewrite Hh3. apply L2.
Qed.

(** ** The last request before the hand-over *)

(** The pending replies after the sequence bookkeeping. *)
Lemma sequence_effect_pend ok g i :
  ∃ c, pending_replies (sequence_effect ok g i) = pending_replies i ∨
    pending_replies (sequence_effect ok g i) = drop_completed c (pending_replies i).
Proof.
  unfold sequence_effect. destruct (_ =? XCB_KEYMAP_NOTIFY); [by exists 0; left|]. cbv zeta.
  destruct (XCB_SEQUENCE_COMPARE _ Z.gtb _), (_ =? request_read i), (current_reply i), ok,
    (response_type g =? XCB_ERROR); by eexists; right.
Qed.

(** An error packet for request [q]. *)
Record error_for (q : Z) (pkt : list byte) : Prop := {
  ef_length : zlength pkt = 32;
  ef_type : response_type (parse_generic_reply pkt) = XCB_ERROR;
  ef_sequence : sequence (parse_generic_reply pkt) = u16 q
}.

(** Where [read_packet] puts it depends on the first pending reply only. *)
Lemma read_error q pkt pend w :
  error_for q pkt → no_oom w → XCB_KEYMAP_NOTIFY ≠ 0 →
  0 <= request_read (w_in w) <= q → q < request_read (w_in w) + 2 ^ 16 → q < 2 ^ 63 →
  pending_replies (w_in w) = pend →
  pend = [] ∨ (∃ p, pend = [p] ∧ first_request p = q ∧ workaround p = WORKAROUND_EXTERNAL_SOCKET_OWNER) →
  let d := destination_of (parse_generic_reply pkt) (head pend) in
  ∃ w', read_packet (with_in_queue pkt w) = Ret true w' ∧
    let j := advance q (w_in w) in
    current_reply (w_in w') = current_reply (store d (pkt ++ host_bytes 4 q) j) ∧
    events (w_in w') = events (store d (pkt ++ host_bytes 4 q) j).
Proof.
  intros [Hlen Htype Hseq] Hoom Hkm Hr Hwin Hmax Hpend Hp d. set (w0 := with_in_queue pkt w).
  assert (front_header w0 = parse_generic_reply pkt) as Hh by done.
  destruct (sequence_effect_view (front_header w0) (w_in w0) q) as [(Hread & Hcur & _ & Hev) _];
    [|cbn; lia|done|].
  { unfold answers. rewrite Hh, Htype. change (Z.land XCB_ERROR 127) with 0.
    destruct (Z.eqb_spec 0 XCB_KEYMAP_NOTIFY); [done|]. cbn. by split; [lia|]. }
  fold (front_state w0) in Hread, Hcur, Hev.
  assert (request_read (advance q (w_in w0)) = q) as Hq.
  { unfold advance. by destruct (Z.eqb_spec q (request_read (w_in w0))). }
  assert (pending_replies (front_state w0) = pend) as Hpf.
  { destruct (sequence_effect_pend true (front_header w0) (w_in w0)) as [c Hc].
    fold (front_state w0) in Hc. change (pending_replies (w_in w0)) with (pending_replies (w_in w)) in Hc.
    rewrite Hpend in Hc. destruct Hp as [->|(p & -> & _ & Hwk)]; [by destruct Hc|].
    cbn in Hc. rewrite Hwk in Hc. by destruct Hc. }
  assert (front_pend w0 = head pend) as Hfp.
  { unfold front_pend, find_pend, matching_pend. rewrite Hh, Htype, Hpf, Hread, Hq. cbn.
    destruct Hp as [->|(p & -> & Hf & Hwk)]; [done|]. rewrite Hf, Hwk. cbn.
    unfold XCB_SEQUENCE_COMPARE. by rewrite Z.sub_diag. }
  assert (front_lengths w0 = (32, 0)) as Hl.
  { unfold front_lengths, packet_lengths. by rewrite Hh, Htype. }
  assert (front_buffer w0 = pkt ++ host_bytes 4 q) as Hb.
  { unfold front_buffer, packet_buffer. rewrite Hl, Hh, Htype, Hread, Hq. cbn.
    rewrite take_ge by (unfold zlength in Hlen; lia). by rewrite take_0, app_nil_r. }
  assert (front_destination w0 = d) as Hd by (unfold front_destination; by rewrite Hfp, Hh).
  rewrite (read_packet_front w0); [|done|].
  2: { unfold front_complete, front_length. rewrite Hl. cbn. lia. }
  eexists. split; [done|]. cbn. rewrite Hd, Hb.
  destruct d; cbn; rewrite ?Hcur, ?Hev; unfold advance; by destruct (_ =? _).
Qed.

(** C38. An owner that asks for errors gets one that is not its own: its entry starts
    at the last request XCB has sent itself.  If that request was sent unchecked
    and fails, its error would be an event; while the socket is lent it goes to
    the replies instead, where nobody asks for it. *)
Theorem take_socket_claims_last_request cb closure w ps pkt :
  lendable ps w → pending_replies (w_in w) = [] → XCB_KEYMAP_NOTIFY ≠ 0 →
  let q := out_request (w_out w) in
  0 <= request_read (w_in w) <= q → q < request_read (w_in w) + 2 ^ 16 → q < 2 ^ 63 →
  error_for q pkt →
  ∃ w1 w2 w3,
    xcb_take_socket cb closure XCB_REQUEST_CHECKED w = Ret (true, Some q) w1 ∧
    read_packet (with_in_queue pkt w) = Ret true w2 ∧
    events (w_in w2) = events (w_in w) ++ [pkt ++ host_bytes 4 q] ∧
    read_packet (with_in_queue pkt w1) = Ret true w3 ∧ events (w_in w3) = events (w_in w) ∧
    last (current_reply (w_in w3)) = Some (pkt ++ host_bytes 4 q).
Proof.
  intros [He Hl Hk Hz Hn _ Hoom _ Hw Hp] Hpend Hkm q Hr Hwin Hmax Herr.
  destruct (take_socket_run cb closure XCB_REQUEST_CHECKED w ps He Hl Hk Hz Hn Hoom Hw Hp)
    as (w1 & E1 & L1 & _ & Hi1 & _). fold q in E1, Hi1. rewrite Hpend in Hi1. cbn in Hi1.
  assert (destination_of (parse_generic_reply pkt) None = ToEvents ∧
    destination_of (parse_generic_reply pkt)
      (Some (PendingReply q q WORKAROUND_EXTERNAL_SOCKET_OWNER XCB_REQUEST_CHECKED)) = ToReplies)
    as [Hd Hd1] by (unfold destination_of; by rewrite (ef_type _ _ Herr)).
  destruct (read_error q pkt [] w Herr Hoom Hkm) as (w2 & E2 & _ & Hev2); auto.
  destruct (read_error q pkt
    [PendingReply q q WORKAROUND_EXTERNAL_SOCKET_OWNER XCB_REQUEST_CHECKED] w1 Herr)
    as (w3 & E3 & Hcur3 & Hev3); rewrite ?Hi1; cbn; auto.
  { unfold no_oom. by rewrite (lend_oom _ _ L1). }
  { by right; eexists. }
  cbn [head] in Hev2, Hcur3, Hev3. rewrite Hd in Hev2. rewrite Hd1 in Hcur3, Hev3.
  exists w1, w2, w3. split_and!; try done.
  - rewrite Hev2. cbn. unfold advance. by destruct (_ =? _).
  - rewrite Hev3, Hi1. cbn. unfold advance. by destruct (_ =? _).
  - rewrite Hcur3. cbn. apply last_snoc.
Qed.
End Handover.

(** ** The hypotheses can hold *)

(** A server and an owner that has one request of four bytes to write. *)
Definition owner_data_4 : list (list byte) := [byte_of <$> [127; 0; 1; 0]].

Definition owner_proto `{Host} : XProto := {|
  setup_request_bytes := @setup_request_bytes sample_proto;
  setup_failed_reason := @setup_failed_reason sample_proto;
  setup_authenticate_reason := @setup_authenticate_reason sample_proto;
  XCB_KEYMAP_NOTIFY := @XCB_KEYMAP_NOTIFY sample_proto;
  setup_view := @setup_view sample_proto;
  xcb_big_requests_id := @xcb_big_requests_id sample_proto;
  xcb_xc_misc_id := @xcb_xc_misc_id sample_proto;
  xcb_query_extension := @xcb_query_extension sample_proto;
  xcb_query_extension_reply := @xcb_query_extension_reply sample_proto;
  xcb_big_requests_enable := @xcb_big_requests_enable sample_proto;
  xcb_big_requests_enable_reply := @xcb_big_requests_enable_reply sample_proto;
  xcb_xc_misc_get_xid_range := @xcb_xc_misc_get_xid_range sample_proto;
  xcb_xc_misc_get_xid_range_reply := @xcb_xc_misc_get_xid_range_reply sample_proto;
  xcb_get_input_focus := @xcb_get_input_focus sample_proto;
  xcb_get_input_focus_reply := @xcb_get_input_focus_reply sample_proto;
  return_socket_callback := λ _ _, bind (@xcb_writev _ sample_proto owner_data_4 1) (λ _, ret ())
|}.

Section Witnesses.
#[local] Existing Instances sample_host owner_proto.

#[local] Instance sample_owner : SocketOwner 5 6 owner_data_4 1.
Proof. split; [done|by repeat constructor|done|lia]. Qed.

(** Request 1, which has no reply, is queued. *)
Definition hand_world : world :=
  sample_world (sample_in []) (sample_out sample_header 1 0)
    (sample_os [] (replicate 3 (PollReady POLLOUT)) []).

Lemma hand_lendable : lendable (replicate 2 (PollReady POLLOUT)) hand_world.
Proof. split; try done; set_solver. Qed.

Lemma socket_handover_witness :
  let q := 1 in
  let b := needs_sync true (q + 1 + 1) (request_expected (w_in hand_world)) in
  ∃ w1 w2 bytes,
    xcb_take_socket 5 6 XCB_REQUEST_CHECKED hand_world = Ret (true, Some q) w1 ∧
    os_sent (w_os w1) = wire hand_world ∧ out_return_socket (w_out w1) = Some 5 ∧
    xcb_send_request XCB_REQUEST_CHECKED 2 sample_vector void_request w1 =
      Ret (u32 (out_request (w_out w2))) w2 ∧
    is_request (req_opcode void_request) (drop 4 (payload sample_vector)) bytes ∧
    out_request (w_out w2) = (if b then q + 1 + 1 + 1 else q + 1 + 1) ∧
    wire w2 = wire hand_world ++ concat owner_data_4 ++ (if b then sync_req else []) ++ bytes ∧
    out_return_socket (w_out w2) = None ∧
    pending_replies (w_in w2) = pending_replies (w_in hand_world) ++
      owner_answers XCB_REQUEST_CHECKED q (q + 1) ++
      added b (q + 1 + 1) WORKAROUND_NONE
        (registered (Z.land XCB_REQUEST_CHECKED (Z.lnot XCB_REQUEST_RAW)) WORKAROUND_NONE) ∧
    has_error w2 = false ∧ held w2 = held hand_world.
Proof.
  apply (socket_handover 5 6 owner_data_4 1 XCB_REQUEST_CHECKED hand_world [PollReady POLLOUT]
    XCB_REQUEST_CHECKED 2 sample_vector sample_header sample_rest 3 void_request).
  - unfold send_ready. cbn. split_and!; try done; try set_solver; try lia.
    exists []. split; [done|lia].
  - apply sample_vector_stub.
  - lia.
  - reflexivity.
  - apply hand_lendable.
  - cbn. lia.
Defined.

(** The error of request 1. *)
Lemma take_socket_claims_last_request_witness :
  let pkt := sample_packet XCB_ERROR 1 0 in
  ∃ w1 w2 w3,
    xcb_take_socket 5 6 XCB_REQUEST_CHECKED hand_world = Ret (true, Some 1) w1 ∧
    read_packet (with_in_queue pkt hand_world) = Ret true w2 ∧
    events (w_in w2) = events (w_in hand_world) ++ [pkt ++ host_bytes 4 1] ∧
    read_packet (with_in_queue pkt w1) = Ret true w3 ∧ events (w_in w3) = events (w_in hand_world) ∧
    last (current_reply (w_in w3)) = Some (pkt ++ host_bytes 4 1).
Proof.
  apply (take_socket_claims_last_request 5 6 hand_world (replicate 2 (PollReady POLLOUT))
    (sample_packet XCB_ERROR 1 0)).
  - apply hand_lendable.
  - reflexivity.
  - by vm_compute.
  - cbn. lia.
  - cbn. lia.
  - cbn. lia.
  - split; by vm_compute.
Defined.
End Witnesses.
