(* ===== verification/ConnectProps.v ===== *)
(** * Setting a connection up: properties

    The setup message can be decoded, exactly one setup reply is read, and a
    failed attempt closes the descriptor. *)
From S2P Require Import Prelude Effects Seq State Sample In InFrame InFacts Conn Out Ext Xid.
From S2P Require Import OutFacts OutProps Connect RoundTrip.
From Stdlib Require Import Strings.Byte.
#[local] Open Scope Z_scope.

(** ** Sequencing *)

Lemma and_then_inv a b w r w' : and_then a b w = Ret r w' →
  (∃ w1, a w = Ret true w1 ∧ b w1 = Ret r w') ∨ (a w = Ret false w' ∧ r = false).
Proof.
  unfold and_then. intros ([] & w1 & Ha & Hb)%bind_inv; [left; by exists w1|right].
  by injection Hb as <- <-.
Qed.

Lemma and_then_true a b w w' : and_then a b w = Ret true w' →
  ∃ w1, a w = Ret true w1 ∧ b w1 = Ret true w'.
Proof. by intros [?|[_ ?]]%and_then_inv. Qed.

Lemma and_then_run a b w w1 : a w = Ret true w1 → and_then a b w = b w1.
Proof. intros Ha. unfold and_then. by rewrite (bind_run _ _ _ _ _ Ha). Qed.

(** ** The descriptor *)

Lemma obeys_weaken {A} (R R' : relation world) (m : xM A) :
  (∀ w w', R w w' → R' w w') → obeys R m → obeys R' m.
Proof. intros HR Hm w a w' E. by eapply HR, Hm. Qed.

(** Nothing between [calloc] and [xcb_disconnect] opens or closes a descriptor. *)
Definition keeps_net (w w' : world) : Prop :=
  fd w' = fd w ∧ os_net (w_os w') = os_net (w_os w).

#[export] Instance keeps_net_preorder : PreOrder keeps_net.
Proof.
  split; [by intros w|]. intros w1 w2 w3 [? ?] [? ?]. split; congruence.
Qed.

Lemma keeps_in_side {A} (m : xM A) : obeys in_side m → obeys keeps_net m.
Proof. apply obeys_weaken. intros w w' Hs. split; [apply Hs|]. apply (side_os _ _ Hs). Qed.

Ltac keeps_tac := apply obeys_modify; intros; by split.
#[export] Hint Extern 1 (obeys keeps_net (modify _)) => keeps_tac : obeys.
#[export] Hint Extern 1 (obeys keeps_net (modify_in _)) => keeps_tac : obeys.
#[export] Hint Extern 1 (obeys keeps_net (modify_out _)) => keeps_tac : obeys.
#[export] Hint Extern 1 (obeys keeps_net (modify_xid _)) => keeps_tac : obeys.
#[export] Hint Extern 1 (obeys keeps_net (modify_os _)) => keeps_tac : obeys.

Section Keeps.
Context `{Host} `{XProto}.

Lemma keeps_sysret : obeys keeps_net sysret.
Proof. unfold sysret. obeys_auto. Qed.

Lemma keeps_lock l : obeys keeps_net (pthread_mutex_lock l).
Proof. unfold pthread_mutex_lock. obeys_auto. Qed.

Lemma keeps_unlock l : obeys keeps_net (pthread_mutex_unlock l).
Proof. unfold pthread_mutex_unlock. obeys_auto. Qed.

Lemma keeps_malloc n : obeys keeps_net (malloc n).
Proof. apply keeps_in_side. auto with obeys. Qed.

Lemma keeps_signal c : obeys keeps_net (pthread_cond_signal c).
Proof. apply keeps_in_side. auto with obeys. Qed.

Lemma keeps_poll : obeys keeps_net poll.
Proof. apply keeps_in_side. auto with obeys. Qed.

Lemma keeps_in_read : obeys keeps_net _xcb_in_read.
Proof. apply keeps_in_side. auto with obeys. Qed.

Lemma keeps_in_read_block room len : obeys keeps_net (_xcb_in_read_block room len).
Proof. apply keeps_in_side, obeys_in_read_block. Qed.

Lemma keeps_shutdown : obeys keeps_net _xcb_conn_shutdown.
Proof. unfold _xcb_conn_shutdown. obeys_auto. Qed.
#[local] Hint Resolve keeps_sysret keeps_lock keeps_unlock keeps_malloc keeps_signal keeps_poll
  keeps_in_read keeps_in_read_block keeps_shutdown : obeys.

Lemma keeps_advance_iov n v : obeys keeps_net (advance_iov n v).
Proof.
  revert n; induction v as [|b v IH]; intros n; cbn [advance_iov]; [obeys_auto|]. cbv zeta.
  obeys_auto.
Qed.

Lemma keeps_write_vec v : obeys keeps_net (write_vec v).
Proof.
  pose proof keeps_advance_iov. unfold write_vec, writev. cbv zeta. obeys_auto.
Qed.

Lemma keeps_conn_wait c v : obeys keeps_net (_xcb_conn_wait c v).
Proof.
  pose proof keeps_write_vec. unfold _xcb_conn_wait, conn_io, pthread_cond_wait.
  cbv zeta. obeys_auto.
Qed.

Lemma keeps_send_loop fuel v : obeys keeps_net (send_loop fuel v).
Proof.
  pose proof keeps_conn_wait. revert v.
  induction fuel as [|fuel IH]; intros v; cbn [send_loop]; obeys_auto.
Qed.

Lemma keeps_write_setup auth : obeys keeps_net (write_setup auth).
Proof.
  pose proof keeps_send_loop.
  unfold write_setup, _xcb_out_send, pthread_cond_broadcast, _xcb_in_wake_up_next_reader.
  obeys_auto.
Qed.

Lemma keeps_read_setup : obeys keeps_net read_setup.
Proof. unfold read_setup, write_reason. cbv zeta. obeys_auto. Qed.

Lemma keeps_and_then a b :
  obeys keeps_net a → obeys keeps_net b → obeys keeps_net (and_then a b).
Proof. unfold and_then. obeys_auto. Qed.
#[local] Hint Resolve keeps_write_setup keeps_read_setup keeps_and_then : obeys.

(** The chain of initializations of [xcb_connect_to_fd]. *)
Definition connect_steps (auth : option auth_info) : xM bool :=
  and_then set_fd_flags (and_then sysret (and_then _xcb_in_init
    (and_then _xcb_out_init (and_then (write_setup auth) (and_then read_setup
      (and_then _xcb_ext_init _xcb_xid_init)))))).

Lemma keeps_connect_steps auth : obeys keeps_net (connect_steps auth).
Proof.
  unfold connect_steps, set_fd_flags, _xcb_in_init, _xcb_out_init, _xcb_ext_init,
    _xcb_xid_init, get_setup.
  repeat apply keeps_and_then; obeys_auto.
Qed.

(** [xcb_connect_to_fd] owns the descriptor it is given: whatever the system
    calls and the server answer, if it returns the error connection the
    descriptor has been closed, and if it returns a connection the descriptor
    is the connection's and still as open as it was; no other descriptor is
    opened or closed. *)
Lemma connect_owns_fd d auth w c w' :
  xcb_connect_to_fd d auth w = Ret c w' →
  match c with
  | error_connection =>
      net_fds (os_net (w_os w')) = filter (λ d', d' ≠ d) (net_fds (os_net (w_os w)))
  | Connection => fd w' = d ∧ os_net (w_os w') = os_net (w_os w)
  end.
Proof.
  unfold xcb_connect_to_fd. intros E. apply bind_inv in E as (ok & w1 & Hm & E).
  apply keeps_malloc in Hm as [_ Hm]. destruct ok; cbn [negb] in E.
  - rewrite bind_modify in E. apply bind_inv in E as (ok & w2 & Hs & E).
    apply keeps_connect_steps in Hs as [Hf Hn]. cbn in Hf, Hn.
    destruct ok; injection E as <- <-; cbn.
    + split; [done|]. by rewrite Hn.
    + by rewrite Hn, Hf, Hm.
  - injection E as <- <-. cbn. by rewrite Hm.
Qed.
End Keeps.

(** ** The setup message *)

Section Setup.
Context `{Host} `{XProto}.

(** The layout of [xcb_setup_request_t] in memory: twelve bytes. *)
Definition setup_request_layout : Prop := ∀ r,
  zlength (setup_request_bytes r) = 12 ∧
  field 0 1 (setup_request_bytes r) = u8 (byte_order r) ∧
  field 2 2 (setup_request_bytes r) = u16 (protocol_major_version r) ∧
  field 6 2 (setup_request_bytes r) = u16 (authorization_protocol_name_len r) ∧
  field 8 2 (setup_request_bytes r) = u16 (authorization_protocol_data_len r).

(** The reader of the other end: the byte order, the name and data of the
    authorization protocol, and what follows the message.  Both strings are
    padded to a multiple of four bytes. *)
Definition decode_setup (bs : list byte) : Z * list byte * list byte * list byte :=
  let n := field 6 2 bs in
  let m := field 8 2 bs in
  let pad4 k := 4 * ((k + 3) / 4) in
  let body := drop 12 bs in
  let data := drop (Z.to_nat (pad4 n)) body in
  (field 0 1 bs, take (Z.to_nat n) body, take (Z.to_nat m) data,
   drop (Z.to_nat (pad4 m)) data).

Lemma XCB_PAD_eq n : XCB_PAD n = 4 * ((n + 3) / 4) - n.
Proof.
  unfold XCB_PAD. change 3 with (Z.ones 2) at 1. rewrite Z.land_ones by lia.
  change (2 ^ 2) with 4. Z.div_mod_to_equations; lia.
Qed.

Lemma take_drop_padded (l t : list byte) n :
  zlength l = n →
  take (Z.to_nat n) (l ++ replicate (Z.to_nat (XCB_PAD n)) Byte.x00 ++ t) = l ∧
  drop (Z.to_nat (4 * ((n + 3) / 4)))
    (l ++ replicate (Z.to_nat (XCB_PAD n)) Byte.x00 ++ t) = t.
Proof.
  intros <-. rewrite XCB_PAD_eq. pose proof (zlength_nonneg l). split.
  - unfold zlength at 1. by rewrite Nat2Z.id, take_app_length.
  - rewrite app_assoc. apply drop_app_length'.
    rewrite length_app, length_replicate. unfold zlength in *.
    Z.div_mod_to_equations; lia.
Qed.

(** C24. The setup message can be decoded: the server reads the byte order of this
    machine and exactly the authorization name and data, each truncated to the
    16 bits of its length field, and the message ends where the next one
    starts. *)
Theorem setup_message_decodes auth rest :
  setup_request_layout →
  let name := match auth with Some a => auth_name a | None => [] end in
  let data := match auth with Some a => auth_data a | None => [] end in
  decode_setup (concat (setup_parts auth) ++ rest) =
  (match host_endian with LittleEndian => 0x6c | BigEndian => 0x42 end,
   take (Z.to_nat (u16 (zlength name))) name,
   take (Z.to_nat (u16 (zlength data))) data, rest).
Proof.
  intros Hlay name data. unfold setup_parts.
  set (order := match host_endian with BigEndian => _ | LittleEndian => _ end).
  assert (match auth with Some a => u16 (zlength (auth_name a)) | None => 0 end =
    u16 (zlength name)) as -> by (by destruct auth).
  assert (match auth with Some a => u16 (zlength (auth_data a)) | None => 0 end =
    u16 (zlength data)) as -> by (by destruct auth).
  set (n := u16 (zlength name)). set (m := u16 (zlength data)).
  destruct (Hlay (SetupRequest order X_PROTOCOL X_PROTOCOL_REVISION n m))
    as (Hlen & Hf0 & _ & Hf6 & Hf8).
  set (out := setup_request_bytes _) in *. cbn in Hf0, Hf6, Hf8.
  assert (u8 order = order) as Ho by (unfold order; by destruct host_endian).
  pose proof (u16_range (zlength name)). pose proof (u16_range (zlength data)).
  rewrite Ho in Hf0. rewrite u16_small in Hf6, Hf8 by lia.
  set (body := take (Z.to_nat n) name ++ replicate (Z.to_nat (XCB_PAD n)) Byte.x00 ++
    take (Z.to_nat m) data ++ replicate (Z.to_nat (XCB_PAD m)) Byte.x00 ++ rest).
  replace (concat _ ++ rest) with (out ++ body).
  2:{ rewrite Hlen. change (XCB_PAD 12) with 0. cbn. unfold body.
      destruct auth; cbn; rewrite <- ?app_assoc; [done|].
      unfold n, m, name, data. change (u16 (zlength [])) with 0. done. }
  assert (length out = 12%nat) as Hl by (unfold zlength in Hlen; lia).
  unfold decode_setup. rewrite !field_app_l by lia. rewrite Hf0, Hf6, Hf8.
  rewrite drop_app_length' by done.
  assert (∀ l : list byte, zlength (take (Z.to_nat (u16 (zlength l))) l) = u16 (zlength l)) as Ht.
  { intros l. pose proof (zlength_nonneg l). apply zlength_take. words. }
  unfold body. destruct (take_drop_padded (take (Z.to_nat n) name) (take (Z.to_nat m) data ++
    replicate (Z.to_nat (XCB_PAD m)) Byte.x00 ++ rest) n (Ht name)) as [-> ->].
  by destruct (take_drop_padded (take (Z.to_nat m) data) rest m (Ht data)) as [-> ->].
Qed.
End Setup.

Lemma sample_layout : setup_request_layout (H := sample_host) (H0 := sample_proto).
Proof.
  intros r. unfold setup_request_bytes, sample_proto. split_and!; [done|..].
  all: unfold field; cbn [take drop app le_bytes host_val]; unfold host_val, sample_host; cbn;
    rewrite ?byte_val_of; unfold u8, u16; Z.div_mod_to_equations; lia.
Qed.

(** ** The setup reply *)

Section Reply.
Context `{Host} `{XProto}.

(** A whole setup reply: eight bytes and as many words as they say. *)
Definition setup_reply (s : list byte) : Prop :=
  zlength s = 8 + setup_length s * 4 ∧ 0 < setup_length s.

Lemma setup_length_range s : 0 <= setup_length s < 2 ^ 16.
Proof. apply (field_range 6 2). Qed.

Lemma setup_length_app s t : 8 <= zlength s → setup_length (s ++ t) = setup_length s.
Proof. intros Hs. apply field_app_l. unfold zlength in Hs. lia. Qed.

(** The stream behind the first [len] bytes of a chunk. *)
Definition chunk_rest (more : list byte) (t : list recv_event) : list recv_event :=
  match more with [] => t | _ => RecvData more :: t end.

Lemma stream_chunk_rest more t : stream (chunk_rest more t) = more ++ stream t.
Proof. by destruct more. Qed.

(** A block that has arrived in one chunk. *)
Lemma in_read_block_data room bs more t w :
  in_queue (w_in w) = [] → os_recvs (w_os w) = RecvData (bs ++ more) :: t →
  0 < zlength bs <= room →
  _xcb_in_read_block room (zlength bs) w =
  Ret (zlength bs, bs) (set_w_os (set_os_recvs (chunk_rest more t) (w_os w)) w).
Proof.
  intros Hq Hr Hl. unfold _xcb_in_read_block.
  destruct (Z.ltb_spec room (zlength bs)); [lia|]. rewrite bind_gets. unfold compose.
  rewrite Hq, zlength_nil. destruct (Z.ltb_spec (zlength bs) 0); [lia|]. cbv zeta.
  change (0 <? 0) with false. cbv iota. unfold modify_in. rewrite bind_modify.
  destruct (Z.ltb_spec 0 (zlength bs)); [|lia].
  assert (set_w_in (set_in_queue (drop (Z.to_nat 0) []) (w_in w)) w = w) as ->.
  { destruct w as [? ? ? i ? ? ? ? ?]; cbn in *. destruct i; cbn in *. by subst. }
  unfold read_block. rewrite Z.sub_0_r, bind_assoc, bind_gets.
  set (fuel := (length (os_recvs (w_os w)) + length (os_polls (w_os w)))%nat).
  destruct fuel as [|n] eqn:Ef; [unfold fuel in Ef; rewrite Hr in Ef; cbn in Ef; lia|].
  cbn [read_block_loop]. rewrite zlength_nil. destruct (Z.ltb_spec 0 (zlength bs)); [|lia].
  assert (recv (zlength bs - 0) w =
    Ret (Received bs) (set_w_os (set_os_recvs (chunk_rest more t) (w_os w)) w)) as Erecv.
  { unfold recv. rewrite Z.sub_0_r. destruct (Z.leb_spec (zlength bs) 0); [lia|].
    rewrite bind_gets. unfold compose. rewrite Hr.
    destruct (Z.leb_spec (zlength (bs ++ more)) (zlength bs)) as [Hle|Hgt].
    - destruct more; [by rewrite app_nil_r|]. rewrite zlength_app, zlength_cons in Hle.
      pose proof (zlength_nonneg more). lia.
    - destruct more; [rewrite app_nil_r in Hgt; lia|].
      unfold zlength. rewrite Nat2Z.id, drop_app_length, take_app_length. done. }
  rewrite bind_assoc, (bind_run _ _ _ _ _ Erecv).
  destruct bs as [|b bs]; [rewrite zlength_nil in *; lia|]. cbn [app].
  destruct (Z.ltb_spec (zlength (b :: bs)) (zlength (b :: bs))); [lia|].
  rewrite bind_ret. cbn [fst snd]. destruct (Z.leb_spec (zlength (b :: bs)) 0); [lia|]. done.
Qed.

(** The world after a setup reply has been read. *)
Definition setup_read (s : list byte) (rs : list recv_event) (w : world) : world :=
  set_setup (Some s) (set_w_os (set_os_recvs rs (w_os w)) w).

(** What [read_setup] does with a whole reply. *)
Definition judge_setup (s : list byte) : xM bool :=
  if setup_status s =? 0 then write_reason s (setup_failed_reason s);; ret false
  else if setup_status s =? 2 then write_reason s (setup_authenticate_reason s);; ret false
  else ret true.

Lemma read_setup_run s more t w :
  no_oom w → setup_reply s → in_queue (w_in w) = [] →
  os_recvs (w_os w) = RecvData (s ++ more) :: t →
  read_setup w = judge_setup s (setup_read s (chunk_rest more t) w).
Proof.
  intros Ho [Hs Hl] Hq Hr. pose proof (setup_length_range s) as Hrange.
  set (hdr := take 8 s). set (body := drop 8 s).
  assert (s = hdr ++ body) as E by (symmetry; apply take_drop).
  assert (zlength hdr = 8) as Hh by (apply (zlength_take s 8); lia).
  assert (zlength body = setup_length s * 4) as Hb
    by (enough (zlength body = zlength s - 8) by lia; apply (zlength_drop s 8); lia).
  assert (setup_length hdr = setup_length s) as Hlen
    by (rewrite E; symmetry; apply setup_length_app; lia).
  unfold read_setup, setup_generic_size.
  rewrite (bind_run _ _ _ _ _ (malloc_small 8 w Ho ltac:(lia))). cbn [negb].
  rewrite E, <- app_assoc in Hr.
  pose proof (in_read_block_data 8 hdr (body ++ more) t w Hq Hr ltac:(lia)) as E1.
  rewrite Hh in E1. rewrite (bind_run _ _ _ _ _ E1). cbn [fst snd]. rewrite bind_modify.
  change (negb (8 =? 8)) with false. cbv iota. rewrite Hlen.
  set (w1 := set_setup _ _).
  assert (no_oom w1) as Ho1 by exact Ho.
  assert (0 <= setup_length s * 4 + 8 < 2 ^ 63) as Hsz by lia.
  rewrite (bind_run _ _ _ _ _ (malloc_small _ w1 Ho1 Hsz)).
  cbn [negb].
  assert (os_recvs (w_os w1) = RecvData (body ++ more) :: t) as Hr1.
  { cbn. destruct (body ++ more) as [|b l] eqn:Eb; [|done].
    apply app_nil in Eb as [Eb _]. rewrite Eb, zlength_nil in Hb. lia. }
  assert (0 < zlength body <= setup_length s * 4) as Hb' by lia.
  pose proof (in_read_block_data (setup_length s * 4) body more t w1 Hq Hr1 Hb') as E2.
  rewrite Hb in E2. rewrite (bind_run _ _ _ _ _ E2). cbn [fst snd]. rewrite bind_modify.
  destruct (Z.leb_spec (setup_length s * 4) 0); [lia|]. by rewrite <- E.
Qed.

(** [read_setup] takes exactly one setup reply off the stream, whatever chunks
    it arrives in: when it succeeds, the bytes taken are the connection's
    setup, they are eight bytes and the (positive) number of words these
    announce, and the status is neither "failed" nor "authenticate". *)
Theorem read_setup_one_reply w w' :
  has_error w = false → read_setup w = Ret true w' →
  ∃ s, input w = s ++ input w' ∧ setup w' = Some s ∧ setup_reply s ∧
    setup_status s ≠ 0 ∧ setup_status s ≠ 2 ∧ has_error w' = false.
Proof.
  intros He E. unfold read_setup, setup_generic_size in E.
  apply bind_inv in E as (ok & w1 & Em & E). destruct ok; [|done]. cbn [negb] in E.
  destruct (malloc_cases 8 w ltac:(lia)) as (ok & ms & Em' & _). rewrite Em' in Em.
  injection Em as _ <-.
  apply bind_inv in E as (r & w2 & Er & E).
  pose proof (wp_ret_inv _ _ _ _ _ (wp_in_read_block 8 8 _ ltac:(lia)) Er) as (_ & Hi & Hr & _).
  rewrite bind_modify in E. destruct (Z.eqb_spec r.1 8) as [H8|]; [|done]. cbn [negb] in E.
  destruct (Hr ltac:(lia)) as (_ & Hl8 & _ & He2). cbv zeta in E.
  pose proof (setup_length_range r.2) as Hrange.
  apply bind_inv in E as (ok2 & w3 & Em2 & E). destruct ok2; [|done]. cbn [negb] in E.
  assert (0 <= setup_length r.2 * 4 + 8 < 2 ^ 63) as Hsz by lia.
  destruct (malloc_cases _ (set_setup (Some r.2) w2) Hsz)
    as (ok2 & ms2 & Em2' & _). rewrite Em2' in Em2. injection Em2 as _ <-.
  apply bind_inv in E as (r' & w4 & Er' & E). rewrite bind_modify in E.
  assert (0 <= setup_length r.2 * 4 <= setup_length r.2 * 4) as Hbl by lia.
  pose proof (wp_ret_inv _ _ _ _ _ (wp_in_read_block _ _ _ Hbl) Er')
    as (_ & Hi' & Hr' & _).
  destruct (Z.leb_spec r'.1 0); [done|]. destruct (Hr' ltac:(lia)) as (Hr1 & Hlb & _ & He4).
  assert (setup_length (r.2 ++ r'.2) = setup_length r.2) as Hlen
    by (apply setup_length_app; lia).
  exists (r.2 ++ r'.2).
  destruct (Z.eqb_spec (setup_status (r.2 ++ r'.2)) 0) as [|Hs0].
  { by apply bind_inv in E as (? & ? & _ & ?). }
  destruct (Z.eqb_spec (setup_status (r.2 ++ r'.2)) 2) as [|Hs2].
  { by apply bind_inv in E as (? & ? & _ & ?). }
  injection E as <-. split_and!; try done.
  - change (input w) with (input (with_mallocs ms w)). rewrite Hi, <- app_assoc. f_equal.
    exact Hi'.
  - split; rewrite Hlen; [rewrite zlength_app|]; lia.
  - cbn in He4 |- *. by rewrite He4, He2.
Qed.
End Reply.

(** ** A whole connection *)

Section Whole.
Context `{Host} `{XProto}.

Lemma sysret_ok w : os_sysrets (w_os w) = [] → sysret w = Ret true w.
Proof. intros Hs. unfold sysret. rewrite bind_gets. unfold compose. by rewrite Hs. Qed.

Lemma set_fd_flags_ok w : os_sysrets (w_os w) = [] → set_fd_flags w = Ret true w.
Proof.
  intros Hs. unfold set_fd_flags.
  do 2 (rewrite (bind_run _ _ _ _ _ (sysret_ok w Hs)); cbn [negb]).
  by rewrite (bind_run _ _ _ _ _ (sysret_ok w Hs)).
Qed.

Lemma in_init_ok w : os_sysrets (w_os w) = [] → no_oom w →
  _xcb_in_init w = Ret true (set_w_in (set_replies [] (set_in_reading 0 (set_in_queue []
    (set_request_read 0 (set_request_completed 0 (w_in w)))))) w).
Proof.
  intros Hs Ho. unfold _xcb_in_init. rewrite (bind_run _ _ _ _ _ (sysret_ok w Hs)).
  cbn [negb]. unfold modify_in. rewrite bind_modify.
  rewrite (bind_run _ _ _ _ _ (malloc_small 16 (set_w_in _ w) Ho ltac:(lia))). done.
Qed.

Lemma out_init_ok w : os_sysrets (w_os w) = [] →
  _xcb_out_init w = Ret true (set_w_out (set_mrl_tag LAZY_NONE (set_out_writing 0
    (set_out_queue [] (set_out_request 0 (set_out_request_written 0 (set_out_socket_moving false
      (set_out_socket_closure 0 (set_out_return_socket None (w_out w))))))))) w).
Proof.
  intros Hs. unfold _xcb_out_init, modify_out.
  rewrite (bind_run _ _ _ _ _ (sysret_ok w Hs)). cbn [negb]. rewrite bind_modify.
  rewrite (bind_run _ _ _ _ _ (sysret_ok (set_w_out _ w) Hs)). cbn [negb]. rewrite bind_modify.
  by rewrite (bind_run _ _ _ _ _ (sysret_ok (set_w_out _ (set_w_out _ w)) Hs)).
Qed.

Lemma setup_parts_small auth : setup_request_layout → small_iov (setup_parts auth).
Proof.
  intros Hlay. unfold setup_parts, small_iov. cbv zeta.
  assert (∀ n, zlength (replicate (Z.to_nat (XCB_PAD n)) Byte.x00) < 2 ^ 31) as Hp.
  { intros n. unfold zlength. rewrite length_replicate, XCB_PAD_eq. Z.div_mod_to_equations; lia. }
  assert (∀ n (l : list byte), zlength (take (Z.to_nat (u16 n)) l) < 2 ^ 31) as Ht.
  { intros n l. pose proof (u16_range n). unfold zlength. rewrite length_take. lia. }
  apply Forall_app. split.
  - repeat constructor; [|apply Hp]. destruct (Hlay (SetupRequest
      match host_endian with BigEndian => 66 | LittleEndian => 108 end X_PROTOCOL
      X_PROTOCOL_REVISION match auth with Some a => u16 (zlength (auth_name a)) | None => 0 end
      match auth with Some a => u16 (zlength (auth_data a)) | None => 0 end)) as [-> _]. lia.
  - destruct auth; [|constructor]. repeat constructor; by first [apply Ht|apply Hp].
Qed.

Lemma setup_parts_nonnil auth : setup_request_layout → concat (setup_parts auth) ≠ [].
Proof.
  intros Hlay Hn. pose proof (setup_message_decodes auth [] Hlay) as Hd. rewrite Hn in Hd.
  cbv zeta in Hd. apply (f_equal (λ x, x.1.1.1)) in Hd. cbn in Hd.
  unfold field in Hd. cbn in Hd. unfold host_val in Hd.
  destruct host_endian; vm_compute in Hd; discriminate.
Qed.

(** The connection before the exchange. *)
Definition fresh_connection (d : Z) (w : world) : world :=
  set_w_out (XcbOut 0 None 0 false [] 0 0 LAZY_NONE 0) (set_fd d (calloc_connection w)).

Lemma write_setup_completes k auth w ps :
  setup_request_layout → IoLock ∉ held w → out_queue (w_out w) = [] →
  out_writing (w_out w) = 0 → willing (os_writevs (w_os w)) →
  os_polls (w_os w) = replicate k (PollReady POLLOUT) ++ ps →
  (length (os_writevs (w_os w)) < k)%nat →
  ∃ w', write_setup auth w = Ret true w' ∧ quiet w w' ∧ held w' = held w ∧
    w_out w' = set_out_request_written (out_request (w_out w)) (w_out w) ∧
    os_sent (w_os w') = os_sent (w_os w) ++ concat (setup_parts auth) ∧
    os_stderr (w_os w') = os_stderr (w_os w) ∧ os_sysrets (w_os w') = os_sysrets (w_os w).
Proof.
  intros Hlay Hl Hq Hz Hw Hp Hk. unfold write_setup.
  rewrite (bind_lock IoLock (held w)) by done. set (w1 := set_held _ w).
  assert (holds_iolock w1) as Hl1 by by exists (held w).
  pose proof (setup_parts_small auth Hlay) as Hs.
  destruct (out_send_completes k (setup_parts auth) w1 ps) as (w2 & E & Hqt); try done.
  { right. by apply setup_parts_nonnil. }
  rewrite (bind_run _ _ _ _ _ E).
  apply out_send_inv in E as (Hside & Ho & rest & Hd & Hr & _); [|done..].
  rewrite (bind_unlock IoLock (held w)) by (by rewrite (conn_held _ _ Hside)).
  eexists. split; [done|]. split; [exact Hqt|]. split; [done|]. split; [exact Ho|].
  split; [|by split; [apply (conn_stderr _ _ Hside)|apply (conn_sysrets _ _ Hside)]].
  cbn in Hd |- *. by rewrite Hr, app_nil_r in Hd.
Qed.

(** A server that takes what it is sent and has answered with the bytes [s]. *)
Record answering (k : nat) (s more : list byte) (t : list recv_event) (w : world) : Prop := {
  ans_oom : no_oom w;
  ans_sys : os_sysrets (w_os w) = [];
  ans_lock : IoLock ∉ held w;
  ans_willing : willing (os_writevs (w_os w));
  ans_polls : ∃ ps, os_polls (w_os w) = replicate k (PollReady POLLOUT) ++ ps;
  ans_rounds : (length (os_writevs (w_os w)) < k)%nat;
  ans_recvs : os_recvs (w_os w) = RecvData (s ++ more) :: t;
  ans_reply : setup_reply s
}.

(** Up to the reply, connecting to such a server succeeds. *)
Lemma connect_judges k d auth s more t w :
  setup_request_layout → answering k s more t w →
  let w1 := fresh_connection d w in
  ∃ w2, connect_steps auth (set_fd d (calloc_connection w)) =
      and_then (judge_setup s) (and_then _xcb_ext_init _xcb_xid_init)
        (setup_read s (chunk_rest more t) w2) ∧
    quiet w1 w2 ∧ fd w2 = d ∧ os_net (w_os w2) = os_net (w_os w) ∧ held w2 = held w ∧
    w_out w2 = w_out w1 ∧ os_sent (w_os w2) = os_sent (w_os w) ++ concat (setup_parts auth) ∧
    os_stderr (w_os w2) = os_stderr (w_os w) ∧ os_sysrets (w_os w2) = [].
Proof.
  intros Hlay [Ho Hsys Hl Hw [ps Hp] Hk Hr Hs] w1.
  set (w0 := set_fd d (calloc_connection w)).
  destruct (write_setup_completes k auth w1 ps) as
    (w2 & E2 & Hqt & Hh & Hout & Hsent & Herr & Hsys2); try done.
  exists w2. pose proof (keeps_write_setup _ _ _ _ E2) as [Hfd Hnet].
  split; [|split_and!; try done; by rewrite Hsys2].
  unfold connect_steps. rewrite (and_then_run _ _ _ _ (set_fd_flags_ok w0 Hsys)).
  rewrite (and_then_run _ _ _ _ (sysret_ok w0 Hsys)).
  rewrite (and_then_run _ _ _ _ (in_init_ok w0 Hsys Ho)).
  rewrite (and_then_run _ _ _ _ (out_init_ok (set_w_in _ w0) Hsys)).
  change (set_w_out _ _) with w1. rewrite (and_then_run _ _ _ _ E2).
  destruct Hqt as (Hi & Hr2 & Hm & He).
  unfold and_then at 1. unfold bind at 1. rewrite (read_setup_run s more t).
  - done.
  - unfold no_oom. by rewrite Hm.
  - done.
  - by rewrite Hi.
  - by rewrite Hr2.
Qed.

(** C22. Against a server that takes the setup message and answers with a whole
    setup reply that is neither a refusal nor a request to authenticate,
    [xcb_connect_to_fd] returns a connection: the setup is the reply, the bytes
    sent are the setup message, nothing behind the reply has been consumed, and
    the counter of identifiers is at its start.  The connection is idle, which
    is what a request and its reply need (RoundTrip.v). *)
Theorem xcb_connect_succeeds k d auth s more t w :
  setup_request_layout → answering k s more t w →
  setup_status s ≠ 0 → setup_status s ≠ 2 →
  ∃ w', xcb_connect_to_fd d auth w = Ret Connection w' ∧
    setup w' = Some s ∧ fd w' = d ∧ held w' = held w ∧ idle 0 w' empty_mailbox ∧
    os_sent (w_os w') = os_sent (w_os w) ++ concat (setup_parts auth) ∧
    input w' = more ++ stream t ∧
    xid_last (w_xid w') = 0 ∧ xid_base (w_xid w') = setup_resource_id_base (setup_view s).
Proof.
  intros Hlay Ha H0s H2s. pose proof (ans_oom _ _ _ _ _ Ha) as Ho.
  destruct (connect_judges k d auth s more t w Hlay Ha) as
    (w2 & Ec & (Hi & Hr & Hm & He) & Hfd & Hnet & Hh & Hout & Hsent & _ & Hsys).
  unfold xcb_connect_to_fd. rewrite (bind_run _ _ _ _ _ (malloc_small 1 w Ho ltac:(lia))).
  cbn [negb]. rewrite bind_modify. fold (connect_steps auth). unfold bind at 1. rewrite Ec.
  set (w3 := setup_read s (chunk_rest more t) w2).
  assert (judge_setup s w3 = Ret true w3) as Ej.
  { unfold judge_setup.
    by destruct (Z.eqb_spec (setup_status s) 0), (Z.eqb_spec (setup_status s) 2). }
  rewrite (and_then_run _ _ _ _ Ej), (and_then_run _ _ _ _ (sysret_ok w3 Hsys)).
  unfold _xcb_xid_init. rewrite (bind_run _ _ _ _ _ (sysret_ok w3 Hsys)).
  eexists. split; [done|]. cbn. rewrite Hfd, Hh, Hsent. unfold input. cbn.
  rewrite Hi, stream_chunk_rest. split_and!; try done.
  apply (idle_fresh _ 0); cbn; rewrite ?Hout, ?Hi, ?He, ?Hh; try done; [apply Ha|].
  unfold no_oom. cbn. by rewrite Hm.
Qed.

(** C23. A server that refuses the connection: its reason is written to the standard
    error output, the error connection is returned and the descriptor closed. *)
Theorem xcb_connect_refused k d auth s more t w off len :
  setup_request_layout → answering k s more t w →
  setup_status s = 0 → setup_failed_reason s = (off, len) →
  0 <= off → 0 <= len → off + len <= zlength s →
  ∃ w', xcb_connect_to_fd d auth w = Ret error_connection w' ∧
    os_stderr (w_os w') =
      os_stderr (w_os w) ++ take (Z.to_nat len) (drop (Z.to_nat off) s) ∧
    (d ∉ net_fds (os_net (w_os w'))) ∧ held w' = held w.
Proof.
  intros Hlay Ha H0s Hreason Hoff Hlen Hin. pose proof (ans_oom _ _ _ _ _ Ha) as Ho.
  destruct (connect_judges k d auth s more t w Hlay Ha) as
    (w2 & Ec & _ & Hfd & Hnet & Hh & _ & _ & Herr & _).
  unfold xcb_connect_to_fd. rewrite (bind_run _ _ _ _ _ (malloc_small 1 w Ho ltac:(lia))).
  cbn [negb]. rewrite bind_modify. fold (connect_steps auth). unfold bind at 1. rewrite Ec.
  unfold and_then, judge_setup, write_reason. rewrite H0s, Hreason. cbn [fst snd Z.eqb].
  destruct (Z.ltb_spec off 0), (Z.ltb_spec len 0), (Z.ltb_spec (zlength s) (off + len)); try lia.
  eexists. split; [done|]. cbn. rewrite Hfd, Hnet, Hh, Herr. split_and!; try done.
  intros Hd%list_elem_of_filter. by apply (proj1 Hd).
Qed.

(** C39. The length of the reason is not compared with the length of the reply: a
    refusal whose reason is longer than the reply makes [read_setup] hand bytes
    behind its buffer to [write]. *)
Theorem read_setup_overrun s more t w off len :
  no_oom w → setup_reply s → in_queue (w_in w) = [] →
  os_recvs (w_os w) = RecvData (s ++ more) :: t →
  setup_status s = 0 → setup_failed_reason s = (off, len) → zlength s < off + len →
  read_setup w = Fault FOutOfBounds.
Proof.
  intros Ho Hs Hq Hr H0s Hreason Hin. rewrite (read_setup_run s more t) by done.
  unfold judge_setup, write_reason. rewrite H0s, Hreason. cbn [fst snd Z.eqb].
  destruct (Z.ltb_spec (zlength s) (off + len)); [|lia]. by rewrite orb_true_r.
Qed.
End Whole.

(** ** A connection and a refusal *)

Section Witnesses.
#[local] Existing Instances sample_host sample_proto.

Definition sample_reply (status reason_length : byte) : list byte :=
  [status; reason_length; "011"%byte; "000"%byte; "000"%byte; "000"%byte; "001"%byte; "000"%byte;
   "n"%byte; "o"%byte; "!"%byte; "000"%byte].

Definition answered_world (s : list byte) : world :=
  sample_world (sample_in []) (sample_out [] 0 0)
    (sample_os [RecvData (s ++ ["!"%byte])] [PollReady POLLOUT] []).

Definition sample_auth : auth_info :=
  AuthInfo ["M"%byte; "I"%byte; "T"%byte] ["x"%byte; "y"%byte; "z"%byte; "w"%byte; "v"%byte].

Lemma sample_answering status n :
  answering 1 (sample_reply status n) ["!"%byte] [] (answered_world (sample_reply status n)).
Proof.
  split; try done; [set_solver|constructor|by exists []|cbn; lia].
Qed.

Lemma setup_message_decodes_witness :
  setup_request_layout ∧
  decode_setup (concat (setup_parts (Some sample_auth)) ++ ["!"%byte]) =
    (0x6c, auth_name sample_auth, auth_data sample_auth, ["!"%byte]).
Proof.
  split; [exact sample_layout|].
  apply (setup_message_decodes (Some sample_auth) ["!"%byte] sample_layout).
Defined.

Lemma read_setup_one_reply_witness :
  let w := answered_world (sample_reply "001" "000") in
  ∃ s, input w = s ++ input (final w (run read_setup w)) ∧
    setup (final w (run read_setup w)) = Some s ∧ setup_reply s ∧
    setup_status s ≠ 0 ∧ setup_status s ≠ 2 ∧ has_error (final w (run read_setup w)) = false.
Proof.
  intros w. apply (read_setup_one_reply w); [reflexivity|]. vm_compute. reflexivity.
Defined.

Lemma xcb_connect_succeeds_witness :
  let s := sample_reply "001" "000" in
  let w := answered_world s in
  ∃ w', xcb_connect_to_fd 3 (Some sample_auth) w = Ret Connection w' ∧
    setup w' = Some s ∧ fd w' = 3 ∧ held w' = held w ∧ idle 0 w' empty_mailbox ∧
    os_sent (w_os w') = os_sent (w_os w) ++ concat (setup_parts (Some sample_auth)) ∧
    input w' = ["!"%byte] ++ stream [] ∧
    xid_last (w_xid w') = 0 ∧ xid_base (w_xid w') = setup_resource_id_base (setup_view s).
Proof.
  intros s w.
  apply (xcb_connect_succeeds 1 3 (Some sample_auth) s ["!"%byte] [] w sample_layout
    (sample_answering _ _)); vm_compute; discriminate.
Defined.

Lemma xcb_connect_refused_witness :
  let s := sample_reply "000" "003" in
  let w := answered_world s in
  ∃ w', xcb_connect_to_fd 3 None w = Ret error_connection w' ∧
    os_stderr (w_os w') = os_stderr (w_os w) ++ take (Z.to_nat 3) (drop (Z.to_nat 8) s) ∧
    (3 ∉ net_fds (os_net (w_os w'))) ∧ held w' = held w.
Proof.
  intros s w.
  apply (xcb_connect_refused 1 3 None s ["!"%byte] [] w 8 3 sample_layout
    (sample_answering _ _)); vm_compute; (reflexivity || discriminate).
Defined.

Lemma read_setup_overrun_witness :
  read_setup (answered_world (sample_reply "000" "200")) = Fault FOutOfBounds.
Proof.
  apply (read_setup_overrun (sample_reply "000" "200") ["!"%byte] [] _ 8 200);
    vm_compute; try reflexivity. split; reflexivity.
Defined.
End Witnesses.
