(* ===== verification/DisplayProps.v ===== *)
(** * Display names: properties

    [xcb_popcount] counts bits; the parser of display names accepts exactly the
    names of one shape and inverts printing. *)
From S2P Require Import Prelude Effects State Display Sample.
From Stdlib Require Import Strings.Byte.
From Stdlib Require Strings.String.
#[local] Open Scope Z_scope.

(** ** Octal digits *)

(** The number with the given octal digits, lowest first. *)
Fixpoint oct (ds : list Z) : Z :=
  match ds with
  | [] => 0
  | d :: t => d + 8 * oct t
  end.

Fixpoint oct_digits (n : nat) (z : Z) : list Z :=
  match n with
  | O => []
  | S n' => z mod 8 :: oct_digits n' (z / 8)
  end.

Definition octal (d : Z) : Prop := 0 <= d < 8.

Lemma oct_nonneg ds : Forall octal ds → 0 <= oct ds.
Proof. induction 1 as [|d t Hd _ IH]; unfold octal in *; cbn [oct]; lia. Qed.

Lemma oct_digits_octal n z : Forall octal (oct_digits n z).
Proof.
  revert z; induction n as [|n IH]; intros z; constructor; [|apply IH].
  unfold octal. apply Z.mod_pos_bound. lia.
Qed.

Lemma oct_digits_val n z : 0 <= z < 8 ^ Z.of_nat n → oct (oct_digits n z) = z.
Proof.
  revert z; induction n as [|n IH]; intros z Hz.
  - change (8 ^ Z.of_nat 0) with 1 in Hz. simpl. lia.
  - rewrite Nat2Z.inj_succ, Z.pow_succ_r in Hz by lia. cbn [oct oct_digits].
    rewrite IH; Z.div_mod_to_equations; lia.
Qed.

Lemma land_mod8 x y : Z.land x y mod 8 = Z.land (x mod 8) (y mod 8).
Proof.
  change 8 with (2 ^ 3). rewrite <- !Z.land_ones by lia.
  apply Z.bits_inj'; intros n Hn. rewrite !Z.land_spec.
  destruct (Z.testbit x n), (Z.testbit y n), (Z.testbit (Z.ones 3) n); reflexivity.
Qed.

Lemma land_split a b c e : octal a → octal c →
  Z.land (a + 8 * b) (c + 8 * e) = Z.land a c + 8 * Z.land b e.
Proof.
  unfold octal. intros Ha Hc. set (x := Z.land (a + 8 * b) (c + 8 * e)).
  assert (x mod 2 ^ 3 = Z.land a c) as Hm.
  { change (2 ^ 3) with 8. unfold x. rewrite land_mod8.
    f_equal; Z.div_mod_to_equations; lia. }
  assert (x / 2 ^ 3 = Z.land b e) as Hd.
  { unfold x. rewrite <- Z.shiftr_div_pow2, Z.shiftr_land, !Z.shiftr_div_pow2 by lia.
    f_equal; Z.div_mod_to_equations; lia. }
  pose proof (Z.div_mod x (2 ^ 3)). lia.
Qed.

(** Halving every digit: one step of the computation. *)
Lemma oct_half ds : Forall octal ds →
  Z.land (Z.shiftr (oct ds) 1) (oct (map (λ _, 3) ds)) = oct (map (λ d, d / 2 mod 4) ds).
Proof.
  induction 1 as [|d t Hd Ht IH]; [done|]. cbn [oct map].
  rewrite Z.shiftr_div_pow2 in * by lia. change (2 ^ 1) with 2 in *.
  pose proof (oct_nonneg t Ht). unfold octal in Hd.
  replace ((d + 8 * oct t) / 2) with ((d / 2 + 4 * (oct t mod 2)) + 8 * (oct t / 2))
    by (Z.div_mod_to_equations; lia).
  rewrite land_split by (unfold octal; Z.div_mod_to_equations; lia).
  rewrite IH. f_equal.
  change 3 with (Z.ones 2). rewrite Z.land_ones by lia. change (2 ^ 2) with 4.
  Z.div_mod_to_equations; lia.
Qed.

(** The number of bits of an octal digit, as the code computes it. *)
Definition oct_bits (d : Z) : Z := d - d / 2 mod 4 - d / 2 mod 4 / 2 mod 4.

Lemma oct_bits_sub ds :
  oct ds - oct (map (λ d, d / 2 mod 4) ds)
    - oct (map (λ d, d / 2 mod 4) (map (λ d, d / 2 mod 4) ds)) = oct (map oct_bits ds).
Proof. induction ds as [|d t IH]; [done|]. cbn [oct map]. unfold oct_bits at 1. lia. Qed.

(** Adding neighbouring digits and keeping every other sum. *)
Fixpoint pair_sums (ds : list Z) : Z :=
  match ds with
  | d0 :: d1 :: t => d0 + d1 + 64 * pair_sums t
  | [d0] => d0
  | [] => 0
  end.

Fixpoint pair_mask (ds : list Z) : Z :=
  match ds with
  | _ :: _ :: t => 7 + 64 * pair_mask t
  | [_] => 3
  | [] => 0
  end.

Lemma oct_pairs ds : Forall (λ d, 0 <= d < 4) ds →
  Z.land (oct ds + oct (tail ds)) (pair_mask ds) = pair_sums ds.
Proof.
  revert ds. fix IH 1. intros [|d0 [|d1 t]] Hds; [done| |].
  - apply Forall_cons_1 in Hds as [H0 _]. cbn [oct tail pair_mask pair_sums].
    replace (d0 + 8 * 0 + 0) with d0 by lia.
    change 3 with (Z.ones 2). rewrite Z.land_ones by lia. apply Z.mod_small. lia.
  - apply Forall_cons_1 in Hds as [H0 [H1 Ht]%Forall_cons_1].
    cbn [oct tail pair_mask pair_sums].
    assert (Z.land (oct t + oct (tail t)) (pair_mask t) = pair_sums t) as <- by (by apply IH).
    replace (d0 + 8 * (d1 + 8 * oct t) + (d1 + 8 * oct t))
      with ((d0 + d1) + 8 * (d1 + hd 0 t + 8 * (oct t + oct (tail t)))).
    2:{ destruct t; cbn [oct tail hd]; lia. }
    replace (7 + 64 * pair_mask t) with (7 + 8 * (0 + 8 * pair_mask t)) by lia.
    rewrite land_split by (unfold octal; lia).
    assert (0 <= hd 0 t < 4) as Hh by (destruct Ht; cbn [hd]; lia).
    rewrite land_split by (unfold octal; lia).
    rewrite Z.land_0_r. change 7 with (Z.ones 3).
    rewrite Z.land_ones, Z.mod_small by lia. lia.
Qed.

Fixpoint digit_sum (ds : list Z) : Z :=
  match ds with
  | [] => 0
  | d :: t => d + digit_sum t
  end.

Lemma pair_sums_mod ds : pair_sums ds mod 63 = digit_sum ds mod 63.
Proof.
  revert ds. fix IH 1. intros [|d0 [|d1 t]]; cbn [pair_sums digit_sum].
  - done.
  - f_equal. lia.
  - specialize (IH t). Z.div_mod_to_equations; lia.
Qed.

(** The number of bits set below position [n]. *)
Definition bit_count (n : nat) (z : Z) : Z :=
  zlength (filter (λ i, Z.testbit z i = true) (seqZ 0 (Z.of_nat n))).

Lemma bit_count_succ n z : 0 <= z → bit_count (S n) z = z mod 2 + bit_count n (z / 2).
Proof.
  intros Hz. unfold bit_count. rewrite seqZ_cons by lia.
  replace (Z.pred (Z.of_nat (S n))) with (Z.of_nat n) by lia.
  change (Z.succ 0) with (1 + 0).
  rewrite <- (fmap_add_seqZ 1 0), filter_cons.
  assert (zlength (filter (λ i, Z.testbit z i = true) (Z.add 1 <$> seqZ 0 (Z.of_nat n))) =
    zlength (filter (λ i, Z.testbit (z / 2) i = true) (seqZ 0 (Z.of_nat n)))) as Hf.
  { assert (Forall (λ i, 0 <= i) (seqZ 0 (Z.of_nat n))) as Hs.
    { apply Forall_forall. intros i Hi%elem_of_seqZ. lia. }
    induction Hs as [|i l Hi _ IH]; [done|]. cbn [fmap list_fmap]. rewrite !filter_cons.
    replace (1 + i) with (Z.succ i) by lia. rewrite <- Z.div2_bits by done.
    destruct (decide _); rewrite ?zlength_cons; by rewrite IH. }
  rewrite Z.bit0_odd, Zmod_odd.
  case_decide as Ho; rewrite ?zlength_cons, Hf; [by rewrite Ho|].
  apply not_true_is_false in Ho. by rewrite Ho.
Qed.

(** One octal digit holds three bits. *)
Lemma bit_count_octal n d m : octal d → 0 <= m →
  bit_count (3 + n) (d + 8 * m) = oct_bits d + bit_count n m.
Proof.
  unfold octal, oct_bits. intros Hd Hm. cbn [Nat.add].
  rewrite !bit_count_succ by (Z.div_mod_to_equations; lia).
  replace ((d + 8 * m) / 2 / 2 / 2) with m by (Z.div_mod_to_equations; lia).
  Z.div_mod_to_equations; lia.
Qed.

Lemma bit_count_oct n ds : Forall octal ds →
  bit_count (3 * length ds + n) (oct ds) = digit_sum (map oct_bits ds) + bit_count n 0.
Proof.
  induction 1 as [|d t Hd Ht IH]; [done|]. cbn [length oct map digit_sum].
  replace (3 * S (length t) + n)%nat with (3 + (3 * length t + n))%nat by lia.
  rewrite bit_count_octal, IH by (done || by apply oct_nonneg). lia.
Qed.

Lemma bit_count_grow n z : 0 <= z < 2 ^ Z.of_nat n → bit_count (S n) z = bit_count n z.
Proof.
  revert z; induction n as [|n IH]; intros z Hz.
  - change (2 ^ Z.of_nat 0) with 1 in Hz. by replace z with 0 by lia.
  - rewrite Nat2Z.inj_succ, Z.pow_succ_r in Hz by lia.
    rewrite bit_count_succ, IH, <- bit_count_succ by (Z.div_mod_to_equations; lia). done.
Qed.

Lemma oct_tail ds : Forall octal ds → Z.shiftr (oct ds) 3 = oct (tail ds).
Proof.
  intros [|d t Hd Ht]; [done|]. rewrite Z.shiftr_div_pow2 by lia. cbn [oct tail].
  change (2 ^ 3) with 8. unfold octal in Hd. Z.div_mod_to_equations; lia.
Qed.

Lemma oct_le ds : Forall (λ d, d <= 3) ds → oct ds <= oct (map (λ _, 3) ds).
Proof. induction 1; cbn [oct map]; lia. Qed.

Lemma map_half_octal ds : Forall octal ds → Forall octal (map (λ d, d / 2 mod 4) ds).
Proof.
  intros Hds. apply Forall_map. eapply Forall_impl; [exact Hds|]. cbn.
  unfold octal. intros. Z.div_mod_to_equations; lia.
Qed.

Lemma oct_bits_range ds : Forall octal ds → Forall (λ d, 0 <= d < 4) (map oct_bits ds).
Proof.
  intros Hds. apply Forall_map. eapply Forall_impl; [exact Hds|]. cbn.
  unfold octal, oct_bits. intros. Z.div_mod_to_equations; lia.
Qed.

Lemma digit_sum_le ds : Forall (λ d, 0 <= d < 4) ds → 0 <= digit_sum ds <= 3 * zlength ds.
Proof. induction 1; cbn [digit_sum]; rewrite ?zlength_cons; [done|]. cbn in *. lia. Qed.

Lemma map_const {A B} (f : A → A) (b : B) l : map (λ _, b) (map f l) = map (λ _, b) l.
Proof. induction l; simpl; congruence. Qed.

(** [xcb_popcount] returns the number of bits that are set in its 32-bit
    argument. *)
Theorem xcb_popcount_counts mask :
  0 <= mask < 2 ^ 32 → xcb_popcount mask = bit_count 32 mask.
Proof.
  intros Hm. set (ds := oct_digits 11 mask).
  assert (Forall octal ds) as Hds by apply oct_digits_octal.
  assert (oct ds = mask) as Hoct by (apply oct_digits_val; lia).
  pose proof (map_half_octal ds Hds) as Hh.
  pose proof (oct_bits_range ds Hds) as Hb.
  assert (Forall octal (map oct_bits ds)) as Hbo.
  { eapply Forall_impl; [exact Hb|]. unfold octal. cbn. lia. }
  assert (oct (map (λ _, 3) ds) = 0xdb6db6db) as H3 by reflexivity.
  assert (pair_mask (map oct_bits ds) = 0xc71c71c7) as H7 by reflexivity.
  assert (oct (map oct_bits ds) <= 0xdb6db6db) as Hle.
  { rewrite <- H3, <- (map_const oct_bits). apply oct_le.
    eapply Forall_impl; [exact Hb|]. cbn. lia. }
  pose proof (oct_nonneg _ Hbo) as H0. pose proof (oct_nonneg _ Hh) as H1.
  pose proof (oct_bits_sub ds) as Hsub.
  pose proof (oct_nonneg _ (map_half_octal _ Hh)) as H2.
  unfold xcb_popcount. rewrite <- Hoct, <- H3, oct_half by done.
  rewrite <- (map_const (λ d, d / 2 mod 4) 3 ds), oct_half by done.
  rewrite (u32_small (oct ds - _)) by lia. rewrite Hsub, (u32_small (oct _)) by lia.
  rewrite oct_tail by done.
  assert (oct (tail (map oct_bits ds)) <= oct (map oct_bits ds) / 8 /\
    0 <= oct (tail (map oct_bits ds))) as Ht.
  { rewrite <- oct_tail, Z.shiftr_div_pow2 by (done || lia).
    change (2 ^ 3) with 8. Z.div_mod_to_equations; lia. }
  rewrite u32_small by (Z.div_mod_to_equations; lia).
  rewrite <- H7, oct_pairs, pair_sums_mod by done.
  pose proof (digit_sum_le _ Hb) as Hs. change (zlength (map oct_bits ds)) with 11 in Hs.
  rewrite Z.mod_small by lia.
  pose proof (bit_count_oct 0 ds Hds) as Hc. change (3 * length ds + 0)%nat with 33%nat in Hc.
  rewrite Hoct, bit_count_grow in Hc by (change (Z.of_nat 32) with 32; lia).
  rewrite Hoct, Hc. change (bit_count 0 0) with 0. lia.
Qed.

Lemma xcb_popcount_counts_witness :
  0 <= 0x80000001 < 2 ^ 32 /\ xcb_popcount 0x80000001 = bit_count 32 0x80000001.
Proof. split; [lia|]. apply (xcb_popcount_counts 0x80000001). lia. Defined.

(** ** Searching and numerals *)

Lemma strrchr_none c s : strrchr c s = None ↔ c ∉ s.
Proof.
  induction s as [|b t IH]; cbn [strrchr].
  - split; [intros _; apply not_elem_of_nil|done].
  - rewrite not_elem_of_cons, <- IH.
    destruct (strrchr c t); [|destruct (decide (b = c))]; naive_solver.
Qed.

Lemma strrchr_app c h t : c ∉ t → strrchr c (h ++ c :: t) = Some (length h).
Proof.
  intros Ht%strrchr_none. induction h as [|b h IH]; cbn [strrchr app].
  - rewrite Ht. by rewrite decide_True.
  - by rewrite IH.
Qed.

Lemma strrchr_some c s i : strrchr c s = Some i →
  s = take i s ++ c :: drop (S i) s ∧ (c ∉ drop (S i) s) ∧ length (take i s) = i.
Proof.
  revert i; induction s as [|b t IH]; intros i; cbn [strrchr]; [done|].
  destruct (strrchr c t) as [j|] eqn:E.
  - intros [= <-]. destruct (IH j eq_refl) as (H1 & H2 & H3). cbn [take drop app length].
    split; [by f_equal|]. split; [done|]. by rewrite H3.
  - destruct (decide (b = c)) as [->|]; [|done]. intros [= <-]. cbn.
    rewrite drop_0. by apply strrchr_none in E.
Qed.

Lemma digit_val_of d : 0 <= d < 10 → digit_val (byte_of (48 + d)) = Some d.
Proof.
  intros Hd. unfold digit_val. rewrite byte_val_of. unfold u8. rewrite Z.mod_small by lia.
  rewrite (proj2 (Z.leb_le _ _)), (proj2 (Z.leb_le _ _)) by lia. cbn. f_equal. lia.
Qed.

Lemma digits_scan fuel n acc rest : (0 < fuel)%nat → 0 <= n < 10 ^ Z.of_nat fuel →
  scan_digits acc (digits fuel n ++ rest) =
  scan_digits (acc * 10 ^ zlength (digits fuel n) + n) rest.
Proof.
  revert n rest. induction fuel as [|fuel IH]; intros n rest Hf Hn; [lia|].
  rewrite Nat2Z.inj_succ, Z.pow_succ_r in Hn by lia. cbn [digits].
  assert (digit_val (byte_of (48 + n mod 10)) = Some (n mod 10)) as Hd.
  { apply digit_val_of. apply Z.mod_pos_bound. lia. }
  destruct (Z.ltb_spec n 10).
  - cbn [app scan_digits]. rewrite Hd, Z.mod_small by lia.
    f_equal. change (zlength [byte_of (48 + n)]) with 1. lia.
  - assert (0 < fuel)%nat as Hf'.
    { destruct fuel; [|lia]. change (10 * 10 ^ Z.of_nat 0) with 10 in Hn. lia. }
    rewrite <- app_assoc. cbn [app].
    rewrite IH by (done || Z.div_mod_to_equations; lia). cbn [scan_digits]. rewrite Hd.
    f_equal. rewrite zlength_app, Z.pow_add_r by apply zlength_nonneg.
    change (10 ^ zlength [byte_of (48 + n mod 10)]) with 10.
    Z.div_mod_to_equations; nia.
Qed.

(** A digit is neither a space nor a sign. *)
Lemma digit_plain b d : digit_val b = Some d →
  isspace b = false ∧ b ≠ "-"%byte ∧ b ≠ "+"%byte ∧ b ≠ "."%byte ∧ b ≠ ":"%byte ∧ b ≠ "/"%byte.
Proof. destruct b; vm_compute; intros [=]; repeat split; discriminate. Qed.

Lemma digits_digit fuel n : Forall (λ b, is_Some (digit_val b)) (digits fuel n).
Proof.
  revert n; induction fuel as [|fuel IH]; intros n; cbn [digits]; [constructor|].
  apply Forall_app. split; [destruct (_ <? _); [constructor|apply IH]|].
  constructor; [|constructor].
  eexists. apply digit_val_of. apply Z.mod_pos_bound. lia.
Qed.

Lemma digits_cons fuel n : (0 < fuel)%nat → ∃ b t, digits fuel n = b :: t.
Proof.
  destruct fuel; [lia|]. intros _. cbn [digits].
  destruct (if _ <? _ then _ else _); cbn; eauto.
Qed.

(** The tail of a numeral: nothing, or something that is not a digit. *)
Definition ends_numeral (rest : list byte) : Prop :=
  match rest with [] => True | b :: _ => digit_val b = None end.

Lemma strtoul_dec n rest : 0 <= n < 2 ^ 31 → ends_numeral rest →
  strtoul (dec n ++ rest) = (n, rest).
Proof.
  intros Hn Hr. unfold dec. rewrite (proj2 (Z.ltb_ge _ _)) by lia.
  pose proof (digits_scan 10 n 0 rest ltac:(lia) ltac:(cbn; lia)) as Hs.
  pose proof (digits_digit 10 n) as Hd.
  destruct (digits_cons 10 n ltac:(lia)) as (b & t & E). rewrite E in *.
  apply Forall_cons_1 in Hd as [[d Hb] _].
  destruct (digit_plain b d Hb) as (H1 & H2 & H3 & _).
  unfold strtoul. cbn [skip_space app]. rewrite H1. cbn [scan_sign].
  rewrite !decide_False by done. rewrite Hb. cbn [app] in Hs. rewrite Hs.
  replace (scan_digits _ rest) with (n, rest).
  - rewrite (proj2 (Z.ltb_ge _ _)) by lia. done.
  - destruct rest as [|b' r]; cbn [scan_digits]; [|rewrite Hr]; f_equal; lia.
Qed.

Lemma dec_plain n c : 0 <= n → (c = ":"%byte ∨ c = "/"%byte ∨ c = "."%byte) → c ∉ dec n.
Proof.
  intros Hn Hc Hin. unfold dec in Hin. rewrite (proj2 (Z.ltb_ge _ _)) in Hin by lia.
  pose proof (digits_digit 10 n) as Hd. rewrite Forall_forall in Hd.
  destruct (Hd c Hin) as [d (_ & _ & _ & H1 & H2 & H3)%digit_plain].
  naive_solver.
Qed.

(** ** The parser *)

(** The display names as they are written: an optional protocol, the host, the
    display number and an optional screen number. *)
Definition print_display (protocol : option (list byte)) (host : list byte)
    (display : Z) (screen : option Z) : list byte :=
  match protocol with Some p => p ++ ["/"%byte] | None => [] end ++
  host ++ ":"%byte :: dec display ++
  match screen with Some s => "."%byte :: dec s | None => [] end.

Definition print_numbers (host : list byte) (display : Z) (screen : option Z) : list byte :=
  print_display None host display screen.

Lemma numbers_plain display screen c :
  0 <= display → 0 <= default 0 screen → (c = ":"%byte ∨ c = "/"%byte) →
  c ∉ dec display ++ match screen with Some s => "."%byte :: dec s | None => [] end.
Proof.
  intros Hd Hs Hc. rewrite not_elem_of_app. split; [apply dec_plain; tauto|].
  destruct screen; [|apply not_elem_of_nil].
  rewrite not_elem_of_cons. split; [by destruct Hc as [-> | ->]|apply dec_plain; tauto].
Qed.

Lemma drop_length_app {A} (l : list A) x t : drop (S (length l)) (l ++ x :: t) = t.
Proof. induction l; simpl; [by rewrite drop_0|done]. Qed.

Lemma dec_nonnil n : 0 <= n → dec n ≠ [].
Proof.
  intros Hn. unfold dec. rewrite (proj2 (Z.ltb_ge _ _)) by lia.
  destruct (digits_cons 10 n ltac:(lia)) as (b & t & ->). done.
Qed.

Lemma parse_numbers_print host display screen :
  zlength host < 2 ^ 31 → 0 <= display < 2 ^ 31 → 0 <= default 0 screen < 2 ^ 31 →
  parse_numbers (print_numbers host display screen) =
  Some (zlength host, display, default 0 screen).
Proof.
  intros Hh Hd Hs. unfold parse_numbers, print_numbers, print_display. cbn [app].
  rewrite strrchr_app by (apply numbers_plain; (lia || by left)).
  rewrite drop_length_app. fold (zlength host). pose proof (zlength_nonneg host).
  rewrite (s32_small (zlength host)) by words.
  rewrite strtoul_dec by (done || by destruct screen).
  pose proof (dec_nonnil display ltac:(lia)).
  destruct screen as [s|]; cbn [default] in *; unfold id in *.
  - rewrite decide_False.
    2:{ intros E%(f_equal length). rewrite length_app in E.
        destruct (dec display); [done|]. simpl in E. lia. }
    rewrite decide_True by done.
    pose proof (strtoul_dec s [] Hs I) as Hs'. rewrite app_nil_r in Hs'. rewrite Hs'.
    rewrite decide_False by (exact (not_eq_sym (dec_nonnil s (proj1 Hs)))).
    rewrite decide_True by done. by rewrite !s32_small by words.
  - rewrite app_nil_r, decide_False by done. by rewrite s32_small by words.
Qed.

Lemma copy_prefix_ok l t w : os_mallocs (w_os w) = [] → zlength l < 2 ^ 31 - 1 →
  copy_prefix (zlength l) (l ++ t) w = Ret (Some l) w.
Proof.
  intros Hm Hl. unfold copy_prefix, malloc. pose proof (zlength_nonneg l).
  rewrite s32_small by words. rewrite u64_small by lia.
  rewrite (proj2 (Z.leb_gt _ _)) by lia. rewrite bind_assoc, bind_gets. cbn [compose].
  rewrite Hm, bind_ret. unfold ret. do 2 f_equal.
  unfold zlength. by rewrite Nat2Z.id, take_app_length.
Qed.

Lemma parse_host_print protocol host display screen w :
  zlength host < 2 ^ 31 - 1 → 0 <= display < 2 ^ 31 → 0 <= default 0 screen < 2 ^ 31 →
  os_mallocs (w_os w) = [] →
  parse_host protocol (print_numbers host display screen) w =
  Ret (Some (DisplayName host protocol display (default 0 screen))) w.
Proof.
  intros. unfold parse_host. rewrite parse_numbers_print by lia.
  unfold print_numbers, print_display. cbn [app]. unfold bind.
  by rewrite copy_prefix_ok by (done || lia).
Qed.

(** C28. The parser inverts the printing of display names: for any host without a
    slash (colons are allowed), any protocol and any two non-negative [int]s,
    the printed name is parsed to exactly these, whether it is the argument or
    comes from the environment; a missing screen is 0 and a missing protocol
    null.  Nothing else changes. *)
Theorem parse_display_roundtrip protocol host display screen env arg w :
  "/"%byte ∉ host → zlength host < 2 ^ 31 - 1 →
  zlength (default [] protocol) < 2 ^ 31 - 1 →
  0 <= display < 2 ^ 31 → 0 <= default 0 screen < 2 ^ 31 →
  os_mallocs (w_os w) = [] →
  let name := print_display protocol host display screen in
  arg = Some name ∨ (arg = None ∨ arg = Some []) ∧ env = Some name →
  _xcb_parse_display env arg true w =
  Ret (Some (DisplayName host protocol display (default 0 screen))) w.
Proof.
  intros Hslash Hh Hp Hd Hs Hm name Harg.
  assert (∃ b t, name = b :: t) as (b & t & E).
  { unfold name, print_display. destruct protocol as [[|??]|], host; cbn; eauto. }
  assert (match arg with Some (b :: t) => Some (b :: t) | _ => env end = Some name) as Hn.
  { destruct Harg as [-> | [[-> | ->] ->]]; [by rewrite E|done..]. }
  unfold _xcb_parse_display. rewrite Hn. clear Hn Harg.
  pose proof (numbers_plain display screen "/"%byte ltac:(lia) ltac:(lia) (or_intror eq_refl)).
  assert ("/"%byte ∉ print_numbers host display screen) as Hns.
  { unfold print_numbers, print_display. cbn [app].
    by rewrite not_elem_of_app, not_elem_of_cons. }
  destruct protocol as [p|]; cbn [default] in Hp; unfold id in Hp.
  - replace name with (p ++ "/"%byte :: print_numbers host display screen)
      by (unfold name, print_numbers, print_display; cbn; by rewrite <- app_assoc).
    rewrite strrchr_app by done. rewrite drop_length_app. fold (zlength p).
    pose proof (zlength_nonneg p). rewrite s32_small by words.
    rewrite bind_assoc. unfold bind at 1. rewrite copy_prefix_ok by done.
    rewrite bind_ret. by apply parse_host_print; try lia.
  - change name with (print_numbers host display screen).
    rewrite (proj2 (strrchr_none _ _)) by done. rewrite bind_ret. by apply parse_host_print; try lia.
Qed.

Lemma parse_display_roundtrip_witness :
  let name := c_string "tcp/::1:10.2" in
  name = print_display (Some (c_string "tcp")) (c_string "::1") 10 (Some 2) ∧
  _xcb_parse_display (Some name) None true
    (sample_world (sample_in []) (sample_out [] 0 0) (sample_os [] [] [])) =
  Ret (Some (DisplayName (c_string "::1") (Some (c_string "tcp")) 10 2))
    (sample_world (sample_in []) (sample_out [] 0 0) (sample_os [] [] [])).
Proof.
  split; [reflexivity|].
  apply (parse_display_roundtrip (Some (c_string "tcp")) (c_string "::1") 10 (Some 2));
    try (vm_compute; split; [discriminate|reflexivity]); try (vm_compute; reflexivity).
  - by apply (bool_decide_unpack _).
  - right. split; [by left|reflexivity].
Defined.

(** ** What the parser accepts *)

(** [numeral D v]: [strtoul] takes the whole of the non-empty string [D], which is
    an optional run of spaces, an optional sign and digits, and gives [v]. *)
Definition numeral (D : list byte) (v : Z) : Prop := D ≠ [] ∧ strtoul D = (v, []).

Lemma scan_digits_split acc s v r : scan_digits acc s = (v, r) →
  ∃ D, s = D ++ r ∧ scan_digits acc D = (v, []).
Proof.
  revert acc; induction s as [|b t IH]; intros acc; cbn [scan_digits].
  - intros [= <- <-]. by exists [].
  - destruct (digit_val b) as [d|] eqn:E.
    + intros (D & -> & HD)%IH. exists (b :: D). cbn [scan_digits]. by rewrite E.
    + intros [= <- <-]. by exists [].
Qed.

Lemma skip_space_split s : ∃ sp, s = sp ++ skip_space s ∧
  ∀ t, (∀ b t', t = b :: t' → isspace b = false) → skip_space (sp ++ t) = t.
Proof.
  induction s as [|b s (sp & E & Hsp)]; cbn [skip_space].
  - exists []. split; [done|]. intros [|b t] Ht; [done|]. cbn. by rewrite (Ht b t).
  - destruct (isspace b) eqn:Eb.
    + exists (b :: sp). split; [cbn; congruence|]. intros t Ht. cbn. rewrite Eb. auto.
    + exists []. split; [done|]. intros [|b' t] Ht; [done|]. cbn. by rewrite (Ht b' t).
Qed.

Lemma skip_space_head s b t : skip_space s = b :: t → isspace b = false.
Proof.
  induction s as [|b' s IH]; cbn [skip_space]; [done|].
  destruct (isspace b') eqn:E; [done|]. by intros [= -> _].
Qed.

(** A sign in front of the digits is kept when what follows them is cut off. *)
Lemma scan_sign_split s neg b t : scan_sign s = (neg, b :: t) →
  ∃ sg, s = sg ++ b :: t ∧ ∀ t', scan_sign (sg ++ b :: t') = (neg, b :: t').
Proof.
  destruct s as [|b0 s]; cbn [scan_sign]; [done|].
  destruct (decide (b0 = "-"%byte)) as [->|]; [|destruct (decide (b0 = "+"%byte)) as [->|]];
    intros [=]; subst.
  - by exists ["-"%byte].
  - by exists ["+"%byte].
  - exists []. split; [done|]. intros t'. cbn. by rewrite !decide_False.
Qed.

Lemma strtoul_split s v r : strtoul s = (v, r) → r ≠ s → ∃ D, s = D ++ r ∧ numeral D v.
Proof.
  unfold strtoul. intros Hs Hr.
  destruct (skip_space_split s) as (sp & E & Hsp).
  destruct (scan_sign (skip_space s)) as [neg [|b t]] eqn:Esg; [by injection Hs|].
  destruct (digit_val b) as [d|] eqn:Eb; [|by injection Hs].
  destruct (scan_sign_split _ _ _ _ Esg) as (sg & Eg & Hsg).
  destruct (scan_digits 0 (b :: t)) as [v' r'] eqn:Esc.
  destruct (scan_digits_split _ _ _ _ Esc) as (D & ED & HD).
  injection Hs as Hv <-.
  destruct D as [|b' D].
  { exfalso. cbn in HD, ED. injection HD as <-. subst r'.
    apply (f_equal (length ∘ snd)) in Esc. cbn [scan_digits] in Esc. rewrite Eb in Esc.
    cbn in Esc. destruct (scan_digits _ t) as [v0 r0] eqn:E0.
    destruct (scan_digits_split _ _ _ _ E0) as (D0 & -> & _).
    cbn in Esc. rewrite length_app in Esc. lia. }
  cbn in ED. injection ED as <- ->.
  assert (skip_space (sp ++ sg ++ b :: D) = sg ++ b :: D) as Hskip.
  { apply Hsp. intros b1 t1 E1. rewrite Eg in E.
    destruct sg as [|b2 sg]; cbn in E1; injection E1 as <- _.
    - by apply (digit_plain b d).
    - eapply skip_space_head. rewrite Eg. done. }
  exists (sp ++ sg ++ b :: D). split.
  { rewrite E, Eg, <- !app_assoc. done. }
  split; [by destruct sp, sg|].
  unfold strtoul. rewrite Hskip, Hsg. rewrite Eb, HD. by rewrite <- Hv.
Qed.

(** A successful [parse_numbers]. *)
Lemma parse_numbers_inv name len display screen :
  parse_numbers name = Some (len, display, screen) →
  ∃ host D dv rest, name = host ++ ":"%byte :: D ++ rest ∧ len = s32 (zlength host) ∧
    numeral D dv ∧ display = s32 dv ∧ (":"%byte ∉ D ++ rest) ∧
    (rest = [] ∧ screen = 0 ∨
     ∃ S sv, rest = "."%byte :: S ∧ numeral S sv ∧ screen = s32 sv).
Proof.
  unfold parse_numbers. destruct (strrchr _ name) as [i|] eqn:E; [|done].
  apply strrchr_some in E as (Hname & Hc & Hlen).
  destruct (strtoul _) as [dv dot] eqn:Ed. case_decide as Hdot; [done|].
  destruct (strtoul_split _ _ _ Ed Hdot) as (D & HD & HDn). rewrite HD in Hname, Hc.
  intros Hp. exists (take i name), D, dv, dot.
  assert (len = s32 (zlength (take i name)) ∧ display = s32 dv ∧
    (dot = [] ∧ screen = 0 ∨
     ∃ S sv, dot = "."%byte :: S ∧ numeral S sv ∧ screen = s32 sv)) as (-> & -> & Hs).
  { unfold zlength. rewrite Hlen. destruct dot as [|b S].
    - injection Hp as <- <- <-. by split_and!; [..|left].
    - case_decide as Hb; [|done]. destruct (strtoul S) as [sv r] eqn:Es.
      case_decide as Hr; [done|]. case_decide as Hr'; [|done].
      injection Hp as <- <- <-. subst.
      destruct (strtoul_split _ _ _ Es Hr) as (S' & HS & Hn).
      rewrite app_nil_r in HS. subst S'. split_and!; [done..|right]. by exists S, sv. }
  done.
Qed.

Lemma copy_prefix_inv len name r w w' : copy_prefix len name w = Ret (Some r) w' →
  r = take (Z.to_nat len) name.
Proof.
  unfold copy_prefix. intros (ok & w1 & _ & H)%bind_inv. destruct ok; by inversion H.
Qed.

(** What the parser accepts: the protocol is what stands before the last
    slash, the host what stands between it and the last colon behind it, and
    the two numbers are whole numerals of [strtoul], with an optional sign and
    leading spaces, reduced to an [int]. *)
Lemma parse_display_accepts env arg name dn w w' :
  match arg with Some (b :: t) => Some (b :: t) | _ => env end = Some name →
  zlength name < 2 ^ 31 →
  _xcb_parse_display env arg true w = Ret (Some dn) w' →
  ∃ D dv rest,
    name = match dn_protocol dn with Some p => p ++ ["/"%byte] | None => [] end ++
           dn_host dn ++ ":"%byte :: D ++ rest ∧
    ("/"%byte ∉ dn_host dn ++ ":"%byte :: D ++ rest) ∧ (":"%byte ∉ D ++ rest) ∧
    numeral D dv ∧ dn_display dn = s32 dv ∧
    (rest = [] ∧ dn_screen dn = 0 ∨
     ∃ S sv, rest = "."%byte :: S ∧ numeral S sv ∧ dn_screen dn = s32 sv).
Proof.
  intros Harg Hlen Hp. unfold _xcb_parse_display in Hp. rewrite Harg in Hp.
  apply bind_inv in Hp as (p & w1 & Hproto & Hhost).
  assert (∃ protocol name', p = Some (protocol, name') ∧
    name = match protocol with Some p => p ++ ["/"%byte] | None => [] end ++ name' ∧
    "/"%byte ∉ name') as (protocol & name' & -> & Hname & Hslash).
  { destruct (strrchr _ name) as [i|] eqn:Ei.
    - apply strrchr_some in Ei as (En & Hn & Hi).
      apply bind_inv in Hproto as (copy & w2 & Hcopy & Hret).
      destruct copy as [proto|]; injection Hret as <- <-; [|done].
      apply copy_prefix_inv in Hcopy as ->.
      assert (s32 (Z.of_nat i) = Z.of_nat i) as ->.
      { apply s32_small. rewrite En in Hlen. revert Hlen.
        rewrite zlength_app. unfold zlength at 1. rewrite Hi.
        pose proof (zlength_nonneg ("/"%byte :: drop (S i) name)). words. }
      rewrite Nat2Z.id. exists (Some (take i name)), (drop (S i) name).
      split_and!; [done| |done]. by rewrite <- app_assoc.
    - injection Hproto as <- <-. apply strrchr_none in Ei. by exists None, name. }
  unfold parse_host in Hhost.
  destruct (parse_numbers name') as [[[len display] screen]|] eqn:Ep; [|done].
  apply parse_numbers_inv in Ep as (host & D & dv & rest & -> & -> & HD & -> & Hc & Hs).
  apply bind_inv in Hhost as (copy & w2 & Hcopy & Hret).
  destruct copy as [h|]; inversion Hret; subst dn w2; clear Hret.
  apply copy_prefix_inv in Hcopy as ->. cbn [dn_protocol dn_host dn_display dn_screen].
  assert (s32 (zlength host) = zlength host) as ->.
  { apply s32_small. rewrite Hname, !zlength_app in Hlen. revert Hlen.
    pose proof (zlength_nonneg host). pose proof (zlength_nonneg (":"%byte :: D ++ rest)).
    pose proof (zlength_nonneg match protocol with Some p => p ++ ["/"%byte] | None => [] end).
    words. }
  unfold zlength. rewrite Nat2Z.id, take_app_length. by exists D, dv, rest.
Qed.

