(* ===== verification/AuthProps.v ===== *)
(** * Authorization data: properties

    Which blocks of the heap [_xcb_get_auth_info] leaves behind, the key it looks
    credentials up with, and the record it computes. *)
From S2P Require Import Prelude Effects State Sample InFrame InFacts OutFacts Display Connect Auth.
From Stdlib Require Import Strings.Byte.
#[local] Open Scope Z_scope.

(** ** The heap *)

Definition live (w : world) : list nat := net_live (os_net (w_os w)).
Definition names (w : world) : list (option (list byte)) := net_names (os_net (w_os w)).
Definition fresh (w : world) : nat := os_fresh (w_os w).

(** What looking up credentials leaves alone. *)
Definition auth_frame (w w' : world) : Prop :=
  held w' = held w ∧ net_fds (os_net (w_os w')) = net_fds (os_net (w_os w)) ∧
  (no_oom w → no_oom w').

#[export] Instance auth_frame_preorder : PreOrder auth_frame.
Proof.
  split; [by intros w|]. intros w1 w2 w3 (? & ? & ?) (? & ? & ?).
  unfold auth_frame. split_and!; try congruence; auto.
Qed.

(** All blocks have been allocated. *)
Definition bounded (n : nat) (l : list nat) : Prop := Forall (λ b, (b < n)%nat) l.

Lemma bounded_mono n m l : bounded n l → (n <= m)%nat → bounded m l.
Proof. intros Hl Hm. eapply Forall_impl; [exact Hl|]. cbn. lia. Qed.

Lemma filter_other a l : bounded a l → filter (λ b, b ≠ a) l = l.
Proof.
  induction 1 as [|b l Hb _ IH]; [done|]. rewrite filter_cons.
  rewrite decide_True by lia. by rewrite IH.
Qed.

Lemma filter_head a l : bounded a l → filter (λ b, b ≠ a) (a :: l) = l.
Proof.
  intros Hl. rewrite filter_cons, decide_False by auto. by apply filter_other.
Qed.

Lemma filter_above a b l : (a < b)%nat → bounded a l →
  filter (λ c, c ≠ a) (b :: a :: l) = b :: l.
Proof. intros Hb Hl. rewrite filter_cons, decide_True, filter_head by (done || lia). done. Qed.

Section Heap.
Context `{Host} `{XAuth}.

Lemma wp_heap_alloc size w :
  0 <= size < 2 ^ 63 →
  wp (heap_alloc size) (λ r w', auth_frame w w' ∧ names w' = names w ∧
    match r with
    | Some a => a = fresh w ∧ live w' = a :: live w ∧ fresh w' = S a
    | None => live w' = live w ∧ fresh w' = fresh w ∧ ¬ no_oom w
    end) w.
Proof.
  intros Hs. unfold heap_alloc, wp.
  destruct (malloc_cases size w Hs) as (ok & ms & E & Hok).
  rewrite (bind_run _ _ _ _ _ E). destruct ok; cbn.
  - unfold auth_frame. split_and!; try done. by intros [_ ->]%Hok.
  - unfold auth_frame. split_and!; try done; by intros [? _]%Hok.
Qed.

Lemma wp_heap_free a w :
  a ∈ live w →
  wp (heap_free a) (λ _ w', auth_frame w w' ∧ names w' = names w ∧ fresh w' = fresh w ∧
    live w' = filter (λ b, b ≠ a) (live w)) w.
Proof.
  intros Ha. unfold heap_free, wp. rewrite bind_gets. unfold compose.
  by rewrite decide_True.
Qed.

(** The addresses fit the buffer [get_peer_sock_name] starts with. *)
Definition short_names (w : world) : Prop :=
  Forall (λ r, match r with Some n => zlength n <= socknamelen | None => True end) (names w).

(** A successful call allocates the next block, a failed one nothing. *)
Lemma wp_get_peer_sock_name w :
  short_names w → bounded (fresh w) (live w) →
  wp get_peer_sock_name (λ r w', auth_frame w w' ∧ short_names w' ∧ (fresh w <= fresh w')%nat ∧
    match r with
    | Some (a, _) => a = fresh w ∧ live w' = a :: live w ∧ fresh w' = S a
    | None => live w' = live w
    end) w.
Proof.
  intros Hs Hb. unfold get_peer_sock_name. apply wp_bind.
  eapply wp_mono; [apply wp_heap_alloc; unfold socknamelen; lia|].
  intros [a|] w1 (Hf & Hn & Hr).
  2:{ destruct Hr as (Hl & Hfr & _). unfold wp, ret. cbn. unfold short_names. rewrite Hn, Hfr.
      split_and!; try done. }
  destruct Hr as (-> & Hl & Hfr). apply wp_bind. unfold wp at 1, socket_name.
  rewrite bind_gets. unfold compose. fold (names w1).
  assert (∀ w2, auth_frame w1 w2 → live w2 = live w1 → fresh w2 = fresh w1 → short_names w2 →
    wp (heap_free (fresh w);; ret None) (λ (r : option (nat * list byte)) w', auth_frame w w' ∧
      short_names w' ∧ (fresh w <= fresh w')%nat ∧
      match r with
      | Some (a, _) => a = fresh w ∧ live w' = a :: live w ∧ fresh w' = S a
      | None => live w' = live w
      end) w2) as Hfree.
  { intros w2 Hf2 Hl2 Hfr2 Hs2. apply wp_bind.
    eapply wp_mono; [apply wp_heap_free; rewrite Hl2, Hl; by left|].
    intros _ w3 (Hf3 & Hn3 & Hfr3 & Hl3). unfold wp, ret, short_names. cbn.
    rewrite Hn3, Hfr3, Hfr2, Hfr, Hl3, Hl2, Hl, filter_head by done. split_and!; try done; [|lia].
    by do 2 (etransitivity; [eassumption|]). }
  unfold short_names in Hs. rewrite <- Hn in Hs.
  destruct (names w1) as [|r t] eqn:En.
  - cbn. apply Hfree; try done. unfold short_names. by rewrite En.
  - apply Forall_cons in Hs as [Hr Ht]. unfold modify_net. rewrite bind_modify. cbn.
    set (w2 := set_w_os _ w1). assert (auth_frame w1 w2) as Hf2 by done.
    destruct r as [n|]; [|by apply Hfree].
    destruct (Z.leb_spec (zlength n) socknamelen); [|lia]. unfold wp, ret.
    unfold short_names. cbn. change (os_fresh (w_os w1)) with (fresh w1).
    change (net_live (os_net (w_os w1))) with (live w1).
    rewrite Hfr, Hl. split_and!; try done; first [lia|by transitivity w1].
Qed.

(** A call that returns the next block or allocates nothing. *)
Definition one_block {A} (w : world) (r : option (nat * A)) (w' : world) : Prop :=
  auth_frame w w' ∧ (fresh w <= fresh w')%nat ∧
  match r with
  | Some (a, _) => a = fresh w ∧ live w' = a :: live w ∧ fresh w' = S a
  | None => live w' = live w
  end.

Lemma wp_memdup src w : zlength src < 2 ^ 16 →
  wp (memdup src) (λ r w', one_block w r w' ∧ names w' = names w) w.
Proof.
  intros Hs. unfold memdup. destruct (_ =? 0).
  { unfold wp, ret, one_block. by split_and!. }
  apply wp_bind. pose proof (zlength_nonneg src).
  eapply wp_mono; [apply wp_heap_alloc; lia|]. unfold wp, ret, one_block.
  intros [a|] w1 (Hf & Hn & Hr).
  - destruct Hr as (-> & ? & Hfr). rewrite Hfr. split_and!; try done; lia.
  - destruct Hr as (? & Hfr & _). rewrite Hfr. by split_and!.
Qed.

Lemma take_le_length {A} n (l : list A) : (length (take n l) <= n)%nat.
Proof. rewrite length_take. lia. Qed.

(** An address record has at most six bytes; only the counter of nonces moves. *)
Lemma wp_xdm_address s w : NonceLock ∉ held w →
  wp (xdm_address s) (λ r w', auth_frame w w' ∧ names w' = names w ∧ live w' = live w ∧
    fresh w' = fresh w ∧ match r with Some addr => (length addr <= 6)%nat | None => True end) w.
Proof.
  intros Hl. unfold xdm_address.
  assert (length (sin_port s) <= 2)%nat as Hp by apply take_le_length.
  destruct (_ =? AF_INET); [|destruct (_ =? AF_INET6); [|destruct (_ =? AF_UNIX)]].
  - unfold wp, ret. split_and!; try done. rewrite length_app.
    pose proof (take_le_length 4 (drop 4 s)). unfold sin_addr. lia.
  - destruct (in6_v4mapped _); unfold wp, ret; split_and!; try done.
    rewrite length_app, length_drop.
    pose proof (take_le_length 16 (drop 8 s)). unfold sin6_addr. lia.
  - unfold wp, next_nonce. rewrite bind_assoc, (bind_lock NonceLock (held w)) by done.
    rewrite bind_assoc, bind_gets. unfold modify_net. rewrite bind_assoc, bind_modify.
    rewrite bind_assoc, (bind_unlock NonceLock (held w)) by done.
    cbn. split_and!; try done; lia.
  - unfold wp, ret. by split_and!.
Qed.

(** The lengths of a record have 16 bits, and an XDM-AUTHORIZATION-1 record holds
    the eight bytes of its session and the eight of its key.  libXau does not see
    to the second: the record is what the user's file contains. *)
Definition good_xauth (x : Xauth) : Prop :=
  zlength (xau_name x) < 2 ^ 16 ∧ zlength (xau_data x) < 2 ^ 16 ∧
  (xau_name x = authnames AUTH_XA1 → 16 <= zlength (xau_data x)).

Lemma authname_match_eq kind name : authname_match kind name = bool_decide (authnames kind = name).
Proof.
  unfold authname_match. destruct (Z.eqb_spec (zlength (authnames kind)) (zlength name)); [done|].
  symmetry. apply bool_decide_eq_false. congruence.
Qed.

Lemma wp_compute_auth x s w :
  good_xauth x → NonceLock ∉ held w → bounded (fresh w) (live w) →
  wp (compute_auth x s) (λ r w', one_block w r w' ∧ names w' = names w) w.
Proof.
  intros (_ & Hd & H16) Hl Hb. unfold compute_auth. rewrite !authname_match_eq.
  destruct (bool_decide _); [by apply wp_memdup|]. case_bool_decide as Hxa.
  2:{ unfold wp, ret, one_block. by split_and!. }
  apply wp_bind. eapply wp_mono; [apply wp_heap_alloc; lia|].
  intros [a|] w1 (Hf & Hn & Hr).
  2:{ destruct Hr as (? & Hfr & _). unfold wp, ret, one_block. rewrite Hfr. by split_and!. }
  destruct Hr as (-> & Hlv & Hfr).
  destruct (Z.ltb_spec (zlength (xau_data x)) 8); [specialize (H16 (eq_sym Hxa)); lia|].
  apply wp_bind. eapply wp_mono; [apply wp_xdm_address; by rewrite (proj1 Hf)|].
  intros [addr|] w2 (Hf2 & Hn2 & Hl2 & Hfr2 & Haddr).
  - unfold wp. assert (zlength (take 8 (xau_data x) ++ addr ++ net32 time) <= 24) as Hz.
    { unfold zlength. rewrite !length_app. unfold net32. rewrite length_rev, length_le_bytes.
      pose proof (take_le_length 8 (xau_data x)). lia. }
    apply Z.leb_le in Hz. rewrite Hz. cbn [assertM]. rewrite bind_ret.
    destruct (Z.ltb_spec (zlength (xau_data x)) 16); [specialize (H16 (eq_sym Hxa)); lia|].
    unfold ret, one_block. rewrite Hfr2, Hfr, Hl2, Hn2. split; [|done]. split_and!; try done; [|lia].
    by transitivity w1.
  - apply wp_bind. eapply wp_mono; [apply wp_heap_free; rewrite Hl2, Hlv; by left|].
    intros _ w3 (Hf3 & Hn3 & Hfr3 & Hl3). unfold wp, ret, one_block.
    rewrite Hl3, Hl2, Hlv, filter_head, Hfr3, Hfr2, Hfr, Hn3, Hn2 by done.
    split; [|done]. split_and!; try done; [|lia]. by do 2 (etransitivity; [eassumption|]).
Qed.
End Heap.

(** ** The whole lookup *)

Section Lookup.
Context `{Host} `{XAuth}.

(** The block [getpeername] fills in, if it answers. *)
Definition peer_block (w : world) : list nat :=
  match get_peer_sock_name w with Ret (Some (a, _)) _ => [a] | _ => [] end.

Lemma wp_find_sockname w :
  short_names w → bounded (fresh w) (live w) →
  wp find_sockname (λ r w', auth_frame w w' ∧ short_names w' ∧ (fresh w <= fresh w')%nat ∧
    match r with
    | Some (a, _, got) => (fresh w <= a < fresh w')%nat ∧ live w' = a :: live w ∧
        peer_block w = if got then [] else [a]
    | None => live w' = live w
    end) w.
Proof.
  intros Hs Hb. unfold find_sockname. apply wp_bind.
  eapply wp_mono; [by apply wp_run, wp_get_peer_sock_name|].
  intros r1 w1 (E & Hf & Hs1 & Hfr & Hr).
  assert (peer_block w = match r1 with Some (a, _) => [a] | None => [] end) as Hp
    by (unfold peer_block; by rewrite E).
  destruct r1 as [[a s]|].
  { destruct Hr as (-> & Hl & Hfr1). unfold wp, ret. rewrite Hfr1. split_and!; try done; lia. }
  apply wp_bind. eapply wp_mono; [apply wp_get_peer_sock_name; [done|]|].
  { rewrite Hr. by eapply bounded_mono. }
  intros [[a s]|] w2 (Hf2 & Hs2 & Hfr2 & Hr2).
  2:{ unfold wp, ret. rewrite Hr2, Hr. split_and!; try done; [by transitivity w1|lia]. }
  destruct Hr2 as (-> & Hl2 & Hfr3). destruct (negb _).
  - apply wp_bind. eapply wp_mono; [apply wp_heap_free; rewrite Hl2; by left|].
    intros _ w3 (Hf3 & Hn3 & Hfr4 & Hl3). unfold wp, ret, short_names.
    rewrite Hl3, Hl2, Hr, filter_head, Hfr4, Hfr3, Hn3 by (by eapply bounded_mono).
    split_and!; try done; [|lia]. by do 2 (etransitivity; [eassumption|]).
  - unfold wp, ret. rewrite Hfr3, Hl2, Hr. split_and!; try done; try lia. by transitivity w1.
Qed.

(** From [compute_auth] on: the block of the socket's name is released, and that of
    [info->name] unless the call succeeds. *)
Definition finish_tail (x : Xauth) (a : nat) (s : list byte) (name : nat * list byte)
    : xM (option auth_result) :=
  data ← compute_auth x s;
  match data with
  | None => heap_free name.1;; heap_free a;; ret None
  | Some d => heap_free a;; ret (Some (AuthResult (AuthInfo name.2 d.2) name.1 d.1))
  end.

Lemma wp_finish_tail x a s name n w :
  good_xauth x → NonceLock ∉ held w → bounded (fresh w) (live w) →
  a ∈ live w → name ∈ live w → a ≠ name →
  wp (finish_tail x a s (name, n)) (λ r w', auth_frame w w' ∧
    match r with
    | Some res => res_name res = name ∧
        live w' = filter (λ b, b ≠ a) (res_data res :: live w) ∧ (fresh w <= res_data res)%nat
    | None => live w' = filter (λ b, b ≠ a) (filter (λ b, b ≠ name) (live w))
    end) w.
Proof.
  intros Hx Hnl Hb Ha Hn Hne. unfold finish_tail. apply wp_bind.
  eapply wp_mono; [by apply wp_compute_auth|].
  intros [[d dat]|] w1 ((Hf & Hfr & Hr) & _).
  - destruct Hr as (-> & Hl & _). apply wp_bind. cbn [fst snd].
    eapply wp_mono; [apply wp_heap_free; rewrite Hl; by right|].
    intros _ w2 (Hf2 & _ & _ & Hl2). unfold wp, ret. cbn. rewrite Hl2, Hl.
    split_and!; try done. by transitivity w1.
  - apply wp_bind. cbn [fst snd]. eapply wp_mono; [apply wp_heap_free; by rewrite Hr|].
    intros _ w2 (Hf2 & _ & _ & Hl2). apply wp_bind.
    eapply wp_mono; [apply wp_heap_free; rewrite Hl2, Hr; by apply list_elem_of_filter|].
    intros _ w3 (Hf3 & _ & _ & Hl3). unfold wp, ret. cbn. rewrite Hl3, Hl2, Hr.
    split; [|done]. by do 2 (etransitivity; [eassumption|]).
Qed.

(** Filtering a list whose head is explicit and whose tail is older. *)
Ltac filter_tac :=
  repeat (rewrite filter_cons; case_decide; try lia);
  repeat match goal with
  | |- context [filter (λ b, b ≠ ?a) ?l] =>
      is_var l; rewrite (filter_other a l) by (eapply bounded_mono; [eassumption|lia])
  end; try done.

(** The blocks left by the part behind the lookup: those of the result and, unless
    the name of the socket is its own, the block of the peer's address. *)
Lemma wp_finish_auth x sock s (got : bool) name n w l :
  good_xauth x → NonceLock ∉ held w → short_names w →
  live w = name :: sock :: l → (sock < name < fresh w)%nat → bounded sock l →
  let leaked := if got then [] else [sock] in
  wp (finish_auth x (sock, s) got (name, n)) (λ r w', auth_frame w w' ∧
    match r with
    | Some res => live w' = res_data res :: res_name res :: leaked ++ l ∧
        res_name res = name ∧ (name < res_data res)%nat
    | None => live w' = leaked ++ l
    end) w.
Proof.
  intros Hx Hnl Hs Hlv Hord Hb leaked. unfold finish_auth.
  assert (bounded (fresh w) (live w)) as Hbw.
  { rewrite Hlv. repeat (apply Forall_cons; split; [lia|]). eapply bounded_mono; [exact Hb|lia]. }
  apply wp_bind. destruct got; subst leaked.
  - unfold wp at 1, ret at 1. fold (finish_tail x sock s (name, n)).
    eapply wp_mono; [apply wp_finish_tail; try done; rewrite ?Hlv; [right; by left|by left|lia]|].
    rewrite Hlv. intros [res|] w1 [Hf Hr]; (split; [done|]).
    + destruct Hr as (-> & -> & Hfr). split_and!; [filter_tac|done|lia].
    + rewrite Hr. filter_tac.
  - eapply wp_mono; [by apply wp_get_peer_sock_name|].
    intros [[a s2]|] w1 (Hf & Hs1 & Hfr & Hr).
    + destruct Hr as (-> & Hl1 & Hfr1). fold (finish_tail x (fresh w) s2 (name, n)).
      rewrite Hlv in Hl1.
      eapply wp_mono; [apply wp_finish_tail; try done; rewrite ?Hl1, ?Hfr1|].
      * by rewrite (proj1 Hf).
      * repeat (apply Forall_cons; split; [lia|]). eapply bounded_mono; [exact Hb|lia].
      * by left.
      * right. by left.
      * lia.
      * rewrite Hl1, Hfr1. intros [res|] w2 [Hf2 Hr]; (split; [by transitivity w1|]).
        -- destruct Hr as (-> & -> & Hd). split_and!; [filter_tac|done|lia].
        -- rewrite Hr. filter_tac.
    + rewrite Hlv in Hr. cbn [fst].
      apply wp_bind. eapply wp_mono; [apply wp_heap_free; rewrite Hr; by left|].
      intros _ w2 (Hf2 & _ & _ & Hl2). unfold wp, ret. split; [by transitivity w1|].
      rewrite Hl2, Hr. filter_tac.
Qed.

(** C26. The memory of [_xcb_get_auth_info], whatever the calls it makes answer, if
    the socket's addresses fit the first buffer and an XDM-AUTHORIZATION-1 record
    has its sixteen bytes.  Within these bounds it never releases a block that is
    not allocated, never reads outside a record and never fails its assertion.
    When it succeeds, exactly three blocks are left: the two of the result, and
    the block of the peer's address if [getpeername] has answered, which nothing
    points to any more.  When it fails, at most that block is left.  The code
    does not check these bounds; the lemmas on a stale pointer and on a short
    record below show what it does outside them. *)
Theorem get_auth_info_blocks display w :
  short_names w → bounded (fresh w) (live w) → NonceLock ∉ held w →
  (∀ s x, get_authptr s display = Some x → good_xauth x) →
  wp (_xcb_get_auth_info display) (λ r w',
    held w' = held w ∧ net_fds (os_net (w_os w')) = net_fds (os_net (w_os w)) ∧
    match r with
    | Some res => live w' = res_data res :: res_name res :: peer_block w ++ live w ∧
        (fresh w <= res_name res < res_data res)%nat
    | None => live w' = live w ∨ live w' = peer_block w ++ live w
    end) w.
Proof.
  intros Hs Hb Hnl Hgood. unfold _xcb_get_auth_info. apply wp_bind.
  eapply wp_mono; [by apply wp_find_sockname|].
  intros [[[a s] got]|] w1 (Hf & Hs1 & Hfr & Hr).
  2:{ unfold wp, ret. split; [apply Hf|]. split; [apply Hf|]. by left. }
  destruct Hr as (Ha & Hl & Hp). assert (bounded a (live w)) as Hba by (eapply bounded_mono; [done|lia]).
  assert (∀ w2, auth_frame w1 w2 → live w2 = live w1 →
    wp (heap_free a;; ret (None : option auth_result)) (λ r w', held w' = held w ∧
      net_fds (os_net (w_os w')) = net_fds (os_net (w_os w)) ∧ r = None ∧ live w' = live w) w2) as Hfree.
  { intros w2 (Hh2 & Hn2 & _) Hl2. destruct Hf as (Hh & Hn & _).
    apply wp_bind. eapply wp_mono; [apply wp_heap_free; rewrite Hl2, Hl; by left|].
    intros _ w3 ((Hh3 & Hn3 & _) & _ & _ & Hl3). unfold wp, ret. split; [congruence|].
    split; [congruence|]. split; [done|]. rewrite Hl3, Hl2, Hl. by apply filter_head. }
  destruct (get_authptr s display) as [x|] eqn:Ex.
  2:{ eapply wp_mono; [by apply Hfree|]. intros ? w3 (? & ? & -> & ?). split_and!; auto. }
  pose proof (Hgood _ _ Ex) as Hx. apply wp_bind.
  eapply wp_mono; [apply wp_memdup, Hx|].
  intros [[b n]|] w2 ((Hf2 & Hfr2 & Hr) & Hn2).
  2:{ eapply wp_mono; [by apply Hfree|]. intros ? w3 (? & ? & -> & ?). split_and!; auto. }
  destruct Hr as (-> & Hl2 & Hfr3). rewrite Hl in Hl2.
  eapply wp_mono; [apply (wp_finish_auth x a s got (fresh w1) n w2 (live w)); try done|].
  - by rewrite (proj1 Hf2), (proj1 Hf).
  - unfold short_names. by rewrite Hn2.
  - lia.
  - rewrite <- Hp. intros r w3 [(Hh3 & Hn3 & _) Hr]. destruct Hf as (? & ? & _), Hf2 as (? & ? & _).
    split; [congruence|]. split; [congruence|].
    destruct r as [res|]; [|by right]. destruct Hr as (? & ? & ?). split; [done|lia].
Qed.
End Lookup.

(** ** A cookie, and a stale pointer *)

Section Cookie.
Context `{Host} `{XAuth}.

(** The world after the next block has been allocated. *)
Definition allocated (w : world) : world :=
  let w := set_w_os (set_os_fresh (S (fresh w)) (w_os w)) w in
  set_w_os (set_os_net (set_net_live ((fresh w - 1)%nat :: live w) (os_net (w_os w))) (w_os w)) w.

Lemma heap_alloc_run size w : no_oom w → 0 <= size < 2 ^ 63 →
  heap_alloc size w = Ret (Some (fresh w)) (allocated w).
Proof.
  intros Ho Hs. unfold heap_alloc. rewrite (bind_run _ _ _ _ _ (malloc_small size w Ho Hs)).
  cbn. unfold allocated, fresh, live. cbn. by rewrite Nat.sub_0_r.
Qed.

Lemma live_allocated w : live (allocated w) = fresh w :: live w.
Proof. unfold live, allocated, fresh. cbn. by rewrite Nat.sub_0_r. Qed.

Lemma fresh_allocated w : fresh (allocated w) = S (fresh w).
Proof. done. Qed.

(** The next address has been handed out. *)
Definition named (w : world) : world :=
  set_w_os (set_os_net (set_net_names (tail (names w)) (os_net (w_os w))) (w_os w)) w.

Lemma socket_name_run w r t : names w = r :: t → socket_name w = Ret r (named w).
Proof.
  intros Hn. unfold socket_name. rewrite bind_gets. unfold compose. fold (names w).
  rewrite Hn. unfold modify_net. rewrite bind_modify. unfold named. by rewrite Hn.
Qed.

Lemma get_peer_sock_name_run w s t :
  no_oom w → names w = Some s :: t → zlength s <= socknamelen →
  get_peer_sock_name w = Ret (Some (fresh w, s)) (named (allocated w)).
Proof.
  intros Ho Hn Hs. unfold get_peer_sock_name.
  rewrite (bind_run _ _ _ _ _ (heap_alloc_run socknamelen w Ho ltac:(unfold socknamelen; lia))).
  assert (names (allocated w) = Some s :: t) as Hn1 by done.
  rewrite (bind_run _ _ _ _ _ (socket_name_run _ _ _ Hn1)).
  by destruct (Z.leb_spec (zlength s) socknamelen); [|lia].
Qed.

Lemma memdup_run src w : no_oom w → 0 < zlength src < 2 ^ 16 →
  memdup src w = Ret (Some (fresh w, src)) (allocated w).
Proof.
  intros Ho Hs. unfold memdup. destruct (Z.eqb_spec (zlength src) 0); [lia|].
  by rewrite (bind_run _ _ _ _ _ (heap_alloc_run (zlength src) w Ho ltac:(lia))).
Qed.

Lemma heap_free_run a w : a ∈ live w →
  heap_free a w = Ret () (set_w_os (set_os_net
    (set_net_live (filter (λ b, b ≠ a) (live w)) (os_net (w_os w))) (w_os w)) w).
Proof.
  intros Ha. unfold heap_free. rewrite bind_gets. unfold compose. by rewrite decide_True.
Qed.

(** With a MIT-MAGIC-COOKIE-1 record for a socket that has a peer name, the
    result is the record's name and data; and the block that holds the peer's
    address is still allocated, though nothing points to it any more. *)
Theorem get_auth_info_cookie display w peer own t x :
  no_oom w → names w = Some peer :: Some own :: t →
  zlength peer <= socknamelen → zlength own <= socknamelen →
  get_authptr peer display = Some x → xau_name x = authnames AUTH_MC1 →
  0 < zlength (xau_data x) < 2 ^ 16 → bounded (fresh w) (live w) →
  let f := fresh w in
  ∃ w', _xcb_get_auth_info display w =
      Ret (Some (AuthResult (AuthInfo (xau_name x) (xau_data x)) (S f) (3 + f))) w' ∧
    live w' = [3 + f; S f; f]%nat ++ live w.
Proof.
  intros Ho Hn Hp Hown Hx Hmc Hd Hb f. unfold _xcb_get_auth_info, find_sockname.
  rewrite bind_assoc, (bind_run _ _ _ _ _ (get_peer_sock_name_run w peer _ Ho Hn Hp)), bind_ret.
  set (w1 := named (allocated w)). rewrite Hx.
  assert (0 < zlength (xau_name x) < 2 ^ 16) as Hnm by (rewrite Hmc; vm_compute; done).
  rewrite (bind_run _ _ _ _ _ (memdup_run _ w1 Ho Hnm)). unfold finish_auth.
  set (w2 := allocated w1).
  assert (names w2 = Some own :: t) as Hn2 by (change (tail (names w) = Some own :: t); by rewrite Hn).
  rewrite (bind_run _ _ _ _ _ (get_peer_sock_name_run w2 own t Ho Hn2 Hown)).
  set (w3 := named (allocated w2)). unfold compute_auth. rewrite authname_match_eq, Hmc.
  rewrite bool_decide_eq_true_2 by done.
  rewrite (bind_run _ _ _ _ _ (memdup_run _ w3 Ho Hd)). cbn [fst snd].
  set (w4 := allocated w3).
  assert (live w4 = [3 + f; S (S f); S f; f]%nat ++ live w) as Hl4.
  { unfold w4. rewrite live_allocated. change (live w3) with (live (allocated w2)).
    rewrite live_allocated. unfold w2. rewrite live_allocated.
    change (live w1) with (live (allocated w)). by rewrite live_allocated. }
  change (fresh w2) with (S (S f)).
  rewrite (bind_run _ _ _ _ _ (heap_free_run (S (S f)) w4 ltac:(rewrite Hl4; right; by left))).
  eexists. split; [done|]. unfold live at 1. cbn [os_net w_os set_w_os set_os_net net_live set_net_live].
  rewrite Hl4. cbn [app]. repeat (rewrite filter_cons; case_decide; try lia).
  by rewrite (filter_other (S (S f))) by (eapply bounded_mono; [done|lia]).
Qed.

(** C40. A stale pointer.  When the address of the socket does not fit the first
    buffer and the second call of [getpeername] or [getsockname] fails,
    [get_peer_sock_name] releases the pointer that [realloc] has already
    released. *)
Theorem get_peer_sock_name_stale w long t :
  no_oom w → names w = Some long :: None :: t → socknamelen < zlength long < 2 ^ 32 →
  get_peer_sock_name w = Fault FFree.
Proof.
  intros Ho Hn Hs. unfold get_peer_sock_name.
  rewrite (bind_run _ _ _ _ _ (heap_alloc_run socknamelen w Ho ltac:(unfold socknamelen; lia))).
  assert (names (allocated w) = Some long :: None :: t) as Hn1 by done.
  rewrite (bind_run _ _ _ _ _ (socket_name_run _ _ _ Hn1)).
  destruct (Z.leb_spec (zlength long) socknamelen); [lia|].
  set (w1 := named (allocated w)). unfold heap_realloc.
  assert (0 <= zlength long < 2 ^ 63) as Hsz by (unfold socknamelen in Hs; lia).
  rewrite bind_assoc, (bind_run _ _ _ _ _ (heap_alloc_run (zlength long) w1 Ho Hsz)), bind_assoc.
  assert (fresh w ∈ live (allocated w1)) as Hin.
  { rewrite live_allocated. right. change (live w1) with (live (allocated w)).
    rewrite live_allocated. by left. }
  rewrite (bind_run _ _ _ _ _ (heap_free_run _ _ Hin)), bind_ret. set (w2 := set_w_os _ _).
  assert (names w2 = None :: t) as Hn2 by (change (tail (names w) = None :: t); by rewrite Hn).
  rewrite (bind_run _ _ _ _ _ (socket_name_run _ _ _ Hn2)). unfold heap_free.
  rewrite bind_assoc, bind_gets. unfold compose. rewrite decide_False; [done|].
  change (fresh w ∉ filter (λ b, b ≠ fresh w) (live (allocated w1))).
  intros Hf%list_elem_of_filter. by apply (proj1 Hf).
Qed.

(** An XDM-AUTHORIZATION-1 record without a whole key is read behind its end. *)
Lemma compute_auth_short_record x s w :
  no_oom w → xau_name x = authnames AUTH_XA1 → zlength (xau_data x) < 16 →
  sa_family s = AF_INET → compute_auth x s w = Fault FOutOfBounds.
Proof.
  intros Ho Hn Hd Hf. unfold compute_auth. rewrite !authname_match_eq, Hn.
  rewrite bool_decide_eq_false_2 by done. rewrite bool_decide_eq_true_2 by done.
  rewrite (bind_run _ _ _ _ _ (heap_alloc_run 24 w Ho ltac:(lia))).
  destruct (zlength (xau_data x) <? 8); [done|]. unfold xdm_address. rewrite Hf, Z.eqb_refl, bind_ret.
  assert (zlength (take 8 (xau_data x) ++ (sin_addr s ++ sin_port s) ++ net32 time) <= 24) as Hz.
  { pose proof (take_le_length 8 (xau_data x)). pose proof (take_le_length 4 (drop 4 s)).
    pose proof (take_le_length 2 (drop 2 s)). unfold zlength, sin_addr, sin_port, net32.
    rewrite !length_app, length_rev, length_le_bytes. lia. }
  apply Z.leb_le in Hz. rewrite Hz. cbn [assertM]. rewrite bind_ret.
  by destruct (Z.ltb_spec (zlength (xau_data x)) 16); [|lia].
Qed.

(** An IPv4 address mapped into IPv6 authenticates as the IPv4 address: the
    credentials are looked up under the same key and the same record is
    computed. *)
Lemma auth_v4mapped s4 s6 display x w :
  sa_family s4 = AF_INET → sa_family s6 = AF_INET6 →
  in6_v4mapped (sin6_addr s6) = true →
  sin_addr s4 = drop 12 (sin6_addr s6) → sin_port s4 = sin_port s6 →
  get_authptr s4 display = get_authptr s6 display ∧ compute_auth x s4 w = compute_auth x s6 w.
Proof.
  intros H4 H6 Hmap Haddr Hport. unfold get_authptr, auth_address, compute_auth, xdm_address.
  rewrite H4, H6, Hmap, Haddr, Hport. done.
Qed.
End Cookie.

(** ** A local socket with a cookie *)

Definition sample_cookie : Xauth :=
  MkXauth (c_string "MIT-MAGIC-COOKIE-1") (c_string "0123456789abcdef").

Definition sample_xauth : XAuth := {|
  FamilyLocal := 256;
  XCB_FAMILY_INTERNET := 0;
  XCB_FAMILY_INTERNET_6 := 6;
  XauGetBestAuthByAddr := λ family _ _, if family =? 256 then Some sample_cookie else None;
  XdmcpWrap := λ text _, text;
  gethostname := Some (c_string "desk");
  getpid := 17;
  time := 1
|}.

(** The address of a local socket, and one that does not fit the buffer. *)
Definition sample_unix : list byte := le_bytes 2 AF_UNIX ++ c_string "/tmp/.X11-unix/X0".
Definition long_unix : list byte := le_bytes 2 AF_UNIX ++ replicate 200 "x"%byte.

Definition named_world (l : list (option (list byte))) : world :=
  let w := sample_world (sample_in []) (sample_out [] 0 0) (sample_os [] [] []) in
  set_w_os (set_os_net (set_net_names l (os_net (w_os w))) (w_os w)) w.

Section Witnesses.
#[local] Existing Instances sample_host sample_xauth.

Lemma get_auth_info_blocks_witness :
  let w := named_world [None; Some sample_unix] in
  wp (_xcb_get_auth_info 0) (λ r w',
    held w' = held w ∧ net_fds (os_net (w_os w')) = net_fds (os_net (w_os w)) ∧
    match r with
    | Some res => live w' = res_data res :: res_name res :: peer_block w ++ live w ∧
        (fresh w <= res_name res < res_data res)%nat
    | None => live w' = live w ∨ live w' = peer_block w ++ live w
    end) w.
Proof.
  intros w. apply (get_auth_info_blocks 0 w).
  - repeat constructor. vm_compute. discriminate.
  - constructor.
  - intros Hin. by apply elem_of_nil in Hin.
  - intros s x. unfold get_authptr. destruct (auth_address s) as [[f a]|]; [|done].
    cbn. assert (good_xauth sample_cookie) as Hg by (split_and!; [done|done|by vm_compute]).
    destruct (f =? 256); by intros [= <-].
Defined.

Lemma get_auth_info_cookie_witness :
  let w := named_world [Some sample_unix; Some sample_unix] in
  ∃ w', _xcb_get_auth_info 0 w =
      Ret (Some (AuthResult (AuthInfo (c_string "MIT-MAGIC-COOKIE-1")
        (c_string "0123456789abcdef")) 1 3)) w' ∧
    live w' = [3; 1; 0]%nat ++ live w.
Proof.
  intros w. apply (get_auth_info_cookie 0 w sample_unix sample_unix [] sample_cookie);
    try reflexivity; try (vm_compute; discriminate).
  - split; reflexivity.
  - constructor.
Defined.

Lemma get_peer_sock_name_stale_witness :
  get_peer_sock_name (named_world [Some long_unix; None]) = Fault FFree.
Proof.
  apply (get_peer_sock_name_stale _ long_unix []); try reflexivity. split; reflexivity.
Defined.

End Witnesses.
