(* ===== verification/OpenProps.v ===== *)
(** * Opening a display: properties

    No descriptor is leaked on the way from a display name to a connection, and
    local displays are found where the server listens. *)
From S2P Require Import Prelude Effects State Sample InFrame InFacts OutFacts Display DisplayProps.
From S2P Require Import Connect ConnectProps Auth AuthProps Open.
From Stdlib Require Import Strings.Byte.
#[local] Open Scope Z_scope.

(** ** Descriptors *)

Definition fds (w : world) : list Z := net_fds (os_net (w_os w)).
Definition next_fd (w : world) : Z := net_next_fd (os_net (w_os w)).

(** Every open descriptor has been handed out. *)
Definition net_ok (w : world) : Prop :=
  0 <= next_fd w ∧ Forall (λ d, 0 <= d < next_fd w) (fds w).

(** [d] is a new open descriptor, or -1 and no descriptor has been opened. *)
Definition opens (w : world) (d : Z) (w' : world) : Prop :=
  net_ok w' ∧ (d = -1 ∧ fds w' = fds w ∨
               0 <= d ∧ fds w' = d :: fds w ∧ d ∉ fds w).

Lemma net_ok_new w : net_ok w → next_fd w ∉ fds w.
Proof. intros [_ Hf] Hin. rewrite Forall_forall in Hf. specialize (Hf _ Hin). lia. Qed.

Lemma filter_closed (d : Z) (l : list Z) : d ∉ l → filter (λ d', d' ≠ d) (d :: l) = l.
Proof.
  intros Hd. rewrite filter_cons, decide_False by auto.
  induction l as [|e l IH]; [done|]. apply not_elem_of_cons in Hd as [Hne Hd].
  rewrite filter_cons, decide_True by done. by rewrite IH.
Qed.

Lemma socket_spec w : net_ok w →
  ∃ d w', socket w = Ret d w' ∧ opens w d w' ∧
    (d = -1 ∧ next_fd w' = next_fd w ∨ d = next_fd w).
Proof.
  intros Hn. unfold socket. rewrite bind_gets. unfold modify_net. rewrite bind_modify.
  destruct (_ =? 0).
  - eexists _, _. split; [done|]. split; [|by right]. pose proof (net_ok_new w Hn).
    destruct Hn as [Hz Hf]. split.
    + unfold net_ok, fds, next_fd. cbn. split; [unfold next_fd in Hz; lia|].
      apply Forall_cons. split; [unfold next_fd in Hz; lia|].
      eapply Forall_impl; [exact Hf|]. cbn. unfold next_fd. lia.
    + right. by split_and!.
  - eexists _, _. split; [done|]. split; [|by left]. split; [exact Hn|by left].
Qed.

Lemma opens_failed w w1 d w2 :
  opens w (-1) w1 → opens w1 d w2 → opens w d w2.
Proof.
  intros (_ & [[_ Hf]|(? & _)]) (Hn & Hd); [|lia]. split; [done|]. by rewrite <- Hf.
Qed.

Lemma xcb_socket_spec w : net_ok w →
  ∃ d w', _xcb_socket w = Ret d w' ∧ opens w d w'.
Proof.
  intros Hn. unfold _xcb_socket.
  destruct (socket_spec w Hn) as (d & w1 & E & Ho & _).
  rewrite (bind_run _ _ _ _ _ E), bind_gets.
  destruct (Z.eqb_spec d (-1)) as [->|]; cbn [andb]; [|by eexists _, _].
  destruct (_ =? EINVAL); [|by eexists _, _].
  destruct (socket_spec w1 (proj1 Ho)) as (d & w2 & E2 & Ho2 & _).
  rewrite (bind_run _ _ _ _ _ E2).
  pose proof (opens_failed _ _ _ _ Ho Ho2) as Ho3.
  destruct (0 <=? d); [|by eexists _, _]. rewrite bind_when_true. unfold sysret.
  rewrite !bind_assoc, bind_gets. unfold compose.
  destruct (os_sysrets (w_os w2)); eexists _, _; (split; [done|exact Ho3]).
Qed.

Lemma connect_spec d a w :
  ∃ r w', connect d a w = Ret r w' ∧ fds w' = fds w ∧ next_fd w' = next_fd w ∧ (r = 0 ∨ r = -1).
Proof.
  unfold connect. rewrite bind_gets. unfold modify_net. rewrite bind_modify.
  destruct (_ =? 0); eexists _, _; (split; [done|]); split_and!; auto; done.
Qed.

Lemma opens_closed w d w1 w2 : opens w d w1 → 0 <= d → fds w2 = fds w1 → next_fd w2 = next_fd w1 →
  ∃ w3, close d w2 = Ret () w3 ∧ opens w (-1) w3.
Proof.
  intros ([Hz Hf] & [[-> _]|(_ & Hd & Hni)]) Hpos Hf2 Hn2; [lia|].
  eexists. split; [done|]. unfold opens, net_ok, fds, next_fd. cbn.
  change (net_next_fd (os_net (w_os w2))) with (next_fd w2).
  change (net_fds (os_net (w_os w2))) with (fds w2).
  rewrite Hf2, Hn2, Hd, filter_closed by done. split; [|by left]. split; [done|].
  rewrite Hd in Hf. by apply Forall_cons in Hf as [_ Hf].
Qed.

Section OpenFds.
Context `{XResolver}.

Lemma open_socket_spec a w : net_ok w → ∃ d w', open_socket a w = Ret d w' ∧ opens w d w'.
Proof.
  intros Hn. unfold open_socket. destruct (xcb_socket_spec w Hn) as (d & w1 & E & Ho).
  rewrite (bind_run _ _ _ _ _ E). destruct (Z.eqb_spec d (-1)) as [->|Hd]; [by eexists _, _|].
  destruct (connect_spec d a w1) as (r & w2 & E2 & Hf & Hnx & Hr).
  rewrite (bind_run _ _ _ _ _ E2).
  assert (0 <= d) as Hpos by (destruct Ho as [_ [[? _]|[? _]]]; lia).
  destruct (Z.eqb_spec r (-1)).
  - destruct (opens_closed _ _ _ _ Ho Hpos Hf Hnx) as (w3 & E3 & Ho3).
    rewrite (bind_run _ _ _ _ _ E3). by eexists _, _.
  - eexists _, _. split; [done|]. unfold opens, net_ok. rewrite Hf, Hnx. exact Ho.
Qed.

Lemma try_addresses_spec l w : net_ok w → ∃ d w', try_addresses l w = Ret d w' ∧ opens w d w'.
Proof.
  revert w. induction l as [|a l IH]; intros w Hn; cbn [try_addresses].
  { eexists _, _. split; [done|]. split; [done|by left]. }
  destruct (xcb_socket_spec w Hn) as (d & w1 & E & Ho). rewrite (bind_run _ _ _ _ _ E).
  destruct (Z.leb_spec 0 d) as [Hpos|Hneg].
  - destruct (connect_spec d (AddrInfo a) w1) as (r & w2 & E2 & Hf & Hnx & Hr).
    rewrite (bind_run _ _ _ _ _ E2). destruct (Z.leb_spec 0 r).
    + eexists _, _. split; [done|]. unfold opens, net_ok. rewrite Hf, Hnx. exact Ho.
    + destruct (opens_closed _ _ _ _ Ho Hpos Hf Hnx) as (w3 & E3 & Ho3).
      rewrite (bind_run _ _ _ _ _ E3).
      destruct (IH w3 (proj1 Ho3)) as (d' & w4 & E4 & Ho4). rewrite E4.
      eexists _, _. split; [done|]. by eapply opens_failed.
  - assert (d = -1) as -> by (destruct Ho as [_ [[? _]|[? _]]]; lia).
    destruct (IH w1 (proj1 Ho)) as (d' & w4 & E4 & Ho4). rewrite E4.
    eexists _, _. split; [done|]. by eapply opens_failed.
Qed.

Lemma open_tcp_spec host protocol port w : net_ok w →
  ∃ d w', _xcb_open_tcp host protocol port w = Ret d w' ∧ opens w d w'.
Proof.
  intros Hn. assert (opens w (-1) w) by (split; [done|by left]). unfold _xcb_open_tcp.
  destruct (match protocol with Some _ => _ | None => _ end); [by eexists _, _|].
  destruct (match strip_brackets _ with Some _ => _ | None => _ end) as [h b].
  destruct (getaddrinfo h _ b); [by apply try_addresses_spec|by eexists _, _].
Qed.
End OpenFds.

(** ** Local displays *)

Lemma digits_length fuel n : (length (digits fuel n) <= fuel)%nat.
Proof.
  revert n; induction fuel as [|fuel IH]; intros n; cbn [digits]; [done|].
  rewrite length_app. specialize (IH (n / 10)). destruct (n <? 10); cbn; lia.
Qed.

Lemma dec_length n : (length (dec n) <= 11)%nat.
Proof.
  unfold dec. destruct (n <? 0); cbn [length].
  - pose proof (digits_length 10 (- n)). lia.
  - pose proof (digits_length 10 n). lia.
Qed.

(** The name of the socket of a local display. *)
Definition display_path (display : Z) : list byte := unix_base ++ dec display.

Lemma display_path_length display : zlength (display_path display) <= 27.
Proof.
  unfold display_path, zlength. rewrite length_app. pose proof (dec_length display).
  change (length unix_base) with 16%nat. lia.
Qed.

Section Local.
Context `{XResolver}.

(** [_xcb_open] of a local display: the name is never truncated. *)
Lemma open_local_run host display w :
  (host = [] ∨ host = c_string "unix") →
  _xcb_open host None display w =
  (ok ← malloc 30;
   if negb ok then ret (-1) else
   d ← _xcb_open_abstract None (display_path display) (zlength (display_path display));
   errno ← gets (net_errno ∘ os_net ∘ w_os);
   if (0 <=? d) || (negb (errno =? ENOENT) && negb (errno =? ECONNREFUSED))
   then ret d else _xcb_open_unix None (display_path display)) w.
Proof.
  intros Hh. unfold _xcb_open. rewrite (bool_decide_eq_false_2 (is_Some None)) by (by intros [? ?]).
  rewrite orb_false_r, orb_false_l.
  assert (bool_decide (host ≠ []) && bool_decide (host ≠ c_string "unix") = false) as ->
    by (by destruct Hh as [-> | ->]).
  fold (display_path display). change (zlength unix_base + 1 + 4 * 3 + 1) with 30.
  pose proof (display_path_length display) as Hl.
  rewrite (take_ge (display_path display)) by (unfold zlength in Hl; lia).
  by replace (Z.min (zlength (display_path display)) (30 - 1))
    with (zlength (display_path display)) by lia.
Qed.

Lemma open_abstract_run path w : zlength path < 107 →
  _xcb_open_abstract None path (zlength path) w = open_socket (AddrAbstract path) w.
Proof.
  intros Hp. unfold _xcb_open_abstract, sun_path_size.
  destruct (Z.leb_spec (108 - 1) (zlength path)); [lia|].
  unfold zlength. by rewrite Nat2Z.id, firstn_all.
Qed.

Lemma open_unix_run path w : zlength path < 108 →
  _xcb_open_unix None path w = open_socket (AddrUnix path) w.
Proof.
  intros Hp. unfold _xcb_open_unix, sun_path_size.
  by destruct (Z.leb_spec 108 (zlength path)); [lia|].
Qed.

(** The result of opening any display: no fault, and at most the descriptor that
    is returned is left open. *)
Lemma xcb_open_spec host protocol display w : net_ok w →
  ∃ d w', _xcb_open host protocol display w = Ret d w' ∧ opens w d w'.
Proof.
  intros Hn. pose proof (display_path_length display) as Hl.
  destruct (decide ((host = [] ∨ host = c_string "unix") ∧ protocol = None)) as [[Hh ->]|Hne].
  - rewrite open_local_run by done.
    destruct (malloc_cases 30 w ltac:(lia)) as (ok & ms & E & _). rewrite (bind_run _ _ _ _ _ E).
    set (w1 := with_mallocs ms w). assert (net_ok w1) as Hn1 by exact Hn.
    destruct ok; cbn [negb].
    2:{ eexists _, _. split; [done|]. split; [exact Hn1|by left]. }
    destruct (open_socket_spec (AddrAbstract (display_path display)) w1 Hn1) as (d & w2 & E2 & Ho).
    rewrite <- open_abstract_run in E2 by lia.
    rewrite (bind_run _ _ _ _ _ E2), bind_gets.
    destruct (Z.leb_spec 0 d) as [|Hd]; cbn [orb]; [by eexists _, _|].
    destruct (negb _ && negb _); [by eexists _, _|].
    destruct (open_socket_spec (AddrUnix (display_path display)) w2 (proj1 Ho))
      as (d' & w3 & E3 & Ho').
    rewrite open_unix_run by lia. rewrite E3. eexists _, _. split; [done|].
    assert (d = -1) as -> by (destruct Ho as [_ [[? _]|[? _]]]; lia).
    by eapply opens_failed.
  - unfold _xcb_open.
    assert ((bool_decide (host ≠ []) || bool_decide (is_Some protocol)) &&
      (bool_decide (is_Some protocol) || bool_decide (host ≠ c_string "unix")) = true) as ->.
    { destruct protocol as [p|].
      - rewrite (bool_decide_eq_true_2 (is_Some _)) by by eexists. by rewrite orb_true_r.
      - rewrite (bool_decide_eq_true_2 (host ≠ [])), (bool_decide_eq_true_2 (host ≠ c_string _))
          by (intros ->; apply Hne; auto). by rewrite orb_true_r. }
    by apply open_tcp_spec.
Qed.
End Local.

(** ** From the name to the connection *)

(** Looking up credentials and parsing open no descriptor. *)
Definition keeps_fds (w w' : world) : Prop := fds w' = fds w ∧ next_fd w' = next_fd w.

#[export] Instance keeps_fds_preorder : PreOrder keeps_fds.
Proof. split; [by intros w|]. intros w1 w2 w3 [? ?] [? ?]. split; congruence. Qed.

Lemma keeps_net_fds w w' : keeps_net w w' → keeps_fds w w'.
Proof. intros [_ Hn]. unfold keeps_fds, fds, next_fd. by rewrite Hn. Qed.

Ltac fds_tac := apply obeys_modify; intros; by split.
#[export] Hint Extern 1 (obeys keeps_fds (modify_net _)) => fds_tac : obeys.
#[export] Hint Extern 1 (obeys keeps_fds (modify_os _)) => fds_tac : obeys.

Section Keeps.
Context `{Host} `{XProto} `{XAuth} `{XResolver}.

Lemma fds_malloc n : obeys keeps_fds (malloc n).
Proof. eapply obeys_weaken; [apply keeps_net_fds|]. apply keeps_malloc. Qed.

Lemma fds_lock l : obeys keeps_fds (pthread_mutex_lock l).
Proof. eapply obeys_weaken; [apply keeps_net_fds|]. apply keeps_lock. Qed.

Lemma fds_unlock l : obeys keeps_fds (pthread_mutex_unlock l).
Proof. eapply obeys_weaken; [apply keeps_net_fds|]. apply keeps_unlock. Qed.
#[local] Hint Resolve fds_malloc fds_lock fds_unlock : obeys.

Lemma fds_heap_alloc n : obeys keeps_fds (heap_alloc n).
Proof. unfold heap_alloc. obeys_auto. Qed.

Lemma fds_heap_free a : obeys keeps_fds (heap_free a).
Proof. unfold heap_free. obeys_auto. Qed.
#[local] Hint Resolve fds_heap_alloc fds_heap_free : obeys.

Lemma fds_peer_name : obeys keeps_fds get_peer_sock_name.
Proof. unfold get_peer_sock_name, socket_name, heap_realloc. obeys_auto. Qed.

Lemma fds_get_auth_info display : obeys keeps_fds (_xcb_get_auth_info display).
Proof.
  pose proof fds_peer_name.
  unfold _xcb_get_auth_info, find_sockname, finish_auth, compute_auth, memdup, xdm_address,
    next_nonce. cbv zeta. obeys_auto.
Qed.

Lemma fds_parse_display env name b : obeys keeps_fds (_xcb_parse_display env name b).
Proof. unfold _xcb_parse_display, parse_host, copy_prefix. cbv zeta. obeys_auto. Qed.

(** [xcb_connect_to_fd] of a descriptor that has just been opened. *)
Lemma connect_opened d auth w w1 c w2 :
  fds w1 = d :: fds w → d ∉ fds w → xcb_connect_to_fd d auth w1 = Ret c w2 →
  match c with
  | error_connection => fds w2 = fds w
  | Connection => fd w2 = d ∧ fds w2 = d :: fds w
  end.
Proof.
  intros Hf Hd E. apply connect_owns_fd in E. destruct c.
  - destruct E as [<- En]. split; [done|]. unfold fds. rewrite En. exact Hf.
  - unfold fds in *. rewrite E, Hf. by apply filter_closed.
Qed.

(** C25. No descriptor is leaked from the name of a display to the connection:
    whatever the name, the resolver, the server and the system calls, if the
    error connection is returned exactly the descriptors are open that were
    open before, and if a connection is returned its own is the only new
    one. *)
Theorem xcb_connect_no_leak env name auth w c screen w' :
  net_ok w →
  xcb_connect_to_display_with_auth_info env name auth w = Ret (c, screen) w' →
  match c with
  | error_connection => fds w' = fds w
  | Connection => fds w' = fd w' :: fds w ∧ (fd w' ∉ fds w)
  end.
Proof.
  intros Hn E. unfold xcb_connect_to_display_with_auth_info in E.
  apply bind_inv in E as (parsed & w1 & Ep & E). apply fds_parse_display in Ep as [Hf1 Hx1].
  destruct parsed as [dn|]; [|by injection E as <- _ <-].
  assert (net_ok w1) as Hn1 by (unfold net_ok; by rewrite Hf1, Hx1).
  destruct (xcb_open_spec (dn_host dn) (dn_protocol dn) (dn_display dn) w1 Hn1)
    as (d & w2 & Eo & _ & Ho). rewrite (bind_run _ _ _ _ _ Eo), Hf1 in *.
  destruct Ho as [[-> Hf2]|(Hpos & Hf2 & Hni)].
  { cbn [Z.eqb Pos.eqb] in E. injection E as <- _ <-. done. }
  destruct (Z.eqb_spec d (-1)); [lia|].
  assert (∀ a w3 c' w4, keeps_fds w2 w3 → xcb_connect_to_fd d a w3 = Ret c' w4 →
    ∀ w5, keeps_fds w4 w5 → fd w5 = fd w4 →
    match c' with
    | error_connection => fds w5 = fds w
    | Connection => fds w5 = fd w5 :: fds w ∧ (fd w5 ∉ fds w)
    end) as Hconn.
  { intros a w3 c' w4 [Hk _] Ec w5 [Hk5 _] Hfd. rewrite Hf2 in Hk.
    pose proof (connect_opened d a w w3 c' w4 Hk Hni Ec) as Hc.
    rewrite Hk5, Hfd. destruct c'; [|done]. destruct Hc as [-> ->]. done. }
  destruct auth as [a|].
  { apply bind_inv in E as (c' & w3 & Ec & E). injection E as <- _ <-.
    by apply (Hconn _ _ _ _ (reflexivity _) Ec). }
  apply bind_inv in E as (ours & w3 & Ea & E). apply fds_get_auth_info in Ea.
  destruct ours as [r|]; apply bind_inv in E as (c' & w4 & Ec & E).
  - apply bind_inv in E as ([] & w5 & Ef1 & E). apply bind_inv in E as ([] & w6 & Ef2 & E).
    injection E as <- _ <-.
    apply (Hconn _ _ _ _ Ea Ec).
    + apply fds_heap_free in Ef1, Ef2. by transitivity w5.
    + assert (∀ a u v, heap_free a u = Ret () v → fd v = fd u) as Hfree.
      { intros b u v. unfold heap_free. rewrite bind_gets. destruct (decide _); [|done].
        by intros [= <-]. }
      by rewrite (Hfree _ _ _ Ef2), (Hfree _ _ _ Ef1).
  - injection E as <- _ <-. by apply (Hconn _ _ _ _ Ea Ec).
Qed.
End Keeps.

(** ** Where a local display is looked for *)

Section Where.
Context `{XResolver}.

Definition connected (w : world) : list (Z * sockaddr) := net_connected (os_net (w_os w)).
Definition conns (w : world) : list Z := net_conns (os_net (w_os w)).
Definition socks (w : world) : list Z := net_socks (os_net (w_os w)).

Definition on_net (f : net_state → net_state) (w : world) : world :=
  set_w_os (set_os_net (f (os_net (w_os w))) (w_os w)) w.

Lemma socket_run w : socks w = [] →
  socket w = Ret (next_fd w) (on_net (λ n, set_net_next_fd (next_fd w + 1)
    (set_net_fds (next_fd w :: net_fds n) (set_net_socks [] n))) w).
Proof.
  intros Hs. unfold socket. rewrite bind_gets. unfold compose. fold (socks w). by rewrite Hs.
Qed.

Lemma connect_run d a w e t : conns w = e :: t →
  connect d a w =
  if e =? 0
  then Ret 0 (on_net (λ n, set_net_connected (net_connected n ++ [(d, a)]) (set_net_conns t n)) w)
  else Ret (-1) (on_net (λ n, set_net_errno e (set_net_conns t n)) w).
Proof.
  intros Hc. unfold connect. rewrite bind_gets. unfold compose. fold (conns w). rewrite Hc.
  cbn. unfold id. by destruct (e =? 0).
Qed.

(** A socket can be created and the next [connect] ends in [e]. *)
Lemma open_socket_run a w e t :
  socks w = [] → conns w = e :: t → net_ok w →
  let d := next_fd w in
  ∃ w', open_socket a w = Ret (if e =? 0 then d else -1) w' ∧
    fds w' = (if e =? 0 then d :: fds w else fds w) ∧
    connected w' = (if e =? 0 then connected w ++ [(d, a)] else connected w) ∧
    (e ≠ 0 → net_errno (os_net (w_os w')) = e) ∧
    socks w' = [] ∧ conns w' = t ∧ next_fd w' = d + 1 ∧ net_ok w'.
Proof.
  intros Hs Hc Hn d. pose proof (net_ok_new w Hn) as Hni.
  assert (0 <= d) as Hd by apply Hn.
  unfold open_socket, _xcb_socket. rewrite bind_assoc, (bind_run _ _ _ _ _ (socket_run w Hs)).
  fold d. rewrite bind_assoc, bind_gets.
  assert ((d =? -1) = false) as Hd1 by lia. rewrite Hd1. cbn [andb]. rewrite bind_ret, Hd1.
  set (w1 := on_net _ w). assert (conns w1 = e :: t) as Hc1 by exact Hc.
  assert (net_ok w1) as Hn1.
  { destruct Hn as [Hz Hf]. split; [cbn; lia|]. apply Forall_cons. cbn. split; [lia|].
    eapply Forall_impl; [exact Hf|]. cbn. fold d. lia. }
  unfold bind. rewrite (connect_run _ _ _ _ _ Hc1). destruct (Z.eqb_spec e 0) as [->|He].
  - eexists. split; [done|]. split_and!; try done; apply Hn1.
  - cbn [Z.eqb Pos.eqb]. eexists. split; [done|].
    assert (filter (λ d', d' ≠ d) (fds w1) = fds w) as Hfil by by apply filter_closed.
    match goal with |- fds ?w3 = _ ∧ _ => assert (fds w3 = fds w) as Hf3 by exact Hfil end.
    split_and!; try done. split; [apply Hn1|]. rewrite Hf3.
    destruct Hn1 as [_ Hf]. by apply Forall_cons in Hf as [_ Hf].
Qed.

(** A local display is looked for where the server listens: in the abstract name
    space, and if nothing is there (or nobody listens) in the file system, under
    the full name in either case; nothing else is left open. *)
Theorem open_local_display host display w fails t :
  (host = [] ∨ host = c_string "unix") → no_oom w → net_ok w → socks w = [] →
  fails = [] ∨ (∃ e, fails = [e] ∧ (e = ENOENT ∨ e = ECONNREFUSED)) →
  conns w = fails ++ 0 :: t →
  let d := next_fd w + zlength fails in
  let path := c_string "/tmp/.X11-unix/X" ++ dec display in
  ∃ w', _xcb_open host None display w = Ret d w' ∧
    connected w' = connected w ++
      [(d, match fails with [] => AddrAbstract path | _ => AddrUnix path end)] ∧
    fds w' = d :: fds w.
Proof.
  intros Hh Ho Hn Hs Hf Hc d path. change path with (display_path display).
  pose proof (display_path_length display) as Hl. rewrite open_local_run by done.
  rewrite (bind_run _ _ _ _ _ (malloc_small 30 w Ho ltac:(lia))). cbn [negb].
  unfold bind at 1. rewrite open_abstract_run by lia. assert (0 <= next_fd w) by apply Hn.
  destruct Hf as [-> | (e & -> & He)]; cbn [app] in Hc.
  - destruct (open_socket_run (AddrAbstract (display_path display)) w 0 t Hs Hc Hn)
      as (w1 & E1 & Hf1 & Hc1 & _).
    cbn [Z.eqb] in *. rewrite E1, bind_gets.
    assert (d = next_fd w) as -> by (unfold d; change (zlength []) with 0; lia).
    destruct (Z.leb_spec 0 (next_fd w)); [|lia]. cbn [orb]. by eexists.
  - destruct (open_socket_run (AddrAbstract (display_path display)) w e (0 :: t) Hs Hc Hn)
      as (w1 & E1 & Hf1 & Hc1 & Herr & Hs1 & Hcs1 & Hx1 & Hn1).
    assert ((e =? 0) = false) as He0 by (destruct He; subst; done). rewrite He0 in E1, Hf1, Hc1.
    rewrite E1, bind_gets. unfold compose. rewrite Herr by lia. cbn [Z.leb Z.compare orb].
    assert (negb (e =? ENOENT) && negb (e =? ECONNREFUSED) = false) as ->
      by (destruct He as [-> | ->]; done).
    rewrite open_unix_run by lia.
    destruct (open_socket_run (AddrUnix (display_path display)) w1 0 t Hs1 Hcs1 Hn1)
      as (w2 & E2 & Hf2 & Hc2 & _).
    cbn [Z.eqb] in *. rewrite E2, Hx1. eexists. unfold d. change (zlength [e]) with 1.
    split; [done|]. rewrite Hf2, Hc2, Hf1, Hc1, Hx1. done.
Qed.

(** A display name with the protocol [unix] is opened over TCP, which does not know
    that protocol. *)
Lemma open_unix_protocol_refused host display w :
  _xcb_open host (Some (c_string "unix")) display w = Ret (-1) w.
Proof.
  unfold _xcb_open. rewrite (bool_decide_eq_true_2 (is_Some _)) by by eexists.
  by rewrite orb_true_r.
Qed.
End Where.

Section Witnesses.
#[local] Existing Instances sample_host sample_proto sample_xauth.
#[local] Instance sample_resolver : XResolver := λ _ _ _, Some [net32 0x7f000001].

(** A process with one descriptor, whose next [connect] calls end in [es]. *)
Definition dialing_world (es : list Z) : world :=
  on_net (λ n, set_net_names [Some sample_unix; Some sample_unix] (set_net_conns es n))
    (answered_world (sample_reply "001" "000")).

Lemma xcb_connect_no_leak_witness :
  let w := dialing_world [] in
  let w' := final w (run (xcb_connect None (Some (c_string ":0"))) w) in
  fds w' = fd w' :: fds w ∧ (fd w' ∉ fds w).
Proof.
  intros w w'.
  apply (xcb_connect_no_leak None (Some (c_string ":0")) None w Connection (Some 0) w').
  - split; [vm_compute; discriminate|].
    repeat constructor; vm_compute; (reflexivity || discriminate).
  - vm_compute. reflexivity.
Defined.

Lemma open_local_display_witness :
  let w := dialing_world [ECONNREFUSED; 0] in
  ∃ w', _xcb_open [] None 7 w = Ret 5 w' ∧
    connected w' = connected w ++ [(5, AddrUnix (c_string "/tmp/.X11-unix/X7"))] ∧
    fds w' = 5 :: fds w.
Proof.
  intros w. apply (open_local_display [] 7 w [ECONNREFUSED] []); try reflexivity.
  - by left.
  - split; [vm_compute; discriminate|].
    repeat constructor; vm_compute; (reflexivity || discriminate).
  - right. exists ECONNREFUSED. split; [reflexivity|by right].
Defined.
End Witnesses.
