(* ===== verification/Threads.v ===== *)
(** * Many threads on one connection

    The calls of [src/xcb_in.c] and [src/xcb_out.c] that several threads may make
    at once, cut at the points where a thread lets go of [iolock]: in
    [pthread_cond_wait] and around [poll].  Between two such points a thread
    runs the functions of the other files on the shared world; a system is the
    world with a list of threads, and its steps interleave their runs in every
    way the mutex and the condition variables allow.

    Owners of the socket ([xcb_take_socket], [xcb_writev]) are in Owners.v. *)
From S2P Require Import Prelude Effects Seq State In Conn Out Wait Request.
#[local] Open Scope Z_scope.

(** ** Calls and where they wait *)

(** The arguments of [xcb_send_request] when it locks [iolock]. *)
Record send_args := SendArgs {
  sa_flags : Z;
  sa_slots : nat;
  sa_vector : list (list byte);
  sa_big : Z;
  sa_workaround : workarounds;
  sa_isvoid : bool
}.

Inductive call :=
  | CallFlush
  | CallWaitForReply (request : Z) (want_error : bool)
  | CallWaitForEvent
  | CallPollForReply (request : Z) (want_error : bool)
  | CallPollForEvent
  | CallDiscardReply (sequence : Z)
  | CallSend (a : send_args).

Inductive outcome :=
  | OutBool (b : bool)
  | OutReply (r : option (list byte) * option (list byte))
  | OutPolled (r : option (option (list byte) * option (list byte)))
  | OutEvent (e : option (list byte))
  | OutSequence (s : Z)
  | OutUnit.

(** What follows [_xcb_out_send] and [_xcb_out_flush_to] in their callers. *)
Inductive after :=
  | ThenReturn                                     (** [xcb_flush] *)
  | ThenAwait (request : Z) (want_error : bool)    (** [xcb_wait_for_reply] *)
  | ThenSent (request : Z).                        (** [xcb_send_request] *)

(** The loops around [_xcb_conn_wait]. *)
Inductive io :=
  | Sending (vector : list (list byte)) (k : after)
  | AwaitingReply (request : Z) (want_error : bool) (id : nat)
  | AwaitingEvent.

(** These and the loops around [pthread_cond_wait]. *)
Inductive task :=
  | Io (i : io)
  | Flushing (request : Z) (k : after)   (** in [_xcb_out_flush_to] *)
  | Claiming (a : send_args).            (** in [xcb_send_request] *)

Inductive thread :=
  | Calling (c : call)                   (** before the test of [has_error] *)
  | Entering (c : call)                  (** about to lock [iolock] *)
  | Asleep (c : cond) (t : task)         (** in [pthread_cond_wait] *)
  | Woken (t : task)                     (** about to lock [iolock] again *)
  | Polling (i : io)                     (** [iolock] released, before or in [poll] *)
  | Polled (ready : option Z) (i : io)   (** about to lock [iolock] again *)
  | Finished (o : outcome).

Definition io_vector (i : io) : option (list (list byte)) :=
  match i with Sending v _ => Some v | _ => None end.

(** The result of a call that finds the connection in error. *)
Definition error_outcome (c : call) : outcome :=
  match c with
  | CallFlush => OutBool false
  | CallWaitForReply _ _ => OutReply (None, None)
  | CallWaitForEvent => OutEvent None
  | CallPollForReply _ _ => OutPolled (Some (None, None))
  | CallPollForEvent => OutEvent None
  | CallDiscardReply _ => OutUnit
  | CallSend _ => OutSequence 0
  end.

Section Threads.
Context `{Host} `{XProto}.

(** ** The stretches under the lock

    Each of the following runs with [iolock] held and ends where it is released;
    the result is the thread's next state. *)

Definition release (t : thread) : xM thread := pthread_mutex_unlock IoLock;; ret t.

(** The first stage of [_xcb_conn_wait]. *)
Definition begin_wait (c : cond) (i : io) : xM thread :=
  busy ← gets (wait_busy (io_vector i));
  if busy then release (Asleep c (Io i)) else enter_poll (io_vector i);; ret (Polling i).

(** The end of [xcb_wait_for_reply]. *)
Definition end_reply (res : option (list byte) * option (list byte)) : xM thread :=
  _xcb_in_wake_up_next_reader;; release (Finished (OutReply res)).

Definition leave_reply (r : reader) (res : option (list byte) * option (list byte)) : xM thread :=
  modify_in (λ i, set_readers (remove_reader r (readers i)) i);;
  end_reply res.

Definition reply_loop (request : Z) (want_error : bool) (id : nat) : xM thread :=
  r ← poll_for_reply request want_error;
  match r with
  | Some res => leave_reply (Reader request id) res
  | None => begin_wait (ReaderCond id) (AwaitingReply request want_error id)
  end.

Definition enter_reply (request : Z) (want_error : bool) : xM thread :=
  id ← gets (os_fresh ∘ w_os);
  modify_os (set_os_fresh (S id));;
  modify_in (λ i, set_readers (insert_reader (Reader request id) (readers i)) i);;
  reply_loop request want_error id.

Definition leave_event (r : option (list byte)) : xM thread :=
  _xcb_in_wake_up_next_reader;; release (Finished (OutEvent r)).

Definition event_loop : xM thread :=
  r ← get_event;
  match r with
  | Some ev => leave_event (Some ev)
  | None => begin_wait EventCond AwaitingEvent
  end.

(** What the callers of [_xcb_out_send] and [_xcb_out_flush_to] do with the
    result. *)
Definition continue (k : after) (r : bool) : xM thread :=
  match k with
  | ThenReturn => release (Finished (OutBool r))
  | ThenAwait request want_error =>
      if r then enter_reply request want_error else end_reply (None, None)
  | ThenSent request =>
      s ← (if r then ret request else _xcb_conn_shutdown;; ret 0);
      release (Finished (OutSequence (u32 s)))
  end.

Definition end_send (k : after) (r : bool) : xM thread :=
  modify_out (λ o, set_out_request_written (out_request o) o);;
  pthread_cond_broadcast OutCond;;
  _xcb_in_wake_up_next_reader;;
  continue k r.

(** [_xcb_out_send], from the head of its loop. *)
Definition out_send (vector : list (list byte)) (k : after) : xM thread :=
  match vector with
  | [] => end_send k true
  | _ => begin_wait OutCond (Sending vector k)
  end.

(** The loop at the end of [_xcb_out_flush_to]. *)
Definition flush_loop (request : Z) (k : after) : xM thread :=
  o ← gets w_out;
  if negb (out_writing o =? 0) then release (Asleep OutCond (Flushing request k)) else
  assertM (XCB_SEQUENCE_COMPARE (out_request_written o) Z.geb request);;
  continue k true.

Definition flush_to (request : Z) (k : after) : xM thread :=
  o ← gets w_out;
  assertM (XCB_SEQUENCE_COMPARE request Z.leb (out_request o));;
  if XCB_SEQUENCE_COMPARE (out_request_written o) Z.geb request then continue k true else
  if negb (bool_decide (out_queue o = [])) then
    modify_out (set_out_queue []);; out_send [out_queue o] k
  else flush_loop request k.

(** [write_block] *)
Definition write (slots : nat) (vector : list (list byte)) (k : after) : xM thread :=
  f ← fill_queue slots vector;
  match f.2 with
  | [] => continue k true
  | rest =>
      if decide (f.1 = 0%nat) then fail FOutOfBounds else
      queue ← gets (out_queue ∘ w_out);
      modify_out (set_out_queue []);;
      out_send (queue :: rest) k
  end.

(** [xcb_send_request], from the loop that waits for other writers on. *)
Definition claim (a : send_args) : xM thread :=
  writing ← gets (out_writing ∘ w_out);
  if negb (writing =? 0) then release (Asleep OutCond (Claiming a)) else
  n ← number_request (sa_flags a) (sa_slots a) (sa_vector a) (sa_big a) (sa_workaround a)
        (sa_isvoid a);
  write n.2.1 n.2.2 (ThenSent n.1).

(** A call behind [pthread_mutex_lock(&c->iolock)]. *)
Definition begin_call (c : call) : xM thread :=
  match c with
  | CallFlush => request ← gets (out_request ∘ w_out); flush_to request ThenReturn
  | CallWaitForReply request want_error =>
      o ← gets w_out;
      if bool_decide (is_Some (out_return_socket o)) then enter_reply request want_error
      else flush_to (widen (out_request o) request) (ThenAwait request want_error)
  | CallWaitForEvent => event_loop
  | CallPollForReply request want_error =>
      r ← poll_for_reply request want_error; release (Finished (OutPolled r))
  | CallPollForEvent => r ← poll_for_event; release (Finished (OutEvent r))
  | CallDiscardReply sequence => discard_reply sequence;; release (Finished OutUnit)
  | CallSend a => claim a
  end.

(** Back from [pthread_cond_wait]. *)
Definition again (t : task) : xM thread :=
  match t with
  | Io (Sending vector k) => out_send vector k
  | Io (AwaitingReply request want_error id) => reply_loop request want_error id
  | Io AwaitingEvent => event_loop
  | Flushing request k => flush_loop request k
  | Claiming a => claim a
  end.

(** Back from [_xcb_conn_wait] after [poll]. *)
Definition after_poll (i : io) (r : bool * option (list (list byte))) : xM thread :=
  match i with
  | Sending _ k => if r.1 then out_send (default [] r.2) k else end_send k false
  | AwaitingReply request want_error id =>
      if r.1 then reply_loop request want_error id
      else leave_reply (Reader request id) (None, None)
  | AwaitingEvent => if r.1 then event_loop else leave_event None
  end.

(** ** Steps *)

(** The calls that return at once for the sequence number 0. *)
Definition trivial_call (c : call) : bool :=
  match c with CallDiscardReply s => s =? 0 | _ => false end.

Definition runnable (t : thread) : bool :=
  match t with Asleep _ _ | Finished _ => false | _ => true end.

(** The next stretch of a thread. *)
Definition resume (t : thread) : xM thread :=
  match t with
  | Calling c =>
      e ← gets has_error;
      if e then ret (Finished (error_outcome c)) else
      if trivial_call c then ret (Finished OutUnit) else ret (Entering c)
  | Entering c => pthread_mutex_lock IoLock;; begin_call c
  | Woken k => pthread_mutex_lock IoLock;; again k
  | Polling i => ready ← poll_socket (io_vector i); ret (Polled ready i)
  | Polled ready i =>
      pthread_mutex_lock IoLock;;
      r ← leave_poll ready (io_vector i);
      after_poll i r
  | Asleep _ _ | Finished _ => ret t
  end.

Record system := System { shared : world; threads : list thread }.

(** The condition variables signalled between two worlds. *)
Definition signals (w w' : world) : list wakeup :=
  drop (length (os_signals (w_os w))) (os_signals (w_os w')).

(** What the wakeups [ss] do to the threads: each of them is left alone or woken
    up by a wakeup of its condition; [pthread_cond_signal] wakes up at least one
    of the sleepers, if there is one, and [pthread_cond_broadcast] all. *)
Record notified (ss : list wakeup) (ts ts' : list thread) : Prop := {
  notified_only : Forall2 (λ t t', t' = t ∨
    ∃ c k, t = Asleep c k ∧ t' = Woken k ∧ (Signal c ∈ ss ∨ Broadcast c ∈ ss)) ts ts';
  notified_signal : ∀ c n k, Signal c ∈ ss → ts !! n = Some (Asleep c k) →
    ∃ n' k', ts !! n' = Some (Asleep c k') ∧ ts' !! n' = Some (Woken k');
  notified_broadcast : ∀ c n k, Broadcast c ∈ ss → ts !! n = Some (Asleep c k) →
    ts' !! n = Some (Woken k)
}.

(** One step: a thread runs its next stretch, or wakes up spuriously. *)
Inductive step : system → system → Prop :=
  | step_run n t t' w w' ts ts' :
      ts !! n = Some t → runnable t = true → resume t w = Ret t' w' →
      notified (signals w w') ts ts' →
      step (System w ts) (System w' (<[n := t']> ts'))
  | step_spurious n c k w ts :
      ts !! n = Some (Asleep c k) →
      step (System w ts) (System w (<[n := Woken k]> ts)).

(** ** Executing a schedule *)

(** Is no sleeping thread affected by the wakeups? *)
Definition undisturbed (ss : list wakeup) (ts : list thread) : bool :=
  forallb (λ t, match t with
    | Asleep c _ => negb (bool_decide (Signal c ∈ ss)) && negb (bool_decide (Broadcast c ∈ ss))
    | _ => true
    end) ts.

(** Run the threads in the order given, as long as they wake nobody up. *)
Fixpoint run_schedule (l : list nat) (s : system) : option system :=
  match l with
  | [] => Some s
  | n :: l' =>
      match threads s !! n with
      | None => None
      | Some t =>
          match resume t (shared s) with
          | Ret t' w' =>
              if runnable t && undisturbed (signals (shared s) w') (threads s)
              then run_schedule l' (System w' (<[n := t']> (threads s)))
              else None
          | _ => None
          end
      end
  end.
End Threads.
