(* ===== verification/ThreadFacts.v ===== *)
(** * Facts the thread invariants rest on

    Runs that may only fail by leaving a buffer, the growth of the log of wakeups,
    and the sorted list of waiting readers. *)
From S2P Require Import Prelude Effects Seq XcbMap State In InFrame InFacts Conn Out OutFacts.
From S2P Require Import OutProps Wait WaitProps Request RequestFacts Threads.
From stdpp Require Import sorting.
#[local] Open Scope Z_scope.

(** ** Runs that may only fail by leaving a buffer *)

(** [upto m Q w]: as [wp], but [m] may end in [FOutOfBounds], the fault a packet
    can cause (see InSafety.v). *)
Definition upto {A} (m : xM A) (Q : A → world → Prop) (w : world) : Prop :=
  match m w with
  | Ret a w' => Q a w'
  | Blocked _ => True
  | Fault f => f = FOutOfBounds
  end.

Lemma upto_bind {A B} (m : xM A) (k : A → xM B) Q w :
  upto m (λ a w', upto (k a) Q w') w → upto (bind m k) Q w.
Proof. unfold upto, bind. by destruct (m w). Qed.

Lemma upto_run {A B} (m : xM A) (k : A → xM B) Q w a w' :
  m w = Ret a w' → upto (k a) Q w' → upto (bind m k) Q w.
Proof. intros E. unfold upto. by rewrite (bind_run _ _ _ _ _ E). Qed.

Lemma upto_intro {A} (m : xM A) (Q : A → world → Prop) w :
  (∀ f, m w = Fault f → f = FOutOfBounds) → (∀ a w', m w = Ret a w' → Q a w') → upto m Q w.
Proof. unfold upto. destruct (m w); auto. Qed.

Lemma upto_mono {A} (m : xM A) (Q1 Q2 : A → world → Prop) w :
  upto m Q1 w → (∀ a w', Q1 a w' → Q2 a w') → upto m Q2 w.
Proof. unfold upto. destruct (m w); auto. Qed.

(** ** Signals are only added *)

Definition grows (w w' : world) : Prop :=
  ∃ ss, os_signals (w_os w') = os_signals (w_os w) ++ ss.

#[export] Instance grows_preorder : PreOrder grows.
Proof.
  split.
  - intros w. exists []. by rewrite app_nil_r.
  - intros w1 w2 w3 [s1 E1] [s2 E2]. exists (s1 ++ s2). by rewrite E2, E1, app_assoc.
Qed.

(** A computation that changes nothing else of the output and the mutexes. *)
Definition same_held (w w' : world) : Prop := held w' = held w.

#[export] Instance same_held_preorder : PreOrder same_held.
Proof. split; unfold same_held; [done|congruence]. Qed.

Ltac frame_tac :=
  apply obeys_modify; intros; unfold same_held, grows; cbn;
  first [done | by exists []; rewrite app_nil_r | by eexists].
#[export] Hint Extern 1 (obeys grows (modify_in _)) => frame_tac : obeys.
#[export] Hint Extern 1 (obeys grows (modify_os _)) => frame_tac : obeys.
#[export] Hint Extern 1 (obeys grows _xcb_conn_shutdown) => frame_tac : obeys.
#[export] Hint Extern 1 (obeys same_held (modify_os _)) => frame_tac : obeys.
#[export] Hint Extern 1 (obeys same_held _xcb_conn_shutdown) => frame_tac : obeys.

Section Grows.
Context `{Host} `{XProto}.

Lemma grows_malloc n : obeys grows (malloc n).
Proof. unfold malloc. obeys_auto. Qed.

Lemma grows_replies_put k d : obeys grows (replies_put k d).
Proof. unfold replies_put. pose proof grows_malloc. obeys_auto. Qed.

Lemma grows_poll_for_reply q e : obeys grows (poll_for_reply q e).
Proof. unfold poll_for_reply, return_reply. pose proof grows_replies_put. obeys_auto. Qed.

Lemma grows_get_event : obeys grows get_event.
Proof. unfold get_event. obeys_auto. Qed.

Lemma grows_discard_reply q : obeys grows (discard_reply q).
Proof. unfold discard_reply, insert_pending_discard. pose proof grows_malloc. obeys_auto. Qed.

Lemma grows_expect_reply q k f : obeys grows (_xcb_in_expect_reply q k f).
Proof. unfold _xcb_in_expect_reply. pose proof grows_malloc. obeys_auto. Qed.

Lemma grows_in_read : obeys grows _xcb_in_read.
Proof.
  pose proof grows_malloc as Hm.
  assert (∀ n, obeys grows (recv n)) as Hr by (intros; unfold recv; obeys_auto).
  assert (obeys grows poll) as Hp by (unfold poll; obeys_auto).
  assert (∀ n l b, obeys grows (read_block_loop n l b)) as Hl.
  { intros n. induction n; intros l b; simpl; obeys_auto. }
  assert (∀ a b, obeys grows (_xcb_in_read_block a b)) as Hb.
  { unfold _xcb_in_read_block, read_block. obeys_auto. }
  assert (obeys grows read_packet) as Hk.
  { pose proof grows_replies_put.
    unfold read_packet, update_sequence, receive_packet, dispatch_packet,
      deliver_reply, deliver_event, pthread_cond_signal. obeys_auto. }
  assert (∀ n, obeys grows (read_packets n)) as Hks by (intros n; induction n; simpl; obeys_auto).
  unfold _xcb_in_read. obeys_auto.
Qed.

Lemma grows_poll_for_event : obeys grows poll_for_event.
Proof. unfold poll_for_event. pose proof grows_in_read. pose proof grows_get_event. obeys_auto. Qed.

Lemma grows_advance_iov n v : obeys grows (advance_iov n v).
Proof. revert n. induction v; intros n; simpl; obeys_auto. Qed.

Lemma grows_conn_io r v : obeys grows (conn_io r v).
Proof.
  unfold conn_io, write_vec, writev. pose proof grows_in_read. pose proof grows_advance_iov.
  obeys_auto.
Qed.

Lemma grows_poll_socket v : obeys grows (poll_socket v).
Proof. unfold poll_socket, poll. obeys_auto. Qed.
End Grows.

(** ** The list of readers stays sorted

    The 32-bit comparison is the order of the requests if they lie in a window of
    [2^31] numbers that starts at [lo]. *)
Section Readers.
Context (lo : Z).

Definition in_window (q : Z) : Prop := 0 <= q < 2 ^ 32 ∧ u32 (q - lo) < 2 ^ 31.

(** A request's place in the window. *)
Definition place (q : Z) : Z := u32 (q - lo).

Definition reader_le (r r' : reader) : Prop :=
  place (reader_request r) <= place (reader_request r').

#[export] Instance reader_le_trans : Transitive reader_le.
Proof. intros ???. unfold reader_le. lia. Qed.

Lemma compare_readers q q' :
  in_window q → in_window q' →
  XCB_SEQUENCE_COMPARE_32 q Z.leb q' = (place q <=? place q').
Proof.
  intros [H1 H2] [H3 H4].
  assert (XCB_SEQUENCE_COMPARE_32 q Z.leb q' = (s32 (s32 q - s32 q') <=? 0)) as -> by done.
  rewrite s32_sub_wrap. unfold place.
  assert (s32 (q - q') = u32 (q - lo) - u32 (q' - lo)) as -> by words.
  destruct (Z.leb_spec (u32 (q - lo) - u32 (q' - lo)) 0), (Z.leb_spec (u32 (q - lo)) (u32 (q' - lo)));
    first [done | lia].
Qed.

(** All requests are in the window, the list is sorted, and no address occurs
    twice. *)
Record readers_ok (l : list reader) : Prop := {
  ro_window : Forall (λ r, in_window (reader_request r)) l;
  ro_sorted : StronglySorted reader_le l;
  ro_ids : NoDup (reader_id <$> l)
}.

Lemma insert_reader_perm r l : insert_reader r l ≡ₚ r :: l.
Proof.
  induction l as [|r' t IH]; [done|]. cbn [insert_reader].
  destruct (XCB_SEQUENCE_COMPARE_32 _ _ _); [|done]. rewrite IH. apply Permutation_swap.
Qed.

Lemma insert_reader_ok r l :
  in_window (reader_request r) → reader_id r ∉ reader_id <$> l →
  readers_ok l → readers_ok (insert_reader r l).
Proof.
  intros Hw Hi [H1 H2 H3]. split.
  - rewrite insert_reader_perm. by apply Forall_cons.
  - clear H3 Hi. induction l as [|r' t IH]; cbn [insert_reader].
    { repeat constructor. }
    apply Forall_cons in H1 as [Hw' H1]. inversion_clear H2 as [|?? Hs Hf].
    rewrite compare_readers by done.
    destruct (Z.leb_spec (place (reader_request r')) (place (reader_request r))) as [Hle|Hgt].
    + constructor; [by apply IH|]. rewrite insert_reader_perm. by apply Forall_cons.
    + assert (reader_le r r') by (unfold reader_le; lia).
      constructor; [by constructor|]. apply Forall_cons. split; [done|].
      eapply Forall_impl; [exact Hf|]. intros ??. by transitivity r'.
  - rewrite insert_reader_perm. by constructor.
Qed.

(** In a sorted list the second loop finds the reader. *)
Lemma remove_reader_ok r l :
  readers_ok l → r ∈ l → l ≡ₚ r :: remove_reader r l ∧ readers_ok (remove_reader r l).
Proof.
  intros [H1 H2 H3] Hin.
  assert (l ≡ₚ r :: remove_reader r l ∧ StronglySorted reader_le (remove_reader r l)) as [Hp Hs].
  { assert (in_window (reader_request r)) as Hw by by eapply Forall_forall in H1.
    induction l as [|r' t IH]; [set_solver|]. cbn [remove_reader].
    apply Forall_cons in H1 as [Hw' H1]. inversion_clear H2 as [|?? Hs Hf].
    cbn in H3. apply NoDup_cons in H3 as [Hn Hd].
    apply elem_of_cons in Hin as [<-|Hin].
    { by rewrite compare_32_refl, decide_True. }
    rewrite compare_readers by done. assert (reader_le r' r) as Hle by by eapply Forall_forall in Hf.
    unfold reader_le in Hle.
    destruct (Z.leb_spec (place (reader_request r')) (place (reader_request r))); [|lia].
    rewrite decide_False.
    2: { intros E. apply Hn. rewrite E. by apply list_elem_of_fmap_2. }
    destruct (IH H1 Hs Hd Hin) as [IHp IHs]. split.
    - rewrite IHp at 1. apply Permutation_swap.
    - constructor; [done|]. rewrite IHp in Hf. by apply Forall_cons in Hf as [_ ?]. }
  split; [done|]. split; [|done|].
  - rewrite Hp in H1. by apply Forall_cons in H1 as [_ ?].
  - rewrite Hp in H3. by apply NoDup_cons in H3 as [_ ?].
Qed.
End Readers.

(** ** Schedules are runs *)

Section Schedules.
Context `{Host} `{XProto}.

Lemma undisturbed_notified ss ts : undisturbed ss ts = true → notified ss ts ts.
Proof.
  intros Hu. unfold undisturbed in Hu. rewrite forallb_forall in Hu.
  assert (∀ c n k, ts !! n = Some (Asleep c k) → (Signal c ∉ ss) ∧ (Broadcast c ∉ ss)) as Hn.
  { intros c n k E. apply list_elem_of_lookup_2, list_elem_of_In, Hu in E.
    apply andb_true_iff in E as [E1%negb_true_iff E2%negb_true_iff].
    by rewrite bool_decide_eq_false in E1, E2. }
  split.
  - apply Forall2_same_length_lookup. split; [done|]. intros n t t' E1 E2. left. congruence.
  - intros c n k Hs E. by destruct (Hn _ _ _ E).
  - intros c n k Hs E. by destruct (Hn _ _ _ E).
Qed.

Lemma run_schedule_sound l s s' : run_schedule l s = Some s' → rtc step s s'.
Proof.
  revert s. induction l as [|n l IH]; intros [w ts] E; cbn [run_schedule shared threads] in E.
  { injection E as <-. apply rtc_refl. }
  destruct (ts !! n) as [t|] eqn:Ht; [|done]. destruct (resume t w) as [t' w'| |] eqn:Er; [|done..].
  destruct (runnable t) eqn:Hr; [|done]. destruct (undisturbed _ _) eqn:Hu; [|done].
  cbn [andb] in E. apply IH in E. eapply rtc_l; [|exact E].
  by eapply step_run; [..|apply undisturbed_notified].
Qed.
End Schedules.
