(* ===== verification/ThreadInv.v ===== *)
(** * What one thread does between two steps

    The invariant a thread relies on when it has locked [iolock], in terms of
    what the other threads are doing, and the proof that every stretch of
    Threads.v restores it: counters, output queue, list of readers, wakeups
    and the stream of bytes. *)
From S2P Require Import Prelude Effects Seq XcbMap State In InFrame InFacts Conn Out OutFacts.
From S2P Require Import OutProps Wait WaitProps Request RequestFacts Threads ThreadFacts.
#[local] Open Scope Z_scope.

(** ** What a thread contributes to the state *)

Definition thread_io (t : thread) : option io :=
  match t with
  | Asleep _ (Io i) | Woken (Io i) | Polling i | Polled _ i => Some i
  | _ => None
  end.

(** 1 if the thread has [c->in.reading] incremented, or [c->out.writing]. *)
Definition polling (t : thread) : Z :=
  match t with Polling _ | Polled _ _ => 1 | _ => 0 end.

Definition writing (t : thread) : Z :=
  match t with Polling (Sending _ _) | Polled _ (Sending _ _) => 1 | _ => 0 end.

(** 1 if the thread has a request to send that has no number yet. *)
Definition unsent (t : thread) : Z :=
  match t with
  | Calling (CallSend _) | Entering (CallSend _) | Asleep _ (Claiming _)
  | Woken (Claiming _) => 1
  | _ => 0
  end.

(** Its element of the list of readers. *)
Definition thread_readers (t : thread) : list reader :=
  match thread_io t with Some (AwaitingReply q _ id) => [Reader q id] | _ => [] end.

(** The bytes it has taken from the queue and not yet sent. *)
Definition in_flight (t : thread) : list byte :=
  match thread_io t with Some (Sending v _) => concat v | _ => [] end.

Record others := Others {
  ot_polling : Z;
  ot_writing : Z;
  ot_unsent : Z;
  ot_readers : list reader;
  ot_flight : list byte
}.

(** The number up to which the requests are written, or will be when the thread
    that writes has finished. *)
Definition handed (w : world) : Z :=
  if out_writing (w_out w) =? 0 then out_request_written (w_out w) else out_request (w_out w).

(** The wakeup [_xcb_in_wake_up_next_reader] issues. *)
Definition next_wakeup (w : world) : wakeup :=
  match readers (w_in w) with
  | r :: _ => Signal (ReaderCond (reader_id r))
  | [] => Signal EventCond
  end.

Lemma handed_idle w : out_writing (w_out w) = 0 → handed w = out_request_written (w_out w).
Proof. unfold handed. by intros ->. Qed.

Section Inv.
Context `{Host} `{XProto} (lo : Z).

(** ** Well-formed threads *)

Definition send_ok (a : send_args) : Prop :=
  (2 <= sa_slots a)%nat ∧ small_iov (sa_vector a) ∧
  4 <= zlength (default [] (sa_vector a !! 0%nat)).

Definition call_ok (c : call) : Prop :=
  match c with
  | CallWaitForReply q _ => in_window lo q
  | CallSend a => send_ok a
  | _ => True
  end.

Definition after_ok (k : after) : Prop :=
  match k with ThenAwait q _ => in_window lo q | _ => True end.

(** What may follow [_xcb_out_flush_to]. *)
Definition flush_ok (k : after) : Prop := after_ok k ∧ ∀ q, k ≠ ThenSent q.

Definition io_ok (i : io) : Prop :=
  match i with
  | Sending v k => small_iov v ∧ after_ok k
  | AwaitingReply q _ _ => in_window lo q
  | AwaitingEvent => True
  end.

(** A task that sleeps or has been woken up; [h] is [handed].  A writer never
    sleeps, and a flushing thread waits for a request that will be written. *)
Definition task_ok (h : Z) (t : task) : Prop :=
  match t with
  | Io (Sending _ _) => False
  | Io i => io_ok i
  | Flushing q k => flush_ok k ∧ - 2 ^ 32 <= s64 q <= h
  | Claiming a => send_ok a
  end.

Definition task_cond (t : task) : cond :=
  match t with
  | Io (AwaitingReply _ _ id) => ReaderCond id
  | Io AwaitingEvent => EventCond
  | _ => OutCond
  end.

Definition thread_ok (w : world) (t : thread) : Prop :=
  match t with
  | Calling c | Entering c => call_ok c
  | Asleep c k => c = task_cond k ∧ task_ok (handed w) k
  | Woken k => task_ok (handed w) k
  | Polling i => io_ok i
  | Polled ready i => io_ok i ∧
      match i, ready with
      | _, None => has_error w = true
      | Sending _ _, _ => True
      | _, Some r => Z.land r POLLOUT ≠ POLLOUT
      end
  | Finished _ => True
  end.

(** ** The state of the connection under the lock *)

(** How far the running thread is in sending: not at all, with a numbered request
    that is not in the queue yet, or with a vector to send. *)
Inductive phase :=
  | Settled
  | Numbered (v : list (list byte))
  | Transmitting (v : list (list byte)).

(** [o]: the other threads; [w0]: the world when the stretch begins.  [must]: the thread was reading, and must see to it that
    somebody else does; [wrote]: it was writing, and must say when it stops. *)
Context (o : others) (w0 : world) (must wrote : Prop).

(** At most one thread writes, and it polls for reading as well. *)
Record others_ok : Prop := {
  oo_writing : 0 <= ot_writing o <= 1;
  oo_polling : ot_writing o <= ot_polling o;
  oo_unsent : 0 <= ot_unsent o;
  oo_flight : ot_writing o = 0 → ot_flight o = []
}.

(** The stream, that is what has been sent, the bytes in flight and the queue, and
    the number of the last request. *)
Definition tally : Type := list byte * Z.

Definition phase_ok (tl : tally) (ph : phase) (w : world) : Prop :=
  let q := out_queue (w_out w) in
  let stream := λ l, has_error w = false → os_sent (w_os w) ++ l = tl.1 in
  match ph with
  | Settled =>
      handed w0 <= handed w ∧ (ot_writing o = 1 → q = []) ∧
      (ot_writing o = 0 → q = [] → out_request_written (w_out w) = out_request (w_out w)) ∧
      stream (ot_flight o ++ q)
  | Numbered v =>
      ot_writing o = 0 ∧ handed w0 <= out_request_written (w_out w) ∧ stream (q ++ concat v)
  | Transmitting v =>
      ot_writing o = 0 ∧ handed w0 <= out_request (w_out w) ∧ q = [] ∧ stream (concat v)
  end.

(** The output side; [p] is 1 if the running thread still has to number a
    request. *)
Record output_ok (p : Z) (w : world) : Prop := {
  op_written : 0 <= out_request_written (w_out w) <= out_request (w_out w);
  op_room : out_request (w_out w) + 2 * (p + ot_unsent o) < 2 ^ 62;
  op_queue : zlength (out_queue (w_out w)) <= XCB_QUEUE_BUFFER_SIZE;
  op_owner : out_return_socket (w_out w) = None
}.

(** The list of readers; [own] is the running thread's element. *)
Record input_ok (own : list reader) (w : world) : Prop := {
  ip_readers : readers (w_in w) ≡ₚ own ++ ot_readers o;
  ip_ok : readers_ok lo (readers (w_in w));
  ip_fresh : Forall (λ r, (reader_id r < os_fresh (w_os w))%nat) (readers (w_in w))
}.

(** The wakeup [s] has been issued since the stretch began. *)
Definition issued (s : wakeup) (w : world) : Prop :=
  s ∈ drop (length (os_signals (w_os w0))) (os_signals (w_os w)).

(** What holds while the running thread has [iolock]. *)
Record locked (own : list reader) (p : Z) (tl : tally) (ph : phase) (w : world)
    : Prop := {
  lk_held : held w = [IoLock];
  lk_reading : in_reading (w_in w) = ot_polling o;
  lk_writing : out_writing (w_out w) = ot_writing o;
  lk_output : output_ok p w;
  lk_error : has_error w0 = true → has_error w = true;
  lk_number : out_request (w_out w) = tl.2;
  lk_input : input_ok own w;
  lk_phase : phase_ok tl ph w;
  lk_signals : ∃ ss, os_signals (w_os w) = os_signals (w_os w0) ++ ss;
  lk_wrote : match ph with
             | Transmitting _ => True
             | _ => wrote → issued (Broadcast OutCond) w
             end
}.

(** What holds at the end of a stretch that leaves the thread in [t]. *)
Record released (tl : tally) (t : thread) (w : world) : Prop := {
  rl_held : held w = [];
  rl_reading : in_reading (w_in w) = polling t + ot_polling o;
  rl_writing : out_writing (w_out w) = writing t + ot_writing o;
  rl_one : writing t + ot_writing o <= 1;
  rl_output : output_ok (unsent t) w;
  rl_queue : writing t + ot_writing o = 1 → out_queue (w_out w) = [];
  rl_written : writing t + ot_writing o = 0 → out_queue (w_out w) = [] →
    out_request_written (w_out w) = out_request (w_out w);
  rl_input : input_ok (thread_readers t) w;
  rl_handed : handed w0 <= handed w;
  rl_thread : thread_ok w t;
  rl_stream : has_error w = false →
    os_sent (w_os w) ++ in_flight t ++ ot_flight o ++ out_queue (w_out w) = tl.1;
  rl_error : has_error w0 = true → has_error w = true;
  rl_number : out_request (w_out w) = tl.2;
  rl_signals : ∃ ss, os_signals (w_os w) = os_signals (w_os w0) ++ ss;
  rl_reader : must → polling t = 1 ∨ 0 < ot_polling o ∨ issued (next_wakeup w) w;
  rl_writer : wrote → writing t = 1 ∨ issued (Broadcast OutCond) w;
  rl_sleeps : ∀ c k, t = Asleep c k →
    if decide (c = OutCond) then 0 < ot_writing o else 0 < ot_polling o
}.

(** ** Stretches that end by releasing the lock *)

Context (Ho : others_ok).

Lemma issued_grows s w w' :
  (∃ ss, os_signals (w_os w) = os_signals (w_os w0) ++ ss) → grows w w' → issued s w → issued s w'.
Proof.
  unfold issued. intros [ss E] [ss' E']. rewrite E', E, <- app_assoc, !drop_app_length.
  set_solver.
Qed.

Lemma grows_signals w w' :
  (∃ ss, os_signals (w_os w) = os_signals (w_os w0) ++ ss) → grows w w' → ∃ ss, os_signals (w_os w') = os_signals (w_os w0) ++ ss.
Proof. intros [ss E] [ss' E']. exists (ss ++ ss'). by rewrite E', E, app_assoc. Qed.

Lemma release_ok own p tl t w :
  locked own p tl Settled w →
  polling t = 0 → writing t = 0 → unsent t = p → thread_readers t = own → in_flight t = [] →
  thread_ok w t → (must → 0 < ot_polling o ∨ issued (next_wakeup w) w) →
  (∀ c k, t = Asleep c k →
    if decide (c = OutCond) then 0 < ot_writing o else 0 < ot_polling o) →
  upto (release t) (released tl) w.
Proof.
  intros [Hh Hr Hw Hou Her Hnum Hin (Hp1 & Hp2 & Hp3 & Hp4) Hs Hb] E1 E2 <- <- E5 Ht Hm Hsl.
  unfold release. eapply upto_run; [by apply unlock_run|].
  pose proof (oo_writing Ho). unfold upto. cbn [ret].
  split; cbn; rewrite ?E1, ?E2, ?E5; try done; try lia.
  - by destruct Hou.
  - by destruct Hin.
  - intros Hm'. right. exact (Hm Hm').
  - intros Hb'. right. by apply Hb.
Qed.

(** Working on the input side keeps the invariant. *)
Lemma locked_side own p tl ph w w' :
  in_side w w' → grows w w' → locked own p tl ph w → locked own p tl ph w'.
Proof.
  intros Hi Hg [Hh Hr Hw [] Her Hnum [] Hph Hs Hb].
  pose proof (side_out _ _ Hi) as Eo. pose proof (side_readers _ _ Hi) as Er.
  pose proof (side_os _ _ Hi) as (_ & _ & Es & _ & _ & Ef & _).
  assert (has_error w' = false → has_error w = false) as He.
  { intros He. destruct (has_error w) eqn:E; [|done]. by rewrite (side_error _ _ Hi E) in He. }
  split; rewrite ?Eo, ?(side_held _ _ Hi), ?(side_reading _ _ Hi); try done.
  - split; by rewrite ?Eo.
  - intros E. apply (side_error _ _ Hi). by apply Her.
  - split; by rewrite ?Er, ?Ef.
  - unfold phase_ok, handed in *. rewrite Eo, Es. destruct ph; naive_solver.
  - by eapply grows_signals.
  - destruct ph; [| |done]; intros Hwr; eapply issued_grows; eauto.
Qed.

Lemma upto_side {A} (m : xM A) (k : A → xM thread) own p tl ph Q w :
  obeys in_side m → obeys grows m → (∀ f, m w = Fault f → f = FOutOfBounds) →
  locked own p tl ph w →
  (∀ a w', locked own p tl ph w' → upto (k a) Q w') → upto (bind m k) Q w.
Proof.
  intros Hi Hg Hf Hl Hk. apply upto_bind, upto_intro; [done|]. intros a w' E.
  apply Hk. by eapply locked_side; [eapply Hi|eapply Hg|].
Qed.

(** A reader starts to poll, or sleeps while another thread polls. *)
Lemma begin_wait_reader c i tl w :
  io_vector i = None → io_ok i → c = task_cond (Io i) →
  locked (thread_readers (Polling i)) 0 tl Settled w →
  upto (begin_wait c i) (released tl) w.
Proof.
  intros Hv Hi -> Hl. unfold begin_wait. apply upto_bind. unfold upto at 1. cbn [gets].
  rewrite Hv. unfold wait_busy. rewrite (lk_reading _ _ _ _ _ Hl).
  pose proof (oo_writing Ho). pose proof (oo_polling Ho).
  assert (writing (Polling i) = 0) as Hwr by by destruct i.
  destruct (Z.eqb_spec (ot_polling o) 0) as [E|E]; cbn [negb].
  - eapply upto_run; [by apply enter_poll_run, Hl|].
    destruct Hl as [Hh Hr Hw Hou Her Hnum Hin (Hp1 & Hp2 & Hp3 & Hp4) Hs Hb].
    unfold upto. cbn [ret]. split; rewrite ?Hwr; cbn; try done; try lia.
    + by destruct Hou.
    + by destruct i, Hin.
    + by destruct i.
    + intros Hb'. right. by apply Hb.
  - eapply release_ok; [exact Hl|done..|by destruct i| | |].
    + split; [done|]. by destruct i.
    + intros _. left. lia.
    + intros c k [= <- <-]. rewrite decide_False by by destruct i. lia.
Qed.

(** A writer starts to poll. *)
Lemma begin_wait_writer k tl v w :
  small_iov v → after_ok k → locked [] 0 tl (Transmitting v) w →
  upto (begin_wait OutCond (Sending v k)) (released tl) w.
Proof.
  intros Hv Hk [Hh Hr Hw Hou Her Hnum Hin (Hp1 & Hp2 & Hp3 & Hp4) Hs Hb].
  unfold begin_wait. apply upto_bind. unfold upto at 1. cbn [gets io_vector].
  unfold wait_busy. rewrite Hw, Hp1. cbn [Z.eqb negb].
  eapply upto_run; [by apply enter_poll_run|].
  pose proof (oo_polling Ho). unfold upto. cbn [ret]. split; cbn; try done; try lia.
  - by destruct Hou.
  - by destruct Hin.
  - unfold handed. cbn. rewrite Hw, Hp1. exact Hp2.
  - by rewrite (oo_flight Ho), Hp3, !app_nil_r.
Qed.

(** [_xcb_in_wake_up_next_reader] *)
Lemma wake_up_issues own p tl w :
  locked own p tl Settled w →
  ∃ w', _xcb_in_wake_up_next_reader w = Ret () w' ∧ locked own p tl Settled w' ∧
    issued (next_wakeup w') w'.
Proof.
  intros Hl. pose proof (lk_signals _ _ _ _ _ Hl) as [ss Es].
  assert (_xcb_in_wake_up_next_reader w = Ret () (with_signals [next_wakeup w] w)) as E.
  { unfold _xcb_in_wake_up_next_reader, next_wakeup. rewrite bind_gets. unfold compose.
    by destruct (readers (w_in w)). }
  eexists. split; [exact E|]. split.
  - eapply locked_side; [by eapply obeys_wake_up| |exact Hl]. by eexists.
  - unfold issued. cbn. rewrite Es, <- app_assoc, drop_app_length. set_solver.
Qed.

Lemma end_reply_ok res tl w :
  locked [] 0 tl Settled w → upto (end_reply res) (released tl) w.
Proof.
  intros Hl. destruct (wake_up_issues _ _ _ _ Hl) as (w' & E & Hl' & Hi).
  eapply upto_run; [exact E|]. eapply release_ok; try done. by right.
Qed.

Lemma leave_event_ok r tl w :
  locked [] 0 tl Settled w → upto (leave_event r) (released tl) w.
Proof.
  intros Hl. destruct (wake_up_issues _ _ _ _ Hl) as (w' & E & Hl' & Hi).
  eapply upto_run; [exact E|]. eapply release_ok; try done. by right.
Qed.

(** Linking in and unlinking the running thread's reader. *)
Lemma locked_readers own own' p tl ph w l n :
  locked own p tl ph w →
  l ≡ₚ own' ++ ot_readers o → readers_ok lo l →
  Forall (λ r, (reader_id r < n)%nat) l →
  locked own' p tl ph
    (set_w_in (set_readers l (w_in w)) (set_w_os (set_os_fresh n (w_os w)) w)).
Proof.
  intros [Hh Hr Hw [] Her Hnum [] Hph Hs Hb] Hl Hok Hf. split; try done.
Qed.

Lemma leave_reply_ok r res tl w :
  locked [r] 0 tl Settled w → upto (leave_reply r res) (released tl) w.
Proof.
  intros Hl. pose proof (lk_input _ _ _ _ _ Hl) as [Hp Hok Hf].
  destruct (remove_reader_ok lo r (readers (w_in w)) Hok) as [Hp' Hok'].
  { rewrite Hp. set_solver. }
  unfold leave_reply, modify_in. apply upto_bind. unfold upto at 1. cbn [modify].
  apply end_reply_ok.
  replace (set_w_in (set_readers (remove_reader r (readers (w_in w))) (w_in w)) w) with
    (set_w_in (set_readers (remove_reader r (readers (w_in w))) (w_in w))
      (set_w_os (set_os_fresh (os_fresh (w_os w)) (w_os w)) w))
    by by destruct w as [? ? ? ? ? ? ? ? []].
  eapply locked_readers; [exact Hl| |done|].
  - rewrite Hp' in Hp. by apply Permutation_cons_inv in Hp.
  - rewrite Hp' in Hf. by apply Forall_cons in Hf as [_ ?].
Qed.

Lemma reply_loop_ok q e id tl w :
  in_window lo q → locked [Reader q id] 0 tl Settled w →
  upto (reply_loop q e id) (released tl) w.
Proof.
  intros Hq Hl. eapply upto_side; [apply obeys_poll_for_reply|apply grows_poll_for_reply
    |apply poll_for_reply_faults|exact Hl|].
  intros [res|] w' Hl'; [by apply leave_reply_ok|]. by apply begin_wait_reader.
Qed.

Lemma enter_reply_ok q e tl w :
  in_window lo q → locked [] 0 tl Settled w → upto (enter_reply q e) (released tl) w.
Proof.
  intros Hq Hl. pose proof (lk_input _ _ _ _ _ Hl) as [Hp Hok Hf].
  unfold enter_reply, modify_in, modify_os. apply upto_bind. unfold upto at 1. cbn [gets].
  unfold compose. do 2 (apply upto_bind; unfold upto at 1; cbn [modify]).
  apply reply_loop_ok; [done|].
  apply (locked_readers [] [Reader q (os_fresh (w_os w))] 0 tl Settled w); [done| | |].
  - rewrite insert_reader_perm. by apply Permutation_skip.
  - apply insert_reader_ok; [done| |done]. cbn. intros Hin.
    apply list_elem_of_fmap in Hin as (r & E & Hin). eapply Forall_forall in Hf; [|exact Hin].
    rewrite <- E in Hf. lia.
  - rewrite insert_reader_perm. apply Forall_cons. split; [cbn; lia|].
    eapply Forall_impl; [exact Hf|]. cbn. intros; lia.
Qed.

Lemma event_loop_ok tl w :
  locked [] 0 tl Settled w → upto event_loop (released tl) w.
Proof.
  intros Hl. eapply upto_side; [apply obeys_get_event|apply grows_get_event
    |by intros f E; apply get_event_faults in E|exact Hl|].
  intros [ev|] w' Hl'; [by apply leave_event_ok|]. by apply begin_wait_reader.
Qed.
(** ** Sending and flushing *)

Lemma continue_ok k r tl w :
  after_ok k → locked [] 0 tl Settled w → (must → issued (next_wakeup w) w) →
  upto (continue k r) (released tl) w.
Proof.
  intros Hk Hl Hm. destruct k as [|q e|q]; cbn [continue].
  - eapply release_ok; [exact Hl|done..|by auto|done].
  - destruct r; [by apply enter_reply_ok|by apply end_reply_ok].
  - assert (∃ s w', (if r then ret q else _xcb_conn_shutdown;; ret 0) w = Ret s w' ∧
      locked [] 0 tl Settled w' ∧ (must → issued (next_wakeup w') w')) as (s & w' & E & Hl' & Hm').
    { destruct r; [by exists q, w|]. exists 0, (set_has_error true w). split; [done|]. split.
      - eapply locked_side; [by eapply obeys_shutdown| |exact Hl].
        exists []. by rewrite app_nil_r.
      - exact Hm. }
    eapply upto_run; [exact E|]. eapply release_ok; [exact Hl'|done..|by auto|done].
Qed.

(** The end of [_xcb_out_send]: everything counts as written, the flushing threads
    and the next reader are woken up. *)
Lemma end_send_ok k r v tl w :
  after_ok k → locked [] 0 tl (Transmitting v) w → concat v = [] ∨ has_error w = true →
  upto (end_send k r) (released tl) w.
Proof.
  intros Hk [Hh Hr Hw [] Her Hnum [] (Hp1 & Hp2 & Hp3 & Hp4) Hs Hb] Hv.
  unfold end_send, modify_out, pthread_cond_broadcast, modify_os.
  do 2 (apply upto_bind; unfold upto at 1; cbn [modify]).
  match goal with |- upto _ _ ?w => set (w1 := w) end.
  assert (locked [] 0 tl Settled w1) as Hl1.
  { destruct Hs as [ss Es]. subst w1. split; cbn; try done.
    - split; cbn; try done. lia.
    - unfold handed. cbn. rewrite Hw, Hp1. split_and!; [done|done|done|].
      intros He. rewrite (oo_flight Ho), Hp3 by done. cbn.
      destruct Hv as [Hv|Hv]; [|congruence]. rewrite Hv in Hp4. by apply Hp4.
    - exists (ss ++ [Broadcast OutCond]). by rewrite Es, app_assoc.
    - intros _. unfold issued. cbn. rewrite Es, <- app_assoc, drop_app_length. set_solver. }
  destruct (wake_up_issues _ _ _ _ Hl1) as (w2 & E & Hl2 & Hi).
  eapply upto_run; [exact E|]. by apply continue_ok.
Qed.

Lemma out_send_ok v k tl w :
  small_iov v → after_ok k → locked [] 0 tl (Transmitting v) w →
  upto (out_send v k) (released tl) w.
Proof.
  intros Hv Hk Hl. destruct v as [|b v]; cbn [out_send].
  - eapply end_send_ok; [done|exact Hl|by left].
  - by apply begin_wait_writer.
Qed.

Context (Hm : ¬ must).

Lemma compare_handed q x :
  0 <= x < 2 ^ 62 → - 2 ^ 32 <= s64 q → (XCB_SEQUENCE_COMPARE x Z.geb q = (s64 q <=? x)) ∧
  XCB_SEQUENCE_COMPARE q Z.leb x = (s64 q <=? x).
Proof.
  intros Hx Hq. unfold XCB_SEQUENCE_COMPARE. rewrite Z.geb_leb.
  assert (s64 q < 2 ^ 63) by words.
  split; apply eq_true_iff_eq; rewrite !Z.leb_le; words.
Qed.

Lemma locked_written own p tl w :
  locked own p tl Settled w → 0 <= p → 0 <= out_request_written (w_out w) < 2 ^ 62 ∧
    0 <= out_request (w_out w) < 2 ^ 62.
Proof. intros [_ _ _ [? ? _ _]] ?. pose proof (oo_unsent Ho). lia. Qed.

Lemma flush_loop_ok q k tl w :
  flush_ok k → - 2 ^ 32 <= s64 q <= handed w → locked [] 0 tl Settled w →
  upto (flush_loop q k) (released tl) w.
Proof.
  intros Hk Hq Hl. pose proof (locked_written _ _ _ _ Hl ltac:(done)) as [Hx _].
  unfold flush_loop. apply upto_bind. unfold upto at 1. cbn [gets].
  rewrite (lk_writing _ _ _ _ _ Hl).
  destruct (Z.eqb_spec (ot_writing o) 0) as [E|E]; cbn [negb].
  - unfold handed in Hq. rewrite (lk_writing _ _ _ _ _ Hl), E in Hq. cbn [Z.eqb] in Hq.
    destruct (compare_handed q _ Hx (proj1 Hq)) as [-> _].
    destruct (Z.leb_spec (s64 q) (out_request_written (w_out w))); [|lia].
    cbn [assertM]. apply upto_bind. unfold upto at 1. cbn [ret]. apply continue_ok; [apply Hk|done|].
    intros ?. by destruct Hm.
  - pose proof (oo_writing Ho). eapply release_ok; [exact Hl|done..| | |].
    + by split.
    + intros ?. by destruct Hm.
    + intros c t [= <- <-]. rewrite decide_True by done. lia.
Qed.

(** [_xcb_out_flush_to] of a request that has been numbered. *)
Lemma flush_to_ok q k tl w :
  flush_ok k → - 2 ^ 32 <= s64 q <= out_request (w_out w) → locked [] 0 tl Settled w →
  upto (flush_to q k) (released tl) w.
Proof.
  intros Hk Hq Hl. pose proof (locked_written _ _ _ _ Hl ltac:(done)) as [Hx Hy].
  unfold flush_to. apply upto_bind. unfold upto at 1. cbn [gets].
  destruct (compare_handed q _ Hy (proj1 Hq)) as [_ ->].
  destruct (Z.leb_spec (s64 q) (out_request (w_out w))); [|lia].
  cbn [assertM]. apply upto_bind. unfold upto at 1. cbn [ret].
  destruct (compare_handed q _ Hx (proj1 Hq)) as [-> _].
  destruct (Z.leb_spec (s64 q) (out_request_written (w_out w))) as [|Hgt].
  { apply continue_ok; [apply Hk|done|]. intros ?. by destruct Hm. }
  pose proof Hl as [Hh Hr Hw Hou Her Hnum Hin (Hp1 & Hp2 & Hp3 & Hp4) Hs Hb]. pose proof Hou as [].
  pose proof (oo_writing Ho).
  destruct (decide (out_queue (w_out w) = [])) as [Hn|Hn].
  - rewrite bool_decide_eq_true_2 by done. cbn [negb]. apply flush_loop_ok; [done| |done].
    unfold handed. rewrite Hw. destruct (Z.eqb_spec (ot_writing o) 0) as [E|E]; [|lia].
    rewrite (Hp3 E Hn). lia.
  - rewrite bool_decide_eq_false_2 by done. cbn [negb]. unfold modify_out.
    assert (ot_writing o = 0) as E.
    { destruct (decide (ot_writing o = 1)) as [E|]; [|lia]. by apply Hp2 in E. }
    apply upto_bind. unfold upto at 1. cbn [modify]. apply out_send_ok; [|apply Hk|].
    { apply Forall_singleton. unfold XCB_QUEUE_BUFFER_SIZE in *. lia. }
    rewrite (handed_idle w) in Hp1 by by rewrite Hw.
    split; cbn; try done; [by destruct Hin|].
    split_and!; [done|lia|done|]. intros He. rewrite (oo_flight Ho E) in Hp4.
    rewrite app_nil_r. by apply Hp4.
Qed.

(** [write_block] of a request that has just been numbered. *)
Lemma write_ok slots v k tl w :
  (1 <= slots)%nat → small_iov v → concat v ≠ [] → after_ok k →
  locked [] 0 tl (Numbered v) w → upto (write slots v k) (released tl) w.
Proof.
  intros Hs Hv Hne Hk [Hh Hr Hw Hou Her Hnum Hin (Hp1 & Hp2 & Hp3) Hsig Hb].
  pose proof Hou as [].
  destruct (fill_queue_ok slots v w) as (n & Ef & Hn & Hb'). specialize (Hb' op_queue0).
  unfold write. eapply upto_run; [exact Ef|]. cbn [fst snd].
  assert (concat v = concat (take n v) ++ concat (drop n v)) as Hcat.
  { by rewrite <- concat_app, take_drop. }
  destruct (drop n v) as [|b t] eqn:Ed.
  - cbn [concat] in Hcat. rewrite app_nil_r in Hcat. rewrite <- Hcat in *.
    apply continue_ok; [done| |by intros ?; destruct Hm].
    split; cbn; try done; [by destruct Hin|].
    unfold handed. cbn. rewrite Hw, Hp1. cbn. split_and!; [done|done| |].
    + intros _ [? ?]%app_nil. done.
    + by rewrite (oo_flight Ho).
  - rewrite decide_False by lia. apply upto_bind. unfold upto at 1. cbn [gets].
    unfold compose, modify_out. apply upto_bind. unfold upto at 1. cbn [modify].
    apply out_send_ok; [|done|].
    { apply Forall_cons. split; [cbn; unfold XCB_QUEUE_BUFFER_SIZE in Hb'; lia|].
      rewrite <- Ed. by apply Forall_drop. }
    split; cbn; try done; [by destruct Hin|].
    split_and!; [done|lia|done|]. intros He. rewrite <- Hp3, Hcat by done. cbn.
    by rewrite <- !app_assoc.
Qed.
(** The stream and the last number after the request [a] has been numbered. *)
Definition submit (a : send_args) (w : world) (tl : tally) : tally :=
  if out_writing (w_out w) =? 0 then
    let q := out_request (w_out w) + 1 in
    let b := needs_sync (sa_isvoid a) q (request_expected (w_in w)) in
    (tl.1 ++ (if b then sync_req else []) ++ request_bytes (sa_big a) (sa_vector a),
     if b then q + 1 else q)
  else tl.

Lemma request_bytes_ne big vec : 4 <= zlength (default [] (vec !! 0%nat)) →
  request_bytes big vec ≠ [].
Proof.
  intros Hl E. unfold request_bytes in E. destruct vec as [|d rest]; [by vm_compute in Hl|].
  cbn in Hl. destruct d as [|x d]; [by rewrite zlength_nil in Hl|].
  destruct (big =? 0); [done|]. by apply app_nil in E as [? _].
Qed.

Lemma claim_ok a tl w :
  send_ok a → locked [] 1 tl Settled w → upto (claim a) (released (submit a w tl)) w.
Proof.
  intros (Hs & Hv & Hd) Hl. pose proof (oo_writing Ho).
  unfold claim, submit. apply upto_bind. unfold upto at 1. cbn [gets]. unfold compose.
  rewrite (lk_writing _ _ _ _ _ Hl).
  destruct (Z.eqb_spec (ot_writing o) 0) as [E|E]; cbn [negb].
  2: { eapply release_ok; [exact Hl|done..| | |].
       - by split.
       - intros ?. by destruct Hm.
       - intros c t [= <- <-]. rewrite decide_True by done. lia. }
  pose proof (oo_unsent Ho).
  destruct Hl as [Hh Hr Hw [] Her Hnum [] (Hp1 & Hp2 & Hp3 & Hp4) Hsig Hb].
  edestruct (number_request_step (sa_flags a) (sa_slots a) (sa_vector a) (sa_big a)
    (sa_workaround a) (sa_isvoid a) w op_owner0) as (w4 & s & v' & E4 & Hs4 & Hv4 & Hcat & [Hside Hsent Hsg _] & Ho4 & _);
    [lia|lia|done|done|].
  cbv zeta in E4, Hcat, Ho4. cbv zeta.
  set (b := needs_sync _ _ _) in *.
  set (q' := if b then _ else _) in *.
  assert (out_request (w_out w) < q' <= out_request (w_out w) + 2) as Hq'.
  { subst q'. destruct b; lia. }
  eapply upto_run; [exact E4|]. cbn [fst snd].
  apply write_ok; [lia|done| |done|].
  { rewrite Hcat. intros [_ E']%app_nil. by eapply request_bytes_ne in E'. }
  rewrite (handed_idle w) in Hp1 by by rewrite Hw.
  pose proof (conn_readers _ _ Hside) as Erd. pose proof (conn_fresh _ _ Hside) as Efr.
  pose proof (conn_held _ _ Hside) as Ehd. pose proof (conn_reading _ _ Hside) as Erg.
  cbn in Erd, Efr, Ehd, Erg.
  split; cbn; rewrite ?Ehd, ?Erg, ?Hsg; try done; [by rewrite Ho4|..].
  - split; rewrite ?Ho4; cbn; try done; lia.
  - intros He. apply (conn_error _ _ Hside). by apply Her.
  - by rewrite Ho4.
  - split; by rewrite ?Erd, ?Efr.
  - rewrite Ho4, Hsent, Hcat. cbn. split_and!; [done|done|]. intros He.
    rewrite <- Hp4, (oo_flight Ho E), app_assoc; [done|].
    destruct (has_error w) eqn:E'; [|done]. by rewrite (conn_error _ _ Hside E') in He.
  - intros Hwr. eapply issued_grows; [exact Hsig| |by apply Hb]. exists [].
    by rewrite Hsg, app_nil_r.
Qed.

(** ** Calls and tasks *)

Lemma widen_handed sent q :
  0 <= sent < 2 ^ 62 → 0 <= q < 2 ^ 32 → - 2 ^ 32 <= s64 (widen sent q) <= sent.
Proof.
  intros Hs Hq. rewrite widen_arith by lia. cbv zeta. rewrite Z.gtb_ltb.
  destruct (Z.ltb_spec sent (sent - sent mod 2 ^ 32 + q)); words.
Qed.

(** The call the thread makes has a request to send. *)
Definition call_unsent (c : call) : Z := match c with CallSend _ => 1 | _ => 0 end.

Definition call_submits (c : call) (w : world) (tl : tally) : tally :=
  match c with CallSend a => submit a w tl | _ => tl end.

Lemma upto_atomic {A} (m : xM A) (f : A → outcome) tl w :
  obeys in_side m → obeys grows m → (∀ g, m w = Fault g → g = FOutOfBounds) →
  locked [] 0 tl Settled w →
  upto (r ← m; release (Finished (f r))) (released tl) w.
Proof.
  intros H1 H2 H3 Hl. eapply upto_side; [done..|]. intros a w' Hl'.
  eapply release_ok; [exact Hl'|done..| |done]. intros ?. by destruct Hm.
Qed.

Lemma begin_call_ok c tl w :
  call_ok c → locked [] (call_unsent c) tl Settled w →
  upto (begin_call c) (released (call_submits c w tl)) w.
Proof.
  intros Hc Hl. destruct c as [|q e| |q e| |q|a]; cbn [begin_call call_submits].
  - pose proof (locked_written _ _ _ _ Hl ltac:(done)) as [Hx Hy].
    apply upto_bind. unfold upto at 1. cbn [gets]. unfold compose.
    assert (s64 (out_request (w_out w)) = out_request (w_out w)) as Eq by (apply s64_small; lia).
    apply flush_to_ok; [done| |done]. rewrite Eq. lia.
  - pose proof (locked_written _ _ _ _ Hl ltac:(done)) as [Hx Hy].
    apply upto_bind. unfold upto at 1. cbn [gets].
    rewrite (op_owner _ _ (lk_output _ _ _ _ _ Hl)), bool_decide_eq_false_2 by by intros [? ?].
    apply flush_to_ok; [done| |done]. apply widen_handed; [done|apply Hc].
  - by apply event_loop_ok.
  - apply upto_atomic; [apply obeys_poll_for_reply|apply grows_poll_for_reply
      |apply poll_for_reply_faults|done].
  - apply upto_atomic; [|apply grows_poll_for_event| |done].
    + unfold poll_for_event. obeys_auto.
    + intros g. unfold poll_for_event. unfold bind at 1.
      destruct (get_event w) as [[|] w1| |] eqn:E; [done| |done|by apply get_event_faults in E].
      unfold bind. destruct (_xcb_in_read w1) as [[] w2| |] eqn:E2; [|done..|].
      * by intros ?%get_event_faults.
      * intros [= ->]. by apply in_read_faults in E2.
  - apply (upto_atomic _ (λ _, OutUnit)); [apply obeys_discard_reply|apply grows_discard_reply| |done].
    intros g E. exfalso. revert E. pose proof (never_malloc g) as Hmal.
    assert (never g (discard_reply q)) as Hn.
    { unfold discard_reply, insert_pending_discard, modify_in, _xcb_conn_shutdown. never_auto. }
    apply Hn.
  - by apply claim_ok.
Qed.
End Inv.

(** ** One step of a thread *)

Section Resume.
Context `{Host} `{XProto} (lo : Z) (o : others) (Ho : others_ok o).

(** What a thread relies on before its stretch, in the state [w] with the other
    threads [o]. *)
Definition resting (tl : tally) (t : thread) (w : world) : Prop :=
  released lo o w False False tl t w.

(** The thread is reading, or has been woken up to read. *)
Definition reads (t : thread) : bool :=
  match t with Polling _ | Polled _ _ | Woken (Io _) => true | _ => false end.

Definition submitted (t : thread) (w : world) (tl : tally) : tally :=
  match t with
  | Entering c => call_submits c w tl
  | Woken (Claiming a) => submit a w tl
  | _ => tl
  end.

(** The stretch of [t] from [w] may end like this. *)
Definition stretch (t : thread) (w : world) (tl : tally) : thread → world → Prop :=
  released lo o w (reads t = true) (writing t = 1)
    (submitted t w tl).

(** A thread that does not poll locks [iolock]. *)
Lemma lock_settled wrote tl t w :
  resting tl t w → polling t = 0 → writing t = 0 → in_flight t = [] → ¬ wrote →
  locked lo o w wrote (thread_readers t) (unsent t) tl Settled
    (set_held [IoLock] w).
Proof.
  intros Hr Hp Hw Hf Hnw. destruct Hr. rewrite ?Hp, ?Hw, ?Hf in *.
  split; cbn; try done.
  - by destruct rl_output0.
  - by destruct rl_input0.
Qed.

(** A thread that has polled for reading. *)
Lemma leave_reader tl i ready w w7 :
  resting tl (Polled ready i) w → io_vector i = None →
  conn_side (set_held [IoLock] w) w7 → os_sent (w_os w7) = os_sent (w_os w) → grows w w7 →
  locked lo o w (writing (Polled ready i) = 1)
    (thread_readers (Polled ready i)) 0 tl Settled (leave_wait None w7).
Proof.
  intros Hr Hv Hc Hs Hg. assert (writing (Polled ready i) = 0) as Hw by by destruct i.
  assert (in_flight (Polled ready i) = []) as Hf by by destruct i.
  assert (polling (Polled ready i) = 1) as Hp by done.
  destruct Hr. rewrite ?Hp, ?Hw, ?Hf in *.
  pose proof (conn_out _ _ Hc) as Eo. pose proof (conn_held _ _ Hc) as Eh.
  pose proof (conn_reading _ _ Hc) as Er. pose proof (conn_readers _ _ Hc) as Erd.
  pose proof (conn_fresh _ _ Hc) as Ef. cbn in Eo, Eh, Er, Erd, Ef.
  split; cbn; rewrite ?Eo, ?Eh, ?Er; try done; try lia.
  - destruct rl_output0. split; cbn; by rewrite ?Eo.
  - intros He. by apply (conn_error _ _ Hc).
  - destruct rl_input0. split; cbn; by rewrite ?Erd, ?Ef.
  - unfold handed. cbn. rewrite Eo, Hs. split_and!; try done.
    intros He. apply rl_stream0. destruct (has_error w) eqn:E; [|done].
    by rewrite (conn_error _ _ Hc E) in He.
Qed.

(** A thread that has polled for writing. *)
Lemma leave_writer wrote tl v v' k ready w w7 :
  resting tl (Polled ready (Sending v k)) w →
  conn_side (set_held [IoLock] w) w7 →
  os_sent (w_os w7) ++ concat v' = os_sent (w_os w) ++ concat v → grows w w7 →
  locked lo o w wrote [] 0 tl (Transmitting v')
    (leave_wait (Some v) w7).
Proof.
  intros [] Hc Hs Hg. cbn in *. pose proof (oo_writing _ Ho).
  assert (ot_writing o = 0) as Hz by lia.
  pose proof (conn_out _ _ Hc) as Eo. pose proof (conn_held _ _ Hc) as Eh.
  pose proof (conn_reading _ _ Hc) as Er. pose proof (conn_readers _ _ Hc) as Erd.
  pose proof (conn_fresh _ _ Hc) as Ef. cbn in Eo, Eh, Er, Erd, Ef.
  assert (handed w = out_request (w_out w)) as Hhd.
  { unfold handed. rewrite rl_writing0. destruct (Z.eqb_spec (1 + ot_writing o) 0); [lia|done]. }
  split; cbn; rewrite ?Eo, ?Eh, ?Er; cbn; try done; try lia.
  - destruct rl_output0. split; cbn; by rewrite ?Eo.
  - intros He. by apply (conn_error _ _ Hc).
  - destruct rl_input0. split; cbn; by rewrite ?Erd, ?Ef.
  - rewrite Hhd. split_and!; [done|done|by apply rl_queue0; lia|].
    intros He. rewrite Hs, <- rl_stream0, rl_queue0, (oo_flight _ Ho Hz), !app_nil_r; [done|lia|].
    destruct (has_error w) eqn:E; [|done]. by rewrite (conn_error _ _ Hc E) in He.
Qed.
(** A thread that only changes its own state. *)
Lemma resting_change tl t t' w w' :
  resting tl t w → in_side w w' → grows w w' →
  polling t' = polling t → writing t' = writing t → 0 <= unsent t' <= unsent t →
  thread_readers t' = thread_readers t → in_flight t' = in_flight t →
  thread_ok lo w' t' → (reads t = true → polling t = 1) → (∀ c k, t' ≠ Asleep c k) →
  submitted t w tl = tl → stretch t w tl t' w'.
Proof.
  intros [] Hi Hg E1 E2 E3 E4 E5 Ht Hrd Hsl Hsub. unfold stretch. rewrite Hsub.
  pose proof (side_out _ _ Hi) as Eo. pose proof (side_readers _ _ Hi) as Er.
  pose proof (side_os _ _ Hi) as (_ & _ & Es & _ & _ & Ef & _).
  pose proof (oo_unsent _ Ho).
  assert (handed w' = handed w) as Eh by (unfold handed; by rewrite Eo).
  split; rewrite ?E1, ?E2, ?E5, ?Eh, ?Eo, ?Es, ?(side_held _ _ Hi), ?(side_reading _ _ Hi);
    try done.
  - destruct rl_output0. split; rewrite ?Eo; try done. lia.
  - rewrite E4. destruct rl_input0. split; by rewrite ?Er, ?Ef.
  - intros He. apply rl_stream0. destruct (has_error w) eqn:E; [|done].
    by rewrite (side_error _ _ Hi E) in He.
  - apply (side_error _ _ Hi).
  - intros Hr. left. by apply Hrd.
  - by left.
  - intros c k ->. by destruct (Hsl c k).
Qed.

Lemma side_refl_grows w : in_side w w ∧ grows w w.
Proof. split; reflexivity. Qed.

Lemma lock_run {B} (m : xM B) Q w :
  held w = [] → upto m Q (set_held [IoLock] w) → upto (pthread_mutex_lock IoLock;; m) Q w.
Proof. intros Hh. unfold upto. by rewrite (bind_lock IoLock []) by (done || set_solver). Qed.

Lemma obeys_poll_socket v : obeys in_side (poll_socket v).
Proof. unfold poll_socket. obeys_auto. Qed.

Lemma poll_socket_ready v w r w' :
  poll_socket v w = Ret (Some r) w' → Z.land r (Z.lnot (wait_events v)) = 0.
Proof.
  pose proof (poll_socket_run v w) as E. destruct (poll_answer _ _) as [[[r'|] ps]|] eqn:Ea.
  - rewrite E. intros [= <- _]. by eapply poll_answer_events.
  - by rewrite E.
  - destruct E as [? E]. by rewrite E.
Qed.

Lemma poll_socket_faults v w f : poll_socket v w ≠ Fault f.
Proof.
  pose proof (poll_socket_run v w) as E. destruct (poll_answer _ _) as [[[r'|] ps]|];
    [by rewrite E..|]. destruct E as [? E]. by rewrite E.
Qed.

(** The work after [poll]. *)
Lemma leave_poll_run ready v w :
  leave_poll ready v w =
    match (match ready with Some r => conn_io r v | None => ret (false, v) end) w with
    | Ret r w' => Ret r (leave_wait v w')
    | Blocked w' => Blocked w'
    | Fault f => Fault f
    end.
Proof. apply leave_wait_run. Qed.

Lemma io_stage ready v w r w7 :
  (is_Some v → out_queue (w_out w) = []) → small_iov (default [] v) →
  (match ready with Some rv => conn_io rv v | None => ret (false, v) end) w = Ret r w7 →
  (ready = None → has_error w = true) →
  conn_side w w7 ∧ wait_progress v w r w7 ∧ grows w w7.
Proof.
  intros Hq Hs E He. destruct ready as [rv|].
  - pose proof (grows_conn_io _ _ _ _ _ E). by apply conn_io_inv in E as [? ?].
  - injection E as <- <-. split_and!; [reflexivity| |reflexivity].
    split; [by destruct v|]. intros _. by apply He.
Qed.
Lemma poll_socket_failed v w w' : poll_socket v w = Ret None w' → has_error w' = true.
Proof.
  pose proof (poll_socket_run v w) as E. destruct (poll_answer _ _) as [[[r'|] ps]|].
  - by rewrite E.
  - rewrite E. by intros [= <-].
  - destruct E as [? E]. by rewrite E.
Qed.

Lemma writing_reader ready i : io_vector i = None → writing (Polled ready i) = 0.
Proof. by destruct i. Qed.

Lemma polled_reader_ok ready i tl w :
  resting tl (Polled ready i) w → io_vector i = None →
  upto (resume (Polled ready i)) (stretch (Polled ready i) w tl) w.
Proof.
  intros Hr Hv. pose proof (rl_thread _ _ _ _ _ _ _ _ Hr) as [Hi Hready].
  cbn [resume]. apply lock_run; [apply Hr|]. apply upto_bind.
  set (w1 := set_held [IoLock] w). rewrite Hv.
  apply upto_intro.
  { intros f. rewrite leave_poll_run. destruct ready as [rv|]; [|done].
    destruct (conn_io rv None w1) as [| |f'] eqn:E; [done..|]. intros [= ->].
    eapply conn_io_faults; [|exact E]. by destruct i. }
  intros r w2. rewrite leave_poll_run.
  match goal with |- match ?m w1 with _ => _ end = _ → _ =>
    destruct (m w1) as [r' w7| |] eqn:E; [|done..] end.
  intros [= -> <-].
  apply io_stage in E as (Hc & [Hp He] & Hg); [|by intros [? ?]|by constructor|].
  2: { intros ->. by destruct i. }
  assert (os_sent (w_os w7) = os_sent (w_os w)) as Hs by by destruct r.2.
  pose proof (leave_reader tl i ready w w7 Hr Hv Hc Hs Hg) as Hl.
  unfold stretch, submitted. destruct i as [v k|q e id|]; [done|..]; cbn [after_poll].
  - destruct r.1; [by apply reply_loop_ok|by apply leave_reply_ok].
  - destruct r.1; [by apply event_loop_ok|by apply leave_event_ok].
Qed.

Lemma polled_writer_ok ready v k tl w :
  resting tl (Polled ready (Sending v k)) w →
  upto (resume (Polled ready (Sending v k))) (stretch (Polled ready (Sending v k)) w tl) w.
Proof.
  intros Hr. pose proof (rl_thread _ _ _ _ _ _ _ _ Hr) as [[Hv Hk] Hready].
  assert (out_queue (w_out w) = []) as Hq.
  { apply (rl_queue _ _ _ _ _ _ _ _ Hr). cbn. pose proof (rl_one _ _ _ _ _ _ _ _ Hr) as H1.
    cbn in H1. pose proof (oo_writing _ Ho). lia. }
  cbn [resume]. apply lock_run; [apply Hr|]. apply upto_bind.
  set (w1 := set_held [IoLock] w). cbn [io_vector].
  apply upto_intro.
  { intros f. rewrite leave_poll_run. destruct ready as [rv|]; [|done].
    destruct (conn_io rv (Some v) w1) as [| |f'] eqn:E; [done..|]. intros [= ->].
    by eapply conn_io_faults; [|exact E]. }
  intros r w2. rewrite leave_poll_run.
  match goal with |- match ?m w1 with _ => _ end = _ → _ =>
    destruct (m w1) as [r' w7| |] eqn:E; [|done..] end.
  intros [= -> <-].
  apply io_stage in E as (Hc & [Hp He] & Hg); [|done|done|].
  2: { by intros ->. }
  destruct r as [b [v'|]]; [|done]. cbn [fst snd] in Hp, He. destruct Hp as [Hs Hv'].
  cbn [after_poll fst snd default]. unfold stretch, submitted.
  pose proof (leave_writer (writing (Polled ready (Sending v k)) = 1) tl v v' k ready w w7 Hr Hc Hs Hg)
    as Hl.
  destruct b; [by apply out_send_ok|].
  eapply end_send_ok; [done|done|exact Hl|]. right. by apply He.
Qed.

(** A thread that has been woken up. *)
Lemma woken_ok k tl w :
  resting tl (Woken k) w → upto (resume (Woken k)) (stretch (Woken k) w tl) w.
Proof.
  intros Hr. pose proof (rl_thread _ _ _ _ _ _ _ _ Hr) as Hok. cbn in Hok.
  cbn [resume]. apply lock_run; [apply Hr|].
  assert (in_flight (Woken k) = []) as Hf by by destruct k as [[]| |].
  unshelve epose proof (lock_settled (writing (Woken k) = 1) tl _ w Hr _ _ Hf _) as Hl; [done..|].
  unfold stretch, submitted.
  destruct k as [[v k|q e id|]|q k|a]; cbn [again]; [done|..].
  - by apply reply_loop_ok.
  - by apply event_loop_ok.
  - apply flush_loop_ok; [done|done|apply Hok|apply Hok|done].
  - change (submit a w tl) with (submit a (set_held [IoLock] w) tl). by apply claim_ok.
Qed.

(** Whatever the other threads do, the stretch of a thread ends in a state they can
    rely on; it cannot fail but by leaving a buffer in [read_packet]. *)
Lemma resume_ok t tl w :
  resting tl t w → runnable t = true → upto (resume t) (stretch t w tl) w.
Proof.
  intros Hr Ht. pose proof (rl_thread _ _ _ _ _ _ _ _ Hr) as Hok.
  destruct (side_refl_grows w) as [Hi Hg].
  destruct t as [c|c|c k|k|i|ready i|out]; try done; cbn [resume].
  - apply upto_bind. unfold upto at 1. cbn [gets].
    destruct (has_error w); [|destruct (trivial_call c)]; unfold upto; cbn [ret];
      (eapply resting_change; [exact Hr|..]; try done; cbn; destruct c; done || lia).
  - apply lock_run; [apply Hr|].
    unshelve epose proof (lock_settled (writing (Entering c) = 1) tl _ w Hr _ _ _ _) as Hl; [done..|].
    unfold stretch, submitted.
    change (call_submits c w tl) with (call_submits c (set_held [IoLock] w) tl).
    by apply begin_call_ok.
  - by apply woken_ok.
  - cbn in Hok. apply upto_bind, upto_intro; [by intros f ?%poll_socket_faults|].
    intros ready w' E. unfold upto. cbn [ret].
    eapply resting_change; [exact Hr|by eapply obeys_poll_socket|by eapply grows_poll_socket|..];
      try done; try by destruct i.
    cbn. split; [done|]. destruct ready as [rv|].
    + pose proof (poll_socket_ready _ _ _ _ E). destruct i; [done|by apply no_pollout..].
    + apply poll_socket_failed in E. by destruct i.
  - destruct i; [by apply polled_writer_ok|by apply polled_reader_ok..].
Qed.
End Resume.
