(* ===== verification/ThreadsProps.v ===== *)
(** * Threads do not get in each other's way

    For every interleaving of calls on one connection: the counters and lists
    are what the threads are doing, no assertion fails and no lock is misused,
    and somebody always reads while somebody waits.  Schedules of two threads
    show two ways in which a reply can be overlooked all the same. *)
From S2P Require Import Prelude Effects Seq XcbMap State In InFrame InFacts Conn Out OutFacts.
From S2P Require Import OutProps Wait WaitProps Request RequestFacts Threads ThreadFacts ThreadInv.
From S2P Require Import Sample.
#[local] Open Scope Z_scope.

(** ** Sums over the threads *)

Definition total (f : thread → Z) (ts : list thread) : Z := foldr Z.add 0 (f <$> ts).
#[global] Arguments total : simpl never.

Definition others_of (ts : list thread) : others :=
  Others (total polling ts) (total writing ts) (total unsent ts)
    (concat (thread_readers <$> ts)) (concat (in_flight <$> ts)).

Lemma total_cons f t ts : total f (t :: ts) = f t + total f ts.
Proof. done. Qed.

Lemma total_app f l1 l2 : total f (l1 ++ l2) = total f l1 + total f l2.
Proof. induction l1 as [|t l1 IH]; [done|]. cbn [app]. rewrite !total_cons, IH. lia. Qed.

Lemma total_middle f l1 t l2 : total f (l1 ++ t :: l2) = f t + total f (l1 ++ l2).
Proof. rewrite !total_app, total_cons. lia. Qed.

Lemma total_nonneg f ts : (∀ t, 0 <= f t) → 0 <= total f ts.
Proof.
  intros Hf. induction ts as [|t ts IH]; [done|]. rewrite total_cons. specialize (Hf t). lia.
Qed.

Lemma total_pos f ts : (∀ t, 0 <= f t) → 0 < total f ts ↔ ∃ t, t ∈ ts ∧ 0 < f t.
Proof.
  intros Hf. induction ts as [|t ts IH].
  { split; [by cbv|]. by intros (? & ?%elem_of_nil & _). }
  rewrite total_cons. pose proof (Hf t). pose proof (total_nonneg f ts Hf). split.
  - intros Hp. destruct (decide (0 < f t)); [exists t; split; [left|done]|].
    destruct (proj1 IH) as (t' & ? & ?); [lia|]. exists t'. split; [by right|done].
  - intros (t' & [->|Hin]%elem_of_cons & Hp); [lia|].
    assert (0 < total f ts) by (apply IH; eauto). lia.
Qed.

Lemma polling_range t : 0 <= polling t <= 1.
Proof. destruct t; cbn; lia. Qed.

Lemma writing_range t : 0 <= writing t <= polling t.
Proof. destruct t as [| | | |[]|? []|]; cbn; lia. Qed.

Lemma unsent_range t : 0 <= unsent t <= 1.
Proof. destruct t as [[]|[]|? [| |]|[| |]| | |]; cbn; lia. Qed.

Lemma total_writing_polling ts : total writing ts <= total polling ts.
Proof.
  induction ts as [|t ts IH]; [done|]. rewrite !total_cons. pose proof (writing_range t). lia.
Qed.

Lemma concat_middle {B} (f : thread → list B) l1 t l2 :
  concat (f <$> l1 ++ t :: l2) ≡ₚ f t ++ concat (f <$> l1 ++ l2).
Proof.
  rewrite !fmap_app, fmap_cons, !concat_app. cbn. by rewrite !app_assoc, (Permutation_app_comm (concat _) (f t)).
Qed.

Lemma elem_of_concat {B} (x : B) ls : x ∈ concat ls ↔ ∃ l, x ∈ l ∧ l ∈ ls.
Proof.
  rewrite list_elem_of_In, in_concat. split; intros (l & ? & ?); exists l;
    rewrite !list_elem_of_In in *; done.
Qed.

(** ** The invariant of the system *)

Section System.
Context `{Host} `{XProto} (lo : Z).

(** What has been sent, the bytes in flight and the queue. *)
Definition stream_of (s : system) : list byte :=
  os_sent (w_os (shared s)) ++ concat (in_flight <$> threads s) ++ out_queue (w_out (shared s)).

(** The counters are the numbers of threads that poll, the list of readers holds
    the threads that wait for a reply, and somebody reads or is about to if
    anybody sleeps. *)
Record sys_ok (s : system) : Prop := {
  sy_held : held (shared s) = [];
  sy_reading : in_reading (w_in (shared s)) = total polling (threads s);
  sy_writing : out_writing (w_out (shared s)) = total writing (threads s);
  sy_one : total writing (threads s) <= 1;
  sy_output : output_ok (others_of (threads s)) 0 (shared s);
  sy_queue : total writing (threads s) = 1 → out_queue (w_out (shared s)) = [];
  sy_written : total writing (threads s) = 0 → out_queue (w_out (shared s)) = [] →
    out_request_written (w_out (shared s)) = out_request (w_out (shared s));
  sy_input : input_ok lo (others_of (threads s)) [] (shared s);
  sy_threads : Forall (thread_ok lo (shared s)) (threads s);
  sy_reader : (∃ c i, Asleep c (Io i) ∈ threads s) →
    0 < total polling (threads s) ∨ ∃ i, Woken (Io i) ∈ threads s;
  sy_writer : (∃ k, Asleep OutCond k ∈ threads s) → 0 < total writing (threads s)
}.

(** Only a thread that writes has bytes in flight. *)
Lemma flight_writing w t : thread_ok lo w t → writing t = 0 → in_flight t = [].
Proof. by destruct t as [| |? [[]| |]|[[]| |]|[]|? []|]; cbn; intros; try lia; naive_solver. Qed.

Lemma flights_idle w ts :
  Forall (thread_ok lo w) ts → total writing ts = 0 → concat (in_flight <$> ts) = [].
Proof.
  induction 1 as [|t ts Ht _ IH]; [done|]. rewrite total_cons. intros E.
  pose proof (writing_range t). pose proof (total_nonneg writing ts (λ t, proj1 (writing_range t))).
  cbn. rewrite (flight_writing w t), IH by (done || lia). done.
Qed.

Lemma flights_middle w l1 t l2 :
  Forall (thread_ok lo w) (l1 ++ t :: l2) → total writing (l1 ++ t :: l2) <= 1 →
  concat (in_flight <$> l1 ++ t :: l2) = in_flight t ++ concat (in_flight <$> l1 ++ l2).
Proof.
  intros Hf Hw. rewrite total_app, total_cons in Hw.
  apply Forall_app in Hf as [Hf1 Hf]. apply Forall_cons in Hf as [Ht Hf2].
  rewrite !fmap_app, !concat_app. cbn.
  pose proof (writing_range t). pose proof (total_nonneg writing l1 (λ t, proj1 (writing_range t))).
  pose proof (total_nonneg writing l2 (λ t, proj1 (writing_range t))).
  destruct (decide (total writing l1 = 0)) as [E|E].
  - by rewrite (flights_idle w l1).
  - rewrite (flight_writing w t), (flights_idle w l2) by (done || lia). by rewrite !app_nil_r.
Qed.

(** The system as a thread sees it. *)
Lemma sys_resting w l1 t l2 :
  let s := System w (l1 ++ t :: l2) in
  sys_ok s → runnable t = true →
  others_ok (others_of (l1 ++ l2)) ∧
  resting lo (others_of (l1 ++ l2)) (stream_of s, out_request (w_out w)) t w.
Proof.
  intros s [Hh Hr Hw Ho Hou Hq Hwr Hi Ht _ _] Hrun. subst s. cbn in *.
  rewrite total_middle in Hr, Hw, Ho, Hq, Hwr. pose proof (writing_range t).
  pose proof (total_nonneg writing (l1 ++ l2) (λ t, proj1 (writing_range t))).
  pose proof (total_nonneg unsent (l1 ++ l2) (λ t, proj1 (unsent_range t))).
  pose proof (total_writing_polling (l1 ++ l2)).
  assert (Forall (thread_ok lo w) (l1 ++ l2)) as Ht'.
  { apply Forall_app in Ht as [? Hf]. apply Forall_cons in Hf as [_ ?]. by apply Forall_app. }
  split.
  { split; cbn; [lia..|]. by apply flights_idle with w. }
  split; cbn; try done; try lia.
  - destruct Hou as [? Hroom ? ?]. split; [done| |done..]. cbn in *.
    rewrite total_middle in Hroom. lia.
  - destruct Hi as [Hp ? ?]. split; [|done..]. cbn in *. by rewrite concat_middle in Hp.
  - apply Forall_app in Ht as [_ Hf]. by apply Forall_cons in Hf as [? _].
  - intros _. unfold stream_of. cbn. rewrite (flights_middle w), <- app_assoc; [done|done|].
    rewrite total_middle. lia.
  - exists []. by rewrite app_nil_r.
  - by destruct t.
Qed.
(** ** Waking up *)

Definition wakes_up (t t' : thread) : Prop := t' = t ∨ ∃ c k, t = Asleep c k ∧ t' = Woken k.

Lemma wakes_up_same t t' :
  wakes_up t t' → polling t' = polling t ∧ writing t' = writing t ∧ unsent t' = unsent t ∧
    thread_readers t' = thread_readers t ∧ in_flight t' = in_flight t.
Proof. intros [->|(c & [] & -> & ->)]; done. Qed.

Lemma others_of_wakes ts ts' : Forall2 wakes_up ts ts' → others_of ts' = others_of ts.
Proof.
  unfold others_of.
  induction 1 as [|t t' ts ts' (E1 & E2 & E3 & E4 & E5)%wakes_up_same _ IH]; [done|].
  rewrite !total_cons. cbn. injection IH as -> -> -> -> ->. by rewrite E1, E2, E3, E4, E5.
Qed.

Lemma wakes_up_ok w w' t t' :
  wakes_up t t' → handed w <= handed w' → (has_error w = true → has_error w' = true) →
  thread_ok lo w t → thread_ok lo w' t'.
Proof.
  intros Hw Hh He Ht.
  assert (∀ k, task_ok lo (handed w) k → task_ok lo (handed w') k) as Hk.
  { intros [[]| |]; cbn; [done..| |done]. intros [? ?]. split; [done|lia]. }
  destruct Hw as [->|(c & k & -> & ->)]; [|by apply Hk, Ht].
  destruct t as [| |c k|k|i|[rv|] i|]; cbn in *; try done.
  - destruct Ht. auto.
  - auto.
  - destruct Ht as [? Hr]. split; [done|]. destruct i; auto.
Qed.

Lemma notified_wakes ss ts ts' : notified ss ts ts' → Forall2 wakes_up ts ts'.
Proof.
  intros [Hn _ _]. eapply Forall2_impl; [exact Hn|].
  intros t t' [->|(c & k & -> & -> & _)]; [by left|right; eauto].
Qed.

(** The threads around the one that runs. *)
Lemma step_inv s s' :
  step s s' →
  (∃ l1 t l2 l1' t' l2',
    threads s = l1 ++ t :: l2 ∧ threads s' = l1' ++ t' :: l2' ∧ length l1' = length l1 ∧
    runnable t = true ∧ resume t (shared s) = Ret t' (shared s') ∧
    notified (signals (shared s) (shared s')) (l1 ++ t :: l2) (l1' ++ t :: l2')) ∨
  (∃ l1 c k l2, threads s = l1 ++ Asleep c k :: l2 ∧ threads s' = l1 ++ Woken k :: l2 ∧
    shared s' = shared s).
Proof.
  intros [n t t' w w' ts ts' Ht Hrun E Hn|n c k w ts Ht]; [left|right]; cbn.
  - pose proof (notified_wakes _ _ _ Hn) as Hw.
    destruct (Forall2_lookup_l _ _ _ _ _ Hw Ht) as (t1 & Ht1 & [->|(? & ? & -> & _)]); [|done].
    apply list_elem_of_split_length in Ht as (l1 & l2 & -> & Hl1).
    apply list_elem_of_split_length in Ht1 as (l1' & l2' & -> & Hl1').
    exists l1, t, l2, l1', t', l2'. split_and!; try done; [|lia].
    subst n. by rewrite Hl1', insert_app_r_alt, Nat.sub_diag by lia.
  - apply list_elem_of_split_length in Ht as (l1 & l2 & -> & Hl1).
    exists l1, c, k, l2. subst n. split_and!; [done| |done].
    by rewrite insert_app_r_alt, Nat.sub_diag by lia.
Qed.
(** ** Steps preserve the invariant *)

Lemma middle_wakes l1 l2 l1' l2' t :
  Forall2 wakes_up (l1 ++ t :: l2) (l1' ++ t :: l2') → length l1' = length l1 →
  Forall2 wakes_up (l1 ++ l2) (l1' ++ l2').
Proof.
  intros Hf Hl. apply Forall2_app_inv in Hf as [Hf1 Hf]; [|done].
  apply Forall2_cons in Hf as [_ Hf2]. by apply Forall2_app.
Qed.

(** An asleep thread has slept before. *)
Lemma asleep_before ts ts' c k :
  Forall2 wakes_up ts ts' → Asleep c k ∈ ts' → Asleep c k ∈ ts.
Proof.
  intros Hf (n & Hn)%list_elem_of_lookup.
  destruct (Forall2_lookup_r _ _ _ _ _ Hf Hn) as (t & Ht & [->|(? & ? & _ & ?)]); [|done].
  by eapply list_elem_of_lookup_2.
Qed.

(** Only a reader waits for a reply or an event. *)
Lemma reader_sleeps w c k :
  thread_ok lo w (Asleep c k) → c ≠ OutCond → ∃ i, k = Io i.
Proof. intros [-> Hk] Hc. destruct k as [i| |]; [by eexists|done..]. Qed.

Lemma sleeper_cond w c i :
  thread_ok lo w (Asleep c (Io i)) →
  (∃ q e id, i = AwaitingReply q e id ∧ c = ReaderCond id) ∨ i = AwaitingEvent ∧ c = EventCond.
Proof. intros [-> Hi]. destruct i as [|q e id|]; [done|left; eauto|by right]. Qed.

Lemma reader_of_thread r ts :
  r ∈ concat (thread_readers <$> ts) →
  ∃ t q e id, t ∈ ts ∧ thread_io t = Some (AwaitingReply q e id) ∧ r = Reader q id.
Proof.
  intros (l & Hl & Hr)%elem_of_concat. apply list_elem_of_fmap in Hr as (t & -> & Ht).
  unfold thread_readers in Hl. destruct (thread_io t) as [[|q e id|]|] eqn:E; try by apply elem_of_nil in Hl.
  apply list_elem_of_singleton in Hl as ->. by exists t, q, e, id.
Qed.

Lemma asleep_or_not t : (∃ c k, t = Asleep c k) ∨ (∀ c k, t ≠ Asleep c k).
Proof. destruct t as [| |c k| | | |]; [by right|by right|left; eauto|by right..]. Qed.

(** A reader that does not sleep polls, or has been woken up. *)
Definition somebody_reads (ts : list thread) : Prop :=
  0 < total polling ts ∨ ∃ i, Woken (Io i) ∈ ts.

Lemma awake_reads t ts i :
  t ∈ ts → thread_io t = Some i → (∀ c k, t ≠ Asleep c k) → somebody_reads ts.
Proof.
  intros Hin E Hna. unfold somebody_reads.
  rewrite (total_pos _ _ (λ t, proj1 (polling_range t))).
  destruct t as [| |c k|[]|i'|rv i'|]; try done.
  - by destruct (Hna c k).
  - right. eauto.
  - left. by exists (Polling i').
  - left. by exists (Polled rv i').
Qed.

(** A wakeup of a reader's condition reaches a reader. *)
Lemma signal_reaches w w' l1 t l2 l1' t' l2' c i :
  Forall (thread_ok lo w) (l1 ++ t :: l2) → runnable t = true → length l1' = length l1 →
  notified (signals w w') (l1 ++ t :: l2) (l1' ++ t :: l2') →
  Signal c ∈ signals w w' → c ≠ OutCond → Asleep c (Io i) ∈ l1 ++ l2 →
  somebody_reads (l1' ++ t' :: l2').
Proof.
  intros Hok Hrun Hlen Hn Hs Hc Ha.
  assert (∃ n, (l1 ++ t :: l2) !! n = Some (Asleep c (Io i))) as [n Hk].
  { apply list_elem_of_lookup. set_solver. }
  destruct (notified_signal _ _ _ Hn c n _ Hs Hk) as (n' & k' & E1 & E2).
  eapply Forall_lookup_1 in Hok; [|exact E1]. destruct (reader_sleeps _ _ _ Hok Hc) as [i' ->].
  right. exists i'. assert (n' ≠ length l1') as Hne.
  { intros ->. rewrite Hlen, list_lookup_middle in E1 by done. by injection E1 as ->. }
  apply (list_elem_of_lookup_2 _ n').
  rewrite <- (Nat.add_0_r (length l1')) in Hne.
  replace (l1' ++ t' :: l2') with (<[(length l1' + 0)%nat := t']> (l1' ++ t :: l2'))
    by by rewrite insert_app_r.
  by rewrite list_lookup_insert_ne.
Qed.

(** The wakeup of the next reader reaches a thread that reads, unless one is
    awake. *)
Lemma next_reader w w' l1 t l2 l1' t' l2' :
  Forall (thread_ok lo w) (l1 ++ t :: l2) → Forall (thread_ok lo w') (l1' ++ l2') →
  Forall2 wakes_up (l1 ++ l2) (l1' ++ l2') → runnable t = true → length l1' = length l1 →
  notified (signals w w') (l1 ++ t :: l2) (l1' ++ t :: l2') →
  input_ok lo (others_of (l1' ++ l2')) (thread_readers t') w' →
  next_wakeup w' ∈ signals w w' →
  (∃ c i, Asleep c (Io i) ∈ l1' ++ l2') → (∀ c k, t' ≠ Asleep c k) →
  somebody_reads (l1' ++ t' :: l2').
Proof.
  intros Hok Hok' Hw Hrun Hlen Hn [Hp _ _] Hs (c & i & Ha) Hna.
  assert (readers (w_in w') ≡ₚ concat (thread_readers <$> l1' ++ t' :: l2')) as Hp'.
  { by rewrite concat_middle. }
  unfold next_wakeup in Hs. destruct (readers (w_in w')) as [|r rs].
  - pose proof Ha as Hoka. eapply Forall_forall in Hoka; [|exact Hok'].
    destruct (sleeper_cond _ _ _ Hoka) as [(q & e & id & -> & ->)|[-> ->]].
    + exfalso. apply Permutation_nil in Hp'.
      assert (Reader q id ∈ concat (thread_readers <$> l1' ++ t' :: l2')) as Hx.
      { apply elem_of_concat. exists [Reader q id]. split; [set_solver|].
        apply list_elem_of_fmap. exists (Asleep (ReaderCond id) (Io (AwaitingReply q e id))). set_solver. }
      rewrite Hp' in Hx. by apply elem_of_nil in Hx.
    + eapply signal_reaches; eauto using asleep_before.
  - assert (r ∈ concat (thread_readers <$> l1' ++ t' :: l2')) as Hr by (rewrite <- Hp'; by left).
    apply reader_of_thread in Hr as (t2 & q & e & id & Ht2 & E & ->).
    destruct (asleep_or_not t2) as [(c2 & k2 & ->)|Hna2].
    2: { eapply awake_reads; eauto. }
    assert (Asleep c2 k2 ∈ l1' ++ l2') as Hin.
    { apply elem_of_app in Ht2 as [?|[E2|?]%elem_of_cons]; [set_solver|by destruct (Hna c2 k2)|set_solver]. }
    pose proof Hin as Hok2. eapply Forall_forall in Hok2; [|exact Hok'].
    destruct k2 as [i2| |]; [|done..]. cbn in E. injection E as ->. destruct Hok2 as [-> _].
    eapply signal_reaches; eauto using asleep_before.
Qed.
Lemma woken_stays ts ts' k : Forall2 wakes_up ts ts' → Woken k ∈ ts → Woken k ∈ ts'.
Proof.
  intros Hf (n & Hn)%list_elem_of_lookup.
  destruct (Forall2_lookup_l _ _ _ _ _ Hf Hn) as (t & Ht & [->|(? & ? & ? & _)]); [|done].
  by eapply list_elem_of_lookup_2.
Qed.

(** Somebody reads besides the running thread, or that thread has to see to it. *)
Lemma reader_before w l1 t l2 :
  sys_ok (System w (l1 ++ t :: l2)) → (∃ c i, Asleep c (Io i) ∈ l1 ++ l2) →
  somebody_reads (l1 ++ l2) ∨ reads t = true.
Proof.
  intros Hok (c & i & Ha). destruct (sy_reader _ Hok) as [Hp|(i0 & Hw)]; cbn in *.
  - exists c, i. set_solver.
  - rewrite total_middle in Hp. destruct (decide (0 < total polling (l1 ++ l2))); [by do 2 left|].
    right. destruct t; cbn in *; done || lia.
  - apply elem_of_app in Hw as [Hw|[E|Hw]%elem_of_cons]; [left; right|subst t; by right|left; right];
      exists i0; set_solver.
Qed.

Lemma reader_after w w' tl l1 t l2 l1' t' l2' :
  sys_ok (System w (l1 ++ t :: l2)) → runnable t = true →
  released lo (others_of (l1 ++ l2)) w (reads t = true) (writing t = 1) tl t' w' →
  Forall (thread_ok lo w') (l1' ++ l2') →
  Forall2 wakes_up (l1 ++ l2) (l1' ++ l2') → length l1' = length l1 →
  notified (signals w w') (l1 ++ t :: l2) (l1' ++ t :: l2') →
  (∃ c i, Asleep c (Io i) ∈ l1' ++ t' :: l2') → somebody_reads (l1' ++ t' :: l2').
Proof.
  intros Hok Hrun Hrel Hok' Hw Hlen Hn (c & i & Ha).
  pose proof (total_nonneg polling (l1' ++ l2') (λ t, proj1 (polling_range t))).
  assert (0 < total polling (l1 ++ l2) → somebody_reads (l1' ++ t' :: l2')) as Hpoll.
  { intros Hp. left. rewrite total_middle. pose proof (polling_range t').
    pose proof (others_of_wakes _ _ Hw) as [= E _ _ _ _]. lia. }
  destruct (asleep_or_not t') as [(c1 & k1 & ->)|Hna].
  { apply Hpoll. pose proof (rl_sleeps _ _ _ _ _ _ _ _ Hrel c1 k1 eq_refl) as Hs.
    pose proof (total_writing_polling (l1 ++ l2)). cbn in Hs.
    destruct (decide (c1 = OutCond)); lia. }
  assert (Asleep c (Io i) ∈ l1' ++ l2') as Ha'.
  { apply elem_of_app in Ha as [?|[E|?]%elem_of_cons]; [set_solver|by destruct (Hna c (Io i))|set_solver]. }
  destruct (reader_before _ _ _ _ Hok) as [[Hp|(i0 & Hw0)]|Hr].
  { exists c, i. by eapply asleep_before. }
  - by apply Hpoll.
  - apply (woken_stays _ _ _ Hw) in Hw0. right. exists i0. set_solver.
  - destruct (rl_reader _ _ _ _ _ _ _ _ Hrel Hr) as [E|[E|E]].
    + left. rewrite total_middle, E. lia.
    + by apply Hpoll.
    + eapply next_reader; eauto; [apply Hok|].
      rewrite (others_of_wakes _ _ Hw). apply Hrel.
Qed.

Lemma broadcast_wakes ss ts ts' c k : notified ss ts ts' → Broadcast c ∈ ss → Asleep c k ∉ ts'.
Proof.
  intros Hn Hs (n & E)%list_elem_of_lookup.
  destruct (Forall2_lookup_r _ _ _ _ _ (notified_wakes _ _ _ Hn) E) as (t & Ht & [<-|(? & ? & _ & ?)]);
    [|done].
  rewrite (notified_broadcast _ _ _ Hn c n k Hs Ht) in E. done.
Qed.

Lemma writer_after w w' tl l1 t l2 l1' t' l2' :
  sys_ok (System w (l1 ++ t :: l2)) →
  released lo (others_of (l1 ++ l2)) w (reads t = true) (writing t = 1) tl t' w' →
  Forall2 wakes_up (l1 ++ l2) (l1' ++ l2') → length l1' = length l1 →
  notified (signals w w') (l1 ++ t :: l2) (l1' ++ t :: l2') →
  (∃ k, Asleep OutCond k ∈ l1' ++ t' :: l2') → 0 < total writing (l1' ++ t' :: l2').
Proof.
  intros Hok Hrel Hw Hlen Hn (k & Ha). rewrite total_middle.
  pose proof (others_of_wakes _ _ Hw) as [= _ Ew _ _ _]. rewrite Ew.
  pose proof (total_nonneg writing (l1 ++ l2) (λ t, proj1 (writing_range t))).
  pose proof (writing_range t'). pose proof (writing_range t). pose proof (polling_range t).
  destruct (decide (0 < total writing (l1 ++ l2))) as [|Hz]; [lia|].
  assert (Asleep OutCond k ∈ l1' ++ l2') as Ha'.
  { apply elem_of_app in Ha as [?|[E|?]%elem_of_cons]; [set_solver| |set_solver].
    pose proof (rl_sleeps _ _ _ _ _ _ _ _ Hrel _ _ (eq_sym E)) as Hs.
    rewrite decide_True in Hs by done. cbn in Hs. lia. }
  assert (0 < total writing (l1 ++ t :: l2)) as Hwr.
  { apply (sy_writer _ Hok). exists k. cbn. pose proof (asleep_before _ _ _ _ Hw Ha'). set_solver. }
  rewrite total_middle in Hwr.
  destruct (rl_writer _ _ _ _ _ _ _ _ Hrel) as [|Hi]; [lia|lia|].
  destruct (broadcast_wakes _ _ _ OutCond k Hn Hi). set_solver.
Qed.
Lemma sys_step_run w w' tl l1 t l2 l1' t' l2' :
  sys_ok (System w (l1 ++ t :: l2)) → runnable t = true →
  released lo (others_of (l1 ++ l2)) w (reads t = true) (writing t = 1) tl t' w' →
  length l1' = length l1 → notified (signals w w') (l1 ++ t :: l2) (l1' ++ t :: l2') →
  sys_ok (System w' (l1' ++ t' :: l2')).
Proof.
  intros Hok Hrun Hrel Hlen Hn.
  pose proof (middle_wakes _ _ _ _ _ (notified_wakes _ _ _ Hn) Hlen) as Hw.
  assert (Forall (thread_ok lo w') (l1' ++ l2')) as Hths.
  { apply Forall_forall. intros t2 (n & Ht2)%list_elem_of_lookup.
    destruct (Forall2_lookup_r _ _ _ _ _ Hw Ht2) as (t1 & Ht1%list_elem_of_lookup_2 & Hw1).
    eapply wakes_up_ok; [exact Hw1|apply Hrel|apply Hrel|].
    pose proof (sy_threads _ Hok) as Hf. eapply Forall_forall; [exact Hf|]. cbn. set_solver. }
  pose proof (reader_after _ _ _ _ _ _ _ _ _ Hok Hrun Hrel Hths Hw Hlen Hn) as Hrd.
  pose proof (writer_after _ _ _ _ _ _ _ _ _ Hok Hrel Hw Hlen Hn) as Hwr.
  pose proof (others_of_wakes _ _ Hw) as [= E1 E2 E3 E4 E5].
  destruct Hrel. cbn in *.
  split; cbn; rewrite ?total_middle, ?E1, ?E2; try done.
  - destruct rl_output. split; try done. cbn in *. rewrite total_middle, E3. done.
  - destruct rl_input. split; try done. cbn in *. by rewrite concat_middle, E4.
  - apply Forall_app in Hths as [? ?]. apply Forall_app. split; [done|]. by apply Forall_cons.
  - rewrite <- E1, <- total_middle. exact Hrd.
  - rewrite <- E2, <- total_middle. exact Hwr.
Qed.

Lemma sys_step_spurious w l1 c k l2 :
  sys_ok (System w (l1 ++ Asleep c k :: l2)) → sys_ok (System w (l1 ++ Woken k :: l2)).
Proof.
  intros [Hh Hr Hw Ho Hou Hq Hwr Hi Ht Hrd Hwt]. cbn in *.
  rewrite total_middle in *.
  split; cbn; rewrite ?total_middle; try done.
  - destruct Hou. split; try done. cbn in *. by rewrite total_middle in *.
  - destruct Hi. split; try done. cbn in *. by rewrite concat_middle in *.
  - apply Forall_app in Ht as [? [Hk ?]%Forall_cons]. apply Forall_app. split; [done|].
    apply Forall_cons. split; [apply Hk|done].
  - intros (c1 & i & Ha). destruct Hrd as [?|(i0 & Hi0)]; [exists c1, i; set_solver|by left|].
    right. exists i0. set_solver.
  - intros (k1 & Ha). apply Hwt. exists k1. set_solver.
Qed.

(** What may be assumed of the connection when the threads start their calls. *)
Record sys_init (s : system) : Prop := {
  si_held : held (shared s) = [];
  si_reading : in_reading (w_in (shared s)) = 0;
  si_writing : out_writing (w_out (shared s)) = 0;
  si_written : 0 <= out_request_written (w_out (shared s)) <= out_request (w_out (shared s));
  si_room : out_request (w_out (shared s)) + 2 * Z.of_nat (length (threads s)) < 2 ^ 62;
  si_queue : zlength (out_queue (w_out (shared s))) <= XCB_QUEUE_BUFFER_SIZE;
  si_empty : out_queue (w_out (shared s)) = [] →
    out_request_written (w_out (shared s)) = out_request (w_out (shared s));
  si_owner : out_return_socket (w_out (shared s)) = None;
  si_readers : readers (w_in (shared s)) = [];
  si_calls : Forall (λ t, ∃ c, t = Calling c ∧ call_ok lo c) (threads s)
}.

Lemma sys_init_ok s : sys_init s → sys_ok s.
Proof.
  intros [Hh Hr Hw Hwr Hroom Hq He Ho Hrd Hc].
  assert (total polling (threads s) = 0 ∧ total writing (threads s) = 0 ∧
    0 <= total unsent (threads s) <= Z.of_nat (length (threads s)) ∧
    concat (thread_readers <$> threads s) = []) as (E1 & E2 & E3 & E4).
  { clear -Hc. induction Hc as [|t ts (c & -> & _) _ IH]; [done|].
    destruct IH as (IH1 & IH2 & IH3 & IH4). rewrite !total_cons, fmap_cons.
    pose proof (unsent_range (Calling c)). cbn [length polling writing concat].
    rewrite Nat2Z.inj_succ. split_and!; [lia..|exact IH4]. }
  split; rewrite ?E1, ?E2; try done.
  - split; try done. cbn. lia.
  - split; cbn; rewrite ?Hrd, ?E4; [done| |done]. split; [done|constructor|constructor].
  - eapply Forall_impl; [exact Hc|]. by intros t (c & -> & ?).
  - intros (c & i & Ha). eapply Forall_forall in Ha; [|exact Hc]. by destruct Ha as (? & ? & _).
  - intros (k & Ha). eapply Forall_forall in Ha; [|exact Hc]. by destruct Ha as (? & ? & _).
Qed.

Lemma sys_ok_step s s' : sys_ok s → step s s' → sys_ok s'.
Proof.
  intros Hok Hst. destruct s as [w ts], s' as [w' ts'].
  apply step_inv in Hst. cbn in Hst.
  destruct Hst as [(l1 & t & l2 & l1' & t' & l2' & -> & -> & Hlen & Hrun & E & Hn)|
    (l1 & c & k & l2 & -> & -> & ->)]; cbn in *.
  - destruct (sys_resting w l1 t l2 Hok Hrun) as [Ho Hr].
    pose proof (resume_ok lo _ Ho _ _ _ Hr Hrun) as Hres. unfold upto in Hres.
    rewrite E in Hres. by eapply sys_step_run.
  - by eapply sys_step_spurious.
Qed.
Lemma sys_ok_steps s s' : sys_ok s → rtc step s s' → sys_ok s'.
Proof. intros Hok Hst. revert Hok. induction Hst; eauto using sys_ok_step. Qed.

Lemma sys_ok_resume s n t :
  sys_ok s → threads s !! n = Some t → runnable t = true →
  ∃ o tl, others_ok o ∧ resting lo o tl t (shared s) ∧ tl = (stream_of s, out_request (w_out (shared s))).
Proof.
  intros Hok (l1 & l2 & E & _)%list_elem_of_split_length Hrun.
  destruct s as [w ts]. cbn in E. subst ts.
  destruct (sys_resting w l1 t l2 Hok Hrun) as [Ho Hr]. by do 2 eexists.
Qed.

(** C6. Whatever threads do on a connection, between their steps [c->in.reading] is
    the number of threads that poll and [c->out.writing] the number of those
    that write, at most one; the list of readers holds exactly one element per
    thread that waits for a reply, sorted by request; and the mutex is free. *)
Theorem threads_invariant s s' :
  sys_init s → rtc step s s' →
  in_reading (w_in (shared s')) = total polling (threads s') ∧
  out_writing (w_out (shared s')) = total writing (threads s') ∧
  total writing (threads s') <= 1 ∧
  readers (w_in (shared s')) ≡ₚ concat (thread_readers <$> threads s') ∧
  readers_ok lo (readers (w_in (shared s'))) ∧ held (shared s') = [].
Proof.
  intros Hi Hst. pose proof (sys_ok_steps _ _ (sys_init_ok _ Hi) Hst) as []. by destruct sy_input0.
Qed.

(** C3. Threads share a connection whose socket nobody has taken, and make any of
    the calls that do not lend it: flushing, sending, waiting and polling for
    replies and events, discarding.  In no interleaving of these does a thread
    fail an assertion, lock [iolock] twice, release it without holding it or use a
    null pointer; at most it leaves a buffer in [read_packet].  (With owners of the
    socket an assertion can fail: OwnersProps.v.) *)
Theorem threads_safe s s' n t :
  sys_init s → rtc step s s' → threads s' !! n = Some t → runnable t = true →
  match resume t (shared s') with Fault f => f = FOutOfBounds | _ => True end.
Proof.
  intros Hi Hst Ht Hrun.
  destruct (sys_ok_resume s' n t (sys_ok_steps _ _ (sys_init_ok _ Hi) Hst) Ht Hrun) as (o & tl & Ho & Hr & _).
  pose proof (resume_ok lo o Ho t tl _ Hr Hrun) as Hres. unfold upto in Hres.
  by destruct (resume t (shared s')).
Qed.

(** C7. Somebody looks after every sleeper: in every interleaving, as long as a
    thread sleeps in [_xcb_conn_wait], another one polls the socket or has been woken up to read,
    and as long as one sleeps until a writer has finished, there is a writer;
    so while a thread has not finished, some thread can go on or waits for the
    server. *)
Theorem threads_progress s s' :
  sys_init s → rtc step s s' →
  ((∃ c i, Asleep c (Io i) ∈ threads s') → somebody_reads (threads s')) ∧
  ((∃ k, Asleep OutCond k ∈ threads s') → 0 < total writing (threads s')) ∧
  ((∃ t, t ∈ threads s' ∧ ∀ r, t ≠ Finished r) → ∃ t, t ∈ threads s' ∧ runnable t = true).
Proof.
  intros Hi Hst. pose proof (sys_ok_steps _ _ (sys_init_ok _ Hi) Hst) as Hok.
  split; [apply Hok|split; [apply Hok|]].
  assert (∀ f, (∀ t, 0 <= f t <= polling t) → 0 < total f (threads s') →
    ∃ t, t ∈ threads s' ∧ runnable t = true) as Hrun.
  { intros f Hf. rewrite (total_pos _ _ (λ t, proj1 (Hf t))). intros (t & Ht & Hp).
    exists t. split; [done|]. specialize (Hf t). by destruct t; cbn in *; try lia. }
  intros (t & Ht & Hnf). destruct (asleep_or_not t) as [(c & k & ->)|Hna].
  2: { exists t. split; [done|]. destruct t; try done; [by destruct (Hna c t)|by destruct (Hnf o)]. }
  pose proof (sy_threads _ Hok) as Hf. eapply Forall_forall in Hf; [|exact Ht].
  destruct k as [i| |].
  - destruct (sy_reader _ Hok) as [Hp|(i' & Hi')]; [by exists c, i| |by eexists].
    by eapply (Hrun polling); [intros; pose proof (polling_range t); lia|].
  - destruct Hf as [-> _]. eapply (Hrun writing writing_range), (sy_writer _ Hok). by eexists.
  - destruct Hf as [-> _]. eapply (Hrun writing writing_range), (sy_writer _ Hok). by eexists.
Qed.
End System.

(** ** Schedules *)

Section Schedules.
#[local] Existing Instances sample_host sample_proto.

Definition bytes_of (l : list Z) : list byte := byte_of <$> l.

(** A reply of 32 bytes to request [seq]. *)
Definition reply_packet (seq : Z) : list byte :=
  bytes_of [1; 0; seq; 0] ++ replicate 28 Byte.x00.

(** Request 1 has been written and request 2 is queued; the server answers
    [packet] and is ready to read. *)
Definition two_requests (packet : list byte) (polls : list poll_event) : world :=
  sample_world (set_request_expected 2 (sample_in []))
    (sample_out (bytes_of [43; 0; 1; 0]) 2 1) (sample_os [RecvData packet] polls []).

(** One thread waits for reply 1 while the other one flushes and, as writers do,
    reads. *)
Definition stolen : system :=
  System (two_requests (reply_packet 1) [PollReady (Z.lor POLLIN POLLOUT)])
    [Calling (CallWaitForReply 1 false); Calling CallFlush].

(** One thread waits for events; the other one waits for the error of request 1,
    of which there is none, while reply 2 arrives. *)
Definition finished_request : system :=
  System (two_requests (reply_packet 2) [PollReady POLLIN])
    [Calling CallWaitForEvent; Calling (CallWaitForReply 1 true)].

Lemma stolen_init : sys_init 0 stolen.
Proof.
  split; try done; cbn; try lia. repeat constructor; eexists; (split; [reflexivity|]); by vm_compute.
Qed.

Lemma finished_request_init : sys_init 0 finished_request.
Proof.
  split; try done; cbn; try lia. repeat constructor; eexists; (split; [reflexivity|]); by vm_compute.
Qed.
(** The state after a schedule. *)
Definition after_schedule (l : list nat) (s : system) : system := default s (run_schedule l s).

Lemma after_schedule_run l s :
  match run_schedule l s with Some _ => true | None => false end = true →
  rtc step s (after_schedule l s).
Proof.
  unfold after_schedule. destruct (run_schedule l s) as [s'|] eqn:E; [|done].
  intros _. by apply (run_schedule_sound l).
Qed.

Definition stolen_end : system := after_schedule [0;0;1;1;1;1]%nat stolen.
Definition finished_end : system := after_schedule [0;0;1;1;0;0]%nat finished_request.

(** C33. A reply can be stolen: a thread that has unlocked [iolock] to poll for its
    reply is left polling for ever although the reply has been read and is
    waiting for it, when a thread that writes reads the reply first. *)
Theorem reply_stolen :
  rtc step stolen stolen_end ∧
  threads stolen_end = [Polling (AwaitingReply 1 false 0); Finished (OutBool true)] ∧
  (∃ w, poll_for_reply 1 false (shared stolen_end) =
    Ret (Some (Some (reply_packet 1), None)) w) ∧
  ∀ s, ¬ step stolen_end s.
Proof.
  split; [by apply after_schedule_run|]. split; [by vm_compute|].
  split; [eexists; vm_compute; reflexivity|].
  assert (threads stolen_end = [Polling (AwaitingReply 1 false 0); Finished (OutBool true)] ∧
    ∀ t w, resume (Polling (AwaitingReply 1 false 0)) (shared stolen_end) ≠ Ret t w) as [Et Hr]
    by (split; [by vm_compute|by vm_compute]).
  intros s Hst. destruct stolen_end as [w0 ts]. cbn in Et, Hr. subst ts.
  inversion Hst as [n t t' w w' ts ts' Ht Hrun E _|n c k w ts Ht]; subst;
    destruct n as [|[|]]; cbn in Ht; try done; injection Ht as <-; [|done].
  by apply Hr in E.
Qed.

(** A schedule of what Wakeups.v shows of one packet: a thread that waits for the
    error of a request sleeps on although the request has been processed, while
    another thread polls for events. *)
Example finished_reader_schedule :
  rtc step finished_request finished_end ∧
  threads finished_end =
    [Polling AwaitingEvent; Asleep (ReaderCond 0) (Io (AwaitingReply 1 true 0))] ∧
  request_completed (w_in (shared finished_end)) = 1 ∧
  (∃ w, poll_for_reply 1 true (shared finished_end) = Ret (Some (None, None)) w) ∧
  ∀ t w, resume (Polling AwaitingEvent) (shared finished_end) ≠ Ret t w.
Proof.
  split; [by apply after_schedule_run|]. split; [by vm_compute|]. split; [by vm_compute|].
  split; [eexists; vm_compute; reflexivity|by vm_compute].
Qed.

Lemma threads_invariant_witness :
  let s := stolen_end in
  in_reading (w_in (shared s)) = total polling (threads s) ∧
  out_writing (w_out (shared s)) = total writing (threads s) ∧
  total writing (threads s) <= 1 ∧
  readers (w_in (shared s)) ≡ₚ concat (thread_readers <$> threads s) ∧
  readers_ok 0 (readers (w_in (shared s))) ∧ held (shared s) = [].
Proof. apply (threads_invariant 0 stolen _ stolen_init). apply after_schedule_run. by vm_compute. Defined.

Lemma threads_safe_witness :
  match resume (Polling AwaitingEvent) (shared finished_end) with
  | Fault f => f = FOutOfBounds
  | _ => True
  end.
Proof.
  apply (threads_safe 0 finished_request finished_end 0 (Polling AwaitingEvent)).
  - exact finished_request_init.
  - apply after_schedule_run. by vm_compute.
  - by vm_compute.
  - reflexivity.
Defined.

Lemma threads_progress_witness :
  let s := finished_end in
  ((∃ c i, Asleep c (Io i) ∈ threads s) → somebody_reads (threads s)) ∧
  ((∃ k, Asleep OutCond k ∈ threads s) → 0 < total writing (threads s)) ∧
  ((∃ t, t ∈ threads s ∧ ∀ r, t ≠ Finished r) → ∃ t, t ∈ threads s ∧ runnable t = true).
Proof.
  apply (threads_progress 0 finished_request finished_end).
  - exact finished_request_init.
  - apply after_schedule_run. by vm_compute.
Defined.
End Schedules.
