(* ===== verification/ThreadAlone.v ===== *)
(** * A thread on its own runs the sequential functions

    Threads.v cuts the blocking functions at the points where they release
    [iolock].  This file puts the pieces together again: a thread that runs
    alone computes what the functions of Out.v, Wait.v and Request.v compute,
    so that their theorems speak about the threads as well. *)
From S2P Require Import Prelude Effects Seq State In InFrame InFacts Conn Out OutFacts Wait.
From S2P Require Import WaitProps Request Threads ThreadFacts Sample.
#[local] Open Scope Z_scope.

Section Alone.
Context `{Host} `{XProto}.

(** The calls as the sequential functions compute them. *)
Definition sequential (c : call) : xM outcome :=
  match c with
  | CallFlush => r ← xcb_flush; ret (OutBool r)
  | CallWaitForReply q e => r ← xcb_wait_for_reply q e; ret (OutReply r)
  | CallWaitForEvent => r ← xcb_wait_for_event; ret (OutEvent r)
  | CallPollForReply q e => r ← xcb_poll_for_reply q e; ret (OutPolled r)
  | CallPollForEvent => r ← xcb_poll_for_event; ret (OutEvent r)
  | CallDiscardReply s => xcb_discard_reply s;; ret OutUnit
  | CallSend a =>
      e ← gets has_error;
      if e then ret (OutSequence 0) else
      pthread_mutex_lock IoLock;;
      s ← send_locked (sa_flags a) (sa_slots a) (sa_vector a) (sa_big a) (sa_workaround a)
            (sa_isvoid a);
      pthread_mutex_unlock IoLock;;
      ret (OutSequence (u32 s))
  end.

(** ** Runs of one thread *)

Definition alone_step (s s' : thread * world) : Prop :=
  runnable s.1 = true ∧ resume s.1 s.2 = Ret s'.1 s'.2.

Definition ends (t : thread) (w : world) (o : outcome) (w' : world) : Prop :=
  rtc alone_step (t, w) (Finished o, w').

(** A stretch from which the thread gets to its end. *)
Definition leads (m : xM thread) (w : world) (o : outcome) (w' : world) : Prop :=
  ∃ t1 w1, m w = Ret t1 w1 ∧ ends t1 w1 o w'.

Lemma leads_bind {A} (m : xM A) (k : A → xM thread) w a w1 o w' :
  m w = Ret a w1 → leads (k a) w1 o w' → leads (bind m k) w o w'.
Proof.
  intros E (t1 & w2 & E2 & Hr). exists t1, w2. split; [|done]. by rewrite (bind_run _ _ _ _ _ E).
Qed.

Lemma ends_resume t w o w' : runnable t = true → leads (resume t) w o w' → ends t w o w'.
Proof. intros Hr (t1 & w1 & E & He). eapply rtc_l; [|exact He]. by split. Qed.

Lemma leads_release o w w' :
  pthread_mutex_unlock IoLock w = Ret () w' → leads (release (Finished o)) w o w'.
Proof. intros E. eapply leads_bind; [exact E|]. do 2 eexists. split; [done|apply rtc_refl]. Qed.

(** A wait on the socket that returns. *)
Lemma leads_wait c i r w w1 o w' :
  _xcb_conn_wait c (io_vector i) w = Ret r w1 → leads (after_poll i r) w1 o w' →
  leads (begin_wait c i) w o w'.
Proof.
  intros E Hl. unfold _xcb_conn_wait in E. unfold begin_wait. rewrite bind_gets in E.
  unfold leads at 1. rewrite bind_gets. destruct (wait_busy (io_vector i) w).
  { unfold pthread_cond_wait in E. rewrite bind_assoc in E. by apply bind_inv in E as (? & ? & _ & ?). }
  apply bind_inv in E as ([] & w2 & E2 & E). apply bind_inv in E as (ready & w3 & E3 & E).
  apply bind_inv in E as ([] & w4 & E4 & E).
  exists (Polling i), w2. split; [by rewrite (bind_run _ _ _ _ _ E2)|].
  apply ends_resume; [done|]. cbn [resume]. eapply leads_bind; [exact E3|].
  do 2 eexists. split; [done|]. apply ends_resume; [done|]. cbn [resume].
  eapply leads_bind; [exact E4|]. by eapply leads_bind.
Qed.

(** ** The input side *)

Lemma leads_reply_loop fuel q e id res w w1 o w' :
  wait_reply_loop fuel q e (ReaderCond id) w = Ret res w1 →
  leads (leave_reply (Reader q id) res) w1 o w' → leads (reply_loop q e id) w o w'.
Proof.
  revert w. induction fuel as [|fuel IH]; intros w E Hl; [done|]. cbn [wait_reply_loop] in E.
  apply bind_inv in E as (r & w2 & E2 & E). eapply leads_bind; [exact E2|].
  destruct r as [res'|]; [by injection E as -> ->|].
  apply bind_inv in E as (b & w3 & E3 & E). eapply leads_wait; [exact E3|]. cbn [after_poll].
  destruct b.1; [by apply IH|by injection E as <- <-].
Qed.

Lemma leads_event_loop fuel r w w1 o w' :
  wait_event_loop fuel w = Ret r w1 → leads (leave_event r) w1 o w' → leads event_loop w o w'.
Proof.
  revert w. induction fuel as [|fuel IH]; intros w E Hl; [done|]. cbn [wait_event_loop] in E.
  apply bind_inv in E as (ev & w2 & E2 & E). eapply leads_bind; [exact E2|].
  destruct ev as [ev|]; [by injection E as <- ->|].
  apply bind_inv in E as (b & w3 & E3 & E). eapply leads_wait; [exact E3|]. cbn [after_poll].
  destruct b.1; [by apply IH|by injection E as <- <-].
Qed.

(** ** The output side *)

Lemma leads_send_loop fuel v k r w w1 o w' :
  send_loop fuel v w = Ret r w1 → leads (end_send k r) w1 o w' → leads (out_send v k) w o w'.
Proof.
  revert v w. induction fuel as [|fuel IH]; intros v w E Hl; [done|]. cbn [send_loop] in E.
  destruct v as [|b v]; [by injection E as <- <-|].
  apply bind_inv in E as (x & w2 & E2 & E). cbn [out_send]. eapply leads_wait; [exact E2|].
  cbn [after_poll]. destruct x.1; [by apply IH|by injection E as <- <-].
Qed.

Lemma leads_out_send v k r w w1 o w' :
  _xcb_out_send v w = Ret r w1 → leads (continue k r) w1 o w' → leads (out_send v k) w o w'.
Proof.
  intros E Hl. unfold _xcb_out_send in E. rewrite bind_gets in E.
  apply bind_inv in E as (r' & w2 & E2 & E). eapply leads_send_loop; [exact E2|].
  apply bind_inv in E as ([] & w3 & E3 & E). eapply leads_bind; [exact E3|].
  apply bind_inv in E as ([] & w4 & E4 & E). eapply leads_bind; [exact E4|].
  apply bind_inv in E as ([] & w5 & E5 & E). eapply leads_bind; [exact E5|].
  by injection E as <- <-.
Qed.

Lemma leads_flush_to q k r w w1 o w' :
  _xcb_out_flush_to q w = Ret r w1 → leads (continue k r) w1 o w' → leads (flush_to q k) w o w'.
Proof.
  intros E Hl. unfold _xcb_out_flush_to in E. rewrite bind_gets in E.
  eapply leads_bind; [done|].
  apply bind_inv in E as ([] & w2 & E2 & E). eapply leads_bind; [exact E2|].
  destruct (XCB_SEQUENCE_COMPARE _ Z.geb _); [by injection E as <- <-|].
  destruct (negb (bool_decide _)).
  { apply bind_inv in E as ([] & w3 & E3 & E). eapply leads_bind; [exact E3|].
    by eapply leads_out_send. }
  assert (w2 = w) as -> by (destruct (XCB_SEQUENCE_COMPARE q _ _); [by injection E2|done]).
  unfold flush_loop. eapply leads_bind; [done|].
  destruct (negb (out_writing (w_out w) =? 0)).
  { cbn [when] in E. unfold pthread_cond_wait in E. rewrite bind_assoc in E.
    by apply bind_inv in E as (? & ? & _ & ?). }
  rewrite bind_when_false, bind_gets in E.
  apply bind_inv in E as ([] & w3 & E3 & E). eapply leads_bind; [exact E3|].
  by injection E as <- <-.
Qed.

Lemma leads_write slots v k r w w1 o w' :
  write_block slots v w = Ret r w1 → leads (continue k r) w1 o w' → leads (write slots v k) w o w'.
Proof.
  intros E Hl. unfold write_block in E. apply bind_inv in E as (f & w2 & E2 & E).
  eapply leads_bind; [exact E2|]. destruct f.2 as [|b t]; [by injection E as <- <-|].
  destruct (decide (f.1 = 0%nat)); [done|]. rewrite bind_gets in E. eapply leads_bind; [done|].
  apply bind_inv in E as ([] & w3 & E3 & E). eapply leads_bind; [exact E3|].
  by eapply leads_out_send.
Qed.
(** ** Whole calls *)

Lemma leads_claim a r w w1 w2 :
  send_locked (sa_flags a) (sa_slots a) (sa_vector a) (sa_big a) (sa_workaround a)
    (sa_isvoid a) w = Ret r w1 →
  pthread_mutex_unlock IoLock w1 = Ret () w2 → leads (claim a) w (OutSequence (u32 r)) w2.
Proof.
  intros E Hu. unfold send_locked in E. rewrite bind_gets in E.
  unfold claim. eapply leads_bind; [done|]. unfold compose in *.
  destruct (negb (out_writing (w_out w) =? 0)).
  { cbn [when] in E. unfold pthread_cond_wait in E. rewrite bind_assoc in E.
    by apply bind_inv in E as (? & ? & _ & ?). }
  rewrite bind_when_false in E. apply bind_inv in E as (n & w3 & E3 & E).
  eapply leads_bind; [exact E3|]. apply bind_inv in E as (ok & w4 & E4 & E).
  eapply leads_write; [exact E4|]. cbn [continue]. eapply leads_bind; [exact E|].
  by apply leads_release.
Qed.

Lemma leads_enter_reply q e res w w1 w2 w3 :
  await_reply q e w = Ret res w1 → _xcb_in_wake_up_next_reader w1 = Ret () w2 →
  pthread_mutex_unlock IoLock w2 = Ret () w3 → leads (enter_reply q e) w (OutReply res) w3.
Proof.
  intros E Hw Hu. unfold await_reply in E. rewrite bind_gets in E.
  unfold enter_reply. eapply leads_bind; [done|].
  apply bind_inv in E as ([] & w4 & E4 & E). eapply leads_bind; [exact E4|].
  cbv zeta in E. apply bind_inv in E as ([] & w5 & E5 & E). eapply leads_bind; [exact E5|].
  rewrite bind_gets in E. apply bind_inv in E as (res' & w6 & E6 & E).
  eapply leads_reply_loop; [exact E6|]. unfold leave_reply.
  apply bind_inv in E as ([] & w7 & E7 & E). injection E as <- <-.
  eapply leads_bind; [exact E7|]. eapply leads_bind; [exact Hw|]. by apply leads_release.
Qed.

(** What a call does behind the test of [has_error] and the lock. *)
Definition entered_as (c : call) (o : outcome) (w w' : world) : Prop :=
  ∃ w1, pthread_mutex_lock IoLock w = Ret () w1 ∧ leads (begin_call c) w1 o w'.

(** Split the next operation off the run [E]. *)
Local Ltac next E x w E1 := apply bind_inv in E as (x & w & E1 & E).

Lemma enter_flush r w w' :
  has_error w = false → xcb_flush w = Ret r w' → entered_as CallFlush (OutBool r) w w'.
Proof.
  intros He E. unfold xcb_flush in E. rewrite bind_gets, He in E. next E u w1 E1. destruct u.
  exists w1. split; [done|]. rewrite bind_gets in E. eapply leads_bind; [done|].
  next E r' w2 E2. eapply leads_flush_to; [exact E2|].
  next E u w3 E3. destruct u. injection E as <- <-. by apply leads_release.
Qed.

Lemma enter_wait_for_reply q e r w w' :
  has_error w = false → xcb_wait_for_reply q e w = Ret r w' →
  entered_as (CallWaitForReply q e) (OutReply r) w w'.
Proof.
  intros He E. unfold xcb_wait_for_reply in E. rewrite bind_gets, He in E.
  next E u w1 E1. destruct u. exists w1. split; [done|].
  rewrite bind_gets in E. cbn [begin_call]. eapply leads_bind; [done|].
  next E sent w2 E2. next E res w3 E3. next E u w4 E4. destruct u. next E u w5 E5. destruct u.
  injection E as <- <-.
  assert (sent = true → leads (enter_reply q e) w2 (OutReply res) w5) as Ht.
  { intros ->. eapply leads_enter_reply; [exact E3|exact E4|exact E5]. }
  destruct (bool_decide _).
  { injection E2 as <- <-. by apply Ht. }
  eapply leads_flush_to; [exact E2|]. cbn [continue]. destruct sent; [by apply Ht|].
  injection E3 as <- <-. eapply leads_bind; [exact E4|]. by apply leads_release.
Qed.

Lemma enter_wait_for_event r w w' :
  has_error w = false → xcb_wait_for_event w = Ret r w' →
  entered_as CallWaitForEvent (OutEvent r) w w'.
Proof.
  intros He E. unfold xcb_wait_for_event in E. rewrite bind_gets, He in E.
  next E u w1 E1. destruct u. exists w1. split; [done|]. rewrite bind_gets in E.
  next E ev w2 E2. eapply leads_event_loop; [exact E2|]. next E u w3 E3. destruct u.
  eapply leads_bind; [exact E3|]. next E u w4 E4. destruct u. injection E as <- <-.
  by apply leads_release.
Qed.

(** The calls that do not block. *)
Lemma enter_atomic {A} c (m : xM A) (f : A → outcome) a w w' :
  begin_call c = (r ← m; release (Finished (f r))) →
  (pthread_mutex_lock IoLock;; r ← m; pthread_mutex_unlock IoLock;; ret r) w = Ret a w' →
  entered_as c (f a) w w'.
Proof.
  intros Hc E. next E u w1 E1. destruct u. exists w1. split; [done|]. rewrite Hc.
  next E r w2 E2. eapply leads_bind; [exact E2|]. next E u w3 E3. destruct u.
  injection E as <- <-. by apply leads_release.
Qed.

Lemma enter_call c o w w' :
  has_error w = false → trivial_call c = false → sequential c w = Ret o w' →
  entered_as c o w w'.
Proof.
  intros He Ht E. destruct c as [|q e| |q e| |q|a]; cbn [sequential] in E.
  7: { rewrite bind_gets, He in E. next E u w1 E1. destruct u. exists w1. split; [done|].
       next E r w2 E2. next E u w3 E3. destruct u. injection E as <- <-. by eapply leads_claim. }
  all: next E r w1 E1; injection E as <- <-.
  - by apply enter_flush.
  - by apply enter_wait_for_reply.
  - by apply enter_wait_for_event.
  - unfold xcb_poll_for_reply in E1. rewrite bind_gets, He in E1. by eapply enter_atomic.
  - unfold xcb_poll_for_event in E1. rewrite bind_gets, He in E1. by eapply enter_atomic.
  - unfold xcb_discard_reply in E1. rewrite bind_gets, He in E1. cbn in Ht. rewrite Ht in E1.
    next E1 u w2 E2. destruct u. exists w2. split; [done|]. next E1 u w3 E3. destruct r.
    eapply leads_bind; [exact E3|]. by apply leads_release.
Qed.

Lemma sequential_ends c o w w' : sequential c w = Ret o w' → ends (Calling c) w o w'.
Proof.
  intros E. apply ends_resume; [done|]. unfold leads. cbn [resume]. rewrite bind_gets.
  destruct (has_error w) eqn:He; [|destruct (trivial_call c) eqn:Ht].
  - exists (Finished (error_outcome c)), w. split; [done|].
    assert (o = error_outcome c ∧ w' = w) as [-> ->]; [|apply rtc_refl].
    destruct c; cbn [sequential] in E; unfold xcb_flush, xcb_wait_for_reply, xcb_wait_for_event,
      xcb_poll_for_reply, xcb_poll_for_event, xcb_discard_reply in E;
      rewrite ?bind_assoc, bind_gets, He in E; by injection E as <- <-.
  - exists (Finished OutUnit), w. split; [done|].
    assert (o = OutUnit ∧ w' = w) as [-> ->]; [|apply rtc_refl].
    destruct c as [| | | | |q|]; try done. cbn [sequential] in E. cbn in Ht. unfold xcb_discard_reply in E.
    rewrite bind_assoc, bind_gets, He, Ht in E. by injection E as <- <-.
  - destruct (enter_call c o w w' He Ht E) as (w1 & E1 & Hl).
    do 2 eexists. split; [done|]. apply ends_resume; [done|]. cbn [resume].
    by eapply leads_bind.
Qed.

Lemma ends_system t w o w' :
  ends t w o w' → rtc step (System w [t]) (System w' [Finished o]).
Proof.
  assert (∀ a b, rtc alone_step a b → rtc step (System (a.2) [a.1]) (System (b.2) [b.1])) as Hr;
    [|apply Hr].
  induction 1 as [|[t1 w1] [t2 w2] c [Hrun E] _ IH]; [apply rtc_refl|].
  eapply rtc_l; [|exact IH]. cbn in *.
  apply (step_run 0 t1 t2 w1 w2 [t1] [t1]); [done..|].
  apply undisturbed_notified. by destruct t1.
Qed.

(** A thread alone on a connection computes what the sequential functions
    compute: whenever [xcb_flush], [xcb_wait_for_reply], [xcb_wait_for_event],
    the polling calls, [xcb_discard_reply] or the locked part of
    [xcb_send_request] returns, the thread that makes the call finishes with the
    same result and leaves the same connection behind. *)
Theorem alone_refines_sequential c o w w' :
  sequential c w = Ret o w' → rtc step (System w [Calling c]) (System w' [Finished o]).
Proof. intros E. by apply ends_system, sequential_ends. Qed.
End Alone.

(** ** The hypotheses can hold *)

Section Witnesses.
#[local] Existing Instances sample_host sample_proto.

(** One request is queued, and the server takes what it is sent. *)
Definition one_queued : world :=
  sample_world (sample_in []) (sample_out (byte_of <$> [43; 0; 1; 0]) 1 0)
    (sample_os [] [PollReady POLLOUT] []).

Lemma alone_refines_sequential_witness :
  rtc step (System one_queued [Calling CallFlush])
    (System (final one_queued (sequential CallFlush one_queued)) [Finished (OutBool true)]).
Proof.
  apply (alone_refines_sequential CallFlush (OutBool true) one_queued
    (final one_queued (sequential CallFlush one_queued))).
  vm_compute. reflexivity.
Defined.
End Witnesses.
