(* ===== verification/ThreadStream.v ===== *)
(** * The stream of requests of many threads

    Requests of different threads are never mixed: each is put on the stream
    whole, in the order of the sequence numbers, once, and under the number its
    caller gets. *)
From S2P Require Import Prelude Effects Seq State In InFrame Conn Out OutFacts OutProps Wait.
From S2P Require Import WaitProps Request RequestFacts Threads ThreadFacts ThreadInv ThreadsProps.
From S2P Require Import Sample.
From Stdlib Require Import Sorting.Sorted.
#[local] Open Scope Z_scope.

(** ** How far a thread is with its request *)

Inductive stage :=
  | Unsent (a : send_args)   (** it has no number yet *)
  | Sent (q : Z)             (** it has the number [q] and is being written *)
  | Over (r : Z).            (** [xcb_send_request] has returned [r] *)

Definition thread_stage (t : thread) : option stage :=
  match t with
  | Calling (CallSend a) | Entering (CallSend a) | Asleep _ (Claiming a)
  | Woken (Claiming a) => Some (Unsent a)
  | Asleep _ (Io (Sending _ (ThenSent q))) | Woken (Io (Sending _ (ThenSent q)))
  | Polling (Sending _ (ThenSent q)) | Polled _ (Sending _ (ThenSent q)) => Some (Sent q)
  | Finished (OutSequence r) => Some (Over r)
  | _ => None
  end.

Lemma wakes_up_stage t t' : wakes_up t t' → thread_stage t' = thread_stage t.
Proof. by intros [->|(c & [[? []| |]| |] & -> & ->)]. Qed.

(** The stages a request with the number [q] goes through. *)
Definition sent_stage (q : Z) (t : thread) : Prop :=
  thread_stage t = Some (Sent q) ∨ thread_stage t = Some (Over (u32 q)) ∨
  thread_stage t = Some (Over 0).

Definition after_stage (k : after) (t : thread) : Prop :=
  match k with ThenSent q => sent_stage q t | _ => thread_stage t = None end.

(** [yields P m]: whenever [m] returns a thread, it satisfies [P]. *)
Definition yields (P : thread → Prop) (m : xM thread) : Prop := ∀ w t w', m w = Ret t w' → P t.

Section Yields.
Context `{Host} `{XProto}.

Lemma yields_bind {A} P (m : xM A) (k : A → xM thread) :
  (∀ a, yields P (k a)) → yields P (bind m k).
Proof. intros Hk w t w' (a & w1 & _ & E)%bind_inv. by eapply Hk. Qed.

Lemma yields_ret (P : thread → Prop) t : P t → yields P (ret t).
Proof. by intros Ht w t' w' [= -> ->]. Qed.

Lemma yields_fail P f : yields P (fail f).
Proof. by intros w t w' ?. Qed.

Lemma yields_release (P : thread → Prop) t : P t → yields P (release t).
Proof. intros Ht. by apply yields_bind; intros _; apply yields_ret. Qed.

Lemma yields_if P (b : bool) (m1 m2 : xM thread) :
  yields P m1 → yields P m2 → yields P (if b then m1 else m2).
Proof. by destruct b. Qed.

Lemma yields_begin_wait (P : thread → Prop) c i :
  P (Asleep c (Io i)) → P (Polling i) → yields P (begin_wait c i).
Proof.
  intros H1 H2. apply yields_bind. intros b. apply yields_if; [by apply yields_release|].
  by apply yields_bind; intros _; apply yields_ret.
Qed.

End Yields.

(** [yield_step] follows a computation to the threads it returns. *)
Ltac yield_step :=
  first
    [ progress intros
    | apply yields_release | apply yields_ret | apply yields_fail | apply yields_begin_wait
    | apply yields_bind
    | match goal with
      | |- yields _ (match ?x with _ => _ end) => destruct x eqn:?
      end ].
Ltac yield_auto := repeat yield_step; try done.

Section Stages.
Context `{Host} `{XProto}.

Lemma yields_reply_loop q e id : yields (λ t, thread_stage t = None) (reply_loop q e id).
Proof. unfold reply_loop, leave_reply, end_reply. yield_auto. Qed.

Lemma yields_event_loop : yields (λ t, thread_stage t = None) event_loop.
Proof. unfold event_loop, leave_event. yield_auto. Qed.

Lemma yields_continue k r : yields (after_stage k) (continue k r).
Proof.
  destruct k as [|q e|q]; cbn [continue after_stage].
  - yield_auto.
  - destruct r; [|unfold end_reply; yield_auto]. unfold enter_reply. yield_auto.
  - intros w t w' (s & w1 & E1 & E2)%bind_inv. unfold release in E2.
    apply bind_inv in E2 as (u & w2 & _ & E2). injection E2 as <- _.
    unfold after_stage, sent_stage. cbn.
    destruct r; [injection E1 as <- _; auto|].
    apply bind_inv in E1 as (u' & w3 & _ & E1). injection E1 as <- _. by right; right.
Qed.

Lemma yields_end_send k r : yields (after_stage k) (end_send k r).
Proof. unfold end_send. do 3 (apply yields_bind; intros ?). apply yields_continue. Qed.

Lemma yields_out_send v k : yields (after_stage k) (out_send v k).
Proof.
  destruct v; [apply yields_end_send|]. apply yields_begin_wait; destruct k; by try left.
Qed.

Lemma yields_write slots v k : yields (after_stage k) (write slots v k).
Proof.
  unfold write. apply yields_bind. intros f. destruct f.2; [apply yields_continue|].
  destruct (decide _); [apply yields_fail|]. do 2 (apply yields_bind; intros ?).
  apply yields_out_send.
Qed.

(** The calls that send no request of their own. *)
Lemma yields_flush_loop q k :
  (∀ r, k ≠ ThenSent r) → yields (λ t, thread_stage t = None) (flush_loop q k).
Proof.
  intros Hk. unfold flush_loop. apply yields_bind. intros o. apply yields_if; [by apply yields_release|].
  apply yields_bind. intros _. pose proof (yields_continue k true) as Hc.
  destruct k as [| |r]; [done..|by destruct (Hk r)].
Qed.

Lemma yields_flush_to q k :
  (∀ r, k ≠ ThenSent r) → yields (λ t, thread_stage t = None) (flush_to q k).
Proof.
  intros Hk. unfold flush_to. apply yields_bind. intros o. apply yields_bind. intros _.
  pose proof (yields_continue k true) as Hc. pose proof (yields_out_send [out_queue o] k) as Hs.
  apply yields_if; [destruct k as [| |r]; [done..|by destruct (Hk r)]|].
  apply yields_if; [|by apply yields_flush_loop].
  apply yields_bind. intros _. destruct k as [| |r]; [done..|by destruct (Hk r)].
Qed.
Lemma yields_begin_call c :
  call_unsent c = 0 → yields (λ t, thread_stage t = None) (begin_call c).
Proof.
  intros Hc. destruct c as [|q e| |q e| |q|a]; [..|done]; cbn [begin_call].
  - apply yields_bind. intros o. by apply yields_flush_to.
  - apply yields_bind. intros o. apply yields_if; [|by apply yields_flush_to].
    apply (yields_continue (ThenAwait q e) true).
  - apply yields_event_loop.
  - apply yields_bind. intros r. by apply yields_release.
  - apply yields_bind. intros r. by apply yields_release.
  - apply yields_bind. intros r. by apply yields_release.
Qed.

(** A thread takes its number when no other one writes. *)
Lemma claim_stage a w tl t w' :
  send_ok a → out_return_socket (w_out w) = None → 0 <= out_request (w_out w) < 2 ^ 62 →
  claim a w = Ret t w' →
  if out_writing (w_out w) =? 0 then sent_stage (submit a w tl).2 t
  else thread_stage t = Some (Unsent a).
Proof.
  intros (Hs & Hv & Hd) Hn Hr E. unfold claim in E. rewrite bind_gets in E. unfold compose in E.
  unfold submit. destruct (out_writing (w_out w) =? 0); cbn [negb] in E.
  2: { by eapply (yields_release (λ t, thread_stage t = Some (Unsent a))) in E. }
  edestruct (number_request_step (sa_flags a) (sa_slots a) (sa_vector a) (sa_big a)
    (sa_workaround a) (sa_isvoid a) w Hn) as (w4 & s & v' & E4 & _); [lia|lia|done|done|].
  rewrite (bind_run _ _ _ _ _ E4) in E. exact (yields_write _ _ _ _ _ _ E).
Qed.
End Stages.

Section Stream.
Context `{Host} `{XProto} (lo : Z).

(** The request a thread is about to number. *)
Definition submits (t : thread) (w : world) : option send_args :=
  match t with
  | Entering (CallSend a) | Woken (Claiming a) =>
      if out_writing (w_out w) =? 0 then Some a else None
  | _ => None
  end.

Lemma submitted_submits t w tl :
  submitted t w tl = match submits t w with Some a => submit a w tl | None => tl end.
Proof.
  destruct t as [|[]| |[| |]| | |]; try done; unfold submitted, call_submits, submits, submit;
    by destruct (out_writing (w_out w) =? 0).
Qed.

(** What a stretch does to the stage of its thread. *)
Definition stage_step (w : world) (tl : tally) (t t' : thread) : Prop :=
  match submits t w with
  | Some a => thread_stage t = Some (Unsent a) ∧ sent_stage (submit a w tl).2 t'
  | None =>
      match thread_stage t with
      | Some (Sent q) => sent_stage q t'
      | Some (Unsent a) => thread_stage t' = Some (Unsent a) ∨ thread_stage t' = Some (Over 0)
      | st => thread_stage t' = st
      end
  end.

Lemma polled_stage i ready w t w' :
  resume (Polled ready i) w = Ret t w' →
  match i with Sending _ k => after_stage k t | _ => thread_stage t = None end.
Proof.
  cbn [resume]. intros (u & w1 & _ & E)%bind_inv. apply bind_inv in E as (r & w2 & _ & E).
  destruct i as [v k|q e id|]; cbn [after_poll] in E.
  - destruct r.1; [by apply yields_out_send in E|by apply yields_end_send in E].
  - destruct r.1; [by apply yields_reply_loop in E|].
    revert E. apply (yields_bind (λ t, thread_stage t = None)). intros _.
    apply yields_bind. intros _. by apply yields_release.
  - destruct r.1; [by apply yields_event_loop in E|].
    revert E. apply (yields_bind (λ t, thread_stage t = None)). intros _. by apply yields_release.
Qed.

Lemma claim_stage_step o (tl : tally) a t w t' w' :
  resting lo o tl t w → send_ok a → others_ok o → claim a (set_held [IoLock] w) = Ret t' w' →
  match (if out_writing (w_out w) =? 0 then Some a else None) with
  | Some a' => Some (Unsent a) = Some (Unsent a') ∧ sent_stage (submit a' w tl).2 t'
  | None => thread_stage t' = Some (Unsent a) ∨ thread_stage t' = Some (Over 0)
  end.
Proof.
  intros Hr Ha Ho E. pose proof (rl_output _ _ _ _ _ _ _ _ Hr) as [Hw Hroom _ Hown].
  pose proof (oo_unsent _ Ho). pose proof (unsent_range t).
  apply (claim_stage _ _ tl) in E; [|done|done|cbn; lia]. cbn [w_out set_held] in E.
  destruct (out_writing (w_out w) =? 0); [by split|by left].
Qed.

Lemma woken_stage_step o tl k w t' w' :
  others_ok o → resting lo o tl (Woken k) w → resume (Woken k) w = Ret t' w' → stage_step w tl (Woken k) t'.
Proof.
  intros Ho Hr. pose proof (rl_thread _ _ _ _ _ _ _ _ Hr) as Hok. cbn in Hok.
  cbn [resume]. rewrite (bind_lock IoLock []) by (apply Hr || set_solver). intros E.
  unfold stage_step.
  destruct k as [[v k|q e id|]|q k|a]; cbn [again] in E; cbn [submits thread_stage]; [done|..].
  - by apply yields_reply_loop in E.
  - by apply yields_event_loop in E.
  - apply yields_flush_loop in E; [done|apply Hok].
  - by eapply claim_stage_step; [apply Hr|apply Hok|..].
Qed.

(** The stretch of a thread moves its request from one stage to the next. *)
Lemma resume_stage o tl t w t' w' :
  others_ok o → resting lo o tl t w → runnable t = true → resume t w = Ret t' w' →
  stage_step w tl t t'.
Proof.
  intros Ho Hr Hrun E. destruct t as [c|c|c k|k|i|ready i|out]; try done.
  - unfold stage_step. cbn [submits]. cbn [resume] in E. rewrite bind_gets in E.
    destruct (has_error w); [|destruct (trivial_call c) eqn:Ht]; injection E as <- _;
      destruct c; cbn in *; try done; auto.
  - pose proof (rl_thread _ _ _ _ _ _ _ _ Hr) as Hok. cbn in Hok. cbn [resume] in E.
    rewrite (bind_lock IoLock []) in E by (apply Hr || set_solver).
    destruct (decide (call_unsent c = 0)) as [Hc|Hc].
    + apply yields_begin_call in E; [|done]. unfold stage_step. by destruct c.
    + destruct c; try done. unfold stage_step. cbn [submits thread_stage].
      by eapply claim_stage_step; [apply Hr|..].
  - by eapply woken_stage_step.
  - cbn [resume] in E. apply bind_inv in E as (r & w1 & _ & E). injection E as <- _.
    unfold stage_step. destruct i as [v []| |]; cbn; try done. by left.
  - apply polled_stage in E. unfold stage_step. destruct i as [v []| |]; done.
Qed.
(** ** The log of the requests *)

Record entry := Entry { e_thread : nat; e_number : Z; e_bytes : list byte }.

(** The bytes of a request, with a [GetInputFocus] in front if one was due. *)
Definition request_of (a : send_args) (bs : list byte) : Prop :=
  ∃ sync : bool, bs = (if sync then sync_req else []) ++ request_bytes (sa_big a) (sa_vector a).

(** What a step of thread [n] adds to the log. *)
Definition logged_by (n : nat) (t : thread) (w : world) : list entry :=
  match submits t w with
  | Some a => [Entry n (submit a w ([], 0)).2 (submit a w ([], 0)).1]
  | None => []
  end.

(** The number a step leaves as the last one. *)
Definition last_number (t : thread) (w : world) : Z :=
  match submits t w with Some a => (submit a w ([], 0)).2 | None => out_request (w_out w) end.

Lemma submits_idle t w a : submits t w = Some a → (out_writing (w_out w) =? 0) = true.
Proof.
  destruct t as [|[]| |[| |]| | |]; try done; unfold submits;
    by destruct (out_writing (w_out w) =? 0).
Qed.

Lemma submitted_logged n t w bs :
  submitted t w (bs, out_request (w_out w)) =
    (bs ++ concat (e_bytes <$> logged_by n t w), last_number t w).
Proof.
  rewrite submitted_submits. unfold logged_by, last_number.
  destruct (submits t w) as [a|] eqn:E; [|cbn; by rewrite app_nil_r].
  unfold submit. rewrite (submits_idle _ _ _ E). cbn. by rewrite app_nil_r.
Qed.

Lemma notified_middle ss l1 t l2 ts :
  notified ss (l1 ++ t :: l2) ts → runnable t = true →
  ∃ l1' l2', ts = l1' ++ t :: l2' ∧ length l1' = length l1 ∧ others_of (l1' ++ l2') = others_of (l1 ++ l2).
Proof.
  intros Hn Hrun. pose proof (notified_wakes _ _ _ Hn) as Hw.
  pose proof Hw as Hf. apply Forall2_app_inv_l in Hf as (l1' & l & Hf1 & Hf & ->).
  apply Forall2_cons_inv_l in Hf as (t1 & l2' & [->|(c & k & -> & _)] & Hf2 & ->); [|done].
  exists l1', l2'. split; [done|]. split; [by erewrite <- Forall2_length|].
  apply others_of_wakes. by apply Forall2_app.
Qed.

(** One step: what it does to the stream, the counter and the stage. *)
Lemma run_effect w ts n t t' w' ts1 :
  sys_ok lo (System w ts) → ts !! n = Some t → runnable t = true → resume t w = Ret t' w' →
  notified (signals w w') ts ts1 →
  let s := System w ts in
  let s' := System w' (<[n := t']> ts1) in
  (has_error w = true → has_error w' = true) ∧
  (has_error w' = false → stream_of s' = stream_of s ++ concat (e_bytes <$> logged_by n t w)) ∧
  out_request (w_out w') = last_number t w ∧
  stage_step w (stream_of s, out_request (w_out w)) t t'.
Proof.
  intros Hok Ht Hrun E Hn s s'.
  assert (sys_ok lo s') as Hok' by (eapply sys_ok_step; [exact Hok|by econstructor]).
  apply list_elem_of_split_length in Ht as (l1 & l2 & -> & Hl).
  destruct (notified_middle _ _ _ _ _ Hn Hrun) as (l1' & l2' & -> & Hl' & Eo).
  destruct (sys_resting lo w l1 t l2 Hok Hrun) as [Ho Hr].
  pose proof (resume_ok lo _ Ho _ _ _ Hr Hrun) as Hres. unfold upto in Hres. rewrite E in Hres.
  split; [apply Hres|]. unfold stretch in Hres. rewrite (submitted_logged n) in Hres.
  split; [|split; [apply Hres|by eapply resume_stage]].
  intros He. pose proof (rl_stream _ _ _ _ _ _ _ _ Hres He) as Hs. cbn [fst] in Hs. fold s in Hs.
  rewrite <- Hs. subst s'. assert (n = length l1' + 0)%nat as -> by lia.
  rewrite insert_app_r in *. cbn [list_insert insert] in *.
  injection Eo as _ _ _ _ Ef. cbn [ot_flight]. unfold others_of. cbn. rewrite <- Ef.
  unfold stream_of. cbn. rewrite (flights_middle lo w'); [by rewrite <- !app_assoc|apply Hok'|apply Hok'].
Qed.
(** What the log says of thread [n], which is at the given stage. *)
Definition stage_logged (s0 : system) (log : list entry) (n : nat) (st : option stage) : Prop :=
  match st with
  | Some (Unsent a) =>
      threads s0 !! n = Some (Calling (CallSend a)) ∧ (n ∉ (e_thread <$> log))
  | Some (Sent q) => ∃ e, e ∈ log ∧ e_thread e = n ∧ e_number e = q
  | Some (Over r) => r = 0 ∨ ∃ e, e ∈ log ∧ e_thread e = n ∧ u32 (e_number e) = r
  | None => True
  end.

Definition last_request (s : system) : Z := out_request (w_out (shared s)).

Record logged (s0 s : system) (log : list entry) : Prop := {
  lg_stream : has_error (shared s) = false →
    stream_of s = stream_of s0 ++ concat (e_bytes <$> log);
  lg_order : StronglySorted Z.lt (e_number <$> log);
  lg_range : Forall (λ e, last_request s0 < e_number e <= last_request s) log;
  lg_last : last_request s0 <= last_request s;
  lg_once : NoDup (e_thread <$> log);
  lg_entries : Forall (λ e, ∃ a, threads s0 !! e_thread e = Some (Calling (CallSend a)) ∧
    request_of a (e_bytes e)) log;
  lg_stage : ∀ n t, threads s !! n = Some t → stage_logged s0 log n (thread_stage t)
}.

Lemma logged_init s : sys_init lo s → logged s s [].
Proof.
  intros Hi. split; try done; [|constructor|constructor|].
  - intros _. by rewrite app_nil_r.
  - intros n t Ht. pose proof (si_calls _ _ Hi) as Hf. eapply Forall_lookup_1 in Hf; [|exact Ht].
    destruct Hf as (c & -> & _). destruct c; try done. cbn. split; [done|]. apply not_elem_of_nil.
Qed.

Lemma stage_logged_app s0 log log' n st :
  stage_logged s0 log n st → (∀ e, e ∈ log' → e_thread e ≠ n) →
  stage_logged s0 (log ++ log') n st.
Proof.
  intros Hs Hn. destruct st as [[a|q|r]|]; cbn in *; [|set_solver|set_solver|done].
  destruct Hs as [Hs Hin]. split; [done|]. rewrite fmap_app. intros [?|He]%elem_of_app; [done|].
  apply list_elem_of_fmap in He as (e & -> & He). by apply Hn in He.
Qed.

Lemma submit_number a w :
  (out_writing (w_out w) =? 0) = true → out_request (w_out w) < (submit a w ([], 0)).2.
Proof. intros E. unfold submit. rewrite E. cbn. destruct (needs_sync _ _ _); lia. Qed.

Lemma submit_request a w :
  (out_writing (w_out w) =? 0) = true → request_of a (submit a w ([], 0)).1.
Proof. intros E. unfold submit. rewrite E. cbn. eexists. done. Qed.

(** The stage of the thread that has run. *)
Lemma stage_logged_step s0 log n t t' w tl :
  stage_step w (tl, out_request (w_out w)) t t' → stage_logged s0 log n (thread_stage t) →
  (∀ r, thread_stage t = Some (Over r) → False) →
  stage_logged s0 (log ++ logged_by n t w) n (thread_stage t').
Proof.
  intros Hst Hs Hno. unfold stage_step, logged_by in *.
  destruct (submits t w) as [a|] eqn:Ea.
  - destruct Hst as [_ Hq]. assert (∃ e, e ∈ log ++ [Entry n (submit a w ([], 0)).2 (submit a w ([], 0)).1] ∧
      e_thread e = n ∧ e_number e = (submit a w (tl, out_request (w_out w))).2) as (e & He & En & Eq).
    { eexists. split; [apply elem_of_app; right; by left|]. split; [done|]. cbn. unfold submit.
      by rewrite (submits_idle _ _ _ Ea). }
    destruct Hq as [-> |[-> | ->]]; cbn; [by exists e|right; exists e; by rewrite Eq|by left].
  - rewrite app_nil_r. destruct (thread_stage t) as [[a|q|r]|].
    + destruct Hst as [-> | ->]; [done|by left].
    + cbn in Hs. destruct Hs as (e & He & En & Eq).
      destruct Hst as [-> |[-> | ->]]; cbn; [by exists e|right; exists e; by rewrite Eq|by left].
    + by destruct (Hno r).
    + by rewrite Hst.
Qed.
(** What the log gains fits behind it. *)
Lemma logged_by_range s0 s log n t :
  logged s0 s log → threads s !! n = Some t →
  last_request s <= last_number t (shared s) ∧
  Forall (λ e, e_thread e = n ∧ last_request s < e_number e <= last_number t (shared s))
    (logged_by n t (shared s)) ∧
  (∀ a, submits t (shared s) = Some a → thread_stage t = Some (Unsent a) →
    threads s0 !! n = Some (Calling (CallSend a)) ∧ (n ∉ (e_thread <$> log))).
Proof.
  intros Hl Ht. unfold logged_by, last_number, last_request.
  split; [|split].
  - destruct (submits t (shared s)) as [a|] eqn:E; [|done].
    pose proof (submit_number a _ (submits_idle _ _ _ E)). lia.
  - destruct (submits t (shared s)) as [a|] eqn:E; [|constructor].
    pose proof (submit_number a _ (submits_idle _ _ _ E)). apply Forall_singleton. cbn. split; [done|lia].
  - intros a _ Hst. pose proof (lg_stage _ _ _ Hl n t Ht) as Hs. by rewrite Hst in Hs.
Qed.

Lemma sorted_snoc l x : StronglySorted Z.lt l → Forall (λ y, y < x) l → StronglySorted Z.lt (l ++ [x]).
Proof.
  induction 1 as [|y l Hs IH Hf]; intros Hx; cbn; [by repeat constructor|].
  apply Forall_cons in Hx as [Hy Hx]. constructor; [auto|]. apply Forall_app. split; [done|].
  by apply Forall_singleton.
Qed.

Lemma runnable_not_over t r : runnable t = true → thread_stage t ≠ Some (Over r).
Proof. by destruct t as [[]|[]|? [[? []| |]| |]|[[? []| |]| |]|[? []| |]|? [? []| |]|[]]. Qed.

Lemma logged_entries s0 s log n t :
  logged s0 s log → threads s !! n = Some t →
  (∀ a, submits t (shared s) = Some a → thread_stage t = Some (Unsent a)) →
  StronglySorted Z.lt (e_number <$> log ++ logged_by n t (shared s)) ∧
  NoDup (e_thread <$> log ++ logged_by n t (shared s)) ∧
  Forall (λ e, ∃ a, threads s0 !! e_thread e = Some (Calling (CallSend a)) ∧
    request_of a (e_bytes e)) (log ++ logged_by n t (shared s)).
Proof.
  intros Hl Ht Hu. destruct (logged_by_range _ _ _ _ _ Hl Ht) as (_ & Hr & Hn).
  pose proof Hl as []. unfold logged_by in *.
  destruct (submits t (shared s)) as [a|] eqn:Ea; [|by rewrite app_nil_r].
  destruct (Hn a eq_refl (Hu a eq_refl)) as [Ha Hnin].
  apply Forall_singleton in Hr as [_ Hr]. cbn in Hr.
  rewrite !fmap_app. cbn. split_and!.
  - apply sorted_snoc; [done|]. apply Forall_fmap. eapply Forall_impl; [exact lg_range0|].
    cbn. intros e [_ ?]. lia.
  - apply NoDup_app. split; [done|]. split; [|apply NoDup_singleton].
    intros m Hm ->%list_elem_of_singleton. done.
  - apply Forall_app. split; [done|]. apply Forall_singleton. exists a. split; [done|].
    apply submit_request. by eapply submits_idle.
Qed.

Lemma spurious_wakes ts n c k :
  ts !! n = Some (Asleep c k) → Forall2 wakes_up ts (<[n := Woken k]> ts).
Proof.
  intros Ht. apply Forall2_same_length_lookup. split; [by rewrite length_insert|].
  intros m t t' E1 E2. destruct (decide (m = n)) as [->|Hne].
  - rewrite list_lookup_insert_eq in E2 by by eapply lookup_lt_Some. right. exists c, k. split; congruence.
  - rewrite list_lookup_insert_ne in E2 by done. left. congruence.
Qed.

Lemma logged_step s0 s s' log :
  sys_ok lo s → step s s' → logged s0 s log → ∃ log', logged s0 s' log'.
Proof.
  intros Hok Hst Hl. destruct Hst as [n t t' w w' ts ts1 Ht Hrun E Hn|n c k w ts Ht].
  - destruct (run_effect _ _ _ _ _ _ _ Hok Ht Hrun E Hn) as (He & Hs & Hq & Hstage).
    assert (∀ a, submits t w = Some a → thread_stage t = Some (Unsent a)) as Hu.
    { intros a Ea. unfold stage_step in Hstage. rewrite Ea in Hstage. apply Hstage. }
    destruct (logged_entries _ _ _ n t Hl Ht Hu) as (H1 & H2 & H3).
    destruct (logged_by_range _ _ _ n t Hl Ht) as (H4 & H5 & _). cbn in *.
    exists (log ++ logged_by n t w). pose proof Hl as []. unfold last_request in *. cbn in *.
    split; try done; unfold last_request; cbn; rewrite ?Hq.
    + intros He'. rewrite Hs, lg_stream0, fmap_app, concat_app, app_assoc; [done| |done].
      destruct (has_error w); [by rewrite He in He'|done].
    + apply Forall_app. split.
      * eapply Forall_impl; [exact lg_range0|]. cbn. intros e. lia.
      * eapply Forall_impl; [exact H5|]. cbn. intros e. lia.
    + lia.
    + intros m t2 Hm. destruct (decide (m = n)) as [->|Hne].
      * rewrite list_lookup_insert_eq in Hm.
        2: { rewrite <- (Forall2_length _ _ _ (notified_wakes _ _ _ Hn)). by eapply lookup_lt_Some. }
        injection Hm as <-. eapply stage_logged_step; [exact Hstage|by apply lg_stage0|].
        intros r. by apply runnable_not_over.
      * rewrite list_lookup_insert_ne in Hm by done.
        destruct (Forall2_lookup_r _ _ _ _ _ (notified_wakes _ _ _ Hn) Hm) as (t1 & Ht1 & Hw).
        rewrite (wakes_up_stage _ _ Hw). apply stage_logged_app; [by apply lg_stage0|].
        intros e Hin. eapply Forall_forall in H5; [|exact Hin]. destruct H5 as [-> _]. done.
  - exists log. destruct Hl. split; try done.
    + intros He. rewrite <- lg_stream0 by done. unfold stream_of. cbn.
      pose proof (others_of_wakes _ _ (spurious_wakes _ _ _ k Ht)) as [= _ _ _ _ ->]. done.
    + intros m t2 Hm.
      destruct (Forall2_lookup_r _ _ _ _ _ (spurious_wakes _ _ _ k Ht) Hm) as (t1 & Ht1 & Hw).
      rewrite (wakes_up_stage _ _ Hw). by apply lg_stage0.
Qed.

Lemma logged_steps s0 s : sys_init lo s0 → rtc step s0 s → ∃ log, logged s0 s log.
Proof.
  intros Hi Hst. enough (sys_ok lo s ∧ ∃ log, logged s0 s log) as [_ ?] by done.
  revert s Hst. apply rtc_ind_r.
  - split; [by apply sys_init_ok|]. eexists. by apply logged_init.
  - intros s1 s2 _ Hst [Hok (log & Hl)]. split; [by eapply sys_ok_step|]. by eapply logged_step.
Qed.

(** C4. In every interleaving without an error of the connection, what has been put
    on the stream (sent, in flight or queued) is a sequence of whole requests of
    the calling threads, at most one per thread, in the order of their sequence
    numbers; and a call of [xcb_send_request] that has returned a number other
    than 0 returned that of its own request. *)
Theorem threads_stream s0 s :
  sys_init lo s0 → rtc step s0 s → has_error (shared s) = false →
  ∃ log : list entry,
    stream_of s = stream_of s0 ++ concat (e_bytes <$> log) ∧
    StronglySorted Z.lt (e_number <$> log) ∧
    Forall (λ e, last_request s0 < e_number e <= last_request s) log ∧
    NoDup (e_thread <$> log) ∧
    Forall (λ e, ∃ a, threads s0 !! e_thread e = Some (Calling (CallSend a)) ∧
      request_of a (e_bytes e)) log ∧
    ∀ n r, threads s !! n = Some (Finished (OutSequence r)) → r ≠ 0 →
      ∃ e, e ∈ log ∧ e_thread e = n ∧ u32 (e_number e) = r.
Proof.
  intros Hi Hst He. destruct (logged_steps _ _ Hi Hst) as (log & []).
  exists log. split_and!; try done; [by apply lg_stream0|].
  intros n r Hn Hr. apply lg_stage0 in Hn as [->|Hx]; [done|exact Hx].
Qed.
End Stream.

(** ** The hypotheses can hold *)

Section Witnesses.
#[local] Existing Instances sample_host sample_proto.

Definition sample_send (data : list byte) : call :=
  CallSend (SendArgs 0 2 [data] 0 WORKAROUND_NONE true).

(** Two threads send a request each, and one of them flushes. *)
Definition senders : system :=
  System (sample_world (sample_in []) (sample_out [] 0 0) (sample_os [] [PollReady POLLOUT] []))
    [Calling (sample_send (bytes_of [8; 0; 1; 0])); Calling (sample_send (bytes_of [9; 0; 1; 0]));
     Calling CallFlush].

Definition senders_end : system := after_schedule [1;0;1;0;2;2;2;2]%nat senders.

Lemma senders_init : sys_init 0 senders.
Proof.
  split; try done; cbn; try lia.
  repeat constructor; eexists; (split; [reflexivity|]); cbn; try done;
    (split; [cbn; lia|split; [repeat constructor|]]); by vm_compute.
Qed.

Lemma threads_stream_witness :
  ∃ log : list entry,
    stream_of senders_end = stream_of senders ++ concat (e_bytes <$> log) ∧
    StronglySorted Z.lt (e_number <$> log) ∧
    Forall (λ e, last_request senders < e_number e <= last_request senders_end) log ∧
    NoDup (e_thread <$> log) ∧
    Forall (λ e, ∃ a, threads senders !! e_thread e = Some (Calling (CallSend a)) ∧
      request_of a (e_bytes e)) log ∧
    ∀ n r, threads senders_end !! n = Some (Finished (OutSequence r)) → r ≠ 0 →
      ∃ e, e ∈ log ∧ e_thread e = n ∧ u32 (e_number e) = r.
Proof.
  apply (threads_stream 0 senders senders_end senders_init).
  - apply after_schedule_run. by vm_compute.
  - by vm_compute.
Defined.
End Witnesses.
