(* ===== verification/StreamLog.v ===== *)
(** * The server's stream, packet by packet

    A reference decoder: how the bytes of the server fall into packets, which
    request each of them belongs to and what the application is to get of it.  It
    knows nothing of the connection's queues; [tracks] ties the packets the library
    reads to it. *)
From S2P Require Import Prelude Effects Seq XcbMap State In InFrame InFacts Demux Conn Chunks Arrivals.
From S2P Require Import Out OutFacts Request Mailbox MailboxProps Delivery.
From stdpp Require Import functions list.
#[local] Open Scope Z_scope.

#[export] Instance packet_label_dec l : Decision (packet_label l).
Proof. destruct l; apply _. Defined.

(** The packets in a log. *)
Definition packets (ls : list label) : list label := filter packet_label ls.

Lemma packets_app ls1 ls2 : packets (ls1 ++ ls2) = packets ls1 ++ packets ls2.
Proof. apply filter_app. Qed.

Lemma packets_all ls : Forall packet_label ls → packets ls = ls.
Proof. induction 1; [done|]. unfold packets. rewrite filter_cons_True by done. by f_equal. Qed.

(** What an application hears of the replies is decided by the packets alone. *)
Lemma replies_got_packets s fl ls : replies_got s fl (packets ls) = replies_got s fl ls.
Proof.
  induction ls as [|l ls IH]; [done|]. unfold packets in *. rewrite filter_cons.
  destruct (decide (packet_label l)) as [Hl|Hl].
  - by rewrite replies_got_cons, IH, <- replies_got_cons.
  - rewrite IH. by destruct l; first [done|by destruct Hl].
Qed.

Section Decoder.
Context `{Host} `{XProto}.

Definition packet_type (p : list byte) : Z := response_type (parse_generic_reply p).

(** The full number of the request the packet [p] belongs to, after a packet for
    request [read]: the next one with the packet's 16 bits. *)
Definition full_number (read : Z) (p : list byte) : Z :=
  if Z.land (packet_type p) 0x7f =? XCB_KEYMAP_NOTIFY then read
  else read + (sequence (parse_generic_reply p) - read) mod 2 ^ 16.

(** The buffer the application gets: replies as they are, errors and events with
    the full number behind their first 32 bytes. *)
Definition buffer_of (s : Z) (p : list byte) : list byte :=
  if packet_type p =? XCB_REPLY then p
  else take 32 p ++ host_bytes 4 s ++ drop 32 p.

Fixpoint numbered (read : Z) (ps : list (list byte)) : list label :=
  match ps with
  | [] => []
  | p :: ps' =>
      let s := full_number read p in Got s (packet_type p) (buffer_of s p) :: numbered s ps'
  end.

Definition number_after (read : Z) (ps : list (list byte)) : Z := foldl full_number read ps.

(** [p] is as long as its header says: replies and generic events have a length in
    words; a reply to GLX's GetFBConfigs may have it in two fields. *)
Definition framed (p : list byte) : Prop :=
  let words := field 4 4 p in
  if packet_type p =? XCB_REPLY then
    zlength p = 32 + (4 * words) mod 2 ^ 32 ∨
    zlength p = 32 + (8 * (field 8 4 p * field 12 4 p)) mod 2 ^ 32
  else if packet_type p =? XCB_XGE_EVENT then zlength p = 32 + (4 * words) mod 2 ^ 32
  else zlength p = 32.

(** Between [w] and [w'] the packets [ps] have been read off the stream, and they are
    those of the log [ls]. *)
Definition tracks (w : world) (ls : list label) (w' : world) : Prop :=
  ∃ ps, input w = concat ps ++ input w' ∧ Forall framed ps ∧
    packets ls = numbered (request_read (w_in w)) ps ∧
    request_read (w_in w') = number_after (request_read (w_in w)) ps.

Lemma numbered_app read ps1 ps2 :
  numbered read (ps1 ++ ps2) = numbered read ps1 ++ numbered (number_after read ps1) ps2.
Proof. revert read. induction ps1 as [|p ps1 IH]; intros read; [done|]. cbn. by rewrite IH. Qed.

Lemma tracks_trans w1 ls1 w2 ls2 w3 :
  tracks w1 ls1 w2 → tracks w2 ls2 w3 → tracks w1 (ls1 ++ ls2) w3.
Proof.
  intros (ps1 & E1 & F1 & L1 & R1) (ps2 & E2 & F2 & L2 & R2). exists (ps1 ++ ps2).
  rewrite concat_app, packets_app, numbered_app. unfold number_after in *. rewrite foldl_app.
  split_and!; [by rewrite E1, E2, app_assoc|by apply Forall_app|by rewrite L1, L2, R1|by rewrite R2, R1].
Qed.

(** Nothing has been taken off the stream. *)
Definition same_input (w w' : world) : Prop :=
  input w' = input w ∧ request_read (w_in w') = request_read (w_in w).

#[export] Instance same_input_preorder : PreOrder same_input.
Proof. split; unfold same_input; [by intros ?|intros ??? [] []; split; congruence]. Qed.

Lemma tracks_same w ls w' : same_input w w' → packets ls = [] → tracks w ls w'.
Proof. intros [Hi Hr] Hl. exists []. by rewrite Hi. Qed.

Lemma answers_number w s :
  answers (front_header w) (w_in w) s → s = full_number (request_read (w_in w)) (in_queue (w_in w)).
Proof.
  unfold answers, full_number, packet_type, front_header. destruct (_ =? XCB_KEYMAP_NOTIFY); [done|].
  intros [Hs ->]. words.
Qed.

Lemma glx_words a b : u32 (u32 (u32 (a * b) * 2) * 4) = (8 * (a * b)) mod 2 ^ 32.
Proof.
  unfold u32. rewrite Z.mul_mod_idemp_l, <- Z.mul_assoc, Z.mul_mod_idemp_l by lia. f_equal. lia.
Qed.

Lemma front_framed w : front_complete w → framed (take (Z.to_nat (front_length w)) (in_queue (w_in w))).
Proof.
  intros (Hl1 & Hl2 & Hq & Hb). set (q := in_queue (w_in w)) in *.
  set (p := take (Z.to_nat (front_length w)) q).
  assert (32 <= front_length w) as Hl by (unfold front_length; lia).
  assert (zlength p = front_length w) as Hp by (apply zlength_take; lia).
  assert (∀ off n, (off + n <= 32)%nat → field off n q = field off n p) as Hf.
  { intros off n Hon. rewrite <- (take_drop (Z.to_nat (front_length w)) q). fold p.
    apply field_app_l. unfold zlength in Hp. lia. }
  assert (front_header w = parse_generic_reply p) as Hh.
  { unfold front_header, parse_generic_reply. fold q. by rewrite !Hf by lia. }
  unfold framed. rewrite Hp. unfold front_length, front_lengths, packet_lengths, packet_type in *.
  rewrite Hh in *. fold q in Hl1, Hl2, Hq, Hb |- *. rewrite !Hf in * by lia.
  change (reply_length (parse_generic_reply p)) with (field 4 4 p) in *. cbv zeta.
  destruct (response_type (parse_generic_reply p) =? XCB_REPLY);
    [|destruct (response_type (parse_generic_reply p) =? XCB_XGE_EVENT)]; cbn [fst snd] in *.
  - assert (∀ n, 32 <= s32 (32 + u32 n) < 2 ^ 31 → s32 (32 + u32 n) = 32 + u32 n) as Hn by (intros; words).
    rewrite Z.add_0_r in *. rewrite Hn by lia.
    assert (u32 (field 4 4 p * 4) = (4 * field 4 4 p) mod 2 ^ 32) as Hw by (unfold u32; f_equal; lia).
    destruct (front_pend w) as [pd|]; [destruct (bool_decide _)|]; [right|by left; f_equal..].
    by rewrite glx_words.
  - assert (s32 (u32 (field 4 4 p * 4)) = u32 (field 4 4 p * 4)) as -> by words.
    unfold u32. f_equal. f_equal. lia.
  - lia.
Qed.

Lemma take_take_drop {A} (n m : nat) (l : list A) : take n l ++ take m (drop n l) = take (n + m) l.
Proof.
  rewrite <- (take_drop n l) at 3. destruct (decide (n <= length l)%nat).
  - rewrite take_app_ge by (rewrite length_take; lia). do 2 f_equal. rewrite length_take. lia.
  - rewrite !drop_ge, !take_ge by lia. cbn. rewrite app_nil_r. by rewrite !take_nil, app_nil_r, take_ge by lia.
Qed.

(** A packet that is read leaves the stream, with its number and its buffer. *)
Lemma read_packet_tracks w s w' :
  no_oom w → front_complete w → answers (front_header w) (w_in w) s →
  request_read (front_state w) = s → read_packet w = Ret true w' →
  ∃ p, in_queue (w_in w) = p ++ in_queue (w_in w') ∧ framed p ∧ request_read (w_in w') = s ∧
    s = full_number (request_read (w_in w)) p ∧
    Got s (response_type (front_header w)) (front_buffer w) = Got s (packet_type p) (buffer_of s p).
Proof.
  intros Ho Hc Ha Hs E. rewrite read_packet_front in E by done. pose proof (front_framed w Hc) as Hf.
  destruct Hc as (Hl1 & Hl2 & Hq & Hb).
  set (q := in_queue (w_in w)) in *. set (p := take (Z.to_nat (front_length w)) q) in *.
  assert (q = p ++ drop (Z.to_nat (front_length w)) q) as Ep
    by (symmetry; apply take_drop).
  assert (zlength p = front_length w) as Hp by (apply zlength_take; unfold front_length in *; lia).
  assert (parse_generic_reply q = parse_generic_reply p) as Hh.
  { rewrite Ep. apply parse_prefix. unfold front_length in *. lia. }
  exists p. injection E as <-.
  assert (∀ i b, in_queue (store (front_destination w) b i) = in_queue i ∧
    request_read (store (front_destination w) b i) = request_read i) as Hst.
  { intros i b. by destruct (front_destination w). }
  cbn [w_in set_w_in with_signals set_w_os]. rewrite !(proj1 (Hst _ _)), !(proj2 (Hst _ _)).
  split_and!; [done..| |].
  - apply answers_number in Ha. unfold full_number, packet_type in *. fold q in Ha. by rewrite <- Hh.
  - assert (front_header w = parse_generic_reply p) as Hh' by done.
    unfold packet_type. rewrite <- Hh'. f_equal. unfold front_buffer, packet_buffer, buffer_of, packet_type.
    rewrite Hs, <- Hh'. fold q. destruct (_ =? XCB_REPLY) eqn:Er.
    + unfold p, front_length, front_lengths. by rewrite packet_lengths_reply, Z.add_0_r by done.
    + unfold front_lengths in *. rewrite packet_lengths_other in * by done.
      unfold p, front_length, front_lengths. rewrite packet_lengths_other by done.
      rewrite take_take, skipn_firstn_comm. do 2 f_equal; [f_equal; lia|]. f_equal. f_equal. lia.
Qed.
End Decoder.
