(* ===== verification/ThreadReads.v ===== *)
(** * What the threads read

    The packets a stretch of a thread reads, seen from the mailbox: the condition
    that the server answers what it was asked, at the moment the library reads,
    and what [_xcb_in_read] then does. *)
From S2P Require Import Prelude Effects Seq XcbMap State In InFrame InFacts Demux Conn Chunks Arrivals Pieces.
From S2P Require Import Out OutFacts Request Mailbox MailboxProps Delivery StreamLog.
From stdpp Require Import functions list.
#[local] Open Scope Z_scope.

(** ** A server that keeps to the protocol *)

Section Orderly.
Context `{Host} `{XProto}.

(** The packet at the front, with what is still to come of it, answers a request
    that has been sent, and no packet answers a request after its error. *)
Definition front_orderly (w : world) : Prop :=
  front_complete (whole w) ∧ ∃ s, answers (front_header w) (w_in w) s ∧ s <= out_request (w_out w) ∧
    (response_type (front_header w) = XCB_ERROR ∨ response_type (front_header w) = XCB_REPLY →
     request_completed (w_in w) < s).

(** So do the packets [read_packets] goes on to read. *)
Fixpoint orderly (fuel : nat) (w : world) : Prop :=
  match fuel with
  | O => True
  | S fuel' =>
      32 <= zlength (in_queue (w_in w)) →
      front_orderly w ∧ ∀ w', read_packet w = Ret true w' → orderly fuel' w'
  end.

(** And those that [_xcb_in_read] finds after its [recv]. *)
Definition orderly_read (w : world) : Prop :=
  ∀ r w1, recv (IN_QUEUE_SIZE - zlength (in_queue (w_in w))) w = Ret r w1 →
    let q := in_queue (w_in w) ++ match r with Received bs => bs | _ => [] end in
    orderly (S (length q)) (with_in_queue q w1).

(** ** Reading *)

Lemma read_packet_mail lo w m b w' :
  Rel lo w m → 32 <= zlength (in_queue (w_in w)) → front_orderly w →
  read_packet w = Ret b w' → has_error w' = false →
  b = true ∧ ∃ l m', packet_label l ∧ mstep m l m' ∧ Rel lo w' m' ∧ tracks w [l] w'.
Proof.
  intros Hr Hq (Hc & s & Ha & Hs & Hsane) E He. pose proof (rel_oom _ _ _ Hr) as Hoom.
  destruct (read_packet_arrives w b w' Hoom Hq Hc E He) as [-> E'].
  destruct (front_whole w Hq) as (Eh & _). split; [done|]. rewrite <- Eh in Ha.
  set (l := Got s (response_type (front_header (whole w))) (front_buffer (whole w))).
  destruct (step_refines lo (whole w) m l (whole w')) as (m' & Hm & Hr'); [by apply rel_whole| |].
  { apply CGot; [done|exact Ha|done|by rewrite Eh|done]. }
  destruct (front_pending lo (whole w) m s (rel_whole _ _ _ Hr) Ha Hs) as (Hread & _).
  destruct (read_packet_tracks (whole w) s (whole w') Hoom Hc Ha Hread E') as (p & Hi & Hf & Hs' & Hn & Hg).
  change (s = full_number (request_read (w_in w)) p) in Hn.
  exists l, m'. split; [done|split; [exact Hm|split; [by apply whole_rel|]]].
  exists [p]. unfold l, number_after. rewrite Hg. cbn [numbered concat foldl]. rewrite app_nil_r, <- Hn.
  split_and!; [exact Hi|by constructor|done..].
Qed.

Lemma read_packets_mail lo fuel : ∀ w m w',
  Rel lo w m → orderly fuel w → read_packets fuel w = Ret () w' → has_error w' = false →
  ∃ ls m', Forall packet_label ls ∧ mrun m ls m' ∧ Rel lo w' m' ∧ tracks w ls w'.
Proof.
  induction fuel as [|fuel IH]; intros w m w' Hr Ho E He; [done|]. cbn [read_packets] in E.
  apply bind_inv in E as (b & w1 & E1 & E).
  destruct (decide (32 <= zlength (in_queue (w_in w)))) as [Hq|Hq].
  - destruct (Ho Hq) as [Hf Hn].
    assert (has_error w1 = false) as He1.
    { destruct (has_error w1) eqn:Hx; [|done]. destruct b.
      - by rewrite (side_error _ _ (obeys_read_packets _ _ _ _ E) Hx) in He.
      - injection E as <-. congruence. }
    destruct (read_packet_mail lo w m b w1 Hr Hq Hf E1 He1) as (-> & l & m1 & Hl & Hm & Hr1 & Ht).
    destruct (IH w1 m1 w' Hr1 (Hn _ E1) E He) as (ls & m2 & Hls & Hm2 & Hr2 & Ht2).
    exists (l :: ls), m2. split; [by constructor|]. split; [by econstructor|]. split; [done|].
    by apply (tracks_trans w [l] w1).
  - unfold read_packet in E1. rewrite bind_gets in E1. unfold compose in E1.
    destruct (Z.ltb_spec (zlength (in_queue (w_in w))) 32); [|lia].
    injection E1 as <- <-. injection E as <-. exists [], m.
    split_and!; [done|constructor|done|by apply tracks_same].
Qed.

(** Nothing of the mailbox is in the input queue and the tapes. *)
Lemma rel_input lo w w' m :
  Rel lo w m → (∃ q, w_in w' = set_in_queue q (w_in w)) → w_out w' = w_out w →
  os_mallocs (w_os w') = os_mallocs (w_os w) → Rel lo w' m.
Proof.
  intros [] (q & Hi) Ho Hm. split; unfold no_oom in *; rewrite ?Hi, ?Ho, ?Hm; try done.
  by apply (sim_view lo _ (w_in w)); [|left|].
Qed.

Lemma in_read_mail lo w m b w' :
  Rel lo w m → orderly_read w → _xcb_in_read w = Ret b w' → has_error w' = false →
  ∃ ls m', Forall packet_label ls ∧ mrun m ls m' ∧ Rel lo w' m' ∧ tracks w ls w'.
Proof.
  intros Hr Ho E He. unfold _xcb_in_read in E. rewrite bind_gets in E. unfold compose in E.
  apply bind_inv in E as (r & w1 & E1 & E). specialize (Ho r w1 E1). cbv zeta in *.
  destruct (recv_frame _ _ _ _ E1) as (Hi & Hout & Hm & Hst).
  set (q := in_queue (w_in w) ++ _) in *. unfold modify_in in E. rewrite bind_modify in E.
  apply bind_inv in E as ([] & w2 & E2 & E).
  assert (Rel lo (with_in_queue q w1) m) as Hr1.
  { apply (rel_input lo w); [done| |done|done]. exists q. cbn. by rewrite Hi. }
  assert (tracks w [] (with_in_queue q w1)) as Ht.
  { apply tracks_same; [|done]. split; [|cbn; by rewrite Hi].
    unfold input. cbn. subst q. by rewrite Hst, app_assoc. }
  assert (w' = w2) as ->.
  { destruct r as [[|]| |]; try (injection E as _ <-; done);
      apply bind_inv in E as ([] & w3 & E3 & E4); injection E3 as <-; injection E4 as _ <-; by cbn in He. }
  destruct (read_packets_mail lo _ _ _ _ Hr1 Ho E2 He) as (ls & m' & ? & ? & ? & Ht2).
  exists ls, m'. split_and!; [done..|]. by apply (tracks_trans w [] (with_in_queue q w1)).
Qed.
End Orderly.
