(* ===== verification/ThreadMail.v ===== *)
(** * The threads and the mailbox

    The input side under any interleaving of threads is one run of the mailbox of
    Mailbox.v, in which every call that returns has done the one operation it
    was made for. *)
From S2P Require Import Prelude Effects Seq XcbMap State In InFrame InFacts Demux Conn Chunks.
From S2P Require Import Out OutFacts OutProps Wait Request RequestFacts Threads ThreadFacts ThreadInv.
From S2P Require Import ThreadsProps ThreadStream PublicProps Mailbox MailboxProps Delivery StreamLog.
From S2P Require Import ThreadReads.
From S2P Require Import Sample.
From stdpp Require Import functions list.
#[local] Open Scope Z_scope.

(** ** Calls and what has become of them *)

Definition after_call (k : after) (c : call) : Prop :=
  match k, c with
  | ThenReturn, CallFlush => True
  | ThenAwait q e, CallWaitForReply q' e' => q' = q ∧ e' = e
  | ThenSent _, CallSend _ => True
  | _, _ => False
  end.

Definition io_call (i : io) (c : call) : Prop :=
  match i with
  | Sending _ k => after_call k c
  | AwaitingReply q e _ => c = CallWaitForReply q e
  | AwaitingEvent => c = CallWaitForEvent
  end.

Definition task_call (k : task) (c : call) : Prop :=
  match k with
  | Io i => io_call i c
  | Flushing _ a => after_call a c
  | Claiming a => c = CallSend a
  end.

(** The thread is executing [c]. *)
Definition thread_call (t : thread) (c : call) : Prop :=
  match t with
  | Calling c' => c' = c
  | Entering c' => c' = c ∧ trivial_call c = false
  | Asleep _ k | Woken k => task_call k c
  | Polling i | Threads.Polled _ i => io_call i c
  | Finished _ => False
  end.

(** The labels of an application's own operations. *)
Definition is_result (l : label) : Prop :=
  match l with Polled _ _ _ | Event _ | Discarded _ => True | _ => False end.

#[export] Instance is_result_dec l : Decision (is_result l).
Proof. destruct l; apply _. Defined.

(** A call [c] that has returned [o] is the operations [l]. *)
Definition outcome_ok (c : call) (o : outcome) (l : list label) : Prop :=
  match c, o with
  | CallWaitForReply q e, OutReply r => ∃ x, q = u32 x ∧ l = [Polled x e (Some r)]
  | CallPollForReply q e, OutPolled r => ∃ x, q = u32 x ∧ l = [Polled x e r]
  | (CallWaitForEvent | CallPollForEvent), OutEvent r => l = [Event r]
  | CallDiscardReply q, OutUnit => q = 0 ∧ l = [] ∨ ∃ x, q = u32 x ∧ l = [Discarded x]
  | CallFlush, OutBool _ | CallSend _, OutSequence _ => l = []
  | _, _ => False
  end.

(** The operations of a thread up to now: none before it returns. *)
Definition results_ok (c : call) (t : thread) (l : list label) : Prop :=
  match t with Finished o => outcome_ok c o l | _ => thread_call t c ∧ l = [] end.

(** ** Computations that the mailbox does not see *)

Definition silent (w w' : world) : Prop :=
  w_in w' = set_readers (readers (w_in w')) (set_in_reading (in_reading (w_in w')) (w_in w)) ∧
  out_request (w_out w') = out_request (w_out w) ∧
  out_return_socket (w_out w') = out_return_socket (w_out w) ∧
  os_mallocs (w_os w') = os_mallocs (w_os w) ∧ os_recvs (w_os w') = os_recvs (w_os w) ∧
  stays_failed w w'.

#[export] Instance silent_preorder : PreOrder silent.
Proof.
  split.
  - intros w. split_and!; try done. by destruct w as [? ? ? []].
  - intros w1 w2 w3 (E & ? & ? & ? & ? & Hf) (E' & ? & ? & ? & ? & Hf').
    split_and!; try congruence; [|intros ?; by apply Hf', Hf].
    rewrite E' at 1. by rewrite E.
Qed.

Ltac silent_tac :=
  apply obeys_modify; let v := fresh in
  intros v; split_and!; try done; try (intros ?; done); by destruct v as [? ? ? []].
#[export] Hint Extern 1 (obeys silent (modify _)) => silent_tac : obeys.
#[export] Hint Extern 1 (obeys silent (modify_in _)) => silent_tac : obeys.
#[export] Hint Extern 1 (obeys silent (modify_out _)) => silent_tac : obeys.
#[export] Hint Extern 1 (obeys silent (modify_os _)) => silent_tac : obeys.
#[export] Hint Extern 1 (obeys silent _xcb_conn_shutdown) => silent_tac : obeys.

Section Silent.
Context `{Host} `{XProto}.

Lemma silent_unlock l : obeys silent (pthread_mutex_unlock l).
Proof.
  unfold pthread_mutex_unlock. apply obeys_bind; [apply _|auto with obeys|]. intros h.
  destruct (decide _); auto with obeys.
Qed.

Lemma silent_lock l : obeys silent (pthread_mutex_lock l).
Proof.
  unfold pthread_mutex_lock. apply obeys_bind; [apply _|auto with obeys|]. intros h.
  destruct (decide _); auto with obeys.
Qed.
#[local] Hint Resolve silent_unlock silent_lock : obeys.

Lemma silent_release t : obeys silent (release t).
Proof. unfold release. obeys_auto. Qed.

Lemma silent_wake_up : obeys silent _xcb_in_wake_up_next_reader.
Proof. unfold _xcb_in_wake_up_next_reader, pthread_cond_signal. obeys_auto. Qed.
#[local] Hint Resolve silent_release silent_wake_up : obeys.

Lemma silent_begin_wait c i : obeys silent (begin_wait c i).
Proof. unfold begin_wait, enter_poll. obeys_auto. Qed.

Lemma silent_end_reply res : obeys silent (end_reply res).
Proof. unfold end_reply. obeys_auto. Qed.

Lemma silent_leave_reply r res : obeys silent (leave_reply r res).
Proof. unfold leave_reply, end_reply. obeys_auto. Qed.

Lemma silent_leave_event r : obeys silent (leave_event r).
Proof. unfold leave_event. obeys_auto. Qed.

Lemma silent_fill_queue slots v : obeys silent (fill_queue slots v).
Proof. revert slots. induction v; intros slots; cbn [fill_queue]; obeys_auto. Qed.

Lemma silent_poll_socket v : obeys silent (poll_socket v).
Proof. unfold poll_socket, poll. cbv zeta. obeys_auto. Qed.

Lemma silent_write_vec v : obeys silent (write_vec v).
Proof.
  assert (∀ n, obeys silent (advance_iov n v)) as Ha.
  { induction v; intros n; cbn [advance_iov]; cbv zeta; obeys_auto. }
  unfold write_vec, writev. cbv zeta. obeys_auto.
Qed.
End Silent.
#[export] Hint Resolve silent_unlock silent_lock silent_release silent_wake_up silent_begin_wait : obeys.
#[export] Hint Resolve silent_end_reply silent_leave_reply silent_leave_event : obeys.
#[export] Hint Resolve silent_fill_queue silent_poll_socket silent_write_vec : obeys.

(** ** Computations and their labels *)

Section Emits.
Context `{Host} `{XProto} (lo : Z).

(** Unless the connection is in error then, [m] has made a run of the mailbox from [w],
    with the packets it has taken off the stream; [P] says which operations were in
    it. *)
Definition emits {A} (P : A → list label → Prop) (m : xM A) (w : world) : Prop :=
  ∀ mb a w', Rel lo w mb → m w = Ret a w' → has_error w' = false →
  ∃ ls mb', mrun mb ls mb' ∧ Rel lo w' mb' ∧ tracks w ls w' ∧ P a (filter is_result ls).

Lemma rel_silent w w' m : Rel lo w m → silent w w' → Rel lo w' m.
Proof.
  intros Hr (Hi & Ho & _ & Hm & _ & _). pose proof (rel_oom _ _ _ Hr) as Hoom.
  apply (rel_alike lo w); [|done]. split_and!; [by eexists _, _|done|done|].
  unfold no_oom in *. congruence.
Qed.

Lemma silent_same_input w w' : silent w w' → same_input w w'.
Proof. intros (Hi & _ & _ & _ & Hr & _). unfold same_input, input. by rewrite Hr, Hi. Qed.

Lemma emits_silent {A} (P : A → list label → Prop) m w :
  obeys silent m → (∀ a w', m w = Ret a w' → P a []) → emits P m w.
Proof.
  intros Hs Hp mb a w' Hr E _. exists [], mb. split; [constructor|]. pose proof (Hs _ _ _ E) as Hsil.
  split; [by eapply rel_silent|]. split; [by apply tracks_same; [apply silent_same_input|]|by eapply Hp].
Qed.

Lemma emits_thread (P : thread → list label → Prop) m w :
  obeys silent m → yields (λ t, P t []) m → emits P m w.
Proof. intros Hs Hy. apply emits_silent; [done|]. intros a w' E. by eapply Hy. Qed.

Lemma emits_bind {A B} (P : A → list label → Prop) (Q : B → list label → Prop) m k w :
  emits P m w → (∀ a, obeys stays_failed (k a)) →
  (∀ a w' l, m w = Ret a w' → P a l → emits (λ b l', Q b (l ++ l')) (k a) w') →
  emits Q (bind m k) w.
Proof.
  intros Hm Hf Hk mb b w' Hr (a & w1 & E1 & E2)%bind_inv He.
  assert (has_error w1 = false) as He1.
  { destruct (has_error w1) eqn:Hx; [|done]. by rewrite (Hf _ _ _ _ E2 Hx) in He. }
  destruct (Hm _ _ _ Hr E1 He1) as (ls & m1 & Hm1 & Hr1 & Ht1 & Hp).
  destruct (Hk _ _ _ E1 Hp _ _ _ Hr1 E2 He) as (ls2 & m2 & Hm2 & Hr2 & Ht2 & Hq).
  exists (ls ++ ls2), m2. rewrite filter_app.
  split_and!; [by eapply mrun_app|done|by eapply tracks_trans|done].
Qed.

Lemma emits_bind_silent {A B} (Q : B → list label → Prop) (m : xM A) k w :
  obeys silent m → (∀ a w', m w = Ret a w' → silent w w' → emits Q (k a) w') →
  emits Q (bind m k) w.
Proof.
  intros Hm Hk mb b w' Hr (a & w1 & E1 & E2)%bind_inv He. pose proof (Hm _ _ _ E1) as Hs.
  destruct (Hk _ _ E1 Hs _ _ _ (rel_silent _ _ _ Hr Hs) E2 He) as (ls & m2 & ? & ? & ? & ?).
  exists ls, m2. split_and!; [done..| |done]. apply (tracks_trans w [] w1); [|done].
  by apply tracks_same; [apply silent_same_input|].
Qed.

Lemma emits_mono {A} (P Q : A → list label → Prop) m w :
  emits P m w → (∀ a l, P a l → Q a l) → emits Q m w.
Proof.
  intros Hm Hpq mb a w' Hr E He. destruct (Hm _ _ _ Hr E He) as (ls & m' & ? & ? & ? & ?). eauto 10.
Qed.

Lemma emits_failed {A} (P : A → list label → Prop) m w :
  has_error w = true → obeys stays_failed m → emits P m w.
Proof. intros Hx Hf mb a w' _ E He. by rewrite (Hf _ _ _ E Hx) in He. Qed.

Lemma emits_fault {A} (P : A → list label → Prop) f w : emits P (fail f) w.
Proof. by intros mb a w' _ ?. Qed.

(** ** The stretches *)

(** Request [x], with the 32-bit number [q], has been sent. *)
Definition asked (x q : Z) (w : world) : Prop :=
  q = u32 x ∧ u32 x ≠ 0 ∧ lo <= x <= out_request (w_out w).

Lemma asked_silent x q w w' : asked x q w → silent w w' → asked x q w'.
Proof. intros (? & ? & ?) (_ & Ho & _). unfold asked. by rewrite Ho. Qed.

Ltac failed_tac := apply obeys_modify; by intros ? ?.
#[local] Hint Extern 1 (obeys stays_failed (modify_in _)) => failed_tac : obeys.
#[local] Hint Extern 1 (obeys stays_failed (modify_out _)) => failed_tac : obeys.
#[local] Hint Extern 1 (obeys stays_failed (modify_os _)) => failed_tac : obeys.
#[local] Hint Extern 1 (obeys stays_failed _xcb_conn_shutdown) => failed_tac : obeys.

Lemma silent_failed {A} (m : xM A) : obeys silent m → obeys stays_failed m.
Proof. intros Hm w a w' E. apply (Hm w a w' E). Qed.

Lemma in_side_failed {A} (m : xM A) : obeys in_side m → obeys stays_failed m.
Proof. intros Hm w a w' E. exact (side_error _ _ (Hm w a w' E)). Qed.

Lemma failed_reply_loop q e id : obeys stays_failed (reply_loop q e id).
Proof.
  unfold reply_loop. pose proof (in_side_failed _ (obeys_poll_for_reply q e)).
  assert (∀ r res, obeys stays_failed (leave_reply r res)) by (intros; apply silent_failed; auto with obeys).
  assert (∀ c i, obeys stays_failed (begin_wait c i)) by (intros; apply silent_failed; auto with obeys).
  obeys_auto.
Qed.

Lemma failed_event_loop : obeys stays_failed event_loop.
Proof.
  unfold event_loop. pose proof (in_side_failed _ obeys_get_event).
  assert (∀ r, obeys stays_failed (leave_event r)) by (intros; apply silent_failed; auto with obeys).
  assert (∀ c i, obeys stays_failed (begin_wait c i)) by (intros; apply silent_failed; auto with obeys).
  obeys_auto.
Qed.

Lemma failed_continue k r : obeys stays_failed (continue k r).
Proof.
  pose proof failed_reply_loop.
  assert (∀ t, obeys stays_failed (release t)) by (intros; apply silent_failed; auto with obeys).
  assert (∀ res, obeys stays_failed (end_reply res)) by (intros; apply silent_failed; auto with obeys).
  unfold continue, enter_reply. obeys_auto.
Qed.

Lemma failed_end_send k r : obeys stays_failed (end_send k r).
Proof.
  unfold end_send, pthread_cond_broadcast. pose proof failed_continue.
  pose proof (silent_failed _ silent_wake_up). obeys_auto.
Qed.

Lemma failed_out_send v k : obeys stays_failed (out_send v k).
Proof.
  unfold out_send. pose proof failed_end_send.
  assert (∀ c i, obeys stays_failed (begin_wait c i)) by (intros; apply silent_failed; auto with obeys).
  obeys_auto.
Qed.

Lemma failed_write slots v k : obeys stays_failed (write slots v k).
Proof.
  unfold write. pose proof failed_continue. pose proof failed_out_send.
  apply obeys_bind; [apply _|apply silent_failed; auto with obeys|]. intros f.
  destruct f.2; [auto|]. destruct (decide _); [auto with obeys|]. obeys_auto.
Qed.

(** *** Operations that leave the stream alone *)

Ltac input_tac := apply obeys_modify; intros ?; by split.
#[local] Hint Extern 1 (obeys same_input (modify_in _)) => input_tac : obeys.
#[local] Hint Extern 1 (obeys same_input (modify_os _)) => input_tac : obeys.
#[local] Hint Extern 1 (obeys same_input _xcb_conn_shutdown) => input_tac : obeys.

Lemma malloc_same_input n : obeys same_input (malloc n).
Proof. unfold malloc. obeys_auto. Qed.
#[local] Hint Resolve malloc_same_input : obeys.

Lemma poll_same_input request e : obeys same_input (poll_for_reply request e).
Proof. unfold poll_for_reply, return_reply, replies_put. obeys_auto. Qed.

Lemma get_event_same_input : obeys same_input get_event.
Proof. unfold get_event. obeys_auto. Qed.

Lemma discard_same_input request : obeys same_input (discard_reply request).
Proof. unfold discard_reply, insert_pending_discard. obeys_auto. Qed.

(** An operation of the mailbox that takes nothing off the stream, then its return. *)
Lemma tracks_operation l w w1 w2 :
  same_input w w1 → ¬ packet_label l → silent w1 w2 → tracks w [l] w2.
Proof.
  intros Hs Hl Hsil. apply tracks_same; [etransitivity; [done|by apply silent_same_input]|].
  unfold packets. by rewrite filter_cons_False.
Qed.

(** *** Waiting *)

Lemma emits_reply_loop x q e id w :
  asked x q w → emits (results_ok (CallWaitForReply q e)) (reply_loop q e id) w.
Proof.
  intros (-> & Hz & Hx) mb t w' Hr (r & w1 & E1 & E)%bind_inv _.
  destruct (step_polled lo w mb x e r w1 Hr Hz Hx E1) as [Hrm Hr1].
  destruct r as [res|].
  - eexists [Polled x e (Some res)], _. split; [|split; [|split; [|rewrite filter_cons_True by done]]].
    + rewrite Hrm. econstructor; [constructor|constructor].
    + eapply rel_silent; [exact Hr1|]. by eapply silent_leave_reply.
    + by eapply tracks_operation; [by eapply poll_same_input|intros ?|eapply silent_leave_reply].
    + assert (yields (λ t, t = Finished (OutReply res)) (leave_reply (Reader (u32 x) id) res)) as Hy.
      { unfold leave_reply, end_reply. yield_auto. }
      rewrite (Hy _ _ _ E). by exists x.
  - apply poll_none in E1 as ->. exists [], mb. split; [constructor|].
    assert (silent w w') as Hsil by by eapply silent_begin_wait.
    split; [by eapply rel_silent|]. split; [by apply tracks_same; [apply silent_same_input|]|].
    assert (yields (λ t, results_ok (CallWaitForReply (u32 x) e) t [])
      (begin_wait (ReaderCond id) (AwaitingReply (u32 x) e id))) as Hy by by apply yields_begin_wait.
    by eapply Hy.
Qed.

Lemma get_event_none w w' : get_event w = Ret None w' → w' = w.
Proof. unfold get_event. rewrite bind_gets. unfold compose. by destruct (events (w_in w)); intros [= <-]. Qed.

Lemma emits_event_loop w : emits (results_ok CallWaitForEvent) event_loop w.
Proof.
  intros mb t w' Hr (r & w1 & E1 & E)%bind_inv _.
  destruct (step_event lo w mb r w1 Hr E1) as [Hrm Hr1]. destruct r as [ev|].
  - eexists [Event (Some ev)], _. split; [|split; [|split; [|rewrite filter_cons_True by done]]].
    + rewrite Hrm. econstructor; [constructor|constructor].
    + eapply rel_silent; [exact Hr1|]. by eapply silent_leave_event.
    + by eapply tracks_operation; [by eapply get_event_same_input|intros ?|eapply silent_leave_event].
    + assert (yields (λ t, t = Finished (OutEvent (Some ev))) (leave_event (Some ev))) as Hy.
      { unfold leave_event. yield_auto. }
      by rewrite (Hy _ _ _ E).
  - apply get_event_none in E1 as ->. exists [], mb. split; [constructor|].
    assert (silent w w') as Hsil by by eapply silent_begin_wait.
    split; [by eapply rel_silent|]. split; [by apply tracks_same; [apply silent_same_input|]|].
    assert (yields (λ t, results_ok CallWaitForEvent t []) (begin_wait EventCond AwaitingEvent))
      as Hy by by apply yields_begin_wait.
    by eapply Hy.
Qed.

Lemma emits_enter_reply x q e w :
  asked x q w → emits (results_ok (CallWaitForReply q e)) (enter_reply q e) w.
Proof.
  intros Ha. unfold enter_reply.
  do 3 (apply emits_bind_silent; [auto with obeys|]; intros ? ? _ Hs;
    eapply asked_silent in Ha; [|exact Hs]; clear Hs).
  by apply (emits_reply_loop x).
Qed.

(** *** Sending *)

(** The thread is executing [c] and goes on with [k]. *)
Definition going_on (k : after) (c : call) (w : world) : Prop :=
  after_call k c ∧ ∀ q e, k = ThenAwait q e → ∃ x, asked x q w.

Lemma going_on_silent k c w w' : going_on k c w → silent w w' → going_on k c w'.
Proof.
  intros [Hc Ha] Hs. split; [done|]. intros q e Hk. destruct (Ha q e Hk) as (x & Hx).
  exists x. by eapply asked_silent.
Qed.

Lemma emits_continue k c r w :
  going_on k c w → r = true ∨ has_error w = true → emits (results_ok c) (continue k r) w.
Proof.
  intros [Hc Ha] [->|He]; [|by apply emits_failed; [|apply failed_continue]].
  destruct k as [|q e|q]; cbn [continue]; cbn [after_call] in Hc.
  - apply emits_thread; [auto with obeys|]. destruct c; try done. by apply yields_release.
  - destruct c; try done. destruct Hc as [-> ->], (Ha q e eq_refl) as (x & Hx).
    by apply (emits_enter_reply x).
  - apply emits_thread; [obeys_auto|]. destruct c; try done.
    apply yields_bind. intros s. by apply yields_release.
Qed.

Lemma unless_failed_silent (r : bool) w w' :
  r = true ∨ has_error w = true → silent w w' → r = true ∨ has_error w' = true.
Proof. intros [?|He] Hs; [by left|right; by apply Hs]. Qed.

Lemma emits_end_send k c r w :
  going_on k c w → r = true ∨ has_error w = true → emits (results_ok c) (end_send k r) w.
Proof.
  intros Hc Hr. unfold end_send, pthread_cond_broadcast.
  do 3 (apply emits_bind_silent; [auto with obeys|]; intros ? ? _ Hs;
    eapply going_on_silent in Hc; [|exact Hs]; eapply unless_failed_silent in Hr; [|exact Hs]; clear Hs).
  by apply emits_continue.
Qed.

Lemma results_running c t : thread_call t c → results_ok c t [].
Proof. by destruct t. Qed.

Lemma emits_out_send v k c w : going_on k c w → emits (results_ok c) (out_send v k) w.
Proof.
  intros Hc. destruct v as [|b v]; cbn [out_send]; [apply emits_end_send; auto|].
  apply emits_thread; [auto with obeys|]. by apply yields_begin_wait; apply results_running, Hc.
Qed.

Lemma emits_flush_loop q k c w : going_on k c w → emits (results_ok c) (flush_loop q k) w.
Proof.
  intros Hc. unfold flush_loop. apply emits_bind_silent; [auto with obeys|]. intros o w1 _ Hs1.
  destruct (negb _).
  - apply emits_thread; [auto with obeys|]. apply yields_release. apply results_running, Hc.
  - apply emits_bind_silent; [auto with obeys|]. intros [] w2 _ Hs2.
    apply emits_continue; [|by left]. eapply going_on_silent; [|exact Hs2].
    by eapply going_on_silent.
Qed.

Lemma emits_flush_to q k c w : going_on k c w → emits (results_ok c) (flush_to q k) w.
Proof.
  intros Hc. unfold flush_to. apply emits_bind_silent; [auto with obeys|]. intros o w1 _ Hs1.
  eapply going_on_silent in Hc; [|exact Hs1].
  apply emits_bind_silent; [auto with obeys|]. intros [] w2 _ Hs2.
  eapply going_on_silent in Hc; [|exact Hs2]. destruct (XCB_SEQUENCE_COMPARE _ _ _).
  - apply emits_continue; auto.
  - destruct (negb _); [|by apply emits_flush_loop].
    apply emits_bind_silent; [auto with obeys|]. intros [] w3 _ Hs3.
    apply emits_out_send. by eapply going_on_silent.
Qed.

Lemma emits_write slots v k c w : going_on k c w → emits (results_ok c) (write slots v k) w.
Proof.
  intros Hc. unfold write. apply emits_bind_silent; [auto with obeys|]. intros f w1 _ Hs1.
  eapply going_on_silent in Hc; [|exact Hs1]. destruct f.2; [apply emits_continue; auto|].
  destruct (decide _); [apply emits_fault|].
  do 2 (apply emits_bind_silent; [auto with obeys|]; intros ? ? _ Hs;
    eapply going_on_silent in Hc; [|exact Hs]; clear Hs).
  by apply emits_out_send.
Qed.

(** The conditions under which a request can be numbered. *)
Definition sendable (a : send_args) (w : world) : Prop :=
  sa_workaround a ≠ WORKAROUND_EXTERNAL_SOCKET_OWNER ∧ out_return_socket (w_out w) = None ∧
  out_request (w_out w) + 2 - lo < 2 ^ 31 - 1 ∧ out_request (w_out w) + 2 < 2 ^ 63.

Lemma emits_claim a w : sendable a w → emits (results_ok (CallSend a)) (claim a) w.
Proof.
  intros (Hwk & Hn & Hlo & Hb). unfold claim.
  apply emits_bind_silent; [auto with obeys|]. intros writing w1 E1 _. injection E1 as _ <-.
  destruct (negb _).
  { apply emits_thread; [auto with obeys|]. by apply yields_release. }
  apply (emits_bind (λ _ l, l = [])).
  - intros mb n w2 Hr E _. eexists [Sent _ _], _. split; [econstructor; [constructor|constructor]|].
    split; [by eapply step_sent|]. split; [|done].
    pose proof (sim_window _ _ _ (rel_sim _ _ _ Hr)). destruct (rel_window _ _ _ Hr) as (? & ? & ?).
    destruct (number_request_pending _ _ _ _ _ _ _ _ _ (rel_oom _ _ _ Hr) Hn ltac:(lia) E)
      as (Hos & _ & y & Hin).
    apply tracks_same; [|done]. unfold same_input, input. by rewrite Hos, Hin.
  - intros n. apply failed_write.
  - intros n w2 l E ->. by apply emits_write.
Qed.

(** *** Calls *)

(** What a call needs: the requests it names have been sent, and a request to be
    sent can be numbered. *)
Definition call_fits (c : call) (w : world) : Prop :=
  match c with
  | CallWaitForReply q _ | CallPollForReply q _ => ∃ x, asked x q w
  | CallDiscardReply q => q = 0 ∨ ∃ x, asked x q w
  | CallSend a => sendable a w
  | _ => True
  end.

Lemma going_on_fits k c w : after_call k c → call_fits c w → going_on k c w.
Proof.
  intros Hk Hc. split; [done|]. intros q e ->. destruct c; try done. by destruct Hk as [-> ->].
Qed.

Lemma packets_no_results ls : Forall packet_label ls → filter is_result ls = [].
Proof.
  induction 1 as [|l ls Hl _ IH]; [done|]. rewrite filter_cons_False; [done|].
  destruct l; first [done|by intros []].
Qed.

Lemma emits_in_read w : orderly_read w → emits (λ _ l, l = []) _xcb_in_read w.
Proof.
  intros Ho mb b w' Hr E He. destruct (in_read_mail lo w mb b w' Hr Ho E He) as (ls & m' & Hls & ? & ? & ?).
  exists ls, m'. split_and!; [done..|]. by apply packets_no_results.
Qed.

Lemma emits_get_event w : emits (λ r l, l = [Event r]) get_event w.
Proof.
  intros mb r w' Hr E _. destruct (step_event lo w mb r w' Hr E) as [-> Hr'].
  eexists [Event _], _. split; [econstructor; constructor|]. split; [done|].
  split; [by apply tracks_same; [by eapply get_event_same_input|]|]. by rewrite filter_cons_True.
Qed.

Lemma emits_poll_for_event w :
  (events (w_in w) = [] → orderly_read w) → emits (λ r l, l = [Event r]) poll_for_event w.
Proof.
  intros Ho mb r w' Hr E He. unfold poll_for_event in E.
  apply bind_inv in E as (ev & w1 & E1 & E). destruct ev as [ev|].
  { injection E as <- <-. by eapply emits_get_event. }
  assert (events (w_in w) = []) as Hn.
  { unfold get_event in E1. rewrite bind_gets in E1. unfold compose in E1.
    by destruct (events (w_in w)). }
  apply get_event_none in E1 as ->.
  enough (emits (λ r l, l = [Event r])
    (bind _xcb_in_read (λ b, if b then get_event else ret None)) w) as Hm by exact (Hm mb r w' Hr E He).
  apply (emits_bind (λ _ l, l = [])); [by apply emits_in_read, Ho| |].
  - intros b. pose proof (in_side_failed _ obeys_get_event). obeys_auto.
  - intros b w1 l E1 ->. destruct b; [apply emits_get_event|].
    apply emits_failed; [by eapply in_read_false|]. obeys_auto.
Qed.

Lemma emits_begin_call c w :
  call_fits c w → trivial_call c = false →
  (c = CallPollForEvent → events (w_in w) = [] → orderly_read w) →
  emits (results_ok c) (begin_call c) w.
Proof.
  intros Hc Ht Ho. destruct c as [|q e| |q e| |q|a]; cbn [begin_call].
  - apply emits_bind_silent; [auto with obeys|]. intros q w1 E1 _. injection E1 as _ <-.
    by apply emits_flush_to.
  - destruct Hc as (x & Hx). apply emits_bind_silent; [auto with obeys|].
    intros o w1 E1 _. injection E1 as _ <-. destruct (bool_decide _); [by apply (emits_enter_reply x)|].
    apply emits_flush_to. apply going_on_fits; [done|]. by exists x.
  - apply emits_event_loop.
  - destruct Hc as (x & -> & Hz & Hx). apply (emits_bind (λ r l, l = [Polled x e r])).
    + intros mb r w' Hr E _. destruct (step_polled lo w mb x e r w' Hr Hz Hx E) as [-> Hr'].
      eexists [Polled x e _], _. split; [econstructor; constructor|]. split; [done|].
      split; [by apply tracks_same; [by eapply poll_same_input|]|]. by rewrite filter_cons_True.
    + intros r. apply silent_failed. auto with obeys.
    + intros r w' l _ ->. apply emits_thread; [auto with obeys|]. apply yields_release. by exists x.
  - apply (emits_bind (λ r l, l = [Event r])); [by apply emits_poll_for_event, Ho| |].
    + intros r. apply silent_failed. auto with obeys.
    + intros r w' l _ ->. apply emits_thread; [auto with obeys|]. by apply yields_release.
  - destruct Hc as [->|(x & -> & Hz & Hx)]; [done|]. apply (emits_bind (λ _ l, l = [Discarded x])).
    + intros mb [] w' Hr E _. pose proof (step_discarded lo w mb x w' Hr Hx E) as Hr'.
      eexists [Discarded x], _. split; [|split; [done|split; [|by rewrite filter_cons_True]]];
        [|by apply tracks_same; [by eapply discard_same_input|]].
      econstructor; [constructor; rewrite (rel_last _ _ _ Hr); lia|constructor].
    + intros r. apply silent_failed. auto with obeys.
    + intros r w' l _ ->. apply emits_thread; [auto with obeys|]. apply yields_release. right. by exists x.
  - by apply emits_claim.
Qed.

(** *** After [poll] *)

(** The output side keeps its last number and its owner. *)
Definition same_last (w w' : world) : Prop :=
  out_request (w_out w') = out_request (w_out w) ∧
  out_return_socket (w_out w') = out_return_socket (w_out w).

#[local] Instance same_last_preorder : PreOrder same_last.
Proof. split; unfold same_last; [by intros ?|intros ??? [] []; split; congruence]. Qed.

Lemma same_last_silent {A} (m : xM A) : obeys silent m → obeys same_last m.
Proof. intros Hm w a w' E. destruct (Hm w a w' E) as (_ & ? & ? & _). by split. Qed.

Lemma conn_io_last revents v : obeys same_last (conn_io revents v).
Proof.
  unfold conn_io. assert (obeys same_last _xcb_in_read).
  { intros w a w' E. unfold same_last. by rewrite (side_out _ _ (obeys_in_read _ _ _ E)). }
  assert (∀ v, obeys same_last (write_vec v)) by (intros; apply same_last_silent; auto with obeys).
  obeys_auto.
Qed.

Lemma emits_conn_io revents v w :
  (Z.land revents POLLIN = POLLIN → orderly_read w) → emits (λ _ l, l = []) (conn_io revents v) w.
Proof.
  intros Ho. unfold conn_io. apply (emits_bind (λ _ l, l = [])).
  - destruct (Z.eqb_spec (Z.land revents POLLIN) POLLIN) as [Hp|]; [by apply emits_in_read, Ho|].
    by apply emits_silent; [auto with obeys|].
  - intros r. assert (∀ v, obeys stays_failed (write_vec v)) by (intros; apply silent_failed; auto with obeys).
    obeys_auto.
  - intros r w1 l _ ->. apply emits_silent; [obeys_auto|done].
Qed.

Lemma emits_leave_poll revents v w :
  (Z.land revents POLLIN = POLLIN → orderly_read w) →
  emits (λ _ l, l = []) (leave_poll (Some revents) v) w.
Proof.
  intros Ho. unfold leave_poll. apply (emits_bind (λ _ l, l = [])); [by apply emits_conn_io| |].
  - intros r. obeys_auto.
  - intros r w1 l _ ->. apply emits_silent; [obeys_auto|done].
Qed.

(** What [leave_poll] leaves for the loop around it. *)
Lemma leave_poll_result revents v w r w' :
  leave_poll (Some revents) v w = Ret r w' →
  same_last w w' ∧ (r.1 = true ∨ has_error w' = true).
Proof.
  unfold leave_poll. intros (r1 & w1 & E1 & E)%bind_inv.
  assert (obeys silent (bind (when (bool_decide (is_Some v))
      (modify_out (λ o, set_out_writing (out_writing o - 1) o))) (λ _,
    bind (modify_in (λ i, set_in_reading (in_reading i - 1) i)) (λ _, ret r1)))) as Hs by obeys_auto.
  pose proof (Hs _ _ _ E) as (_ & Ho & Hown & _ & _ & Hf). apply conn_io_last in E1 as Hl.
  apply bind_inv in E as (? & ? & _ & E). apply bind_inv in E as (? & ? & _ & [= <- _]).
  split; [by transitivity w1|]. destruct r1.1 eqn:Er; [by left|right].
  apply Hf. by eapply fails_conn_io.
Qed.

Lemma emits_after_poll i c r w :
  io_call i c → call_fits c w → r.1 = true ∨ has_error w = true →
  emits (results_ok c) (after_poll i r) w.
Proof.
  intros Hi Hc Hr. destruct i as [v k|q e id|]; cbn [after_poll].
  - destruct r.1 eqn:Er; [by apply emits_out_send, going_on_fits|].
    apply emits_end_send; [by apply going_on_fits|]. by destruct Hr; [|right].
  - cbn in Hi. subst c. destruct Hc as (x & Hx). destruct r.1 eqn:Er; [by apply (emits_reply_loop x)|].
    apply emits_failed; [by destruct Hr|]. apply silent_failed. auto with obeys.
  - cbn in Hi. subst c. destruct r.1 eqn:Er; [apply emits_event_loop|].
    apply emits_failed; [by destruct Hr|]. apply silent_failed. auto with obeys.
Qed.

Lemma failed_after_poll i r : obeys stays_failed (after_poll i r).
Proof.
  pose proof failed_out_send. pose proof failed_end_send. pose proof failed_reply_loop.
  pose proof failed_event_loop.
  assert (∀ r res, obeys stays_failed (leave_reply r res)) by (intros; apply silent_failed; auto with obeys).
  assert (∀ r, obeys stays_failed (leave_event r)) by (intros; apply silent_failed; auto with obeys).
  destruct i; cbn [after_poll]; obeys_auto.
Qed.

(** ** A stretch *)

(** The thread is about to call [_xcb_in_read]. *)
Definition about_to_read (t : thread) (w : world) : Prop :=
  match t with
  | Threads.Polled (Some revents) _ => Z.land revents POLLIN = POLLIN
  | Entering CallPollForEvent => events (w_in w) = []
  | _ => False
  end.

(** When it reads, the packets are in order. *)
Definition reads_orderly (t : thread) (w : world) : Prop :=
  about_to_read t w → orderly_read (set_held [IoLock] w).

Lemma emits_again k c w :
  task_call k c → call_fits c w → emits (results_ok c) (again k) w.
Proof.
  intros Hk Hc. destruct k as [[v k|q e id|]|q k|a]; cbn [again]; cbn in Hk.
  - by apply emits_out_send, going_on_fits.
  - subst c. destruct Hc as (x & Hx). by apply (emits_reply_loop x).
  - subst c. apply emits_event_loop.
  - by apply emits_flush_loop, going_on_fits.
  - subst c. by apply emits_claim.
Qed.

Lemma call_fits_request c w w' :
  call_fits c w → same_last w w' → call_fits c w'.
Proof.
  intros Hc [Ho Hs]. destruct c; cbn in *; unfold asked, sendable in *; rewrite ?Ho, ?Hs; done.
Qed.

(** Locking [iolock] first. *)
Lemma emits_locked {A} (P : A → list label → Prop) m w :
  held w = [] → emits P m (set_held [IoLock] w) →
  emits P (bind (pthread_mutex_lock IoLock) (λ _, m)) w.
Proof.
  intros Hh Hm mb a w' Hr E He. rewrite (bind_lock IoLock []) in E by (done || set_solver).
  eapply Hm; [|exact E|exact He]. eapply (rel_alike lo w); [|exact Hr].
  pose proof (rel_oom _ _ _ Hr). split_and!; try done.
  exists (readers (w_in w)), (in_reading (w_in w)). by destruct w as [? ? ? []].
Qed.

(** The next stretch of a thread that is executing [c]. *)
Lemma emits_resume t c w :
  held w = [] → thread_call t c → call_fits c w → reads_orderly t w →
  (∀ i, t = Threads.Polled None i → has_error w = true) →
  emits (results_ok c) (resume t) w.
Proof.
  intros Hh Ht Hc Ho Hnone. assert (call_fits c (set_held [IoLock] w)) as Hc' by done.
  destruct t as [c'|c'|cd k|k|i|[revents|] i|o]; cbn [resume]; cbn in Ht; try done.
  - subst c'. apply emits_bind_silent; [auto with obeys|]. intros e w1 E1 _. injection E1 as <- <-.
    destruct (has_error w) eqn:He; [by apply emits_failed; [|auto with obeys]|].
    destruct (trivial_call c) eqn:Et; (apply emits_silent; [auto with obeys|intros t w' [= <- _]]); [|done].
    destruct c as [| | | | |q|]; try done. cbn in Et. apply Z.eqb_eq in Et. by left.
  - destruct Ht as [-> Htr]. apply emits_locked; [done|]. apply emits_begin_call; [done..|].
    intros -> He. by apply Ho.
  - apply emits_silent; [auto with obeys|]. by intros t w' [= <- _].
  - apply emits_locked; [done|]. by apply emits_again.
  - apply emits_thread; [obeys_auto|]. apply yields_bind. intros r. by apply yields_ret.
  - apply emits_locked; [done|].
    apply (emits_bind (λ _ l, l = [])); [by apply emits_leave_poll, Ho|apply failed_after_poll|].
    intros r w1 l E ->. pose proof (leave_poll_result _ _ _ _ _ E) as [Hq Hr].
    apply emits_after_poll; [done| |done]. by eapply call_fits_request.
  - apply emits_failed; [by eapply Hnone|]. pose proof failed_after_poll.
    assert (obeys stays_failed (pthread_mutex_lock IoLock)) by (apply silent_failed; auto with obeys).
    assert (∀ v, obeys stays_failed (leave_poll None v)) by (intros; unfold leave_poll; obeys_auto).
    obeys_auto.
Qed.
End Emits.
