(* ===== verification/ThreadReplies.v ===== *)
(** * Replies under every interleaving

    The steps of the threads that share a connection, put together: the input
    side is a mailbox for all of them, and every call has done its own operation
    on it once. *)
From S2P Require Import Prelude Effects Seq XcbMap State In InFrame InFacts Demux Conn Chunks.
From S2P Require Import Out OutFacts OutProps Wait Request RequestFacts Pending Threads ThreadFacts ThreadInv.
From S2P Require Import ThreadsProps ThreadStream PublicProps Mailbox MailboxProps Delivery StreamLog.
From S2P Require Import ThreadReads ThreadMail Sample.
From stdpp Require Import functions list.
#[local] Open Scope Z_scope.

(** ** The log *)

(** The operations of thread [n] in a log of who has done what. *)
Definition own (n : nat) (log : list (nat * label)) : list label :=
  filter is_result (filter (λ e, e.1 = n) log).*2.

Lemma own_app n l1 l2 : own n (l1 ++ l2) = own n l1 ++ own n l2.
Proof. unfold own. by rewrite filter_app, fmap_app, filter_app. Qed.

Lemma own_by n m ls : own n ((m,.) <$> ls) = if decide (m = n) then filter is_result ls else [].
Proof.
  unfold own. induction ls as [|l ls IH]; [by destruct (decide _)|]. rewrite fmap_cons.
  destruct (decide (m = n)) as [->|Hne].
  - rewrite filter_cons_True, fmap_cons by done. change ((n, l).2) with l.
    destruct (decide (is_result l)).
    + by rewrite !filter_cons_True, IH.
    + by rewrite !filter_cons_False, IH.
  - by rewrite filter_cons_False.
Qed.

Lemma log_labels (n : nat) (ls : list label) : ((n,.) <$> ls).*2 = ls.
Proof. induction ls as [|l ls IH]; [done|]. cbn. by rewrite IH. Qed.

Section Replies.
Context `{Host} `{XProto} (lo : Z).

(** ** Steps on a server that keeps to the protocol *)

Inductive orderly_step : system → system → Prop :=
  | orderly_run n t t' w w' ts ts' :
      ts !! n = Some t → runnable t = true → reads_orderly t w → resume t w = Ret t' w' →
      notified (signals w w') ts ts' →
      orderly_step (System w ts) (System w' (<[n := t']> ts'))
  | orderly_spurious n c k w ts :
      ts !! n = Some (Asleep c k) →
      orderly_step (System w ts) (System w (<[n := Woken k]> ts)).

Lemma orderly_step_step s s' : orderly_step s s' → step s s'.
Proof. by destruct 1; econstructor. Qed.

(** What the calls of the threads may name when the threads start. *)
Definition call_named (s : system) (c : call) : Prop :=
  match c with
  | CallWaitForReply q _ | CallPollForReply q _ => ∃ x, asked lo x q (shared s)
  | CallDiscardReply q => q = 0 ∨ ∃ x, asked lo x q (shared s)
  | CallSend a => sa_workaround a ≠ WORKAROUND_EXTERNAL_SOCKET_OWNER
  | _ => True
  end.

(** ** The invariant *)

Context (s0 : system) (m0 : mailbox).

Record mailed (s : system) (log : list (nat * label)) (m : mailbox) : Prop := {
  ml_run : mrun m0 log.*2 m;
  ml_rel : Rel lo (shared s) m;
  ml_stream : tracks (shared s0) log.*2 (shared s);
  ml_last : last_request s0 <= last_request s;
  ml_threads : length (threads s) = length (threads s0);
  ml_results : ∀ n c t, threads s0 !! n = Some (Calling c) → threads s !! n = Some t →
    results_ok c t (own n log)
}.

Lemma results_wakes c t t' l : wakes_up t t' → results_ok c t l → results_ok c t' l.
Proof. by intros [->|(cd & k & -> & ->)]. Qed.

Context (Hcalls : ∀ t, t ∈ threads s0 → ∃ c, t = Calling c ∧ call_named s0 c).

Lemma mailed_init : Rel lo (shared s0) m0 → mailed s0 [] m0.
Proof.
  intros Hr. split; try done; [constructor|by apply tracks_same|]. intros n c t E1 E2.
  assert (t = Calling c) as -> by congruence. done.
Qed.

Lemma named_fits s c :
  call_named s0 c → last_request s0 <= last_request s →
  out_return_socket (w_out (shared s)) = None → last_request s < 2 ^ 62 →
  last_request s + 2 - lo < 2 ^ 31 - 1 → call_fits lo c (shared s).
Proof.
  unfold last_request. intros Hn Hl Ho Hm Hb. destruct c; cbn in *; unfold asked, sendable in *; try done.
  - destruct Hn as (x & ? & ? & ?). exists x. split_and!; [done..|lia|lia].
  - destruct Hn as (x & ? & ? & ?). exists x. split_and!; [done..|lia|lia].
  - destruct Hn as [?|(x & ? & ? & ?)]; [by left|right]. exists x. split_and!; [done..|lia|lia].
  - split_and!; [done..|lia].
Qed.

Context (Hi : sys_init lo s0).

Lemma mailed_run w ts n t t' w' ts' log m :
  let s := System w ts in
  sys_ok lo s → mailed s log m → ts !! n = Some t → runnable t = true → reads_orderly t w →
  resume t w = Ret t' w' → notified (signals w w') ts ts' →
  has_error w' = false → out_request (w_out w) + 2 - lo < 2 ^ 31 - 1 →
  out_request (w_out w) <= out_request (w_out w') →
  ∃ log' m', mailed (System w' (<[n := t']> ts')) log' m'.
Proof.
  intros s Hok [Hrun Hrel Hstr Hlast Hlen Hres] Ht Hr Ho E Hn He Hb Hmono.
  destruct (sys_ok_resume lo s n t Hok Ht Hr) as (o & tl & Hoo & Hrest & _).
  assert (n < length (threads s0))%nat as Hn0 by (rewrite <- Hlen; by eapply lookup_lt_Some).
  apply lookup_lt_is_Some in Hn0 as (t0 & Ht0).
  destruct (Hcalls t0) as (c & -> & Hc); [by eapply list_elem_of_lookup_2|].
  pose proof (Hres n c t Ht0 Ht) as Hrt.
  assert (thread_call t c ∧ own n log = []) as [Htc Hown] by by destruct t.
  pose proof (rl_output _ _ _ _ _ _ _ _ Hrest) as [_ Hroom _ Hsock].
  pose proof (oo_unsent _ Hoo). pose proof (unsent_range t).
  assert (call_fits lo c w) as Hfits.
  { apply (named_fits s); [done|done|exact Hsock| |exact Hb]. unfold last_request. cbn in Hroom |- *. lia. }
  destruct (emits_resume lo t c w (rl_held _ _ _ _ _ _ _ _ Hrest) Htc Hfits Ho) with m t' w'
    as (ls & m' & Hm' & Hrel' & Hstr' & Hres'); [|done..|].
  { intros i ->. pose proof (rl_thread _ _ _ _ _ _ _ _ Hrest) as [_ Hx]. by destruct i. }
  pose proof (notified_wakes _ _ _ Hn) as Hw. pose proof (Forall2_length _ _ _ Hw) as Hl.
  exists (log ++ ((n,.) <$> ls)), m'. split.
  - rewrite fmap_app, log_labels. by eapply mrun_app.
  - done.
  - rewrite fmap_app, log_labels. by eapply tracks_trans.
  - unfold last_request in *. cbn in *. lia.
  - cbn in *. rewrite length_insert. lia.
  - intros k c' t2 E1 E2. rewrite own_app, own_by. cbn in E2. destruct (decide (n = k)) as [<-|Hne].
    + rewrite list_lookup_insert_eq in E2 by (rewrite <- Hl; by eapply lookup_lt_Some).
      injection E2 as <-. assert (c' = c) as -> by congruence. by rewrite Hown.
    + rewrite list_lookup_insert_ne in E2 by done. rewrite app_nil_r.
      destruct (Forall2_lookup_r _ _ _ _ _ Hw E2) as (t1 & Ht1 & Hwk).
      eapply results_wakes; [exact Hwk|]. by apply Hres.
Qed.

Lemma mailed_spurious w ts n cd k log m :
  mailed (System w ts) log m → ts !! n = Some (Asleep cd k) →
  mailed (System w (<[n := Woken k]> ts)) log m.
Proof.
  intros [Hrun Hrel Hstr Hlast Hlen Hres] Ht. split; try done; [by cbn; rewrite length_insert|].
  intros j c t2 E1 E2. destruct (Forall2_lookup_r _ _ _ _ _ (spurious_wakes _ _ _ k Ht) E2) as (t1 & Ht1 & Hwk).
  eapply results_wakes; [exact Hwk|]. by apply Hres.
Qed.

(** The last number and the error flag only go up. *)
Lemma step_grows s s' :
  sys_ok lo s → step s s' →
  last_request s <= last_request s' ∧ (has_error (shared s) = true → has_error (shared s') = true).
Proof.
  intros Hok Hst. destruct Hst as [n t t' w w' ts ts1 Ht Hr E Hn|]; [|done].
  destruct (run_effect lo _ _ _ _ _ _ _ Hok Ht Hr E Hn) as (He & _ & Hq & _). split; [|done].
  unfold last_request. cbn. rewrite Hq. unfold last_number.
  destruct (submits t w) as [a|] eqn:Ea; [|done].
  pose proof (submit_number a _ (submits_idle _ _ _ Ea)). lia.
Qed.

Lemma mailed_steps s :
  Rel lo (shared s0) m0 → rtc orderly_step s0 s → has_error (shared s) = false →
  last_request s + 2 - lo < 2 ^ 31 - 1 → sys_ok lo s ∧ ∃ log m, mailed s log m.
Proof.
  intros Hr Hst. revert s Hst. apply (rtc_ind_r (λ s, has_error (shared s) = false →
    last_request s + 2 - lo < 2 ^ 31 - 1 → sys_ok lo s ∧ ∃ log m, mailed s log m)).
  { intros _ _. split; [by apply sys_init_ok|]. exists [], m0. by apply mailed_init. }
  intros s1 s2 Hst1 Hst IH He Hb.
  assert (sys_ok lo s1) as Hok.
  { eapply sys_ok_steps; [by apply sys_init_ok|]. eapply rtc_subrel; [|exact Hst1].
    intros ? ?. apply orderly_step_step. }
  pose proof (step_grows s1 s2 Hok (orderly_step_step _ _ Hst)) as [Hg Hf].
  assert (has_error (shared s1) = false) as He1.
  { destruct (has_error (shared s1)) eqn:Hx; [|done]. by rewrite Hf in He. }
  destruct (IH He1 ltac:(lia)) as (_ & log & m & Hm).
  split; [eapply sys_ok_step; [exact Hok|by apply orderly_step_step]|].
  destruct Hst as [n t t' w w' ts ts1 Ht Hrun Ho E Hn|n cd k w ts Ht].
  - unfold last_request in *. cbn in *. eapply mailed_run; try done; lia.
  - exists log, m. by eapply mailed_spurious.
Qed.
End Replies.

(** C5. The replies under every interleaving.  Any number of threads share a
    connection whose socket nobody else owns; the requests they wait for, poll for
    or discard have been sent when they start, and the server answers what it has
    been asked by the time the library reads it.  However the threads interleave,
    and whatever else they flush and send, the bytes taken off the server's stream
    are a sequence [ps] of whole packets, and the input side makes one run of the
    mailbox: the packets of its log are [ps], in order, each under the number
    that its 16 bits stand for and with the bytes the server sent; and every call
    that has returned has done exactly the operation it was made for (taken the
    answer, the event or nothing, or discarded its request), with what it returned
    for a result, and the others none.  So the replies that threads have taken for
    a request, and those still there, are those that were there and those among
    [ps] that the server has sent for it, each once and in order. *)
Theorem threads_refine_mailbox `{Host} `{XProto} lo s0 s m0 :
  sys_init lo s0 → (∀ t, t ∈ threads s0 → ∃ c, t = Calling c ∧ call_named lo s0 c) →
  Rel lo (shared s0) m0 → rtc orderly_step s0 s → has_error (shared s) = false →
  last_request s + 2 - lo < 2 ^ 31 - 1 →
  ∃ log m ps, mrun m0 log.*2 m ∧ Rel lo (shared s) m ∧
    input (shared s0) = concat ps ++ input (shared s) ∧ Forall framed ps ∧
    packets log.*2 = numbered (request_read (w_in (shared s0))) ps ∧
    (∀ n c t, threads s0 !! n = Some (Calling c) → threads s !! n = Some t →
      results_ok c t (own n log)) ∧
    ∀ x, lo <= x <= last_request s0 → Discarded x ∉ log.*2 →
      (∀ e r, Polled x e r ∈ log.*2 → e = true) →
      replies_taken x log.*2 ++ pending_for (w_in (shared s)) x =
        pending_for (w_in (shared s0)) x ++
        replies_got x (mb_flags m0 !! x) (numbered (request_read (w_in (shared s0))) ps).
Proof.
  intros Hi Hc Hr Hst He Hb.
  destruct (mailed_steps lo s0 m0 Hc Hi s Hr Hst He Hb) as
    (_ & log & m & [Hrun Hrel (ps & Hin & Hf & Hps & _) Hlast _ Hres]).
  exists log, m, ps. split_and!; [done..|]. intros x Hx Hd Hp. unfold last_request in *.
  rewrite <- (sim_pending_for lo _ (mb_demux m0) x (rel_sim _ _ _ Hr)) by lia.
  rewrite <- (sim_pending_for lo _ (mb_demux m) x (rel_sim _ _ _ Hrel)) by lia.
  rewrite <- Hps, replies_got_packets.
  apply mrun_replies; [done|rewrite (rel_last _ _ _ Hr); lia|done..].
Qed.

(** ** Checking a schedule *)

Section Schedules.
Context `{Host} `{XProto}.

(** The packets that [orderly] is about, one by one, answer the requests [ss]. *)
Fixpoint orderly_checked (fuel : nat) (ss : list Z) (w : world) : Prop :=
  match fuel with
  | O => True
  | S fuel' =>
      if zlength (in_queue (w_in w)) <? 32 then True else
      match ss with
      | [] => False
      | s :: ss' =>
          front_complete (whole w) ∧ answers (front_header w) (w_in w) s ∧
          s <= out_request (w_out w) ∧ request_completed (w_in w) < s ∧
          match read_packet w with Ret true w' => orderly_checked fuel' ss' w' | _ => False end
      end
  end.

Lemma orderly_checked_ok fuel ss w : orderly_checked fuel ss w → orderly fuel w.
Proof.
  revert ss w. induction fuel as [|fuel IH]; intros ss w Hc; [done|]. cbn [orderly orderly_checked] in *.
  intros Hq. destruct (Z.ltb_spec (zlength (in_queue (w_in w))) 32); [lia|].
  destruct ss as [|s ss]; [done|]. destruct Hc as (Hc & Ha & Hs & Hsane & Hn). split.
  - split; [done|]. by exists s.
  - intros w' E. rewrite E in Hn. by eapply IH.
Qed.

(** The stretches of a schedule read packets that answer the requests [ss]. *)
Fixpoint schedule_orderly (l : list nat) (ss : list (list Z)) (s : system) : Prop :=
  match l, ss with
  | n :: l', xs :: ss' =>
      match threads s !! n with
      | Some t =>
          match resume t (shared s) with
          | Ret t' w' =>
              (about_to_read t (shared s) →
               match recv (IN_QUEUE_SIZE - zlength (in_queue (w_in (shared s))))
                       (set_held [IoLock] (shared s)) with
               | Ret r w1 =>
                   let q := in_queue (w_in (shared s)) ++
                              match r with Received bs => bs | _ => [] end in
                   orderly_checked (S (length q)) xs (with_in_queue q w1)
               | _ => True
               end) ∧
              schedule_orderly l' ss' (System w' (<[n := t']> (threads s)))
          | _ => True
          end
      | None => True
      end
  | _, _ => True
  end.

Lemma run_schedule_orderly l ss s s' :
  run_schedule l s = Some s' → length ss = length l → schedule_orderly l ss s →
  rtc orderly_step s s'.
Proof.
  revert ss s. induction l as [|n l IH]; intros ss [w ts] E Hl Ho; cbn [run_schedule shared threads] in E.
  { injection E as <-. constructor. }
  destruct ss as [|xs ss]; [done|]. cbn [schedule_orderly shared threads] in Ho.
  destruct (ts !! n) as [t|] eqn:Ht; [|done].
  destruct (resume t w) as [t' w'| |] eqn:Er; [|done..]. destruct Ho as [Hr Ho].
  destruct (runnable t) eqn:Hrun; [|done]. cbn [andb] in E.
  destruct (undisturbed _ ts) eqn:Hu; [|done].
  eapply rtc_l; [|eapply IH; [exact E|by injection Hl|exact Ho]].
  eapply orderly_run; [done..| |done|by apply undisturbed_notified].
  intros Ha r w1 E1. apply Hr in Ha.
  change (in_queue (w_in (set_held [IoLock] w))) with (in_queue (w_in w)) in *. rewrite E1 in Ha. by apply (orderly_checked_ok _ xs).
Qed.
End Schedules.

(** ** The hypotheses can hold *)

Section Witnesses.
#[local] Existing Instances sample_host sample_proto.

(** Requests 1 and 2 have been sent.  Two threads wait for their replies, which
    arrive together and are both read by the thread that waits for the second. *)
Definition both_waiting : system :=
  System (sample_world (set_request_expected 2 (sample_in [])) (sample_out [] 2 2)
      (sample_os [RecvData (reply_packet 1 ++ reply_packet 2)] [PollReady POLLIN] []))
    [Calling (CallWaitForReply 1 true); Calling (CallWaitForReply 2 true)].

Definition both_schedule : list nat := [1; 0; 1; 1; 1; 0]%nat.
Definition both_answered : system := after_schedule both_schedule both_waiting.

Definition two_sent : mailbox := Mailbox 2 0 0 (λ _, []) [] ∅.

Lemma both_init : sys_init 0 both_waiting.
Proof.
  split; try done; cbn; try lia. repeat constructor; eexists; (split; [reflexivity|]); by vm_compute.
Qed.

Lemma both_named t :
  t ∈ threads both_waiting → ∃ c, t = Calling c ∧ call_named 0 both_waiting c.
Proof.
  intros [->|[->|[]%elem_of_nil]%elem_of_cons]%elem_of_cons; eexists; (split; [reflexivity|]).
  - exists 1. split_and!; [done|by vm_compute|lia|by vm_compute].
  - exists 2. split_and!; [done|by vm_compute|lia|by vm_compute].
Qed.

Lemma both_rel : Rel 0 (shared both_waiting) two_sent.
Proof.
  split; try done.
  - by apply (sample_sim (w_in (shared both_waiting))).
  - apply pending_wf_nil.
  - intros s b Hb. by apply not_elem_of_nil in Hb.
Qed.

Lemma both_orderly : rtc orderly_step both_waiting both_answered.
Proof.
  apply (run_schedule_orderly both_schedule [[]; []; []; []; [1; 2]; []]).
  - by vm_compute.
  - done.
  - vm_compute. repeat split; try done.
Qed.

Lemma threads_refine_mailbox_witness :
  threads both_answered =
    [Finished (OutReply (Some (reply_packet 1), None)); Finished (OutReply (Some (reply_packet 2), None))] ∧
  ∃ log m ps, mrun two_sent log.*2 m ∧ Rel 0 (shared both_answered) m ∧
    input (shared both_waiting) = concat ps ++ input (shared both_answered) ∧ Forall framed ps ∧
    packets log.*2 = numbered (request_read (w_in (shared both_waiting))) ps ∧
    (∀ n c t, threads both_waiting !! n = Some (Calling c) → threads both_answered !! n = Some t →
      results_ok c t (own n log)) ∧
    ∀ x, 0 <= x <= last_request both_waiting → Discarded x ∉ log.*2 →
      (∀ e r, Polled x e r ∈ log.*2 → e = true) →
      replies_taken x log.*2 ++ pending_for (w_in (shared both_answered)) x =
        pending_for (w_in (shared both_waiting)) x ++
        replies_got x (mb_flags two_sent !! x)
          (numbered (request_read (w_in (shared both_waiting))) ps).
Proof.
  split; [by vm_compute|].
  apply (threads_refine_mailbox 0 both_waiting both_answered two_sent both_init both_named both_rel
    both_orderly); by vm_compute.
Defined.
End Witnesses.
