(* ===== verification/Owners.v ===== *)
(** * Threads and owners of the socket

    The rest of Threads.v: threads that lend the write side of the socket to an
    owner ([xcb_take_socket]), owners that write with it ([xcb_writev]), and
    threads that want it back.  [get_socket_back] releases [iolock] while it
    waits for another thread that is getting the socket back, and while the
    owner's callback runs; [xcb_take_socket] releases it while it flushes.  The
    other calls are those of Threads.v. *)
From S2P Require Import Prelude Effects Seq State In Conn Out Wait Request Threads.
#[local] Open Scope Z_scope.

(** ** Calls and where they wait *)

(** The callbacks of the application: the calls of [xcb_writev] made by the callback
    [f] with its closure, a vector and a number of requests each. *)
Class Owners := {
  owner_writes : Z → Z → list (list (list byte) * Z)
}.

(** A call of [xcb_writev]. *)
Inductive writev_call :=
  | WvCalling (vector : list (list byte)) (requests : Z)   (** before the test of [has_error] *)
  | WvEntering (vector : list (list byte)) (requests : Z)  (** about to lock [iolock] *)
  | WvSending (t : thread).                                (** in [_xcb_out_send] *)

(** Who wants the socket back. *)
Inductive wanting :=
  | ToSend (a : send_args)
  | ToLend (return_socket closure fl : Z).

Inductive othread :=
  | Plain (t : thread)                                 (** as in Threads.v *)
  | Writing (v : writev_call)
  | TakeCalling (return_socket closure fl : Z)
  | TakeEntering (return_socket closure fl : Z)
  | TakeFlushing (t : thread) (return_socket closure fl : Z)
  | Taken (r : bool) (sent : option Z)
  | SocketAsleep (b : wanting)                         (** in [pthread_cond_wait] *)
  | SocketWoken (b : wanting)
  | InCallback (v : option writev_call) (todo : list (list (list byte) * Z)) (b : wanting).

Section Owners.
Context `{Host} `{XProto} `{Owners}.

(** ** The stretches under the lock *)

(** [xcb_writev], a stretch at a time.  It ends as [xcb_flush] does, with the result
    of [_xcb_out_send]. *)
Definition resume_writev (v : writev_call) : xM writev_call :=
  match v with
  | WvCalling vector requests =>
      e ← gets has_error;
      if e then ret (WvSending (Finished (OutBool false))) else ret (WvEntering vector requests)
  | WvEntering vector requests =>
      pthread_mutex_lock IoLock;;
      modify_out (λ o, set_out_request (u64 (out_request o + requests)) o);;
      t ← out_send vector ThenReturn;
      ret (WvSending t)
  | WvSending t => t' ← resume t; ret (WvSending t')
  end.

(** [xcb_take_socket] after a stretch of [_xcb_out_flush_to].  The flush ends with the
    lock released, as in [xcb_flush]; it is taken again before anybody else runs. *)
Definition take_flush (return_socket closure fl : Z) (m : xM thread) : xM othread :=
  t ← m;
  match t with
  | Finished (OutBool r) =>
      pthread_mutex_lock IoLock;;
      sent ← lend_socket return_socket closure fl r;
      pthread_mutex_unlock IoLock;;
      ret (Taken r sent)
  | _ => ret (TakeFlushing t return_socket closure fl)
  end.

(** What follows [get_socket_back]. *)
Definition have_socket (b : wanting) : xM othread :=
  match b with
  | ToSend a =>
      n ← number_request (sa_flags a) (sa_slots a) (sa_vector a) (sa_big a) (sa_workaround a)
            (sa_isvoid a);
      t ← write n.2.1 n.2.2 (ThenSent n.1);
      ret (Plain t)
  | ToLend return_socket closure fl =>
      request ← gets (out_request ∘ w_out);
      take_flush return_socket closure fl (flush_to request ThenReturn)
  end.

(** [get_socket_back], from the head of its loop to the call of the owner. *)
Definition get_back (b : wanting) : xM othread :=
  o ← gets w_out;
  if bool_decide (is_Some (out_return_socket o)) && out_socket_moving o then
    pthread_mutex_unlock IoLock;; ret (SocketAsleep b)
  else
    match out_return_socket o with
    | None => have_socket b
    | Some return_socket =>
        modify_out (set_out_socket_moving true);;
        pthread_mutex_unlock IoLock;;
        ret (InCallback None (owner_writes return_socket (out_socket_closure o)) b)
    end.

(** Its end, behind the call of the owner. *)
Definition called_back (b : wanting) : xM othread :=
  pthread_mutex_lock IoLock;;
  modify_out (set_out_socket_moving false);;
  pthread_cond_broadcast SocketCond;;
  modify_out (λ o, set_out_socket_closure 0 (set_out_return_socket None o));;
  _xcb_in_replies_done;;
  have_socket b.

(** [xcb_send_request], from the loop that waits for other writers on. *)
Definition claim_socket (a : send_args) : xM othread :=
  writing ← gets (out_writing ∘ w_out);
  if negb (writing =? 0)
  then pthread_mutex_unlock IoLock;; ret (Plain (Asleep OutCond (Claiming a)))
  else get_back (ToSend a).

(** ** Steps *)

Definition writev_over (v : writev_call) : bool :=
  match v with WvSending (Finished _) => true | _ => false end.

(** The next stretch of a thread. *)
Definition oresume (t : othread) : xM othread :=
  match t with
  | Plain (Entering (CallSend a)) | Plain (Woken (Claiming a)) =>
      pthread_mutex_lock IoLock;; claim_socket a
  | Plain t => t' ← resume t; ret (Plain t')
  | Writing v => v' ← resume_writev v; ret (Writing v')
  | TakeCalling return_socket closure fl =>
      e ← gets has_error;
      if e then ret (Taken false None) else ret (TakeEntering return_socket closure fl)
  | TakeEntering return_socket closure fl =>
      pthread_mutex_lock IoLock;; get_back (ToLend return_socket closure fl)
  | TakeFlushing t return_socket closure fl => take_flush return_socket closure fl (resume t)
  | SocketWoken b => pthread_mutex_lock IoLock;; get_back b
  | InCallback (Some v) todo b =>
      if writev_over v then ret (InCallback None todo b)
      else v' ← resume_writev v; ret (InCallback (Some v') todo b)
  | InCallback None ((vector, requests) :: todo) b =>
      ret (InCallback (Some (WvCalling vector requests)) todo b)
  | InCallback None [] b => called_back b
  | Taken _ _ | SocketAsleep _ => ret t
  end.

(** The thread of Threads.v a thread is running as. *)
Definition inner (t : othread) : option thread :=
  match t with
  | Plain t | Writing (WvSending t) | TakeFlushing t _ _ _ | InCallback (Some (WvSending t)) _ _ =>
      Some t
  | _ => None
  end.

Definition with_inner (t' : thread) (t : othread) : othread :=
  match t with
  | Plain _ => Plain t'
  | Writing (WvSending _) => Writing (WvSending t')
  | TakeFlushing _ return_socket closure fl => TakeFlushing t' return_socket closure fl
  | InCallback (Some (WvSending _)) todo b => InCallback (Some (WvSending t')) todo b
  | _ => t
  end.

(** The condition variable a thread sleeps on, and the thread once it is woken up. *)
Definition sleeps_on (t : othread) : option cond :=
  match t with
  | SocketAsleep _ => Some SocketCond
  | _ => match inner t with Some (Asleep c _) => Some c | _ => None end
  end.

Definition wake (t : othread) : othread :=
  match t with
  | SocketAsleep b => SocketWoken b
  | _ => match inner t with Some (Asleep _ k) => with_inner (Woken k) t | _ => t end
  end.

Definition over (t : othread) : bool :=
  match t with
  | Taken _ _ | Plain (Finished _) => true
  | Writing v => writev_over v
  | _ => false
  end.

Definition can_run (t : othread) : bool := negb (bool_decide (is_Some (sleeps_on t))) && negb (over t).

Record osystem := OSystem { oshared : world; othreads : list othread }.

(** As [notified] of Threads.v. *)
Record onotified (ss : list wakeup) (ts ts' : list othread) : Prop := {
  onotified_only : Forall2 (λ t t', t' = t ∨
    ∃ c, sleeps_on t = Some c ∧ t' = wake t ∧ (Signal c ∈ ss ∨ Broadcast c ∈ ss)) ts ts';
  onotified_signal : ∀ c n t, Signal c ∈ ss → ts !! n = Some t → sleeps_on t = Some c →
    ∃ n' t', ts !! n' = Some t' ∧ sleeps_on t' = Some c ∧ ts' !! n' = Some (wake t');
  onotified_broadcast : ∀ c n t, Broadcast c ∈ ss → ts !! n = Some t → sleeps_on t = Some c →
    ts' !! n = Some (wake t)
}.

Inductive ostep : osystem → osystem → Prop :=
  | ostep_run n t t' w w' ts ts' :
      ts !! n = Some t → can_run t = true → oresume t w = Ret t' w' →
      onotified (signals w w') ts ts' →
      ostep (OSystem w ts) (OSystem w' (<[n := t']> ts'))
  | ostep_spurious n t c w ts :
      ts !! n = Some t → sleeps_on t = Some c →
      ostep (OSystem w ts) (OSystem w (<[n := wake t]> ts)).

(** ** Executing a schedule *)

(** Every wakeup wakes up all that sleep on its condition. *)
Definition wake_all (ss : list wakeup) (t : othread) : othread :=
  match sleeps_on t with
  | Some c => if bool_decide (Signal c ∈ ss) || bool_decide (Broadcast c ∈ ss) then wake t else t
  | None => t
  end.

Fixpoint run_owners (l : list nat) (s : osystem) : option osystem :=
  match l with
  | [] => Some s
  | n :: l' =>
      match othreads s !! n with
      | None => None
      | Some t =>
          match oresume t (oshared s) with
          | Ret t' w' =>
              if can_run t
              then run_owners l' (OSystem w'
                     (<[n := t']> (wake_all (signals (oshared s) w') <$> othreads s)))
              else None
          | _ => None
          end
      end
  end.
End Owners.
