(* ===== verification/OwnersProps.v ===== *)
(** * What holds while owners have the socket

    Without owners the threads of Owners.v are those of Threads.v, so all that is
    proved about these holds for them.  With owners the callback is never run by
    two threads at once, and nobody who waits for it is forgotten; but two
    schedules show that the socket is not protected as it should be while
    [iolock] is released on the way. *)
From S2P Require Import Prelude Effects Seq XcbMap State In InFrame InFacts Conn Out OutFacts OutProps.
From S2P Require Import Wait WaitProps Request RequestFacts Threads ThreadFacts ThreadsProps ThreadStream Owners Sample.
#[local] Open Scope Z_scope.

(** ** What the stretches leave alone *)

(** The owner of the socket and whether it is being called back. *)
Definition same_owner (w w' : world) : Prop :=
  out_return_socket (w_out w') = out_return_socket (w_out w) ∧
  out_socket_moving (w_out w') = out_socket_moving (w_out w) ∧ grows w w'.

#[export] Instance same_owner_preorder : PreOrder same_owner.
Proof.
  split; unfold same_owner; [by intros w; split_and!|].
  intros w1 w2 w3 (? & ? & ?) (? & ? & ?). split_and!; [congruence..|by transitivity w2].
Qed.

Ltac owner_tac :=
  apply obeys_modify; intros; split_and!; [done..|]; unfold grows; cbn;
  first [by exists []; rewrite app_nil_r | by eexists].
#[export] Hint Extern 1 (obeys same_owner (modify _)) => owner_tac : obeys.
#[export] Hint Extern 1 (obeys same_owner (modify_in _)) => owner_tac : obeys.
#[export] Hint Extern 1 (obeys same_owner (modify_out _)) => owner_tac : obeys.
#[export] Hint Extern 1 (obeys same_owner (modify_os _)) => owner_tac : obeys.
#[export] Hint Extern 1 (obeys same_owner _xcb_conn_shutdown) => owner_tac : obeys.

(** Computations of the input side. *)
Lemma owner_input {A} (m : xM A) : obeys in_side m → obeys grows m → obeys same_owner m.
Proof.
  intros Hs Hg w a w' E. unfold same_owner. rewrite (side_out _ _ (Hs _ _ _ E)).
  split_and!; [done..|by eapply Hg].
Qed.

Section Frame.
Context `{Host} `{XProto}.

Lemma owner_poll_for_reply q e : obeys same_owner (poll_for_reply q e).
Proof. apply owner_input; [auto with obeys|apply grows_poll_for_reply]. Qed.
Lemma owner_get_event : obeys same_owner get_event.
Proof. apply owner_input; [auto with obeys|apply grows_get_event]. Qed.
Lemma owner_in_read : obeys same_owner _xcb_in_read.
Proof. apply owner_input; [auto with obeys|apply grows_in_read]. Qed.
Lemma owner_discard_reply q : obeys same_owner (discard_reply q).
Proof. apply owner_input; [auto with obeys|apply grows_discard_reply]. Qed.
Lemma owner_expect_reply q k f : obeys same_owner (_xcb_in_expect_reply q k f).
Proof. apply owner_input; [auto with obeys|apply grows_expect_reply]. Qed.
#[local] Hint Resolve owner_poll_for_reply owner_get_event owner_in_read : obeys.
#[local] Hint Resolve owner_discard_reply owner_expect_reply : obeys.

Lemma owner_lock l : obeys same_owner (pthread_mutex_lock l).
Proof.
  unfold pthread_mutex_lock. apply obeys_bind; [apply _|auto with obeys|]. intros h.
  destruct (decide _); auto with obeys.
Qed.
Lemma owner_unlock l : obeys same_owner (pthread_mutex_unlock l).
Proof.
  unfold pthread_mutex_unlock. apply obeys_bind; [apply _|auto with obeys|]. intros h.
  destruct (decide _); auto with obeys.
Qed.
#[local] Hint Resolve owner_lock owner_unlock : obeys.

Lemma owner_release t : obeys same_owner (release t).
Proof. unfold release. obeys_auto. Qed.
Lemma owner_wake_up : obeys same_owner _xcb_in_wake_up_next_reader.
Proof. unfold _xcb_in_wake_up_next_reader, pthread_cond_signal. obeys_auto. Qed.
Lemma owner_replies_done : obeys same_owner _xcb_in_replies_done.
Proof. unfold _xcb_in_replies_done. obeys_auto. Qed.
#[local] Hint Resolve owner_release owner_wake_up owner_replies_done : obeys.

Lemma owner_begin_wait c i : obeys same_owner (begin_wait c i).
Proof. unfold begin_wait, enter_poll. obeys_auto. Qed.
Lemma owner_leave_reply r res : obeys same_owner (leave_reply r res).
Proof. unfold leave_reply, end_reply. obeys_auto. Qed.
Lemma owner_leave_event r : obeys same_owner (leave_event r).
Proof. unfold leave_event. obeys_auto. Qed.
#[local] Hint Resolve owner_begin_wait owner_leave_reply owner_leave_event : obeys.

Lemma owner_reply_loop q e id : obeys same_owner (reply_loop q e id).
Proof. unfold reply_loop. obeys_auto. Qed.
#[local] Hint Resolve owner_reply_loop : obeys.
Lemma owner_enter_reply q e : obeys same_owner (enter_reply q e).
Proof. unfold enter_reply. obeys_auto. Qed.
Lemma owner_event_loop : obeys same_owner event_loop.
Proof. unfold event_loop. obeys_auto. Qed.
#[local] Hint Resolve owner_enter_reply owner_event_loop : obeys.

Lemma owner_continue k r : obeys same_owner (continue k r).
Proof. unfold continue, end_reply. obeys_auto. Qed.
#[local] Hint Resolve owner_continue : obeys.
Lemma owner_end_send k r : obeys same_owner (end_send k r).
Proof. unfold end_send, pthread_cond_broadcast. obeys_auto. Qed.
#[local] Hint Resolve owner_end_send : obeys.
Lemma owner_out_send v k : obeys same_owner (out_send v k).
Proof. unfold out_send. obeys_auto. Qed.
Lemma owner_flush_loop q k : obeys same_owner (flush_loop q k).
Proof. unfold flush_loop. obeys_auto. Qed.
#[local] Hint Resolve owner_out_send owner_flush_loop : obeys.
Lemma owner_flush_to q k : obeys same_owner (flush_to q k).
Proof. unfold flush_to. obeys_auto. Qed.
Lemma owner_fill_queue slots v : obeys same_owner (fill_queue slots v).
Proof. revert slots. induction v; intros slots; cbn [fill_queue]; obeys_auto. Qed.
#[local] Hint Resolve owner_flush_to owner_fill_queue : obeys.
Lemma owner_write slots v k : obeys same_owner (write slots v k).
Proof. unfold write. obeys_auto. Qed.
#[local] Hint Resolve owner_write : obeys.

Lemma owner_leave_poll ready v : obeys same_owner (leave_poll ready v).
Proof.
  assert (∀ n v, obeys same_owner (advance_iov n v)).
  { intros n u. revert n. induction u; intros n; simpl; obeys_auto. }
  unfold leave_poll, conn_io, write_vec, writev. cbv zeta. obeys_auto.
Qed.
Lemma owner_poll_socket v : obeys same_owner (poll_socket v).
Proof. unfold poll_socket, poll. cbv zeta. obeys_auto. Qed.
#[local] Hint Resolve owner_leave_poll owner_poll_socket : obeys.

(** Numbering a request while nobody has the socket. *)
Lemma owner_number_request fl slots vec big wk isvoid w n w' :
  out_return_socket (w_out w) = None →
  number_request fl slots vec big wk isvoid w = Ret n w' → same_owner w w'.
Proof.
  intros Hn E. unfold number_request in E.
  rewrite (bind_run _ _ _ _ _ (get_socket_back_none w Hn)) in E. revert E.
  match goal with |- ?m w = _ → _ => assert (obeys same_owner m) as Ho; [|by apply Ho] end.
  assert (∀ fuel isvoid q s, obeys same_owner (sync_loop fuel isvoid q s)).
  { induction fuel; intros; cbn [sync_loop]; obeys_auto. }
  assert (∀ slots s big v, obeys same_owner (add_prefix slots s big v)) by (intros; unfold add_prefix; obeys_auto).
  obeys_auto.
Qed.

(** The threads that are about to ask for the socket. *)
Definition claiming (t : thread) : option send_args :=
  match t with
  | Entering (CallSend a) | Woken (Claiming a) => Some a
  | _ => None
  end.

Lemma owner_resume t : claiming t = None → obeys same_owner (resume t).
Proof.
  intros Ht. assert (obeys same_owner poll_for_event) by (unfold poll_for_event; obeys_auto).
  destruct t as [c|[]|c k|[[]| |]|i|ready []|o]; try done;
    cbn [resume begin_call again after_poll]; obeys_auto.
Qed.

Lemma resume_claiming t a : claiming t = Some a → resume t = bind (pthread_mutex_lock IoLock) (λ _, claim a).
Proof. destruct t as [c|[]|c k|[| |]|i|ready i|o]; try done; by intros [= ->]. Qed.

Lemma owner_claim a w t w' :
  out_return_socket (w_out w) = None → claim a w = Ret t w' → same_owner w w'.
Proof.
  intros Hn E. unfold claim in E. rewrite bind_gets in E. unfold compose in E.
  destruct (negb _); [by apply owner_release in E|].
  apply bind_inv in E as (n & w1 & E1 & E). transitivity w1; [by eapply owner_number_request|].
  by apply owner_write in E.
Qed.

(** Without an owner there is none after a stretch either. *)
Lemma resume_same_owner t w t' w' :
  out_return_socket (w_out w) = None → resume t w = Ret t' w' → same_owner w w'.
Proof.
  intros Hn E. destruct (claiming t) as [a|] eqn:Ht; [|by apply (owner_resume t Ht) in E].
  rewrite (resume_claiming t a Ht) in E. apply bind_inv in E as ([] & w1 & E1 & E).
  apply owner_lock in E1. transitivity w1; [done|]. eapply owner_claim; [|exact E].
  destruct E1 as [-> _]. done.
Qed.
End Frame.

(** ** Without owners: the threads of Threads.v *)

Definition lift (s : system) : osystem := OSystem (shared s) (Plain <$> threads s).

Section Lift.
Context `{Host} `{XProto} `{Owners}.

Lemma sleeps_plain t : sleeps_on (Plain t) = match t with Asleep c _ => Some c | _ => None end.
Proof. done. Qed.

Lemma can_run_plain t : can_run (Plain t) = runnable t.
Proof. by destruct t. Qed.

Lemma claim_socket_alone a w :
  out_return_socket (w_out w) = None →
  claim_socket a w = bind (claim a) (λ t, ret (Plain t)) w.
Proof.
  intros Hn. unfold claim_socket, claim. rewrite bind_gets, bind_assoc, bind_gets. unfold compose.
  destruct (negb _).
  - unfold release. by rewrite bind_assoc.
  - unfold get_back. rewrite bind_gets, Hn. cbn [have_socket]. by rewrite bind_assoc.
Qed.

Lemma oresume_plain t w :
  out_return_socket (w_out w) = None → oresume (Plain t) w = bind (resume t) (λ t', ret (Plain t')) w.
Proof.
  intros Hn. destruct (claiming t) as [a|] eqn:Ht.
  - assert (oresume (Plain t) = bind (pthread_mutex_lock IoLock) (λ _, claim_socket a)) as ->.
    { destruct t as [c|[]|c k|[| |]|i|ready i|o]; try done; by injection Ht as ->. }
    rewrite (resume_claiming t a Ht), bind_assoc. unfold bind at 1 2.
    destruct (pthread_mutex_lock IoLock w) as [[] w1| |] eqn:E; [|done..].
    apply owner_lock in E as [E _]. apply claim_socket_alone. by rewrite E.
  - by destruct t as [c|[]|c k|[| |]|i|ready i|o].
Qed.

(** Wakeups do the same to the threads. *)
Lemma notified_lift ss ts ts' : notified ss ts ts' → onotified ss (Plain <$> ts) (Plain <$> ts').
Proof.
  intros [Hon Hsig Hbr]. split.
  - apply Forall2_fmap. eapply Forall2_impl; [exact Hon|]. cbn.
    intros t t' [->|(c & k & -> & -> & Hc)]; [by left|right]. by exists c.
  - intros c n t Hc Ht Hsl. rewrite list_lookup_fmap in Ht.
    destruct (ts !! n) as [u|] eqn:Hu; [|done]. injection Ht as <-.
    destruct u as [| |c' k| | | |]; try done. injection Hsl as ->.
    destruct (Hsig c n k Hc Hu) as (n' & k' & Hn' & Hw). exists n', (Plain (Asleep c k')).
    by rewrite !list_lookup_fmap, Hn', Hw.
  - intros c n t Hc Ht Hsl. rewrite list_lookup_fmap in Ht.
    destruct (ts !! n) as [u|] eqn:Hu; [|done]. injection Ht as <-.
    destruct u as [| |c' k| | | |]; try done. injection Hsl as ->.
    rewrite list_lookup_fmap, (Hbr c n k Hc Hu). done.
Qed.

Lemma onotified_lift ss ts us :
  onotified ss (Plain <$> ts) us → ∃ ts', us = Plain <$> ts' ∧ notified ss ts ts'.
Proof.
  intros [Hon Hsig Hbr].
  assert (∃ ts', us = Plain <$> ts' ∧ Forall2 (λ t t', t' = t ∨
    ∃ c k, t = Asleep c k ∧ t' = Woken k ∧ (Signal c ∈ ss ∨ Broadcast c ∈ ss)) ts ts') as (ts' & -> & Hon').
  { clear Hsig Hbr. apply Forall2_fmap_l in Hon. cbn in Hon. induction Hon as [|t u ts us Hu _ (ts' & -> & IH)].
    { exists []. by split; [|constructor]. }
    assert (∃ t', u = Plain t' ∧ (t' = t ∨
      ∃ c k, t = Asleep c k ∧ t' = Woken k ∧ (Signal c ∈ ss ∨ Broadcast c ∈ ss))) as (t' & -> & Ht').
    { destruct Hu as [->|(c & Hsl & -> & Hc)]; [by exists t; split; [|left]|].
      destruct t as [| |c' k| | | |]; try done. injection Hsl as ->. exists (Woken k).
      split; [done|]. right. by exists c, k. }
    exists (t' :: ts'). by split; [|constructor]. }
  exists ts'. split; [done|]. split; [done|..].
  - intros c n k Hc Hn. destruct (Hsig c n (Plain (Asleep c k)) Hc) as (n' & t' & Hn' & Hsl & Hw);
      [by rewrite list_lookup_fmap, Hn|done|].
    rewrite list_lookup_fmap in Hn', Hw. destruct (ts !! n') as [u|] eqn:Hu; [|done].
    injection Hn' as <-. destruct u as [| |c' k'| | | |]; try done. injection Hsl as ->.
    exists n', k'. split; [done|]. destruct (ts' !! n'); [|done]. cbn in Hw. by injection Hw as ->.
  - intros c n k Hc Hn.
    assert ((Plain <$> ts') !! n = Some (Plain (Woken k))) as Hw.
    { apply (Hbr c n (Plain (Asleep c k)) Hc); [by rewrite list_lookup_fmap, Hn|done]. }
    rewrite list_lookup_fmap in Hw. destruct (ts' !! n); [|done]. cbn in Hw. by injection Hw as ->.
Qed.

Lemma step_lift s s' :
  out_return_socket (w_out (shared s)) = None → step s s' →
  ostep (lift s) (lift s') ∧ out_return_socket (w_out (shared s')) = None.
Proof.
  intros Hn Hst. destruct Hst as [n t t' w w' ts ts' Ht Hr E Hw|n c k w ts Ht]; cbn in Hn.
  - pose proof (resume_same_owner t w t' w' Hn E) as (Ho & _). split; [|cbn; congruence].
    unfold lift. cbn. rewrite list_fmap_insert. apply (ostep_run n (Plain t)); [| | |by apply notified_lift].
    + by rewrite list_lookup_fmap, Ht.
    + by rewrite can_run_plain.
    + by rewrite oresume_plain, (bind_run _ _ _ _ _ E).
  - split; [|done]. unfold lift. cbn. rewrite list_fmap_insert.
    apply (ostep_spurious n (Plain (Asleep c k)) c); [|done]. by rewrite list_lookup_fmap, Ht.
Qed.

Lemma ostep_lift s o :
  out_return_socket (w_out (shared s)) = None → ostep (lift s) o → ∃ s', o = lift s' ∧ step s s'.
Proof.
  destruct s as [w0 ts0]. unfold lift. cbn. intros Hn Hst.
  inversion Hst as [n t t' w w' ts us Ht Hr E Hw|n t c w ts Ht Hsl]; subst;
    rewrite list_lookup_fmap in Ht; destruct (ts0 !! n) as [u|] eqn:Hu; try done; injection Ht as <-.
  - rewrite oresume_plain in E by done. apply bind_inv in E as (u' & w1 & E & [= <- <-]).
    apply onotified_lift in Hw as (ts' & -> & Hw). rewrite can_run_plain in Hr.
    exists (System w1 (<[n := u']> ts')). split; [cbn; by rewrite list_fmap_insert|].
    by apply (step_run n u u').
  - destruct u as [| |c' k| | | |]; try done. exists (System w0 (<[n := Woken k]> ts0)).
    split; [cbn; by rewrite list_fmap_insert|]. by apply (step_spurious n c').
Qed.

(** Owners.v extends Threads.v: as long as no thread lends the socket, the two step
    relations have the same runs, so whatever is proved about the threads of one
    is true of the other. *)
Theorem owners_extend_threads s o :
  out_return_socket (w_out (shared s)) = None →
  rtc ostep (lift s) o ↔ ∃ s', o = lift s' ∧ rtc step s s'.
Proof.
  intros Hn. split.
  - intros Hst. remember (lift s) as l eqn:Hl. revert s Hn Hl.
    induction Hst as [l|l1 l2 l3 Hst _ IH]; intros s Hn ->; [by exists s|].
    apply ostep_lift in Hst as (s1 & -> & Hst); [|done].
    destruct (IH s1) as (s' & -> & Hst'); [by apply (step_lift s s1)|done|].
    exists s'. by split; [|eapply rtc_l].
  - intros (s' & -> & Hst). revert Hn. induction Hst as [s|s1 s2 s3 Hst _ IH]; intros Hn; [done|].
    destruct (step_lift s1 s2 Hn Hst) as [Hst1 Hn2]. eapply rtc_l; [exact Hst1|by apply IH].
Qed.
End Lift.

(** ** The callback *)

Definition in_callback (t : othread) : bool :=
  match t with InCallback _ _ _ => true | _ => false end.
Definition waits_for_socket (t : othread) : bool :=
  match t with SocketAsleep _ => true | _ => false end.

Section Callback.
Context `{Host} `{XProto} `{Owners}.

(** The socket may be lent, but nobody begins or ends to get it back. *)
Definition keeps_moving (w w' : world) : Prop :=
  out_socket_moving (w_out w') = out_socket_moving (w_out w) ∧
  (is_Some (out_return_socket (w_out w)) → is_Some (out_return_socket (w_out w'))) ∧ grows w w'.

#[local] Instance keeps_moving_preorder : PreOrder keeps_moving.
Proof.
  split; unfold keeps_moving; [by intros w; split_and!|].
  intros w1 w2 w3 (? & ? & ?) (? & ? & ?). split_and!; [congruence|auto|by transitivity w2].
Qed.

Lemma same_keeps_moving w w' : same_owner w w' → keeps_moving w w'.
Proof. intros (Ho & Hm & Hg). split_and!; [done|by rewrite Ho|done]. Qed.

Lemma owner_keeps_moving {A} (m : xM A) : obeys same_owner m → obeys keeps_moving m.
Proof. intros Hm w a w' E. by eapply same_keeps_moving, Hm. Qed.

Lemma lend_keeps_moving cb closure fl r : obeys keeps_moving (lend_socket cb closure fl r).
Proof.
  assert (∀ q k f, obeys keeps_moving (_xcb_in_expect_reply q k f)).
  { intros. apply owner_keeps_moving, owner_expect_reply. }
  assert (obeys keeps_moving (modify_out (λ o, set_out_socket_closure closure
    (set_out_return_socket (Some cb) o)))).
  { apply obeys_modify. intros w. split_and!; [done|by intros _|]. exists []. by rewrite app_nil_r. }
  unfold lend_socket. obeys_auto.
Qed.

(** ** The threads inside [xcb_writev] and [xcb_take_socket] *)

Definition flush_task (k : task) : Prop :=
  match k with Io (Sending _ ThenReturn) | Flushing _ ThenReturn => True | _ => False end.
Definition flush_thread (t : thread) : Prop :=
  match t with
  | Asleep _ k | Woken k => flush_task k
  | Polling i | Polled _ i => flush_task (Io i)
  | Finished _ => True
  | _ => False
  end.
Definition writev_ok (v : writev_call) : Prop :=
  match v with WvSending t => flush_thread t | _ => True end.
Definition othread_ok (t : othread) : Prop :=
  match t with
  | Writing v | InCallback (Some v) _ _ => writev_ok v
  | TakeFlushing t _ _ _ => flush_thread t
  | _ => True
  end.

Ltac flush_auto := repeat first [solve [eauto] | yield_step]; try done.

Lemma flush_claims_not t : flush_thread t → claiming t = None.
Proof. by destruct t as [c|c|c k|[| |]|i|ready i|o]. Qed.

Lemma flush_out_send v : yields flush_thread (out_send v ThenReturn).
Proof. unfold out_send, end_send, continue. flush_auto. Qed.

Lemma flush_flush_loop q : yields flush_thread (flush_loop q ThenReturn).
Proof. unfold flush_loop, continue. flush_auto. Qed.

Lemma flush_flush_to q : yields flush_thread (flush_to q ThenReturn).
Proof.
  pose proof flush_out_send. pose proof flush_flush_loop. unfold flush_to, continue. flush_auto.
Qed.

Lemma flush_resume t : flush_thread t → yields flush_thread (resume t).
Proof.
  pose proof flush_out_send as Hs. pose proof flush_flush_loop as Hf.
  intros Ht. destruct t as [c|c|c k|k|i|ready i|o]; try done; cbn [resume].
  - apply yields_ret. exact Ht.
  - destruct k as [[v []| |]|q []|]; try done; cbn [again]; flush_auto.
  - flush_auto.
  - destruct i as [v []| |]; try done. cbn [after_poll]. unfold end_send, continue. flush_auto.
  - by apply yields_ret.
Qed.

(** ** The stretches around the callback *)

(** A thread that is neither in the callback nor waiting for the socket. *)
Definition elsewhere (t : othread) : Prop :=
  in_callback t = false ∧ waits_for_socket t = false ∧ othread_ok t.

Lemma take_flush_owner cb closure fl m w t w' :
  obeys same_owner m → yields flush_thread m → take_flush cb closure fl m w = Ret t w' → keeps_moving w w' ∧ elsewhere t.
Proof.
  intros Hm Hy E. unfold take_flush in E. apply bind_inv in E as (t1 & w1 & E1 & E).
  apply Hy in E1 as Hf. apply Hm in E1. apply same_keeps_moving in E1.
  assert (∀ r w', bind (pthread_mutex_lock IoLock) (λ _, bind (lend_socket cb closure fl r)
    (λ sent, bind (pthread_mutex_unlock IoLock) (λ _, ret (Taken r sent)))) w1 = Ret t w' →
    keeps_moving w1 w' ∧ elsewhere t) as Hend.
  { intros r w2 (u & w3 & E3 & E4)%bind_inv. apply bind_inv in E4 as (sent & w4 & E4 & E5).
    apply bind_inv in E5 as (u' & w5 & E5 & [= <- <-]). split; [|done].
    apply owner_lock in E3. apply owner_unlock in E5. apply lend_keeps_moving in E4.
    transitivity w3; [by apply same_keeps_moving|]. transitivity w4; [done|by apply same_keeps_moving]. }
  assert (ret (TakeFlushing t1 cb closure fl) w1 = Ret t w' → keeps_moving w1 w' ∧ elsewhere t) as Hgo
    by by intros [= <- <-].
  enough (keeps_moving w1 w' ∧ elsewhere t) as [? ?] by (split; [by transitivity w1|done]).
  destruct t1 as [| | | | | |[]]; eauto.
Qed.

Lemma have_socket_owner b w t w' :
  out_return_socket (w_out w) = None → have_socket b w = Ret t w' → keeps_moving w w' ∧ elsewhere t.
Proof.
  intros Hn E. destruct b as [a|cb closure fl]; cbn [have_socket] in E.
  - apply bind_inv in E as (n & w1 & E1 & E). apply bind_inv in E as (u & w2 & E2 & [= <- <-]).
    split; [|done]. transitivity w1; apply same_keeps_moving; [by eapply owner_number_request|].
    by apply owner_write in E2.
  - rewrite bind_gets in E. by apply take_flush_owner in E; [|apply owner_flush_to|apply flush_flush_to].
Qed.

(** The steps of a thread around the callback. *)
Inductive callback_step (t t' : othread) (w w' : world) : Prop :=
  | cb_none : in_callback t' = in_callback t → othread_ok t' → keeps_moving w w' →
      (waits_for_socket t' = true → out_socket_moving (w_out w) = true) → callback_step t t' w w'
  | cb_begin : in_callback t = false → in_callback t' = true → othread_ok t' →
      out_socket_moving (w_out w) = false → out_socket_moving (w_out w') = true →
      is_Some (out_return_socket (w_out w')) → callback_step t t' w w'
  | cb_end : in_callback t = true → elsewhere t' → out_socket_moving (w_out w') = false →
      Broadcast SocketCond ∈ signals w w' → callback_step t t' w w'.

Lemma get_back_owner b t w t' w' :
  (out_socket_moving (w_out w) = true → is_Some (out_return_socket (w_out w))) →
  in_callback t = false → get_back b w = Ret t' w' → callback_step t t' w w'.
Proof.
  intros Hok Ht E. unfold get_back in E. rewrite bind_gets in E.
  destruct (out_socket_moving (w_out w)) eqn:Hm.
  - rewrite bool_decide_eq_true_2 in E by auto. cbn [andb] in E.
    apply bind_inv in E as (u & w1 & E1 & [= <- <-]). apply owner_unlock in E1.
    apply cb_none; [by rewrite Ht|done|by apply same_keeps_moving|by intros _].
  - rewrite andb_false_r in E. destruct (out_return_socket (w_out w)) as [cb|] eqn:Ho.
    + unfold modify_out in E. rewrite bind_modify in E.
      apply bind_inv in E as (u & w1 & E1 & [= <- <-]). apply owner_unlock in E1 as (Eo & Em & _).
      cbn in Eo, Em. by apply cb_begin; rewrite ?Eo, ?Em, ?Ho.
    + apply have_socket_owner in E as [Hk (Hc & Hw & ?)]; [|done].
      apply cb_none; [congruence|done|done|congruence].
Qed.

Lemma signals_in s w w' ss1 ss2 :
  os_signals (w_os w') = os_signals (w_os w) ++ ss1 ++ s :: ss2 → s ∈ signals w w'.
Proof. unfold signals. intros ->. rewrite drop_app_length. set_solver. Qed.

Lemma called_back_owner b t w t' w' :
  in_callback t = true → called_back b w = Ret t' w' → callback_step t t' w w'.
Proof.
  intros Ht E. unfold called_back, modify_out, pthread_cond_broadcast, modify_os in E.
  apply bind_inv in E as (u & w1 & E1 & E). apply owner_lock in E1 as (_ & _ & [ss1 E1]).
  rewrite !bind_modify in E. apply bind_inv in E as (u' & w2 & E2 & E).
  apply owner_replies_done in E2 as (Ho2 & Hm2 & [ss2 E2]). cbn in Ho2, Hm2, E2.
  apply have_socket_owner in E as [(Hm & _ & [ss3 E3]) He]; [|done].
  apply cb_end; [done..|congruence|]. apply (signals_in _ _ _ ss1 (ss2 ++ ss3)).
  rewrite E3, E2, E1, <- !app_assoc. done.
Qed.

Lemma owner_resume_writev v w v' w' :
  writev_ok v → resume_writev v w = Ret v' w' → same_owner w w' ∧ writev_ok v'.
Proof.
  intros Hv E. destruct v as [vector n|vector n|t]; cbn [resume_writev] in E.
  - rewrite bind_gets in E. by destruct (has_error w); injection E as <- <-.
  - apply bind_inv in E as (u & w1 & E1 & E). unfold modify_out in E. rewrite bind_modify in E.
    apply bind_inv in E as (t & w2 & E2 & [= <- <-]). apply flush_out_send in E2 as Hf.
    apply owner_lock in E1. apply owner_out_send in E2. split; [|exact Hf].
    transitivity w1; [done|]. etransitivity; [|exact E2]. split_and!; [done..|].
    exists []. by rewrite app_nil_r.
  - apply bind_inv in E as (t' & w2 & E2 & [= <- <-]). apply (flush_resume t Hv) in E2 as Hf.
    apply (owner_resume t (flush_claims_not t Hv)) in E2. by split.
Qed.

(** ** A stretch *)

Lemma oresume_callback t w t' w' :
  (out_socket_moving (w_out w) = true → is_Some (out_return_socket (w_out w))) →
  othread_ok t → can_run t = true → oresume t w = Ret t' w' →
  callback_step t t' w w'.
Proof.
  intros Hok Ht Hr E.
  assert (∀ b t, in_callback t = false → bind (pthread_mutex_lock IoLock) (λ _, get_back b) w = Ret t' w' →
    callback_step t t' w w') as Hback.
  { intros b u Hu (x & w1 & E1 & E2)%bind_inv. apply owner_lock in E1 as (Ho & Hm & Hg).
    apply (get_back_owner b u) in E2; [|by rewrite Hm, Ho|done].
    destruct E2 as [? ? (Hm2 & Hk & Hg2) ?|? ? ? ? ? ?|]; [| |congruence].
    - apply cb_none; [done|done| |by rewrite <- Hm].
      split_and!; [congruence|by rewrite Ho in Hk|by transitivity w1].
    - apply cb_begin; congruence || done. }
  destruct t as [t|v|cb closure fl|cb closure fl|t cb closure fl|r sent|b|b|[v|] [|[vector n] todo] b];
    try done; cbn [oresume] in E.
  - destruct (claiming t) as [a|] eqn:Hc.
    + assert (bind (pthread_mutex_lock IoLock) (λ _, claim_socket a) w = Ret t' w') as E'.
      { destruct t as [c|[]|c k|[| |]|i|ready i|o]; try done; by injection Hc as <-. }
      apply bind_inv in E' as (x & w1 & E1 & E2). unfold claim_socket in E2.
      rewrite bind_gets in E2. unfold compose in E2. destruct (negb _).
      * apply bind_inv in E2 as (y & w2 & E2 & [= <- <-]).
        apply owner_lock in E1. apply owner_unlock in E2.
        apply cb_none; [done..| |done]. apply same_keeps_moving. by transitivity w1.
      * apply (Hback (ToSend a)); [done|]. by rewrite (bind_run _ _ _ _ _ E1).
    + assert (bind (resume t) (λ t', ret (Plain t')) w = Ret t' w') as E'.
      { by destruct t as [c|[]|c k|[| |]|i|ready i|o]. }
      apply bind_inv in E' as (u & w1 & E1 & [= <- <-]). apply (owner_resume t Hc) in E1.
      apply cb_none; [done..| |done]. by apply same_keeps_moving.
  - apply bind_inv in E as (v' & w1 & E1 & [= <- <-]).
    apply owner_resume_writev in E1 as [Ho Hv]; [|done].
    apply cb_none; [done|exact Hv|by apply same_keeps_moving|done].
  - rewrite bind_gets in E. destruct (has_error w); injection E as <- <-; by apply cb_none.
  - by apply (Hback (ToLend cb closure fl)).
  - apply take_flush_owner in E as [Hk (Hc & Hw & ?)];
      [|by apply owner_resume, flush_claims_not|by apply flush_resume].
    apply cb_none; [done..|congruence].
  - by apply (Hback b).
  - destruct (writev_over v); [injection E as <- <-; by apply cb_none|].
    apply bind_inv in E as (v' & w1 & E1 & [= <- <-]).
    apply owner_resume_writev in E1 as [Ho Hv]; [|done].
    apply cb_none; [done|exact Hv|by apply same_keeps_moving|done].
  - destruct (writev_over v); [injection E as <- <-; by apply cb_none|].
    apply bind_inv in E as (v' & w1 & E1 & [= <- <-]).
    apply owner_resume_writev in E1 as [Ho Hv]; [|done].
    apply cb_none; [done|exact Hv|by apply same_keeps_moving|done].
  - by apply (called_back_owner b (InCallback None [] b)).
  - injection E as <- <-. by apply cb_none.
Qed.

(** ** Every interleaving *)

(** One thread at most is getting the socket back; it is while [socket_moving] is set,
    and only then does anybody sleep until it has. *)
Record lending_ok (s : osystem) : Prop := {
  lo_owner : out_socket_moving (w_out (oshared s)) = true →
    is_Some (out_return_socket (w_out (oshared s)));
  lo_one : ∀ n m t u, othreads s !! n = Some t → othreads s !! m = Some u →
    in_callback t = true → in_callback u = true → n = m;
  lo_moving : out_socket_moving (w_out (oshared s)) = true ↔
    ∃ n t, othreads s !! n = Some t ∧ in_callback t = true;
  lo_asleep : ∀ n t, othreads s !! n = Some t → waits_for_socket t = true →
    out_socket_moving (w_out (oshared s)) = true;
  lo_threads : Forall othread_ok (othreads s)
}.

Lemma wake_ok t : othread_ok t → othread_ok (wake t).
Proof.
  destruct t as [t|[| |t]|cb closure fl|cb closure fl|t cb closure fl|r sent|b|b|[[| |t]|] todo b]; try done;
    by destruct t.
Qed.

Lemma wake_callback t : in_callback (wake t) = in_callback t ∧ waits_for_socket (wake t) = false.
Proof.
  destruct t as [t|[| |t]|cb closure fl|cb closure fl|t cb closure fl|r sent|b|b|[[| |t]|] todo b]; try done;
    by destruct t.
Qed.

(** The threads after the wakeups, one by one. *)
Lemma notified_lookup ss ts ts' n t' :
  onotified ss ts ts' → ts' !! n = Some t' →
  ∃ t, ts !! n = Some t ∧ in_callback t = in_callback t' ∧ (othread_ok t → othread_ok t') ∧
    (waits_for_socket t' = true → t' = t).
Proof.
  intros [Hon _ _] Ht. destruct (Forall2_lookup_r _ _ _ _ _ Hon Ht) as (t & Hn & Hor).
  exists t. split; [done|]. destruct Hor as [->|(c & _ & -> & _)]; [done|].
  destruct (wake_callback t) as [-> ->]. split_and!; [done|apply wake_ok|done].
Qed.

Lemma notified_callback ss ts ts' n t :
  onotified ss ts ts' → ts !! n = Some t → in_callback t = true →
  ∃ t', ts' !! n = Some t' ∧ in_callback t' = true.
Proof.
  intros [Hon _ _] Ht Hc. destruct (Forall2_lookup_l _ _ _ _ _ Hon Ht) as (t' & Hn & Hor).
  exists t'. split; [done|]. destruct Hor as [->|(c & _ & -> & _)]; [done|].
  by rewrite (proj1 (wake_callback t)).
Qed.

(** A thread after a step of thread [n], and where it comes from. *)
Lemma stepped_lookup ss ts ts' n t' m u :
  onotified ss ts ts' → <[n := t']> ts' !! m = Some u →
  m = n ∧ u = t' ∨ m ≠ n ∧ ts' !! m = Some u ∧ ∃ v, ts !! m = Some v ∧
    in_callback v = in_callback u ∧ (othread_ok v → othread_ok u) ∧ (waits_for_socket u = true → u = v).
Proof.
  intros Hno [(-> & -> & _)|[Hm Hu]]%list_lookup_insert_Some; [by left|right]. split_and!; [done..|].
  by destruct (notified_lookup _ _ _ _ _ Hno Hu) as (v & ? & ? & ? & ?); exists v.
Qed.

(** Nobody begins or ends to get the socket back. *)
Lemma lending_run_none w w' ts ts' n t t' ss :
  lending_ok (OSystem w ts) → ts !! n = Some t → onotified ss ts ts' →
  Forall othread_ok (<[n := t']> ts') → <[n := t']> ts' !! n = Some t' →
  in_callback t' = in_callback t → keeps_moving w w' →
  (waits_for_socket t' = true → out_socket_moving (w_out w) = true) →
  lending_ok (OSystem w' (<[n := t']> ts')).
Proof.
  intros [Hown Hone Hmov Hsl _] Ht Hno Hth' Hn' Hc (Hm & Hk & _) Hws. cbn in *.
  assert (∀ m u, <[n := t']> ts' !! m = Some u → in_callback u = true →
    ∃ v, ts !! m = Some v ∧ in_callback v = true) as Hback.
  { intros m u [[-> ->]|(_ & _ & v & Hv & E & _)]%(stepped_lookup _ _ _ _ _ _ _ Hno) C;
      [exists t|exists v]; split; congruence || done. }
  split; cbn; [intros ?; apply Hk, Hown; congruence| | | |done].
  - intros m1 m2 u1 u2 V1 V2 C1 C2.
    destruct (Hback _ _ V1 C1) as (v1 & ? & ?), (Hback _ _ V2 C2) as (v2 & ? & ?). by eapply Hone.
  - rewrite Hm, Hmov. split.
    + intros (m & v & Hv & C). destruct (decide (m = n)) as [->|Hmn].
      { exists n, t'. split; [done|congruence]. }
      destruct (notified_callback _ _ _ _ _ Hno Hv C) as (u & ? & ?). exists m, u.
      by rewrite list_lookup_insert_ne.
    + intros (m & u & Hu & C). destruct (Hback _ _ Hu C) as (v & ? & ?). by exists m, v.
  - intros m u [[-> ->]|(_ & _ & v & Hv & _ & _ & Hw)]%(stepped_lookup _ _ _ _ _ _ _ Hno) Hu;
      rewrite Hm; [by apply Hws|]. rewrite (Hw Hu) in Hu. by eapply Hsl.
Qed.

(** The thread [n] has gone from [t] to [t'], and the others have been woken up. *)
Lemma lending_run w w' ts ts' n t t' :
  lending_ok (OSystem w ts) → ts !! n = Some t → callback_step t t' w w' →
  onotified (signals w w') ts ts' → lending_ok (OSystem w' (<[n := t']> ts')).
Proof.
  intros Hok Ht Hst Hno. pose proof Hok as [Hown Hone Hmov Hsl Hth]. cbn in *.
  assert (n < length ts')%nat as Hlt.
  { rewrite <- (Forall2_length _ _ _ (onotified_only _ _ _ Hno)). by eapply lookup_lt_Some. }
  assert (<[n := t']> ts' !! n = Some t') as Hn' by by apply list_lookup_insert_eq.
  pose proof (λ m u, stepped_lookup _ _ _ n t' m u Hno) as Hlook.
  assert (othread_ok t') as Hok' by by destruct Hst as [| |? (_ & _ & ?)].
  assert (Forall othread_ok (<[n := t']> ts')) as Hth'.
  { apply Forall_lookup. intros m u [[_ ->]|(_ & _ & v & Hv & _ & Hu & _)]%Hlook; [done|].
    apply Hu. by eapply (Forall_lookup_1 _ _ _ _ Hth). }
  destruct Hst as [Hc _ Hk Hws|Hc Hc' _ Hm Hm' Ho'|Hc (Hc' & Hw' & _) Hm' Hbr];
    [by eapply lending_run_none| |].
  - assert (∀ m v, ts !! m = Some v → in_callback v = false) as Hno1.
    { intros m v Hv. destruct (in_callback v) eqn:C; [|done].
      assert (out_socket_moving (w_out w) = true) by (apply Hmov; eauto). congruence. }
    split; cbn; [done| |split; [by exists n, t'|done]|by intros|done].
    intros m1 m2 u1 u2 [[-> ->]|(_ & _ & v1 & V1 & E1 & _)]%Hlook
      [[-> ->]|(_ & _ & v2 & V2 & E2 & _)]%Hlook C1 C2; [done|..];
      first [pose proof (Hno1 _ _ V1); congruence | pose proof (Hno1 _ _ V2); congruence].
  - assert (∀ m u, <[n := t']> ts' !! m = Some u → in_callback u = false) as Hno1.
    { intros m u [[-> ->]|(Hmn & _ & v & Hv & E & _)]%Hlook; [done|].
      destruct (in_callback u) eqn:C; [|done]. destruct Hmn. eapply Hone; [exact Hv|exact Ht|congruence..]. }
    split; cbn; [congruence| | | |done].
    + intros m1 m2 u1 u2 V1 _ C1. pose proof (Hno1 _ _ V1). congruence.
    + split; [congruence|]. intros (m & u & Hu & C). pose proof (Hno1 _ _ Hu). congruence.
    + intros m u [[-> ->]|(_ & Hu & v & Hv & _ & _ & Hw)]%Hlook C; [congruence|].
      pose proof (Hw C) as ->. destruct v as [| | | | | |b| |]; try done.
      by rewrite (onotified_broadcast _ _ _ Hno SocketCond m _ Hbr Hv eq_refl) in Hu.
Qed.

Lemma lending_step s s' : lending_ok s → ostep s s' → lending_ok s'.
Proof.
  intros Hok Hst. destruct Hst as [n t t' w w' ts ts' Ht Hr E Hno|n t c w ts Ht Hsl].
  - pose proof Hok as [Hown _ _ _ Hth]. cbn in *. eapply lending_run; [done|exact Ht| |exact Hno].
    apply oresume_callback; [done| |done|done]. by eapply (Forall_lookup_1 _ _ _ _ Hth).
  - assert (onotified (signals w w) ts ts) as Hno.
    { unfold signals. rewrite drop_all. split; [by apply Forall2_same_length_lookup_2; [|naive_solver]|set_solver..]. }
    pose proof Hok as [_ _ _ _ Hth]. eapply lending_run; [done|exact Ht| |exact Hno].
    destruct (wake_callback t) as [Hc Hw]. apply cb_none; [done| |reflexivity|congruence].
    apply wake_ok. by eapply (Forall_lookup_1 _ _ _ _ Hth).
Qed.

(** Threads about to make their calls, while nobody is getting the socket back. *)
Definition about_to_call (t : othread) : Prop :=
  match t with
  | Plain (Calling _) | Writing (WvCalling _ _) | TakeCalling _ _ _ => True
  | _ => False
  end.

(** C8. The callback of a socket owner.  Whatever threads send, flush, wait, lend the
    socket and write as owners, and in whatever order they run: at most one thread
    at a time runs the owner's callback, [socket_moving] is set exactly while one
    does, the owner is still registered then, and a thread sleeps for the socket
    only while there is such a thread, which will wake it up. *)
Theorem callback_is_exclusive s s' :
  out_socket_moving (w_out (oshared s)) = false → Forall about_to_call (othreads s) →
  rtc ostep s s' →
  (∀ n m t u, othreads s' !! n = Some t → othreads s' !! m = Some u →
     in_callback t = true → in_callback u = true → n = m) ∧
  (out_socket_moving (w_out (oshared s')) = true ↔ ∃ t, t ∈ othreads s' ∧ in_callback t = true) ∧
  (out_socket_moving (w_out (oshared s')) = true →
     is_Some (out_return_socket (w_out (oshared s')))) ∧
  ((∃ b, SocketAsleep b ∈ othreads s') → ∃ t, t ∈ othreads s' ∧ in_callback t = true).
Proof.
  intros Hm Hc Hst.
  assert (lending_ok s') as [Hown Hone Hmov Hsl _].
  { assert (lending_ok s) as Hok; [|clear Hm Hc; induction Hst; eauto using lending_step].
    assert (∀ n t, othreads s !! n = Some t → about_to_call t) as Hall by by apply Forall_lookup.
    split; [congruence|..].
    - intros n m t u Ht _ Ct. apply Hall in Ht. by destruct t.
    - rewrite Hm. split; [done|]. intros (n & t & Ht & Ct). apply Hall in Ht. by destruct t.
    - intros n t Ht Ct. apply Hall in Ht. by destruct t.
    - eapply Forall_impl; [exact Hc|]. by intros [|[]| | | | | | |]. }
  assert ((∃ n t, othreads s' !! n = Some t ∧ in_callback t = true) ↔
    ∃ t, t ∈ othreads s' ∧ in_callback t = true) as Hex by (setoid_rewrite list_elem_of_lookup; naive_solver).
  split_and!; [done|by rewrite Hmov|done|].
  intros (b & [n Hn]%list_elem_of_lookup). apply Hex, Hmov. by eapply Hsl.
Qed.
End Callback.

(** ** Schedules *)

Section Runs.
Context `{Host} `{XProto} `{Owners}.

Lemma wake_all_notified ss ts : onotified ss ts (wake_all ss <$> ts).
Proof.
  assert (∀ t c, sleeps_on t = Some c → Signal c ∈ ss ∨ Broadcast c ∈ ss → wake_all ss t = wake t) as Hw.
  { intros t c Ht Hc. unfold wake_all. rewrite Ht.
    destruct (bool_decide_reflect (Signal c ∈ ss)), (bool_decide_reflect (Broadcast c ∈ ss)); tauto. }
  split.
  - apply Forall2_same_length_lookup. split; [by rewrite length_fmap|].
    intros n t t' Ht Ht'. rewrite list_lookup_fmap, Ht in Ht'. injection Ht' as <-.
    unfold wake_all. destruct (sleeps_on t) as [c|] eqn:Hs; [|by left].
    destruct (bool_decide_reflect (Signal c ∈ ss)), (bool_decide_reflect (Broadcast c ∈ ss)); cbn;
      [right; exists c; auto..|by left].
  - intros c n t Hc Ht Hs. exists n, t. split_and!; [done..|]. rewrite list_lookup_fmap, Ht. cbn.
    by rewrite (Hw t c) by auto.
  - intros c n t Hc Ht Hs. rewrite list_lookup_fmap, Ht. cbn. by rewrite (Hw t c) by auto.
Qed.

Lemma run_owners_sound l s s' : run_owners l s = Some s' → rtc ostep s s'.
Proof.
  revert s. induction l as [|n l IH]; intros [w ts] E; [by injection E as ->|]. cbn in E.
  destruct (ts !! n) as [t|] eqn:Ht; [|done].
  destruct (oresume t w) as [t' w'| |] eqn:Er; [|done..].
  destruct (can_run t) eqn:Hr; [|done]. eapply rtc_l; [|by apply IH].
  eapply ostep_run; [done..|apply wake_all_notified].
Qed.
End Runs.

Section Schedules.
#[local] Existing Instances sample_host sample_proto.

(** Owners that have nothing left to write when they are called. *)
#[local] Instance idle_owners : Owners := {| owner_writes := λ _ _, [] |}.

Definition after_owners (l : list nat) (s : osystem) : osystem := default s (run_owners l s).

Lemma after_owners_run l s :
  match run_owners l s with Some _ => true | None => false end = true → rtc ostep s (after_owners l s).
Proof.
  unfold after_owners. destruct (run_owners l s) as [s'|] eqn:E; [|done].
  intros _. by apply (run_owners_sound l).
Qed.

(** A request whose body has [n] words. *)
Definition request_of (n : nat) : send_args :=
  SendArgs 0 2 [bytes_of [16; 0; Z.of_nat n + 1; 0]; replicate (4 * n) (byte_of 0)] 0 WORKAROUND_NONE true.

(** An owner has the socket.  Two threads send, one of them a request that does not fit
    the queue. *)
Definition overtaken : osystem :=
  OSystem (sample_world (sample_in [])
      (set_out_socket_closure 6 (set_out_return_socket (Some 5) (sample_out [] 1 1)))
      (sample_os [] [PollReady POLLOUT] []))
    [Plain (Calling (CallSend (request_of 4096))); Plain (Calling (CallSend (request_of 1)))].

Definition overtaken_end : osystem := after_owners [0;0;1;1;0;1;0]%nat overtaken.

(** C35. A thread that sends checks that nobody is writing before it asks for the socket
    back, not after: a thread that has slept until another one had the socket back
    queues its request while that other thread is still writing its own, and the
    assertion of [write_vec] that the queue is empty then fails. *)
Theorem sender_overtakes :
  Forall about_to_call (othreads overtaken) ∧ rtc ostep overtaken overtaken_end ∧
  (∃ v, othreads overtaken_end =
    [Plain (Polled (Some POLLOUT) (Sending v (ThenSent 2))); Plain (Finished (OutSequence 3))]) ∧
  out_writing (w_out (oshared overtaken_end)) = 1 ∧ out_queue (w_out (oshared overtaken_end)) ≠ [] ∧
  ∀ t, othreads overtaken_end !! 0%nat = Some t → oresume t (oshared overtaken_end) = Fault FAssert.
Proof.
  split; [by repeat constructor|]. split; [apply after_owners_run; by vm_compute|].
  split; [eexists; vm_compute; reflexivity|]. split; [by vm_compute|].
  split; [by vm_compute|]. intros t Ht.
  assert (match othreads overtaken_end !! 0%nat with
    | Some t => match oresume t (oshared overtaken_end) with Fault FAssert => true | _ => false end
    | None => false end = true) as E by by vm_compute.
  rewrite Ht in E. by destruct (oresume t _) as [| |[]].
Qed.

(** A request is queued, and two threads lend the socket to two owners. *)
Definition two_owners : osystem :=
  OSystem (sample_world (sample_in []) (sample_out (bytes_of [127; 0; 1; 0]) 1 0)
      (sample_os [] [PollReady POLLOUT] []))
    [TakeCalling 5 6 0; TakeCalling 7 8 0].

Definition two_owners_end : osystem := after_owners [0;0;1;1;0;0;1]%nat two_owners.

(** C36. The socket can be lent twice: [xcb_take_socket] asks for it back before it
    flushes, and flushing may release [iolock].  Two threads that do so at the same
    time are both told that they own the socket; only the second owner is
    registered, and the callback of the first is never run. *)
Theorem socket_lent_twice :
  Forall about_to_call (othreads two_owners) ∧ rtc ostep two_owners two_owners_end ∧
  othreads two_owners_end = [Taken true (Some 1); Taken true (Some 1)] ∧
  out_return_socket (w_out (oshared two_owners_end)) = Some 7 ∧
  out_socket_closure (w_out (oshared two_owners_end)) = 8 ∧
  ∀ s, ¬ ostep two_owners_end s.
Proof.
  split; [by repeat constructor|]. split; [apply after_owners_run; by vm_compute|].
  assert (othreads two_owners_end = [Taken true (Some 1); Taken true (Some 1)]) as Et by by vm_compute.
  split; [done|]. split; [by vm_compute|]. split; [by vm_compute|].
  intros s Hst. destruct two_owners_end as [w0 ts]. cbn in Et. subst ts.
  inversion Hst as [n t t' w w' ts ts' Ht Hrun E _|n t c w ts Ht Hsl]; subst;
    destruct n as [|[|]]; cbn in Ht; try done; by injection Ht as <-.
Qed.

(** The callback of the first thread is about to run while the second one sleeps. *)
Lemma callback_is_exclusive_witness :
  let s := after_owners [0;0;1;1]%nat overtaken in
  existsb in_callback (othreads s) = true ∧
  (∀ n m t u, othreads s !! n = Some t → othreads s !! m = Some u →
     in_callback t = true → in_callback u = true → n = m) ∧
  (out_socket_moving (w_out (oshared s)) = true ↔ ∃ t, t ∈ othreads s ∧ in_callback t = true) ∧
  (out_socket_moving (w_out (oshared s)) = true → is_Some (out_return_socket (w_out (oshared s)))) ∧
  ((∃ b, SocketAsleep b ∈ othreads s) → ∃ t, t ∈ othreads s ∧ in_callback t = true).
Proof.
  split; [by vm_compute|].
  apply (callback_is_exclusive overtaken); [done|by repeat constructor|].
  apply after_owners_run. by vm_compute.
Defined.

Lemma owners_extend_threads_witness :
  rtc ostep (lift stolen) (lift stolen_end) ↔ ∃ s', lift stolen_end = lift s' ∧ rtc step stolen s'.
Proof. apply (owners_extend_threads stolen (lift stolen_end)). reflexivity. Defined.
End Schedules.
